(* ===== verification/_CoqProject ===== *)
-Q . S2P
Prelude.v
MachineInt.v
Bytes.v
RangeSet.v
Net.v
Dhcp.v
Pci.v
E1000.v
E1000Props.v
Cpu.v
PhysMem.v
PageTable.v
PageTableGraph.v
PageTableInv.v
PageTableMap.v
BootMm.v
PageTableProps.v
KernelMm.v
PageTableFrame.v
KernelHeap.v
CoreLocals.v
Acpi.v
AcpiProps.v
Interrupts.v
IntStub.v
Apic.v
ApicProps.v
AcpiBoot.v
Serial.v
LockCell.v
CoreReqs.v
PeParser.v
Pxe.v
BootMain.v
BootTables.v
BootLoad.v
BootEntry.v
Panic.v
Mmio.v
Float64.v
Time.v
Print.v
BuildTool.v
KernelMain.v
