(* ===== verification/Prelude.v ===== *)
(** * Chocolate Milk: a verification development

    Chocolate Milk is a research kernel for x86_64 with its own BIOS/PXE
    bootloader, written in Rust.  A 32-bit bootloader collects free memory from
    the BIOS, downloads the kernel, builds page tables and enters 64-bit mode;
    the kernel sets up each core (core locals, interrupts, local APIC), finds PCI
    devices and the ACPI tables, starts the other cores and drives an Intel network
    card with a small UDP/DHCP stack; a panic stops all cores and ends in a soft
    reboot through the bootloader.  Both share the crates of src/shared.

    ** The model

    Rust functions are Rocq functions of the same name over explicit state.
    [outcome] (below) is the result of code that can panic; a [loop] without a
    structural bound takes fuel, and [OutOfFuel] is a result of its own: theorems
    show that the stated fuel is enough, so none holds by running out of it.
    Integers are kept at their width ([MachineInt]; release builds, so plain
    arithmetic wraps), memory is bytes by physical address ([PhysMem]), slices are
    lists with Rust's range checks ([Bytes]).  Concurrent code is a step relation
    over the atomic accesses, all of which are sequentially consistent in that
    code.  What is not Rust source (BIOS, processor, card, firmware tables,
    other cores' timing) is an argument or a typeclass with laws, each with a
    simulated instance on which the theorems are applied.

    ** Files, in dependency order, and what they show

    - [Prelude], [MachineInt], [Bytes]: outcomes, the tactics that take binds
      apart, termination; machine integers; slices and byte orders.
    - [RangeSet] (shared/rangeset): [insert] and [remove] are union and difference
      on sets of addresses, [allocate_prefer] gives out aligned free blocks,
      least padding first, and finds one whenever there is one.
    - [Net] (kernel/src/net.rs): checksums against RFC 1071, the parser against a
      grammar, parsing what was built, the queues of bound ports.  [Dhcp]
      (kernel/src/dhcp.rs): the options' round trip, the exchange of [get_lease]
      over any lawful driver, its completion.
    - [Pci] (kernel/src/pci.rs), [E1000], [E1000Props] (kernel/src/e1000.rs): the
      enumeration; the rings of the driver own each packet once and deliver
      frames in order.  The driver implements the [NetDriver] of [Net].
    - [Cpu] (shared/cpu): canonical addresses, MSR halves, CPUID features.
    - [PhysMem], [PageTable] (shared/page_table): the trait and the code.
      [PageTableGraph] is the abstract table, [PageTableInv] the refinement,
      [PageTableMap] whole operations, [PageTableProps] the theorems: [translate]
      is the MMU's walk, [map_raw] adds one page, [free] removes a run with the
      tables it empties, [map_init] is all or nothing.  [PageTableFrame]: state
      the operations cannot touch.
    - [BootMm] (bootloader/src/mm.rs): the free memory [init] computes from the
      BIOS map; its allocator is a lawful [PhysMem].
    - [KernelMm], [KernelHeap] (kernel/src/mm.rs): the free list kept inside
      free pages refines a stack, virtual ranges never overlap, allocations and
      [PhysContig] map and unmap what they should; again a lawful [PhysMem].
    - [CoreLocals] (kernel/src/core_locals.rs): interrupt nesting and the interrupt
      flag under any interleaving.
    - [Acpi], [AcpiProps], [AcpiBoot] (kernel/src/acpi.rs): the parsers terminate
      on any memory and read back any well-formed tables; no core passes the boot
      barrier early, and all get through.
    - [Interrupts] (kernel/src/interrupts.rs): the processor decodes from the GDT
      and the IDT what [init] meant; [interrupt_handler] on every branch.
      [IntStub]: the 256 assembly entry points are transparent, by a symbolic
      executor proved sound against the machine.
    - [Apic], [ApicProps] (kernel/src/apic.rs): teardown ends and undoes [init].
    - [LockCell] (shared/lockcell): mutual exclusion, atomicity, deadlock reports
      and progress of the ticket lock.
    - [CoreReqs] (shared/core_reqs): the C memory routines.
    - [PeParser] (shared/pe_parser, src/main.rs): accepted files and the flat
      image of the build tool.
    - [Serial] (shared/serial): the console over 8250 UARTs, byte for byte.
    - [Pxe] (bootloader/src/pxe.rs, realmode.rs): a download ends whatever the ROM
      answers, and over a lawful server it is the file.
    - [BootMain] (bootloader/src/main.rs, shared/boot_args): [entry] as the composition of
      [Serial], [BootMm], [Pxe], [PeParser] and [PageTable].  [BootTables]: lists
      of pages, the trampoline and the linear window.  [BootLoad]: sections and
      stacks, what [load_kernel] leaves in memory and in the tables, and that
      giving a core its stack keeps it.  [BootEntry]: the whole of [entry], on the
      first processor and on the later ones.
    - [Panic] (kernel/src/panic.rs): all processors from the first panic on, as a
      step relation: the first is alone when it reports and reboots, and it gets
      there unless there is a network card, whose [purge] panics again.
    - [Mmio] (kernel/src/e1000.rs): the registers of the card in virtual memory.
    - [Float64]: [f64] as executable binary64, and what each operation is worth.
      [Time] (kernel/src/time.rs): [calibrate] against an 8254 finds the rate of the
      counter, and [sleep] and [uptime] are right up to the error of that rate.
    - [Print] (kernel/src/print.rs, bootloader/src/panic.rs): [print!] on all cores
      and in exceptions, as a step relation over the bytes on the wire: messages
      and strings are whole, and nothing deadlocks.
    - [BuildTool] (src/main.rs): the build over an interface of files and commands:
      what a success has deployed, and that a failure deploys nothing.
    - [KernelMain] (kernel/src/main.rs): [entry] on one core, composed of [Time],
      [CoreLocals], [Interrupts], [Apic], [Pci] and [Acpi], up to the barrier of
      [AcpiBoot].

    ** Fuel and bounds

    [RangeSet]: the merge and subtraction passes take the number of entries of
    fuel, each round removes one.  [LockCell], [AcpiBoot], [CoreLocals], [Panic]:
    no fuel, any finite run.  [Acpi]: a table walk takes its length, entries being at least
    two bytes.  [Apic]: the interrupts in service, and outstanding.  [E1000] and
    [Dhcp]: the polls of the device until it answers.  [Serial]: the bytes pending
    and the polls until a port is ready.  [Pxe]: the packets of the size that was
    announced, one more than full ones.  [BootMain]: the attempts to download.
    [Time]: the ticks of the countdown, and of the wait, since every instruction
    takes at least one.  [Print]: no fuel but that of [Serial] for each byte.
    Counters that wrap (tickets, reference counts) are bounded by hypotheses where
    the code relies on it.

    ** Not modelled

    The strings that formatting produces, which are arguments of [Print]; the
    real-mode and mode-switch assembly (stage0.asm, asm_routines.asm), which is
    behind interfaces, the compiler's intrinsics, and single instructions of
    shared/cpu; nasm and cargo, which are the interface of [BuildTool].  The locks
    of the bootloader are left out, since it runs on one core at a time; so are
    those the kernel takes during [entry] around code of one core, but for the ones
    whose effect on the interrupt flag [KernelMain] follows. *)

From stdpp Require Import base tactics option list numbers strings.
From Stdlib Require Import ZArith Lia.

Local Open Scope Z_scope.

(** ** Outcomes of Rust code

    A Rust function of the kernel or the bootloader either returns, or panics
    ([assert!], [expect], [unwrap], an out-of-range index), or (in the model
    only) runs out of the fuel that bounds a [loop].  Both panic handlers never
    return, so a panic carries no state. *)

Inductive outcome (A : Type) : Type :=
| Done (a : A)
| Panic (msg : string)
| OutOfFuel.
Arguments Done {A} a.
Arguments Panic {A} msg.
Arguments OutOfFuel {A}.

#[export] Instance outcome_ret : MRet outcome := @Done.
#[export] Instance outcome_bind : MBind outcome := λ A B f m,
  match m with
  | Done a => f a
  | Panic msg => Panic msg
  | OutOfFuel => OutOfFuel
  end.
#[export] Instance outcome_fmap : FMap outcome := λ A B f m,
  match m with
  | Done a => Done (f a)
  | Panic msg => Panic msg
  | OutOfFuel => OutOfFuel
  end.

(** [assert!(b, msg)] *)
Definition assert (b : bool) (msg : string) : outcome unit :=
  if b then Done tt else Panic msg.

(** [o.expect(msg)] and [o.unwrap()] *)
Definition expect {A} (o : option A) (msg : string) : outcome A :=
  match o with Some a => Done a | None => Panic msg end.

Definition unwrap {A} (o : option A) : outcome A :=
  expect o "called `Option::unwrap()` on a `None` value".

(** [l[i]] on a slice: an index out of range panics. *)
Definition index {A} (l : list A) (i : nat) : outcome A :=
  expect (l !! i) "index out of bounds".

(** [l[i] = x] on a slice. *)
Definition index_set {A} (l : list A) (i : nat) (x : A) : outcome (list A) :=
  if decide (i < length l)%nat then Done (<[i := x]> l)
  else Panic "index out of bounds".

(** The [?] operator of a function that returns an [Option] and may panic. *)
Definition or_return {A B} (o : option A) (k : A → outcome (option B))
    : outcome (option B) :=
  match o with Some a => k a | None => Done None end.

Declare Scope rust_scope.
Delimit Scope rust_scope with rust.
Notation "x ←? o ; k" := (or_return o (λ x, k))
  (at level 20, o at level 100, k at level 200,
   format "x  ←?  o ;  '/' k") : rust_scope.
Notation "' x ←? o ; k" := (or_return o (λ x : _, match x with y => k end))
  (at level 20, x pattern, o at level 100, k at level 200, only parsing)
  : rust_scope.
#[global] Open Scope rust_scope.

Lemma bind_Done {A B} (m : outcome A) (f : A → outcome B) b :
  m ≫= f = Done b ↔ ∃ a, m = Done a ∧ f a = Done b.
Proof. destruct m; cbn; naive_solver. Qed.

Lemma bind_Done_l {A B} (a : A) (f : A → outcome B) : Done a ≫= f = f a.
Proof. done. Qed.

Lemma Done_inj {A} (a b : A) : Done a = Done b → a = b.
Proof. congruence. Qed.

Lemma Done_pair_inj {A B} (a c : A) (b d : B) : Done (a, b) = Done (c, d) → a = c ∧ b = d.
Proof. intros H. split; congruence. Qed.

Lemma assert_Done b msg u : assert b msg = Done u ↔ b = true.
Proof. unfold assert. destruct b, u; naive_solver. Qed.

Lemma expect_Done {A} (o : option A) msg a : expect o msg = Done a ↔ o = Some a.
Proof. destruct o; cbn; naive_solver. Qed.

Lemma unwrap_Done {A} (o : option A) a : unwrap o = Done a ↔ o = Some a.
Proof. apply expect_Done. Qed.

Lemma index_Done {A} (l : list A) i a : index l i = Done a ↔ l !! i = Some a.
Proof. apply expect_Done. Qed.

Lemma index_eq {A} (l : list A) i a : l !! i = Some a → index l i = Done a.
Proof. apply index_Done. Qed.

Lemma index_set_Done {A} (l l' : list A) i x :
  index_set l i x = Done l' ↔ (i < length l)%nat ∧ l' = <[i := x]> l.
Proof. unfold index_set. case_decide; naive_solver. Qed.

(** [no_panic m]: the code returns. *)
Definition returns {A} (m : outcome A) : Prop := ∃ a, m = Done a.

Lemma returns_bind {A B} (m : outcome A) (f : A → outcome B) :
  returns m → (∀ a, m = Done a → returns (f a)) → returns (m ≫= f).
Proof. intros [a ->] H. cbn. by apply H. Qed.

(** ** Postconditions *)

(** Whenever the code returns, its result has the property. *)
Definition post {A} (Q : A → Prop) (o : outcome A) : Prop := ∀ a, o = Done a → Q a.

Lemma post_Done {A} (Q : A → Prop) a : Q a → post Q (Done a).
Proof. by intros Ha b [= <-]. Qed.

Lemma post_bind {A B} (Q : B → Prop) (R : A → Prop) (m : outcome A) (f : A → outcome B) :
  post R m → (∀ a, R a → post Q (f a)) → post Q (m ≫= f).
Proof. intros Hm Hf b (a & Ha & Hb)%bind_Done. by apply (Hf a (Hm a Ha)). Qed.

Lemma post_any {A B} (Q : B → Prop) (m : outcome A) (f : A → outcome B) :
  (∀ a, post Q (f a)) → post Q (m ≫= f).
Proof. intros Hf b (a & _ & Hb)%bind_Done. by apply (Hf a). Qed.

Lemma post_Panic {A} (Q : A → Prop) msg : post Q (Panic msg).
Proof. by intros a. Qed.

Lemma post_OutOfFuel {A} (Q : A → Prop) : post Q OutOfFuel.
Proof. by intros a. Qed.

(** What the operations of a component keep. *)
Create HintDb frame discriminated.
#[export] Hint Resolve post_Done post_Panic post_OutOfFuel : frame.

(** ** Termination *)

(** The code returns or panics: no loop ran out of its fuel. *)
Definition terminates {A} (o : outcome A) : Prop := o ≠ OutOfFuel.

Lemma terminates_Done {A} (a : A) : terminates (Done a).
Proof. done. Qed.

Lemma terminates_Panic {A} msg : terminates (A := A) (Panic msg).
Proof. done. Qed.

Lemma terminates_bind {A B} (m : outcome A) (f : A → outcome B) :
  terminates m → (∀ a, m = Done a → terminates (f a)) → terminates (m ≫= f).
Proof. destruct m; cbn; [intros _ Hf; by apply Hf|done..]. Qed.

Lemma terminates_assert b msg : terminates (assert b msg).
Proof. by destruct b. Qed.

Lemma terminates_expect {A} (o : option A) msg : terminates (expect o msg).
Proof. by destruct o. Qed.

Lemma terminates_index_set {A} (l : list A) i x : terminates (index_set l i x).
Proof. unfold index_set. by destruct (decide _). Qed.

Create HintDb terminates discriminated.
#[export] Hint Resolve terminates_Done terminates_Panic terminates_assert terminates_expect
  terminates_index_set : terminates.

(** Straight-line code: each bind, each guard. *)
Ltac solve_terminates :=
  repeat match goal with
  | |- terminates (mbind _ _) => apply terminates_bind; [|intros]
  | |- terminates (match ?x with _ => _ end) => destruct x
  | |- _ => solve [auto with terminates]
  end.

(** The code returns or panics, and what it returns satisfies [Q]. *)
Definition total {A} (Q : A → Prop) (m : outcome A) : Prop := terminates m ∧ post Q m.

Lemma total_Done {A} (Q : A → Prop) a : Q a → total Q (Done a).
Proof. intros. split; [done|by apply post_Done]. Qed.

Lemma total_bind {A B} (Q : B → Prop) (m : outcome A) (f : A → outcome B) :
  terminates m → (∀ a, m = Done a → total Q (f a)) → total Q (m ≫= f).
Proof.
  intros Hm Hf. split; [by apply terminates_bind; [|intros a Ha; apply Hf]|].
  intros b (a & Ha & Hb)%bind_Done. by apply (Hf a Ha).
Qed.

(** The proof steps every component repeats: split a successful bind, read an
    [assert] or an index back as a fact, case on the next guard. *)
Ltac outcome_step :=
  match goal with
  | H : mbind _ _ = Done _ |- _ =>
      let a := fresh "a" in let E := fresh "E" in
      apply bind_Done in H as (a & E & H)
  | H : assert _ _ = Done _ |- _ => apply assert_Done in H
  | H : unwrap _ = Done _ |- _ => apply unwrap_Done in H
  | H : expect _ _ = Done _ |- _ => apply expect_Done in H
  | H : index _ _ = Done _ |- _ => apply index_Done in H
  | H : index_set _ _ _ = Done _ |- _ => apply index_set_Done in H as [? H]
  | H : Done _ = Done _ |- _ => injection H as H; simplify_eq
  | H : mret _ = Done _ |- _ => injection H as H; simplify_eq
  | H : Panic _ = Done _ |- _ => discriminate H
  | H : OutOfFuel = Done _ |- _ => discriminate H
  | a : unit |- _ => destruct a
  end.
Ltac outcome_inv := repeat (outcome_step; cbn beta iota in *).

(** Decide a closed decidable fact by evaluation. *)
Ltac by_decide := apply (bool_decide_unpack _); vm_compute; exact I.
