(* ===== verification/MachineInt.v ===== *)
(** * Machine integers

    Rust's unsigned integers of width [w] are integers of [Z] in [0, 2^w).
    This file has the operations of Rust's core library the sources use
    ([checked_add], [saturating_add], [wrapping_add], [count_ones], shifts and
    complements), written out at their width, and the lemmas the components
    share: when an operation does not overflow, masks as remainders, alignment. *)

From stdpp Require Import base tactics option list numbers.
From Stdlib Require Import ZArith Lia.
From S2P Require Import Prelude.

Local Open Scope Z_scope.

Definition is_uint (w z : Z) : Prop := 0 ≤ z < 2 ^ w.

#[export] Instance is_uint_dec w z : Decision (is_uint w z).
Proof. unfold is_uint. apply _. Defined.

(** [z as uN]: the low [w] bits.  Plain [+], [-], [*] and [<<] of the release
    build are this truncation of the exact result. *)
Definition wrap (w z : Z) : Z := z mod 2 ^ w.

Definition wrapping_add (w a b : Z) : Z := wrap w (a + b).
Definition wrapping_sub (w a b : Z) : Z := wrap w (a - b).
Definition wrapping_mul (w a b : Z) : Z := wrap w (a * b).
Definition shl (w a n : Z) : Z := wrap w (Z.shiftl a n).

Definition checked_add (w a b : Z) : option Z :=
  if a + b <? 2 ^ w then Some (a + b) else None.
Definition checked_sub (a b : Z) : option Z :=
  if b <=? a then Some (a - b) else None.
Definition checked_mul (w a b : Z) : option Z :=
  if a * b <? 2 ^ w then Some (a * b) else None.
Definition saturating_add (w a b : Z) : Z := Z.min (a + b) (2 ^ w - 1).
Definition saturating_sub (a b : Z) : Z := Z.max (a - b) 0.

(** [!a] at width [w]. *)
Definition bnot (w a : Z) : Z := Z.lxor a (Z.ones w).

(** [x.try_into::<uN>().ok()] *)
Definition try_into (w z : Z) : option Z :=
  if z <? 2 ^ w then Some z else None.

Fixpoint pos_count_ones (p : positive) : Z :=
  match p with
  | xH => 1
  | xO p => pos_count_ones p
  | xI p => 1 + pos_count_ones p
  end.

(** [a.count_ones()] *)
Definition count_ones (a : Z) : Z :=
  match a with Zpos p => pos_count_ones p | _ => 0 end.

(** Widths used throughout. *)
Abbreviation u8 := (is_uint 8).
Abbreviation u16 := (is_uint 16).
Abbreviation u32 := (is_uint 32).
Abbreviation u64 := (is_uint 64).
Definition u64_max : Z := 0xffffffffffffffff.

Lemma u64_max_pow : u64_max = 2 ^ 64 - 1.
Proof. reflexivity. Qed.

Lemma wrap_uint w z : 0 ≤ w → is_uint w (wrap w z).
Proof. intros. apply Z.mod_pos_bound. by apply Z.pow_pos_nonneg. Qed.

Lemma wrap_small w z : is_uint w z → wrap w z = z.
Proof. apply Z.mod_small. Qed.

Lemma wrapping_add_small w a b : is_uint w (a + b) → wrapping_add w a b = a + b.
Proof. apply wrap_small. Qed.

Lemma wrapping_sub_small w a b : is_uint w (a - b) → wrapping_sub w a b = a - b.
Proof. apply wrap_small. Qed.

Lemma checked_add_Some w a b c :
  checked_add w a b = Some c ↔ c = a + b ∧ a + b < 2 ^ w.
Proof.
  unfold checked_add. destruct (Z.ltb_spec (a + b) (2 ^ w)); naive_solver lia.
Qed.

Lemma checked_sub_Some a b c : checked_sub a b = Some c ↔ c = a - b ∧ b ≤ a.
Proof. unfold checked_sub. destruct (Z.leb_spec b a); naive_solver lia. Qed.

Lemma checked_mul_Some w a b c :
  checked_mul w a b = Some c ↔ c = a * b ∧ a * b < 2 ^ w.
Proof.
  unfold checked_mul. destruct (Z.ltb_spec (a * b) (2 ^ w)); naive_solver lia.
Qed.

Lemma try_into_Some w a c : try_into w a = Some c ↔ c = a ∧ a < 2 ^ w.
Proof. unfold try_into. destruct (Z.ltb_spec a (2 ^ w)); naive_solver lia. Qed.

(** ** Masks and shifts *)

Lemma land_mask_mod a k : 0 ≤ k → Z.land a (2 ^ k - 1) = a mod 2 ^ k.
Proof.
  intros. replace (2 ^ k - 1) with (Z.ones k) by (rewrite Z.ones_equiv; lia).
  by apply Z.land_ones.
Qed.

Lemma bnot_testbit w a i :
  0 ≤ i → 0 ≤ w → Z.testbit (bnot w a) i = xorb (Z.testbit a i) (i <? w).
Proof.
  intros. unfold bnot. rewrite Z.lxor_spec. f_equal.
  destruct (Z.ltb_spec i w).
  - by rewrite Z.ones_spec_low by lia.
  - by rewrite Z.ones_spec_high by lia.
Qed.

Lemma uint_testbit_high w a i : is_uint w a → w ≤ i → Z.testbit a i = false.
Proof.
  intros [Ha1 Ha2] Hi. destruct (Z.eq_dec a 0) as [->|Hne]; [apply Z.testbit_0_l|].
  apply Z.bits_above_log2; [lia|].
  apply Z.lt_le_trans with w; [|done]. apply Z.log2_lt_pow2; lia.
Qed.

Lemma uint_of_testbits w a :
  0 ≤ a → 0 ≤ w → (∀ i, w ≤ i → Z.testbit a i = false) → is_uint w a.
Proof.
  intros Ha Hw Hbits. split; [done|].
  destruct (Z.eq_dec a 0) as [->|Hne]; [apply Z.pow_pos_nonneg; lia|].
  apply Z.log2_lt_pow2; [lia|].
  destruct (Z.lt_ge_cases (Z.log2 a) w) as [|Hge]; [done|exfalso].
  assert (Z.testbit a (Z.log2 a) = true) by (apply Z.bit_log2; lia).
  rewrite Hbits in * by done. discriminate.
Qed.

Lemma land_bnot_ldiff w a m :
  0 ≤ w → is_uint w a → Z.land a (bnot w m) = Z.ldiff a m.
Proof.
  intros Hw Ha. apply Z.bits_inj'. intros i Hi.
  rewrite Z.land_spec, Z.ldiff_spec, bnot_testbit by lia.
  destruct (Z.ltb_spec i w).
  - by destruct (Z.testbit m i), (Z.testbit a i).
  - by rewrite (uint_testbit_high w a i) by (done || lia).
Qed.

(** Rounding down to a multiple of [2^k]. *)
Lemma ldiff_mask a k : 0 ≤ k → Z.ldiff a (2 ^ k - 1) = a - a mod 2 ^ k.
Proof.
  intros. replace (2 ^ k - 1) with (Z.ones k) by (rewrite Z.ones_equiv; lia).
  rewrite Z.ldiff_ones_r by done.
  rewrite Z.shiftl_mul_pow2, Z.shiftr_div_pow2 by done.
  pose proof (Z.div_mod a (2 ^ k)) as Hd.
  assert (2 ^ k ≠ 0) by (apply Z.pow_nonzero; lia). lia.
Qed.

Lemma align_down w a k :
  0 ≤ k → 0 ≤ w → is_uint w a →
  Z.land a (bnot w (2 ^ k - 1)) = a - a mod 2 ^ k.
Proof. intros. rewrite land_bnot_ldiff, ldiff_mask; done. Qed.

Lemma land_pow2_testbit e k : 0 ≤ k → (Z.land e (2 ^ k) =? 0) = negb (Z.testbit e k).
Proof.
  intros Hk. destruct (Z.testbit e k) eqn:E.
  - apply Z.eqb_neq. intros H0. assert (Z.testbit (Z.land e (2 ^ k)) k = false) as Hf
      by (rewrite H0; apply Z.bits_0).
    by rewrite Z.land_spec, E, Z.pow2_bits_true in Hf by done.
  - apply Z.eqb_eq, Z.bits_inj'. intros i Hi. rewrite Z.land_spec, Z.bits_0.
    destruct (decide (i = k)) as [->|Hne]; [by rewrite E|].
    by rewrite Z.pow2_bits_false, andb_false_r by congruence.
Qed.

Lemma land_uint_l w a b : 0 ≤ w → 0 ≤ b → is_uint w a → is_uint w (Z.land a b).
Proof.
  intros Hw Hb Ha. apply uint_of_testbits; [apply Z.land_nonneg; lia|done|].
  intros i Hi. by rewrite Z.land_spec, (uint_testbit_high w a i).
Qed.

Lemma lor_uint w a b : 0 ≤ w → is_uint w a → is_uint w b → is_uint w (Z.lor a b).
Proof.
  intros Hw Ha Hb.
  apply uint_of_testbits; [apply Z.lor_nonneg; unfold is_uint in *; lia|done|].
  intros i Hi. by rewrite Z.lor_spec, (uint_testbit_high w a i),
    (uint_testbit_high w b i).
Qed.

(** ** Powers of two *)

(** Fields that do not overlap are added. *)
Lemma lor_disjoint a b k : 0 ≤ k → 0 ≤ b < 2 ^ k → a mod 2 ^ k = 0 → Z.lor a b = a + b.
Proof.
  intros Hk Hb Ha. assert (Z.land a b = 0) as Hd.
  { apply Z.bits_inj'. intros i Hi. rewrite Z.land_spec, Z.bits_0. destruct (Z.ltb_spec i k) as [Hlt|Hge].
    - rewrite <- (Z.mod_pow2_bits_low a k i) by lia. by rewrite Ha, Z.bits_0.
    - rewrite (uint_testbit_high k b i) by (done || unfold is_uint; lia). by rewrite andb_false_r. }
  rewrite <- Z.lxor_lor by done. symmetry. by apply Z.add_nocarry_lxor.
Qed.

(** A mask of [n] bits from bit [k] *)
Lemma land_field a n k : 0 ≤ n → 0 ≤ k → Z.land a (Z.shiftl (2 ^ n - 1) k) = (a / 2 ^ k) mod 2 ^ n * 2 ^ k.
Proof.
  intros Hn Hk. rewrite <- land_mask_mod, <- Z.shiftr_div_pow2, <- Z.shiftl_mul_pow2 by lia.
  apply Z.bits_inj'. intros i Hi. rewrite Z.land_spec, !Z.shiftl_spec, Z.land_spec by lia.
  destruct (Z.ltb_spec i k).
  - rewrite !(Z.testbit_neg_r _ (i - k)) by lia. by rewrite andb_false_r.
  - rewrite Z.shiftr_spec by lia. by replace (i - k + k) with i by lia.
Qed.

Lemma pos_count_ones_pos p : 1 ≤ pos_count_ones p.
Proof. induction p; cbn; lia. Qed.

Lemma count_ones_1 a : count_ones a = 1 → ∃ k, 0 ≤ k ∧ a = 2 ^ k.
Proof.
  destruct a as [|p|p]; cbn; [lia| |lia]. induction p as [p IH|p IH|]; cbn.
  - pose proof (pos_count_ones_pos p). lia.
  - intros (k & Hk & E)%IH. exists (k + 1). split; [lia|].
    rewrite Z.pow_add_r, <- E by lia. lia.
  - by exists 0.
Qed.

Lemma count_ones_pow2 k : 0 ≤ k → count_ones (2 ^ k) = 1.
Proof.
  intros Hk. pattern k. apply natlike_ind; [reflexivity| |done].
  intros x Hx IH. rewrite Z.pow_succ_r by done.
  destruct (2 ^ x) eqn:E; try (cbn in IH; lia). cbn. apply IH.
Qed.

(** The front padding a block at [start] needs for alignment [2^k]. *)
Definition align_pad (start k : Z) : Z := (- start) mod 2 ^ k.

Lemma align_pad_spec start k :
  0 ≤ k →
  0 ≤ align_pad start k < 2 ^ k ∧ (start + align_pad start k) mod 2 ^ k = 0.
Proof.
  intros. assert (0 < 2 ^ k) by (apply Z.pow_pos_nonneg; lia).
  unfold align_pad. split; [apply Z.mod_pos_bound; lia|].
  rewrite Z.add_mod_idemp_r by lia. by replace (start + - start) with 0 by lia.
Qed.

(** The first aligned address at or after [start] is the padded one. *)
Lemma align_pad_least start k p :
  0 ≤ k → start ≤ p → p mod 2 ^ k = 0 → start + align_pad start k ≤ p.
Proof.
  intros Hk Hle Hp. assert (0 < 2 ^ k) by (apply Z.pow_pos_nonneg; lia).
  destruct (align_pad_spec start k Hk) as [Hb Hm].
  apply Z.mod_divide in Hp as [q ->]; [|lia].
  apply Z.mod_divide in Hm as [r Hr]; [|lia]. rewrite Hr.
  destruct (Z.le_gt_cases r q); nia.
Qed.

Create HintDb uint.
#[export] Hint Resolve wrap_uint land_uint_l lor_uint : uint.

(** Remove wrapping additions that do not wrap, the innermost first. *)
Ltac wrapping_add_inner :=
  repeat match goal with
  | |- context [wrapping_add ?w ?a ?b] =>
      lazymatch a with
      | context [wrapping_add] => fail
      | _ => rewrite (wrapping_add_small w a b) by (unfold is_uint; cbn [Z.pow]; lia)
      end
  end.
