(* ===== verification/Bytes.v ===== *)
(** * Byte slices

    Rust's [&[u8]] is a list of integers below 256.  This file has the slice
    operations the parsers and packet builders use ([get], range indexing,
    [copy_from_slice]) with what they do out of range, the conversions between
    integers and bytes ([from_le_bytes], [to_be_bytes], ...) and their round
    trips. *)

From stdpp Require Import base tactics option list numbers strings.
From Stdlib Require Import ZArith Lia.
From S2P Require Import Prelude MachineInt.

Local Open Scope Z_scope.

Definition bytes_ok (l : list Z) : Prop := Forall (is_uint 8) l.

#[export] Instance bytes_ok_dec l : Decision (bytes_ok l).
Proof. unfold bytes_ok. apply _. Defined.

(** [l.get(a..b)] *)
Definition get {A} (l : list A) (a b : nat) : option (list A) :=
  if decide (a ≤ b ∧ b ≤ length l)%nat then Some (take (b - a) (drop a l)) else None.

(** [l.get(a..)] *)
Definition get_from {A} (l : list A) (a : nat) : option (list A) :=
  get l a (length l).

(** [&l[a..b]] *)
Definition slice {A} (l : list A) (a b : nat) : outcome (list A) :=
  expect (get l a b) "range out of range for slice".

(** [l[a..b].copy_from_slice(src)] *)
Definition copy_from_slice {A} (l : list A) (a b : nat) (src : list A)
    : outcome (list A) :=
  if decide (a ≤ b ∧ b ≤ length l)%nat then
    if decide (length src = b - a)%nat then
      Done (take a l ++ src ++ drop b l)
    else Panic "source slice length does not match destination slice length"
  else Panic "range out of range for slice".

(** [x.try_into::<[u8; n]>().ok()] of a slice *)
Definition try_array {A} (n : nat) (l : list A) : option (list A) :=
  if decide (length l = n) then Some l else None.

Fixpoint from_le_bytes (l : list Z) : Z :=
  match l with [] => 0 | b :: l => b + 256 * from_le_bytes l end.

Fixpoint to_le_bytes (n : nat) (z : Z) : list Z :=
  match n with O => [] | S n => z mod 256 :: to_le_bytes n (z / 256) end.

Definition from_be_bytes (l : list Z) : Z := from_le_bytes (reverse l).
Definition to_be_bytes (n : nat) (z : Z) : list Z := reverse (to_le_bytes n z).

(** [x.to_be()] and [uN::from_be(x)] on a little-endian machine, [n] bytes. *)
Definition swap_bytes (n : nat) (z : Z) : Z := from_be_bytes (to_le_bytes n z).

Lemma get_Some {A} (l l' : list A) a b :
  get l a b = Some l' ↔ (a ≤ b ∧ b ≤ length l)%nat ∧ l' = take (b - a) (drop a l).
Proof. unfold get. case_decide; naive_solver. Qed.

Lemma get_length {A} (l l' : list A) a b : get l a b = Some l' → length l' = (b - a)%nat.
Proof. intros [? ->]%get_Some. rewrite length_take, length_drop. lia. Qed.

Lemma get_app {A} (pre l' post : list A) a b :
  a = length pre → b = (a + length l')%nat → get (pre ++ l' ++ post) a b = Some l'.
Proof.
  intros -> ->. apply get_Some. rewrite !length_app. split; [lia|].
  rewrite drop_app_length. replace (length pre + length l' - length pre)%nat
    with (length l') by lia. by rewrite take_app_length.
Qed.

Lemma get_app_r {A} (pre l : list A) a len :
  a = length pre → Z.of_nat a ≤ len ≤ Z.of_nat (length (pre ++ l)) →
  get (pre ++ l) a (Z.to_nat len) = Some (take (Z.to_nat (len - Z.of_nat a)) l).
Proof.
  intros -> Hlen. apply get_Some. split; [lia|].
  rewrite drop_app_length. f_equal. lia.
Qed.

(** [get] on a list whose first elements are known: evaluate step by step. *)
Lemma get_0_0 {A} (l : list A) : get l 0 0 = Some [].
Proof. apply get_Some. split; [lia|done]. Qed.

Lemma get_nil_S {A} a b : get (A:=A) [] a (S b) = None.
Proof. unfold get. rewrite decide_False; [done|cbn; lia]. Qed.

Lemma get_cons_0 {A} (x : A) l b : get (x :: l) 0 (S b) = cons x <$> get l 0 b.
Proof.
  unfold get. cbn [length drop Nat.sub take].
  destruct (decide (0 ≤ b ∧ b ≤ length l)%nat).
  - rewrite decide_True by lia. by rewrite Nat.sub_0_r.
  - rewrite decide_False by lia. done.
Qed.

Lemma get_cons_S {A} (x : A) l a b : get (x :: l) (S a) (S b) = get l a b.
Proof.
  unfold get. cbn [length drop Nat.sub].
  destruct (decide (a ≤ b ∧ b ≤ length l)%nat).
  - by rewrite decide_True by lia.
  - by rewrite decide_False by lia.
Qed.

Lemma get_from_0 {A} (l : list A) : get_from l 0 = Some l.
Proof.
  apply get_Some. split; [lia|]. by rewrite drop_0, Nat.sub_0_r, firstn_all.
Qed.

Lemma get_from_cons_S {A} (x : A) l a : get_from (x :: l) (S a) = get_from l a.
Proof. unfold get_from. cbn [length]. by rewrite get_cons_S. Qed.

Lemma slice_get {A} (l l' : list A) a b : get l a b = Some l' → slice l a b = Done l'.
Proof. unfold slice. by intros ->. Qed.

Lemma bytes_ok_get l l' a b : bytes_ok l → get l a b = Some l' → bytes_ok l'.
Proof. intros H [_ ->]%get_Some. by apply Forall_take, Forall_drop. Qed.

Lemma try_array_Some {A} n (l l' : list A) :
  try_array n l = Some l' ↔ l' = l ∧ length l = n.
Proof. unfold try_array. case_decide; naive_solver. Qed.

Lemma try_array_ok {A} n (l : list A) : length l = n → try_array n l = Some l.
Proof. intros. by apply try_array_Some. Qed.

Lemma copy_from_slice_Done {A} (l l' : list A) a b src :
  copy_from_slice l a b src = Done l' ↔
  (a ≤ b ∧ b ≤ length l)%nat ∧ length src = (b - a)%nat ∧
  l' = take a l ++ src ++ drop b l.
Proof. unfold copy_from_slice. repeat case_decide; naive_solver. Qed.

Lemma copy_from_slice_eq {A} (l src : list A) a b :
  (a ≤ b ∧ b ≤ length l)%nat → length src = (b - a)%nat →
  copy_from_slice l a b src = Done (take a l ++ src ++ drop b l).
Proof. intros. by apply copy_from_slice_Done. Qed.

Lemma index_set_eq {A} (l : list A) i x :
  (i < length l)%nat → index_set l i x = Done (<[i := x]> l).
Proof. intros. by apply index_set_Done. Qed.

Lemma copy_from_slice_app {A} (pre old post src : list A) a b :
  a = length pre → b = (a + length old)%nat → length src = length old →
  copy_from_slice (pre ++ old ++ post) a b src = Done (pre ++ src ++ post).
Proof.
  intros -> -> Hlen. apply copy_from_slice_Done. rewrite !length_app.
  split_and!; [lia..|]. rewrite take_app_length. do 2 f_equal.
  rewrite app_assoc, drop_app_length'; [done|by rewrite length_app].
Qed.

(** ** Integers and bytes *)

Lemma length_to_le_bytes n z : length (to_le_bytes n z) = n.
Proof. revert z. induction n; intros; cbn; congruence. Qed.

Lemma length_to_be_bytes n z : length (to_be_bytes n z) = n.
Proof. unfold to_be_bytes. by rewrite length_reverse, length_to_le_bytes. Qed.

Lemma to_le_bytes_ok n z : bytes_ok (to_le_bytes n z).
Proof.
  revert z. induction n; intros; cbn; constructor; [|apply IHn].
  apply Z.mod_pos_bound. lia.
Qed.

Lemma to_be_bytes_ok n z : bytes_ok (to_be_bytes n z).
Proof. apply Forall_reverse, to_le_bytes_ok. Qed.

Lemma from_le_bytes_uint l :
  bytes_ok l → is_uint (8 * Z.of_nat (length l)) (from_le_bytes l).
Proof.
  induction 1 as [|b l Hb Hl IH]; cbn [from_le_bytes length]; [done|].
  unfold is_uint in *. rewrite Nat2Z.inj_succ.
  replace (8 * Z.succ (Z.of_nat (length l))) with (8 + 8 * Z.of_nat (length l)) by lia.
  rewrite Z.pow_add_r by lia. lia.
Qed.

Lemma from_be_bytes_uint l :
  bytes_ok l → is_uint (8 * Z.of_nat (length l)) (from_be_bytes l).
Proof.
  intros. rewrite <- length_reverse. by apply from_le_bytes_uint, Forall_reverse.
Qed.

Lemma from_be_bytes_2 a b : from_be_bytes [a; b] = 256 * a + b.
Proof. unfold from_be_bytes, reverse. cbn. lia. Qed.

Lemma from_to_le_bytes n z :
  is_uint (8 * Z.of_nat n) z → from_le_bytes (to_le_bytes n z) = z.
Proof.
  revert z. induction n as [|n IH]; intros z Hz; unfold is_uint in Hz.
  { change (8 * Z.of_nat 0) with 0 in Hz. cbn in *. lia. }
  cbn [to_le_bytes from_le_bytes]. rewrite IH.
  - pose proof (Z.div_mod z 256). lia.
  - replace (8 * Z.of_nat (S n)) with (8 + 8 * Z.of_nat n) in Hz by lia.
    rewrite Z.pow_add_r in Hz by lia. split; [apply Z.div_pos; lia|].
    apply Z.div_lt_upper_bound; lia.
Qed.

Lemma to_from_le_bytes l n :
  bytes_ok l → n = length l → to_le_bytes n (from_le_bytes l) = l.
Proof.
  intros Hl ->. induction Hl as [|b l Hb Hl IH]; cbn [to_le_bytes from_le_bytes length]; [done|].
  unfold is_uint in Hb. rewrite (Z.mul_comm 256), Z.mod_add, Z.div_add by lia.
  rewrite (Z.mod_small b), (Z.div_small b) by lia. by rewrite Z.add_0_l, IH.
Qed.

Lemma from_to_be_bytes n z :
  is_uint (8 * Z.of_nat n) z → from_be_bytes (to_be_bytes n z) = z.
Proof.
  intros. unfold from_be_bytes, to_be_bytes. rewrite reverse_involutive.
  by apply from_to_le_bytes.
Qed.

Lemma to_from_be_bytes l n :
  bytes_ok l → n = length l → to_be_bytes n (from_be_bytes l) = l.
Proof.
  intros Hl ->. unfold from_be_bytes, to_be_bytes.
  rewrite to_from_le_bytes, reverse_involutive;
    [done|by apply Forall_reverse|by rewrite length_reverse].
Qed.

Lemma from_be_bytes_inj l1 l2 :
  bytes_ok l1 → bytes_ok l2 → length l1 = length l2 →
  from_be_bytes l1 = from_be_bytes l2 → l1 = l2.
Proof.
  intros H1 H2 Hlen E.
  rewrite <- (to_from_be_bytes l1 (length l1)), <- (to_from_be_bytes l2 (length l1)) by done.
  by rewrite E.
Qed.

(** Swapping bytes twice, and swapping the bytes of what was read. *)
Lemma swap_bytes_to_be n z :
  is_uint (8 * Z.of_nat n) z → to_be_bytes n (swap_bytes n z) = to_le_bytes n z.
Proof.
  intros. unfold swap_bytes. apply to_from_be_bytes; [apply to_le_bytes_ok|].
  by rewrite length_to_le_bytes.
Qed.

Lemma swap_bytes_of_le l n :
  bytes_ok l → n = length l → swap_bytes n (from_le_bytes l) = from_be_bytes l.
Proof. intros. unfold swap_bytes. by rewrite to_from_le_bytes. Qed.

Lemma swap_bytes_of_be l n :
  bytes_ok l → n = length l → swap_bytes n (from_be_bytes l) = from_le_bytes l.
Proof.
  intros Hl ->. unfold swap_bytes, from_be_bytes.
  rewrite to_from_le_bytes, reverse_involutive; [done|by apply Forall_reverse|].
  by rewrite length_reverse.
Qed.

#[export] Hint Resolve to_le_bytes_ok to_be_bytes_ok from_le_bytes_uint
  from_be_bytes_uint : uint.
#[export] Hint Rewrite @get_0_0 @get_nil_S @get_cons_0 @get_cons_S @get_from_0
  @get_from_cons_S : slices.
#[export] Hint Rewrite @try_array_ok using reflexivity : slices.
#[export] Hint Rewrite length_to_le_bytes length_to_be_bytes : bytes.

(** Evaluate the slice operations on a list with a known front. *)
Ltac slices :=
  repeat first
    [ progress autorewrite with slices
    | progress unfold slice, index
    | progress cbn [fmap option_fmap option_map expect mbind outcome_bind or_return
                    lookup list_lookup] ].

(** Evaluate writes into a list of known length. *)
Ltac writes :=
  repeat first
    [ rewrite copy_from_slice_eq by (cbn [length]; lia || reflexivity)
    | rewrite index_set_eq by (cbn [length]; lia)
    | rewrite bind_Done_l
    | progress cbn [take drop app insert list_insert] ].

(** ** Text *)

(** The bytes of a literal, and of a line. *)
Definition text (s : string) : list Z := (λ c, Z.of_nat (Ascii.nat_of_ascii c)) <$> String.list_ascii_of_string s.
Definition line (s : string) : list Z := text s ++ [0x0a].
