(* ===== verification/RangeSet.v ===== *)
(** * The range set of free memory (shared/rangeset/src/lib.rs)

    [RangeSet] is the fixed array of 256 inclusive ranges and its [in_use]
    count, with every operation of the source as a definition: the array is
    updated by index, [delete] bubbles the removed entry to the end with swaps,
    and the labelled loops of [insert] and [remove] restart their scan.  The
    abstract view is the set of addresses [x ∈ rs]; the theorems at the end say
    that [insert] is union, [remove] is difference, [allocate_prefer] hands out
    aligned free memory and removes it, and [sum] counts the addresses. *)

From stdpp Require Import base tactics option list numbers strings.
From Stdlib Require Import ZArith Lia.
From S2P Require Import Prelude MachineInt.

Local Open Scope Z_scope.

Record Range := mkRange { start : Z; end_ : Z }.

#[export] Instance Range_eq_dec : EqDecision Range.
Proof. solve_decision. Defined.

(** [in_use] is a [u32] that never exceeds 256. *)
Record RangeSet := mkRangeSet { ranges : list Range; in_use : nat }.

Definition CAPACITY : nat := 256.

Definition new : RangeSet := mkRangeSet (replicate CAPACITY (mkRange 0 0)) 0.

(** [&self.ranges[..self.in_use as usize]] *)
Definition entries (rs : RangeSet) : list Range := take (in_use rs) (ranges rs).

(** [core::mem::swap] of the two ends when they are the wrong way round. *)
Definition normalize (r : Range) : Range :=
  if end_ r <? start r then mkRange (end_ r) (start r) else r.

Definition overlaps (a b : Range) : option Range :=
  let a := normalize a in
  let b := normalize b in
  if (start a <=? end_ b) && (start b <=? end_ a) then
    Some (mkRange (Z.max (start a) (start b)) (Z.min (end_ a) (end_ b)))
  else None.

Definition contains (a b : Range) : bool :=
  let a := normalize a in
  let b := normalize b in
  (start b <=? start a) && (end_ a <=? end_ b).

(** [self.ranges.swap(i, j)] *)
Definition swap (l : list Range) (i j : nat) : outcome (list Range) :=
  a ← index l i;
  b ← index l j;
  l ← index_set l i b;
  index_set l j a.

(** [for ii in idx..idx + n { self.ranges.swap(ii, ii + 1) }] *)
Fixpoint delete_swaps (l : list Range) (ii n : nat) : outcome (list Range) :=
  match n with
  | O => mret l
  | S n => l ← swap l ii (ii + 1); delete_swaps l (ii + 1) n
  end.

Definition delete (rs : RangeSet) (idx : nat) : outcome RangeSet :=
  _ ← assert (bool_decide (idx < in_use rs)%nat) "Index out of bounds";
  l ← delete_swaps (ranges rs) idx (in_use rs - 1 - idx);
  mret (mkRangeSet l (in_use rs - 1)).

(** The overlap test of [insert]: both ends are extended by one, saturating,
    so that touching ranges merge. *)
Definition touches (range ent : Range) : bool :=
  bool_decide (is_Some (overlaps
    (mkRange (start range) (saturating_add 64 (end_ range) 1))
    (mkRange (start ent) (saturating_add 64 (end_ ent) 1)))).

(** The [for] loop of [insert]: the first entry, if any, that [range] merges
    with. *)
Fixpoint find_merge (l : list Range) (range : Range) (ii n : nat)
    : outcome (option (nat * Range)) :=
  match n with
  | O => mret None
  | S n =>
      ent ← index l ii;
      if touches range ent then mret (Some (ii, ent))
      else find_merge l range (ii + 1) n
  end.

(** ['try_merges: loop]; each turn but the last deletes an entry. *)
Fixpoint try_merges (fuel : nat) (rs : RangeSet) (range : Range)
    : outcome (RangeSet * Range) :=
  match fuel with
  | O => OutOfFuel
  | S fuel =>
      found ← find_merge (ranges rs) range 0 (in_use rs);
      match found with
      | None => mret (rs, range)
      | Some (ii, ent) =>
          rs ← delete rs ii;
          try_merges fuel rs (mkRange (Z.min (start range) (start ent))
                                      (Z.max (end_ range) (end_ ent)))
      end
  end.

Definition insert (rs : RangeSet) (range : Range) : outcome RangeSet :=
  _ ← assert (start range <=? end_ range) "Invalid range shape";
  '(rs, range) ← try_merges (S (in_use rs)) rs range;
  _ ← assert (bool_decide (in_use rs < length (ranges rs))%nat)
        "Too many entries in RangeSet on insert";
  l ← index_set (ranges rs) (in_use rs) range;
  mret (mkRangeSet l (in_use rs + 1)).

(** The [for] loop of [remove].  The result says whether the loop was left by
    [continue 'try_subtractions]. *)
Fixpoint remove_pass (rs : RangeSet) (range : Range) (ii n : nat)
    : outcome (RangeSet * bool) :=
  match n with
  | O => mret (rs, false)
  | S n =>
      ent ← index (ranges rs) ii;
      match overlaps range ent with
      | None => remove_pass rs range (ii + 1) n
      | Some _ =>
          if contains ent range then
            rs ← delete rs ii; mret (rs, true)
          else if start range <=? start ent then
            l ← index_set (ranges rs) ii
                  (mkRange (saturating_add 64 (end_ range) 1) (end_ ent));
            remove_pass (mkRangeSet l (in_use rs)) range (ii + 1) n
          else if end_ ent <=? end_ range then
            l ← index_set (ranges rs) ii
                  (mkRange (start ent) (saturating_sub (start range) 1));
            remove_pass (mkRangeSet l (in_use rs)) range (ii + 1) n
          else
            l ← index_set (ranges rs) ii
                  (mkRange (saturating_add 64 (end_ range) 1) (end_ ent));
            _ ← assert (bool_decide (in_use rs < length l)%nat)
                  "Too many entries in RangeSet on split";
            l ← index_set l (in_use rs)
                  (mkRange (start ent) (saturating_sub (start range) 1));
            mret (mkRangeSet l (in_use rs + 1), true)
      end
  end.

(** ['try_subtractions: loop] *)
Fixpoint try_subtractions (fuel : nat) (rs : RangeSet) (range : Range)
    : outcome RangeSet :=
  match fuel with
  | O => OutOfFuel
  | S fuel =>
      '(rs, again) ← remove_pass rs range 0 (in_use rs);
      if again : bool then try_subtractions fuel rs range else mret rs
  end.

Definition remove (rs : RangeSet) (range : Range) : outcome RangeSet :=
  _ ← assert (start range <=? end_ range) "Invalid range shape";
  try_subtractions (S (in_use rs)) rs range.

Fixpoint remove_all (rs : RangeSet) (l : list Range) : outcome RangeSet :=
  match l with
  | [] => mret rs
  | ent :: l => rs ← remove rs ent; remove_all rs l
  end.

Definition subtract (self rs : RangeSet) : outcome RangeSet :=
  remove_all self (entries rs).

(** [try_fold]; the accumulating [+] is the wrapping one of a release build. *)
Fixpoint sum_entries (acc : Z) (l : list Range) : option Z :=
  match l with
  | [] => Some acc
  | x :: l =>
      n ← checked_add 64 (wrapping_sub 64 (end_ x) (start x)) 1;
      sum_entries (wrapping_add 64 acc n) l
  end.

Definition sum (rs : RangeSet) : option Z := sum_entries 0 (entries rs).

Section allocate.
(** [core::usize::MAX]: [2^32 - 1] in the bootloader, [2^64 - 1] in the
    kernel. *)
Context (usize_max : Z).

(** One turn of ['allocation_search]: leave the function with [None] (the
    [?] operators), go on with a possibly better candidate, or stop with the
    one found in the preferred region. *)
Inductive search :=
| Return_None
| Continue (allocation : option (Z * Z * Z))
| Break (allocation : option (Z * Z * Z)).

Definition search_step (size align : Z) (region : option Range)
    (allocation : option (Z * Z * Z)) (ent : Range) : search :=
  let alignmask := align - 1 in
  let align_fix :=
    Z.land (wrapping_sub 64 align (Z.land (start ent) alignmask)) alignmask in
  let base := start ent in
  match checked_add 64 base (size - 1) ≫= λ e, checked_add 64 e align_fix with
  | None => Return_None
  | Some end_alc =>
      if (usize_max <? base) || (usize_max <? end_alc) then Continue allocation
      else if end_ ent <? end_alc then Continue allocation
      else
        let best :=
          match allocation with
          | None => Continue (Some (base, end_alc, base + align_fix))
          | Some (pbase, pend, _) =>
              if end_alc - base <? pend - pbase then
                Continue (Some (base, end_alc, base + align_fix))
              else Continue allocation
          end in
        match region ≫= overlaps ent with
        | None => best
        | Some overlap =>
            let align_overlap :=
              Z.land (wrapping_add 64 (start overlap) alignmask)
                     (bnot 64 alignmask) in
            if (start overlap <=? align_overlap) &&
               (align_overlap <=? end_ overlap) &&
               (size - 1 <=? end_ overlap - align_overlap) then
              let overlap_alc_end := align_overlap + (size - 1) in
              if (usize_max <? align_overlap) || (usize_max <? overlap_alc_end)
              then Continue allocation
              else Break (Some (align_overlap, overlap_alc_end, align_overlap))
            else best
        end
  end.

(** The outer [option] is the early return of the function. *)
Fixpoint search_loop (size align : Z) (region : option Range)
    (allocation : option (Z * Z * Z)) (l : list Range)
    : option (option (Z * Z * Z)) :=
  match l with
  | [] => Some allocation
  | ent :: l =>
      match search_step size align region allocation ent with
      | Return_None => None
      | Continue allocation => search_loop size align region allocation l
      | Break allocation => Some allocation
      end
  end.

Definition allocate_prefer (rs : RangeSet) (size align : Z)
    (region : option Range) : outcome (option Z * RangeSet) :=
  if size =? 0 then mret (None, rs)
  else if negb (count_ones align =? 1) then mret (None, rs)
  else
    match search_loop size align region None (entries rs) with
    | None | Some None => mret (None, rs)
    | Some (Some (base, end_alc, ptr)) =>
        rs ← remove rs (mkRange base end_alc);
        mret (Some ptr, rs)
    end.

Definition allocate (rs : RangeSet) (size align : Z)
    : outcome (option Z * RangeSet) :=
  allocate_prefer rs size align None.
End allocate.

(** ** The abstract view: sets of addresses *)

#[export] Instance elem_of_Range : ElemOf Z Range := λ x r, start r ≤ x ≤ end_ r.
#[export] Instance elem_of_RangeSet : ElemOf Z RangeSet := λ x rs,
  Exists (λ r, x ∈ r) (entries rs).

Lemma elem_of_mkRange x a b : x ∈ mkRange a b ↔ a ≤ x ≤ b.
Proof. done. Qed.

Definition range_ok (r : Range) : Prop := 0 ≤ start r ≤ end_ r ∧ end_ r < 2 ^ 64.

(** Two entries neither overlap nor touch. *)
Definition apart (a b : Range) : Prop :=
  end_ a + 1 < start b ∨ end_ b + 1 < start a.

Fixpoint separated (l : list Range) : Prop :=
  match l with
  | [] => True
  | r :: l => Forall (apart r) l ∧ separated l
  end.

(** The array of [rs] holds [es] in its used part. *)
Definition rep (rs : RangeSet) (es : list Range) : Prop :=
  ∃ rest, ranges rs = es ++ rest ∧ in_use rs = length es ∧
          length (es ++ rest) = CAPACITY.

Definition ok_list (es : list Range) : Prop := Forall range_ok es ∧ separated es.

(** The invariant of a range set: well-shaped entries, pairwise apart. *)
Definition wf (rs : RangeSet) : Prop := ∃ es, rep rs es ∧ ok_list es.

Lemma rep_entries rs es : rep rs es → entries rs = es.
Proof. intros (rest & E & Hn & _). unfold entries. by rewrite E, Hn, take_app_length. Qed.

Lemma rep_length rs es : rep rs es → (length es ≤ CAPACITY)%nat.
Proof. intros (rest & _ & _ & Hl). rewrite length_app in Hl. lia. Qed.

Lemma rep_in_use rs es : rep rs es → in_use rs = length es.
Proof. by intros (rest & _ & Hn & _). Qed.

Lemma rep_capacity rs es : rep rs es → length (ranges rs) = CAPACITY.
Proof. by intros (rest & -> & _ & Hl). Qed.

Lemma rep_elem_of rs es x : rep rs es → x ∈ rs ↔ Exists (λ r, x ∈ r) es.
Proof. intros H. unfold elem_of, elem_of_RangeSet. by rewrite (rep_entries _ _ H). Qed.

Lemma rep_new : rep new [].
Proof. by exists (replicate CAPACITY (mkRange 0 0)). Qed.

(** ** Refinement of the array operations to lists *)

Lemma lookup_mid {A} (l1 : list A) x l2 : (l1 ++ x :: l2) !! length l1 = Some x.
Proof. by apply list_lookup_middle. Qed.

Lemma insert_mid {A} (l1 : list A) x y l2 :
  <[length l1 := y]> (l1 ++ x :: l2) = l1 ++ y :: l2.
Proof.
  replace (length l1) with (length l1 + 0)%nat by lia. by rewrite insert_app_r.
Qed.

Lemma index_mid {A} (l1 : list A) x l2 i :
  i = length l1 → index (l1 ++ x :: l2) i = Done x.
Proof. intros ->. unfold index. by rewrite lookup_mid. Qed.

Lemma index_set_mid {A} (l1 : list A) x y l2 i :
  i = length l1 → index_set (l1 ++ x :: l2) i y = Done (l1 ++ y :: l2).
Proof.
  intros ->. unfold index_set. rewrite insert_mid, decide_True; [done|].
  rewrite length_app. cbn. lia.
Qed.

Lemma swap_mid l1 x y l2 i :
  i = length l1 → swap (l1 ++ x :: y :: l2) i (i + 1) = Done (l1 ++ y :: x :: l2).
Proof.
  intros ->. unfold swap.
  rewrite (index_mid l1 x (y :: l2) (length l1)) by done. cbn [mbind outcome_bind].
  rewrite (cons_middle x l1 (y :: l2)), app_assoc.
  rewrite index_mid by (rewrite length_app; cbn; lia). cbn [mbind outcome_bind].
  rewrite <- app_assoc. cbn [app]. rewrite index_set_mid by done. cbn [mbind outcome_bind].
  rewrite (cons_middle y l1 (y :: l2)), app_assoc.
  rewrite index_set_mid by (rewrite length_app; cbn; lia).
  by rewrite <- app_assoc.
Qed.

Lemma delete_swaps_mid q : ∀ p x s,
  delete_swaps (p ++ x :: q ++ s) (length p) (length q) = Done (p ++ q ++ x :: s).
Proof.
  induction q as [|y q IH]; intros p x s; [done|].
  cbn [length delete_swaps app]. rewrite swap_mid by done. cbn [mbind outcome_bind].
  rewrite (cons_middle y p), app_assoc.
  replace (length p + 1)%nat with (length (p ++ [y])) by (rewrite length_app; done).
  rewrite IH. by rewrite <- app_assoc.
Qed.

Lemma rep_delete rs l1 e l2 :
  rep rs (l1 ++ e :: l2) →
  ∃ rs', delete rs (length l1) = Done rs' ∧ rep rs' (l1 ++ l2).
Proof.
  intros (rest & E & Hn & Hl). rewrite <- app_assoc in E. cbn in E.
  rewrite !length_app in Hn, Hl. cbn in Hn, Hl.
  unfold delete, assert. rewrite bool_decide_true by lia. cbn [mbind outcome_bind].
  replace (in_use rs - 1 - length l1)%nat with (length l2) by lia.
  rewrite E, delete_swaps_mid. eexists; split; [done|].
  exists (e :: rest); cbn; rewrite <- app_assoc, !length_app in *; cbn. naive_solver lia.
Qed.

Lemma rep_index rs l1 e l2 :
  rep rs (l1 ++ e :: l2) → index (ranges rs) (length l1) = Done e.
Proof. intros (rest & E & _). rewrite E, <- app_assoc. by apply index_mid. Qed.

Lemma rep_set rs l1 e l2 e' :
  rep rs (l1 ++ e :: l2) →
  ∃ l, index_set (ranges rs) (length l1) e' = Done l ∧
       rep (mkRangeSet l (in_use rs)) (l1 ++ e' :: l2).
Proof.
  intros (rest & E & Hn & Hl). rewrite E, <- app_assoc. cbn [app].
  rewrite index_set_mid by done. eexists; split; [done|]. exists rest.
  rewrite !length_app in *. cbn in *. rewrite <- app_assoc. done.
Qed.

Lemma rep_push rs es e :
  rep rs es → (length es < CAPACITY)%nat →
  ∃ l, index_set (ranges rs) (in_use rs) e = Done l ∧
       rep (mkRangeSet l (in_use rs + 1)) (es ++ [e]).
Proof.
  intros (rest & E & Hn & Hl) Hlt. rewrite length_app in Hl.
  destruct rest as [|r rest]; [cbn in Hl; lia|]. rewrite E, Hn.
  rewrite index_set_mid by done. eexists; split; [done|]. exists rest.
  cbn in *. rewrite <- app_assoc, !length_app. cbn. split_and!; [done|lia|lia].
Qed.

(** ** Facts on separated lists *)

Lemma apart_sym a b : apart a b → apart b a.
Proof. unfold apart. lia. Qed.

Lemma separated_mid l1 r l2 :
  separated (l1 ++ r :: l2) ↔ separated (l1 ++ l2) ∧ Forall (apart r) (l1 ++ l2).
Proof.
  induction l1 as [|a l1 IH]; cbn; [tauto|].
  rewrite IH, !Forall_app, !Forall_cons, !Forall_app.
  assert (apart a r ↔ apart r a) by (unfold apart; lia). tauto.
Qed.

Lemma ok_list_mid l1 r l2 :
  ok_list (l1 ++ r :: l2) ↔
  ok_list (l1 ++ l2) ∧ range_ok r ∧ Forall (apart r) (l1 ++ l2).
Proof.
  unfold ok_list. rewrite separated_mid, !Forall_app, Forall_cons. tauto.
Qed.

Lemma ok_list_snoc l r :
  ok_list (l ++ [r]) ↔ ok_list l ∧ range_ok r ∧ Forall (apart r) l.
Proof. rewrite ok_list_mid, app_nil_r. done. Qed.

Lemma in_mid x l1 (r : Range) l2 :
  Exists (λ r, x ∈ r) (l1 ++ r :: l2) ↔ x ∈ r ∨ Exists (λ r, x ∈ r) (l1 ++ l2).
Proof. rewrite !Exists_app, Exists_cons. tauto. Qed.

(** A part of an entry stays apart from what the entry was apart from. *)
Lemma apart_shrink r r' l :
  start r ≤ start r' → end_ r' ≤ end_ r → Forall (apart r) l → Forall (apart r') l.
Proof. intros ???. eapply Forall_impl; [done|]. unfold apart. intros. lia. Qed.

Lemma touches_spec r e :
  range_ok r → range_ok e → touches r e = true ↔ ¬ apart r e.
Proof.
  unfold range_ok, touches, apart, overlaps, normalize, saturating_add. cbn.
  intros Hr He. rewrite bool_decide_eq_true.
  repeat (case_match; cbn in * ); rewrite ?andb_true_iff, ?andb_false_iff in *;
    split; intros; try (by destruct 1); eauto; lia.
Qed.

Lemma overlaps_ok a b :
  range_ok a → range_ok b →
  overlaps a b =
    if bool_decide (start a ≤ end_ b ∧ start b ≤ end_ a) then
      Some (mkRange (Z.max (start a) (start b)) (Z.min (end_ a) (end_ b)))
    else None.
Proof.
  unfold range_ok, overlaps, normalize. intros Ha Hb.
  destruct (Z.ltb_spec (end_ a) (start a)); [lia|].
  destruct (Z.ltb_spec (end_ b) (start b)); [lia|].
  case_bool_decide; case_match; rewrite ?andb_true_iff, ?andb_false_iff in *;
    done || lia.
Qed.

Lemma contains_ok a b :
  range_ok a → range_ok b →
  contains a b = bool_decide (start b ≤ start a ∧ end_ a ≤ end_ b).
Proof.
  unfold range_ok, contains, normalize. intros Ha Hb.
  destruct (Z.ltb_spec (end_ a) (start a)); [lia|].
  destruct (Z.ltb_spec (end_ b) (start b)); [lia|].
  case_bool_decide; rewrite ?andb_true_iff, ?andb_false_iff, ?Z.leb_le, ?Z.leb_gt; lia.
Qed.

(** ** Insertion *)

Lemma find_merge_spec range suf : ∀ pre rest,
  let found := find_merge (pre ++ suf ++ rest) range (length pre) (length suf) in
  (Forall (λ e, touches range e = false) suf ∧ found = Done None) ∨
  ∃ s1 e s2, suf = s1 ++ e :: s2 ∧ touches range e = true ∧
             found = Done (Some ((length pre + length s1)%nat, e)).
Proof.
  induction suf as [|e suf IH]; intros pre rest; cbn; [by left|].
  rewrite index_mid by done. cbn [mbind outcome_bind].
  destruct (touches range e) eqn:Ht.
  { right. exists [], e, suf. by rewrite Nat.add_0_r. }
  specialize (IH (pre ++ [e]) rest). rewrite <- app_assoc, length_app in IH.
  cbn [app length] in IH.
  destruct IH as [[Hf E]|(s1 & e' & s2 & -> & Ht' & E)]; [left; by auto|].
  right. exists (e :: s1), e', s2. split_and!; [done..|]. rewrite E. cbn.
  do 3 f_equal. lia.
Qed.

Lemma merge_elem_of r e x :
  range_ok r → range_ok e → ¬ apart r e →
  x ∈ mkRange (Z.min (start r) (start e)) (Z.max (end_ r) (end_ e)) ↔ x ∈ r ∨ x ∈ e.
Proof. unfold elem_of, elem_of_Range, range_ok, apart. cbn. lia. Qed.

(** The merge loop ends, with the range grown by every entry it swallowed. *)
Lemma try_merges_spec fuel : ∀ rs es range,
  rep rs es → ok_list es → range_ok range → (length es < fuel)%nat →
  ∃ rs' es' range',
    try_merges fuel rs range = Done (rs', range') ∧
    rep rs' es' ∧ ok_list es' ∧ range_ok range' ∧ Forall (apart range') es' ∧
    (∀ x, x ∈ range' ∨ Exists (λ r, x ∈ r) es' ↔
          x ∈ range ∨ Exists (λ r, x ∈ r) es) ∧
    ((length es' < length es)%nat ∨ es' = es ∧ range' = range).
Proof.
  induction fuel as [|fuel IH]; intros rs es range Hrep Hok Hr Hf; [lia|].
  cbn. destruct (Hrep) as (rest & Ers & Hn & Hl).
  pose proof (find_merge_spec range es [] rest) as Hfind. cbn in Hfind.
  rewrite Ers, Hn.
  destruct Hfind as [[Hno ->]|(s1 & e & s2 & -> & Ht & ->)]; cbn [mbind outcome_bind].
  { exists rs, es, range. split_and!; try done; [|by right].
    destruct Hok as [Hall _]. eapply Forall_impl; [apply Forall_and; split; [exact Hall|exact Hno]|].
    cbn. intros e [He Hte]. destruct (Bool.not_true_iff_false (touches range e)) as [_ Hnt].
    rewrite touches_spec in Hnt by done. specialize (Hnt Hte). unfold apart in *. lia. }
  destruct (rep_delete _ _ _ _ Hrep) as (rs1 & Hdel & Hrep1). rewrite Hdel.
  cbn [mbind outcome_bind]. apply ok_list_mid in Hok as (Hok1 & Hre & _).
  apply touches_spec in Ht; [|done..].
  rewrite length_app in Hf. cbn in Hf.
  destruct (IH rs1 (s1 ++ s2) (mkRange (Z.min (start range) (start e))
                                 (Z.max (end_ range) (end_ e))))
    as (rs' & es' & range' & Hm & Hrep' & Hok' & Hr' & Hap & Hin & Hlen);
    [done|done|unfold range_ok in *; cbn; lia|rewrite length_app; lia|].
  exists rs', es', range'. split_and!; try done.
  - intros x. rewrite Hin, in_mid, merge_elem_of by done. tauto.
  - left. destruct Hlen as [Hlen|[-> _]]; rewrite !length_app in *; cbn; lia.
Qed.

(** [insert] on the abstract view. *)
Lemma insert_correct rs range :
  wf rs → range_ok range →
  (∃ rs', insert rs range = Done rs' ∧ wf rs' ∧
          ∀ x, x ∈ rs' ↔ x ∈ rs ∨ x ∈ range) ∨
  (insert rs range = Panic "Too many entries in RangeSet on insert" ∧
   in_use rs = CAPACITY ∧ Forall (apart range) (entries rs)).
Proof.
  intros (es & Hrep & Hok) Hr. unfold insert, assert.
  destruct (Z.leb_spec (start range) (end_ range)); [|unfold range_ok in *; lia].
  rewrite (rep_in_use _ _ Hrep). cbn [mbind outcome_bind].
  destruct (try_merges_spec (S (length es)) rs es range)
    as (rs' & es' & range' & Hm & Hrep' & Hok' & Hr' & Hap & Hin & Hlen); [done..|lia|].
  rewrite Hm. cbn [mbind outcome_bind].
  rewrite (rep_in_use _ _ Hrep'), (rep_capacity _ _ Hrep').
  case_bool_decide as Hroom; cbn [mbind outcome_bind].
  - left. destruct (rep_push _ _ range' Hrep' Hroom) as (l & El & Hpush).
    rewrite <- (rep_in_use _ _ Hrep'), El. cbn [mbind outcome_bind].
    eexists; split; [done|]. split.
    + exists (es' ++ [range']). split; [done|]. by apply ok_list_snoc.
    + intros x. rewrite (rep_elem_of _ _ x Hpush), (rep_elem_of _ _ x Hrep), in_mid,
        app_nil_r, Hin. tauto.
  - right. split; [done|]. rewrite (rep_entries _ _ Hrep).
    pose proof (rep_length _ _ Hrep). destruct Hlen as [|[-> ->]]; [lia|].
    split; [lia|done].
Qed.

(** ** Removal *)

Definition hits (range e : Range) : Prop :=
  start range ≤ end_ e ∧ start e ≤ end_ range.

#[export] Instance hits_dec range e : Decision (hits range e).
Proof. unfold hits. apply _. Defined.

Definition hit_count (range : Range) (es : list Range) : nat :=
  length (filter (hits range) es).

(** [es'] is [es] less some addresses of [range]. *)
Definition trims (range : Range) (es es' : list Range) : Prop :=
  ∀ x, (Exists (λ r, x ∈ r) es' → Exists (λ r, x ∈ r) es) ∧
       (x ∉ range → Exists (λ r, x ∈ r) es → Exists (λ r, x ∈ r) es').

Lemma trims_refl range es : trims range es es.
Proof. by split. Qed.

Lemma trims_trans range es1 es2 es3 :
  trims range es1 es2 → trims range es2 es3 → trims range es1 es3.
Proof. intros H1 H2 x. destruct (H1 x), (H2 x). tauto. Qed.

Lemma trims_mid range l1 e l2 new :
  (∀ x, Exists (λ r, x ∈ r) new → x ∈ e) →
  (∀ x, x ∉ range → x ∈ e → Exists (λ r, x ∈ r) new) →
  trims range (l1 ++ e :: l2) (l1 ++ new ++ l2).
Proof.
  intros H1 H2 x. specialize (H1 x). specialize (H2 x).
  rewrite in_mid, !Exists_app. tauto.
Qed.

Lemma hit_count_mid range l1 e l2 :
  hit_count range (l1 ++ e :: l2) =
    ((if decide (hits range e) then 1 else 0) + hit_count range (l1 ++ l2))%nat.
Proof.
  unfold hit_count. rewrite !filter_app, !length_app, filter_cons.
  case_decide; cbn; lia.
Qed.

Lemma hit_count_le range es : (hit_count range es ≤ length es)%nat.
Proof. apply length_filter. Qed.

(** What the loop body does to one entry it has to change. *)
Inductive cut (range e : Range) : list Range → Prop :=
| cut_all : start range ≤ start e → end_ e ≤ end_ range → cut range e []
| cut_low : start range ≤ start e → end_ range < end_ e →
    cut range e [mkRange (end_ range + 1) (end_ e)]
| cut_high : start e < start range → end_ e ≤ end_ range →
    cut range e [mkRange (start e) (start range - 1)]
| cut_split : start e < start range → end_ range < end_ e →
    cut range e [mkRange (end_ range + 1) (end_ e);
                 mkRange (start e) (start range - 1)].

Lemma cut_trims range e new l1 l2 :
  range_ok range → range_ok e → hits range e → cut range e new →
  trims range (l1 ++ e :: l2) (l1 ++ new ++ l2).
Proof.
  unfold range_ok, hits. intros Hr He Hh Hcut. apply trims_mid; intros x;
    destruct Hcut; rewrite ?Exists_cons, ?Exists_nil;
    unfold elem_of, elem_of_Range in *; cbn; lia.
Qed.

Lemma cut_no_hits range e new :
  range_ok range → cut range e new → Forall (λ r, ¬ hits range r) new.
Proof.
  unfold range_ok. intros Hr Hcut. destruct Hcut; rewrite ?Forall_cons;
    unfold hits; cbn; split_and?; try done; lia.
Qed.

Lemma cut_one_ok range e e' l1 l2 :
  range_ok range → range_ok e → hits range e → cut range e [e'] →
  ok_list (l1 ++ e :: l2) → ok_list (l1 ++ e' :: l2).
Proof.
  rewrite !ok_list_mid. intros Hr He Hh Hcut (Hok & _ & Hap).
  unfold range_ok, hits in *.
  inversion Hcut; subst; cbn; (split_and!; [done|lia..|]);
    (eapply apart_shrink; [..|done]); cbn; lia.
Qed.

Lemma cut_split_ok range e l1 l2 :
  range_ok range → range_ok e → start e < start range → end_ range < end_ e →
  ok_list (l1 ++ e :: l2) →
  ok_list ((l1 ++ mkRange (end_ range + 1) (end_ e) :: l2)
           ++ [mkRange (start e) (start range - 1)]).
Proof.
  intros Hr He Hlo Hhi. rewrite ok_list_snoc, !ok_list_mid.
  intros (Hok & _ & Hap). unfold range_ok in *. cbn. split_and!; try (done || lia).
  - eapply apart_shrink; [..|done]; cbn; lia.
  - apply Forall_app in Hap as [Hap1 Hap2]. rewrite Forall_app, Forall_cons.
    split_and!; [|unfold apart; cbn; lia|];
      (eapply apart_shrink; [..|done]); cbn; lia.
Qed.

(** A restart leaves fewer entries that overlap the range. *)
Definition pass_again (range : Range) (es : list Range)
    (r : outcome (RangeSet * bool)) : Prop :=
  ∃ rs' es', r = Done (rs', true) ∧ rep rs' es' ∧ ok_list es' ∧
    trims range es es' ∧ (hit_count range es' < hit_count range es)%nat ∧
    (length es' ≤ S (length es))%nat.

Definition pass_done (range : Range) (es : list Range)
    (r : outcome (RangeSet * bool)) : Prop :=
  ∃ rs' es', r = Done (rs', false) ∧ rep rs' es' ∧ ok_list es' ∧
    trims range es es' ∧ Forall (λ e, ¬ hits range e) es'.

Definition split_overflow (range : Range) (es : list Range) : Prop :=
  length es = CAPACITY ∧
  ∃ e, e ∈ es ∧ start e < start range ∧ end_ range < end_ e.

Definition pass_panic {A} (range : Range) (es : list Range) (r : outcome A) : Prop :=
  r = Panic "Too many entries in RangeSet on split" ∧ split_overflow range es.

(** Trimming the entry under the cursor and going on. *)
Lemma pass_step range l1 e e' l2 r :
  range_ok range → range_ok e → hits range e → cut range e [e'] →
  pass_done range (l1 ++ e' :: l2) r ∨ pass_again range (l1 ++ e' :: l2) r ∨
    pass_panic range (l1 ++ e' :: l2) r →
  pass_done range (l1 ++ e :: l2) r ∨ pass_again range (l1 ++ e :: l2) r ∨
    pass_panic range (l1 ++ e :: l2) r.
Proof.
  intros Hr He Hh Hcut. pose proof (cut_trims range e [e'] l1 l2 Hr He Hh Hcut) as Ht.
  pose proof (cut_no_hits _ _ _ Hr Hcut) as [Hn _]%Forall_cons. cbn in Ht.
  intros [(rs' & es' & ? & ? & ? & ? & ?)|[(rs' & es' & ? & ? & ? & ? & Hc & Hl)|[? Hs]]].
  - left. exists rs', es'. split_and!; eauto using trims_trans.
  - right; left. exists rs', es'. rewrite hit_count_mid in Hc |- *.
    rewrite !length_app in *. cbn [length] in *.
    split_and!; eauto using trims_trans; repeat case_decide; try done; lia.
  - right; right. split; [done|]. destruct Hs as (Hlen & e0 & Hin & Hlo & Hhi).
    split; [rewrite !length_app in *; done|]. exists e0. split_and!; try done.
    rewrite elem_of_app, elem_of_cons in Hin |- *.
    assert (e0 ≠ e'); [|naive_solver].
    intros ->. apply Hn. unfold hits, range_ok in *. lia.
Qed.

(** The branch that splits an entry in two. *)
Lemma remove_split_spec range rs l1 e todo :
  rep rs (l1 ++ e :: todo) → ok_list (l1 ++ e :: todo) → range_ok range →
  start e < start range → end_ range < end_ e →
  let r :=
    l ← index_set (ranges rs) (length l1) (mkRange (end_ range + 1) (end_ e));
    _ ← assert (bool_decide (in_use rs < length l)%nat)
          "Too many entries in RangeSet on split";
    l ← index_set l (in_use rs) (mkRange (start e) (start range - 1));
    mret (mkRangeSet l (in_use rs + 1), true) in
  pass_again range (l1 ++ e :: todo) r ∨ pass_panic range (l1 ++ e :: todo) r.
Proof.
  intros Hrep Hok Hr Hlo Hhi. pose proof (Hok) as (_ & He & _)%ok_list_mid.
  edestruct (rep_set _ _ _ _ (mkRange (end_ range + 1) (end_ e)) Hrep)
    as (l & -> & Hrep'). cbn [mbind outcome_bind].
  pose proof (rep_capacity _ _ Hrep') as Hcap. cbn in Hcap.
  pose proof (rep_in_use _ _ Hrep') as Huse. cbn in Huse. rewrite Hcap. unfold assert.
  case_bool_decide as Hroom; cbn [mbind outcome_bind].
  2: { right. split; [done|]. pose proof (rep_length _ _ Hrep).
       split; [rewrite !length_app in *; cbn in *; lia|].
       exists e. rewrite elem_of_app, elem_of_cons. split_and!; [auto|lia..]. }
  edestruct (rep_push _ _ (mkRange (start e) (start range - 1)) Hrep')
    as (l' & El & Hrep''); [lia|]. cbn in El. rewrite El. cbn [mbind outcome_bind].
  left. eexists _, _. split; [done|]. split; [done|].
  split; [by apply cut_split_ok|].
  pose proof (cut_split range e Hlo Hhi) as Hcut.
  assert (hits range e) as Hh by (unfold hits, range_ok in *; lia).
  pose proof (cut_no_hits _ _ _ Hr Hcut) as [Hn1 [Hn2 _]%Forall_cons]%Forall_cons.
  rewrite !hit_count_mid, app_nil_r, hit_count_mid, decide_False,
    decide_False, decide_True, !length_app by done.
  cbn [length]. split_and!; [|lia..].
  eapply trims_trans; [by apply (cut_trims range e _ l1 todo Hr He Hh Hcut)|].
  intros x. rewrite !Exists_app, !Exists_cons, !Exists_nil. tauto.
Qed.

Lemma saturating_succ range e :
  range_ok e → end_ range < end_ e →
  saturating_add 64 (end_ range) 1 = end_ range + 1.
Proof. unfold saturating_add, range_ok. lia. Qed.

Lemma saturating_pred range e :
  range_ok e → start e < start range →
  saturating_sub (start range) 1 = start range - 1.
Proof. unfold saturating_sub, range_ok. lia. Qed.

Lemma remove_pass_spec range todo : ∀ rs l1,
  rep rs (l1 ++ todo) → ok_list (l1 ++ todo) → range_ok range →
  Forall (λ e, ¬ hits range e) l1 →
  let r := remove_pass rs range (length l1) (length todo) in
  pass_done range (l1 ++ todo) r ∨ pass_again range (l1 ++ todo) r ∨
  pass_panic range (l1 ++ todo) r.
Proof.
  induction todo as [|e todo IH]; intros rs l1 Hrep Hok Hr Hno; cbn.
  { left. exists rs, (l1 ++ []). rewrite !app_nil_r in *.
    split_and!; eauto using trims_refl. }
  pose proof (Hok) as (Hok' & He & Hap)%ok_list_mid.
  rewrite (rep_index _ _ _ _ Hrep). cbn [mbind outcome_bind].
  rewrite (overlaps_ok _ _ Hr He), (contains_ok _ _ He Hr).
  assert (∀ rs' e', rep rs' (l1 ++ e' :: todo) → ok_list (l1 ++ e' :: todo) →
    ¬ hits range e' →
    let r := remove_pass rs' range (length l1 + 1) (length todo) in
    pass_done range (l1 ++ e' :: todo) r ∨ pass_again range (l1 ++ e' :: todo) r ∨
    pass_panic range (l1 ++ e' :: todo) r) as Hnext.
  { intros rs' e' Hrep' Hokc Hh. rewrite (cons_middle e' l1 todo), app_assoc in *.
    specialize (IH rs' (l1 ++ [e'])). rewrite length_app in IH. apply IH; try done.
    by apply Forall_app_2; [|apply Forall_singleton]. }
  destruct (decide (hits range e)) as [Hh|Hh].
  2: { rewrite bool_decide_false by done. by apply Hnext. }
  rewrite bool_decide_true by done. case_bool_decide as Hc.
  { destruct (rep_delete _ _ _ _ Hrep) as (rs' & -> & Hrep').
    cbn [mbind outcome_bind]. right; left. exists rs', (l1 ++ todo).
    rewrite hit_count_mid, decide_True, !length_app by done. cbn [length].
    split_and!; try done; [|lia..].
    apply (cut_trims range e [] l1 todo); try done. apply cut_all; lia. }
  assert (∀ e', cut range e [e'] →
    let r := l ← index_set (ranges rs) (length l1) e';
             remove_pass (mkRangeSet l (in_use rs)) range (length l1 + 1) (length todo) in
    pass_done range (l1 ++ e :: todo) r ∨ pass_again range (l1 ++ e :: todo) r ∨
    pass_panic range (l1 ++ e :: todo) r) as Htrim.
  { intros e' Hcut. edestruct (rep_set _ _ _ _ e' Hrep) as (l & -> & Hrep').
    eapply pass_step; [done..|]. apply Hnext; [done|by apply (cut_one_ok range e)|].
    by apply cut_no_hits, Forall_cons in Hcut as [Hcut _]. }
  destruct (Z.leb_spec (start range) (start e)).
  { rewrite (saturating_succ range e) by (done || lia). apply Htrim. constructor; lia. }
  rewrite (saturating_pred range e) by (done || lia).
  destruct (Z.leb_spec (end_ e) (end_ range)); [apply Htrim; constructor; lia|].
  rewrite (saturating_succ range e) by (done || lia). right.
  by apply remove_split_spec.
Qed.

Lemma ok_list_apart es a b : ok_list es → a ∈ es → b ∈ es → a = b ∨ apart a b.
Proof.
  intros Hok (l1 & l2 & ->)%list_elem_of_split Hb.
  apply ok_list_mid in Hok as (_ & _ & Hap).
  rewrite elem_of_app, elem_of_cons in Hb. rewrite Forall_forall in Hap.
  destruct (decide (a = b)); [by left|right]. apply Hap. rewrite elem_of_app. naive_solver.
Qed.

(** An interval of member addresses lies in one entry. *)
Lemma covered_interval es lo hi :
  ok_list es → lo ≤ hi → (∀ x, lo ≤ x ≤ hi → Exists (λ r, x ∈ r) es) →
  ∃ e, e ∈ es ∧ start e ≤ lo ∧ hi ≤ end_ e.
Proof.
  intros Hok Hle Hcov. pose proof (Hcov lo ltac:(lia)) as (e & He & Hlo)%Exists_exists.
  exists e. unfold elem_of, elem_of_Range in Hlo. split_and!; [done|lia|].
  destruct (Z.le_gt_cases hi (end_ e)); [done|].
  pose proof (Hcov (end_ e + 1) ltac:(lia)) as (e2 & He2 & Hx)%Exists_exists.
  unfold elem_of, elem_of_Range in Hx.
  destruct (ok_list_apart es e e2 Hok He He2) as [<-|Hap]; [lia|].
  unfold apart in Hap. lia.
Qed.

Lemma hit_count_0 range es :
  Forall (λ e, ¬ hits range e) es → hit_count range es = 0%nat.
Proof.
  unfold hit_count. induction 1 as [|e es He _ IH]; [done|].
  by rewrite filter_cons, decide_False.
Qed.

Lemma strictly_inside_one_hit range es e :
  ok_list es → range_ok range → e ∈ es → start e < start range →
  end_ range < end_ e → hit_count range es = 1%nat.
Proof.
  intros Hok Hr (l1 & l2 & ->)%list_elem_of_split Hlo Hhi.
  apply ok_list_mid in Hok as (_ & _ & Hap).
  rewrite hit_count_mid, decide_True by (unfold hits, range_ok in *; lia).
  rewrite hit_count_0; [done|]. eapply Forall_impl; [done|].
  unfold apart, hits, range_ok in *. intros. lia.
Qed.

(** A split can only be the first thing that happens to a range set. *)
Lemma no_split_after_trim range es es' :
  ok_list es → range_ok range → trims range es es' →
  (hit_count range es' < hit_count range es)%nat → split_overflow range es' → False.
Proof.
  intros Hok Hr Ht Hc (_ & e & He & Hlo & Hhi).
  destruct (covered_interval es (start e) (end_ e)) as (e0 & He0 & ? & ?);
    [done|unfold range_ok in *; lia| |].
  { intros x Hx. apply Ht. apply Exists_exists. by exists e. }
  rewrite (strictly_inside_one_hit range es e0) in Hc by (done || lia).
  apply list_elem_of_split in He as (l1 & l2 & ->).
  rewrite hit_count_mid, decide_True in Hc by (unfold hits, range_ok in *; lia). lia.
Qed.

Lemma try_subtractions_spec range fuel : ∀ rs es,
  rep rs es → ok_list es → range_ok range → (hit_count range es < fuel)%nat →
  (∃ rs' es', try_subtractions fuel rs range = Done rs' ∧ rep rs' es' ∧
     ok_list es' ∧ trims range es es' ∧ Forall (λ e, ¬ hits range e) es') ∨
  pass_panic range es (try_subtractions fuel rs range).
Proof.
  induction fuel as [|fuel IH]; intros rs es Hrep Hok Hr Hf; [lia|]. cbn.
  pose proof (remove_pass_spec range es rs [] Hrep Hok Hr (Forall_nil_2 _)) as Hpass.
  cbn in Hpass. rewrite (rep_in_use _ _ Hrep).
  destruct Hpass as [(rs' & es' & -> & ?)|[(rs' & es' & -> & ? & ? & Ht & Hc & Hl)|[-> ?]]];
    cbn [mbind outcome_bind].
  - left. exists rs', es'. naive_solver.
  - destruct (IH rs' es') as [(rs2 & es2 & ? & ? & ? & ? & ?)|[_ Hs]]; [done..|lia| |].
    + left. exists rs2, es2. split_and!; eauto using trims_trans.
    + exfalso. by apply (no_split_after_trim range es es').
  - by right.
Qed.

(** [remove] on the abstract view. *)
Lemma remove_correct rs range :
  wf rs → range_ok range →
  (∃ rs', remove rs range = Done rs' ∧ wf rs' ∧
          ∀ x, x ∈ rs' ↔ x ∈ rs ∧ x ∉ range) ∨
  (remove rs range = Panic "Too many entries in RangeSet on split" ∧
   split_overflow range (entries rs)).
Proof.
  intros (es & Hrep & Hok) Hr. unfold remove, assert.
  destruct (Z.leb_spec (start range) (end_ range)); [|unfold range_ok in *; lia].
  cbn [mbind outcome_bind]. rewrite (rep_in_use _ _ Hrep), (rep_entries _ _ Hrep).
  pose proof (hit_count_le range es).
  destruct (try_subtractions_spec range (S (length es)) rs es)
    as [(rs' & es' & -> & Hrep' & Hok' & Ht & Hno)|[-> Hs]]; [done..|lia| |by right].
  left. eexists; split; [done|]. split; [by exists es'|]. intros x.
  rewrite (rep_elem_of _ _ x Hrep), (rep_elem_of _ _ x Hrep'). destruct (Ht x) as [Ht1 Ht2].
  split; [|tauto]. intros Hx. split; [tauto|]. intros Hxr.
  apply Exists_exists in Hx as (e & He & Hx). rewrite Forall_forall in Hno.
  apply (Hno e He). unfold hits, elem_of, elem_of_Range in *. lia.
Qed.

(** ** Allocation *)

Section allocate_proofs.
Context (usize_max : Z) (size k : Z).
Context (Hsize : 0 < size < 2 ^ 64) (Hk : 0 ≤ k < 64).

(** The end of the block that starts at the first aligned address of an
    entry. *)
Definition front_end (e : Range) : Z := start e + (size - 1) + align_pad (start e) k.

Definition front_alloc (e : Range) : Z * Z * Z :=
  (start e, front_end e, start e + align_pad (start e) k).

(** The entry has room for an aligned, addressable block. *)
Definition fits (e : Range) : Prop :=
  front_end e ≤ end_ e ∧ front_end e ≤ usize_max.

#[local] Instance fits_dec e : Decision (fits e).
Proof. unfold fits. apply _. Defined.

Definition alloc_ok (es : list Range) (c : Z * Z * Z) : Prop :=
  let '(base, end_alc, ptr) := c in
  ∃ e, e ∈ es ∧ start e ≤ base ≤ ptr ∧ ptr - base < 2 ^ k ∧
       (base = start e ∨ base = ptr) ∧
       end_alc = ptr + (size - 1) ∧ end_alc ≤ end_ e ∧ end_alc ≤ usize_max ∧
       ptr mod 2 ^ k = 0.

Lemma align_fix_eq s :
  is_uint 64 s →
  Z.land (wrapping_sub 64 (2 ^ k) (Z.land s (2 ^ k - 1))) (2 ^ k - 1) = align_pad s k.
Proof using Hk.
  intros Hs. assert (0 < 2 ^ k) by (apply Z.pow_pos_nonneg; lia).
  assert (2 ^ k < 2 ^ 64) by (apply Z.pow_lt_mono_r; lia).
  rewrite !land_mask_mod by lia. pose proof (Z.mod_pos_bound s (2 ^ k)).
  rewrite wrapping_sub_small by (unfold is_uint; lia).
  unfold align_pad. rewrite <- (Z.mod_add (- s) 1) by lia.
  rewrite Zminus_mod_idemp_r. f_equal. lia.
Qed.

(** The two guards on an entry, with the alignment arithmetic done. *)
Lemma search_step_front region a e :
  range_ok e →
  2 ^ 64 ≤ front_end e ∧
    search_step usize_max size (2 ^ k) region a e = Return_None ∨
  front_end e < 2 ^ 64 ∧
    (¬ fits e → search_step usize_max size (2 ^ k) region a e = Continue a) ∧
    (fits e → region = None → search_step usize_max size (2 ^ k) region a e =
       Continue (Some match a with
                      | Some (pbase, pend, p) =>
                          if front_end e - start e <? pend - pbase
                          then front_alloc e else (pbase, pend, p)
                      | None => front_alloc e
                      end)).
Proof using Hsize Hk.
  intros He. destruct (align_pad_spec (start e) k) as [Hpad _]; [lia|].
  unfold search_step. rewrite align_fix_eq by (unfold range_ok, is_uint in *; lia).
  assert (front_end e < 2 ^ 64 ↔
    (checked_add 64 (start e) (size - 1) ≫= λ e0, checked_add 64 e0 (align_pad (start e) k))
    = Some (front_end e)) as Hend.
  { unfold front_end, checked_add. destruct (Z.ltb_spec (start e + (size - 1)) (2 ^ 64));
      cbn; [destruct (Z.ltb_spec (start e + (size - 1) + align_pad (start e) k) (2 ^ 64))|];
      split; intros; try done; lia. }
  destruct (Z.lt_ge_cases (front_end e) (2 ^ 64)) as [Hlt|Hge].
  - right. split; [done|]. rewrite (proj1 Hend Hlt). unfold range_ok, fits in *.
    assert (start e ≤ front_end e) by (unfold front_end; lia).
    repeat (case_match; rewrite ?orb_true_iff, ?orb_false_iff in * ); split;
      intros; try done; subst; try lia; cbn in *; simplify_eq; try done; try lia.
  - left. split; [done|]. case_match eqn:E; [|done]. exfalso.
    revert E. unfold front_end, checked_add in *.
    destruct (Z.ltb_spec (start e + (size - 1)) (2 ^ 64)); cbn; [|done].
    destruct (Z.ltb_spec (start e + (size - 1) + align_pad (start e) k) (2 ^ 64)); [lia|done].
Qed.

Lemma front_alloc_ok es e : e ∈ es → range_ok e → fits e → alloc_ok es (front_alloc e).
Proof using Hk.
  intros Hin He [Hf1 Hf2]. destruct (align_pad_spec (start e) k) as [Hpad Hm]; [lia|].
  exists e. unfold front_end in *. split_and!; try done; try lia.
Qed.

Lemma align_up_multiple s :
  Z.land (wrapping_add 64 s (2 ^ k - 1)) (bnot 64 (2 ^ k - 1)) mod 2 ^ k = 0.
Proof using Hk.
  assert (0 < 2 ^ k) by (apply Z.pow_pos_nonneg; lia).
  rewrite align_down; [|lia|lia|by apply wrap_uint].
  rewrite Zminus_mod_idemp_r, Z.sub_diag. done.
Qed.

(** What a preferred region adds to one turn of the search. *)
Lemma search_step_region r a e :
  range_ok e → range_ok r →
  let s := search_step usize_max size (2 ^ k) (Some r) a e in
  s = search_step usize_max size (2 ^ k) None a e ∨ s = Continue a ∨
  ∃ p, s = Break (Some (p, p + (size - 1), p)) ∧ p mod 2 ^ k = 0 ∧
       Z.max (start e) (start r) ≤ p ∧ p + (size - 1) ≤ Z.min (end_ e) (end_ r) ∧
       p + (size - 1) ≤ usize_max.
Proof using Hk.
  intros He Hr. unfold search_step. cbn [mbind option_bind].
  rewrite overlaps_ok by done.
  pose proof (align_up_multiple (Z.max (start e) (start r))) as Hal.
  destruct (_ ≫= _) as [z|]; [|by left].
  destruct (_ || _); [by left|]. destruct (_ <? _); [by left|].
  destruct (bool_decide _); [cbn [start end_]|by left].
  destruct ((_ <=? _) && _ && _) eqn:E1; [|by left].
  destruct (_ || _) eqn:E2; [right; by left|].
  right; right. eexists. rewrite orb_false_iff, !andb_true_iff in *.
  split_and!; [done|done|lia..].
Qed.

(** Every candidate the search keeps is an aligned free block. *)
Lemma search_step_sound region a e es :
  range_ok e → e ∈ es → (∀ r, region = Some r → range_ok r) →
  (∀ c, a = Some c → alloc_ok es c) →
  match search_step usize_max size (2 ^ k) region a e with
  | Return_None => True
  | Continue a' | Break a' => ∀ c, a' = Some c → alloc_ok es c
  end.
Proof using Hsize Hk.
  intros He Hin Hreg Ha.
  assert (match search_step usize_max size (2 ^ k) None a e with
          | Return_None => True
          | Continue a' | Break a' => ∀ c, a' = Some c → alloc_ok es c
          end) as Hnone.
  { destruct (search_step_front None a e He) as [[_ ->]|(Hlt & Hnofit & Hfit)]; [done|].
    destruct (decide (fits e)) as [Hf|Hf]; [|by rewrite Hnofit].
    pose proof (front_alloc_ok es e Hin He Hf) as Hfront.
    rewrite Hfit by done. intros c [= <-]. destruct a as [[[??]?]|]; [|done].
    case_match; by eauto. }
  destruct region as [r|]; [|done].
  destruct (search_step_region r a e He (Hreg r eq_refl))
    as [->|[->|(p & -> & Hp & ? & ? & ?)]]; [done|done|].
  intros c [= <-]. assert (0 < 2 ^ k) by (apply Z.pow_pos_nonneg; lia).
  exists e. split_and!; try done; try (by right); lia.
Qed.

Lemma search_loop_sound region es : ∀ l a c,
  Forall range_ok l → (∀ e, e ∈ l → e ∈ es) →
  (∀ r, region = Some r → range_ok r) → (∀ c, a = Some c → alloc_ok es c) →
  search_loop usize_max size (2 ^ k) region a l = Some (Some c) → alloc_ok es c.
Proof using Hsize Hk.
  induction l as [|e l IH]; cbn; intros a c Hok Hsub Hreg Ha Hs; [naive_solver|].
  apply Forall_cons in Hok as [He Hok].
  pose proof (search_step_sound region a e es He) as Hstep.
  specialize (Hstep (Hsub e (list_elem_of_here _ _)) Hreg Ha).
  destruct (search_step _ _ _ _ _ _) as [|a'|a']; [done| |naive_solver].
  eapply (IH a'); try done. intros e' He'. apply Hsub. by right.
Qed.

(** With no preferred region the search returns the candidate with the least
    padding, unless an entry makes the function give up. *)
Lemma search_loop_best : ∀ l a,
  Forall range_ok l →
  match search_loop usize_max size (2 ^ k) None a l with
  | None => ∃ e, e ∈ l ∧ 2 ^ 64 ≤ front_end e
  | Some r =>
      (∀ e, e ∈ l → front_end e < 2 ^ 64) ∧
      match r with
      | None => a = None ∧ ∀ e, e ∈ l → ¬ fits e
      | Some c =>
          (a = Some c ∨ ∃ e, e ∈ l ∧ fits e ∧ c = front_alloc e) ∧
          (∀ e, e ∈ l → fits e → c.1.2 - c.1.1 ≤ front_end e - start e) ∧
          (∀ c', a = Some c' → c.1.2 - c.1.1 ≤ c'.1.2 - c'.1.1)
      end
  end.
Proof using Hsize Hk.
  induction l as [|e l IH]; intros a Hok; cbn.
  { split; [by intros e ?%elem_of_nil|]. destruct a as [c|].
    - split_and!; [by left|by intros e ?%elem_of_nil|by intros c' [= ->]].
    - split; [done|]. by intros e ?%elem_of_nil. }
  apply Forall_cons in Hok as [He Hok].
  destruct (search_step_front None a e He) as [[Hge ->]|(Hlt & Hnofit & Hfit)].
  { exists e. split; [apply list_elem_of_here|done]. }
  destruct (decide (fits e)) as [Hf|Hf]; [rewrite Hfit by done|rewrite Hnofit by done].
  all: clear Hnofit Hfit.
  - match goal with |- context [search_loop _ _ _ _ ?a' l] => set (a1 := a') end.
    specialize (IH a1 Hok).
    destruct (search_loop _ _ _ _ a1 l) as [[c|]|] eqn:Es;
      [|by destruct IH as (_ & ? & _)|].
    2: { destruct IH as (e' & ? & ?). exists e'. split; [by right|done]. }
    destruct IH as (Hall & Hor & Hmin & Hprev).
    assert (c.1.2 - c.1.1 ≤ front_end e - start e ∧
            ∀ c', a = Some c' → c.1.2 - c.1.1 ≤ c'.1.2 - c'.1.1) as [Hle1 Hle2].
    { specialize (Hprev _ eq_refl). unfold a1 in Hprev.
      destruct a as [[[pb pe] pp]|]; [destruct (Z.ltb_spec (front_end e - start e) (pe - pb))|];
        cbn in Hprev; split; try lia; intros ? [= <-]; cbn; lia. }
    split; [intros e' [->|?]%elem_of_cons; auto|]. split_and!.
    + destruct Hor as [Hc|(e' & ? & ? & ?)]; [|right; exists e'; split; [by right|done]].
      unfold a1 in Hc. injection Hc as <-.
      destruct a as [[[pb pe] pp]|]; [case_match; [|by left]|];
        right; exists e; (split; [apply list_elem_of_here|done]).
    + intros e' [->|?]%elem_of_cons ?; [lia|auto].
    + done.
  - specialize (IH a Hok).
    destruct (search_loop _ _ _ _ a l) as [[c|]|] eqn:Es.
    + destruct IH as (Hall & Hor & Hmin & Hprev). split_and!; try done.
      * intros e' [->|?]%elem_of_cons; auto.
      * destruct Hor as [?|(e' & ? & ?)]; [by left|right; exists e'; split; [by right|done]].
      * intros e' [->|?]%elem_of_cons ?; [done|auto].
    + destruct IH as (Hall & -> & Hno). split_and!; try done.
      * intros e' [->|?]%elem_of_cons; auto.
      * intros e' [->|?]%elem_of_cons; auto.
    + destruct IH as (e' & ? & ?). exists e'. split; [by right|done].
Qed.
End allocate_proofs.

Lemma wf_rep rs : wf rs → rep rs (entries rs) ∧ ok_list (entries rs).
Proof. intros (es & Hrep & Hok). by rewrite (rep_entries _ _ Hrep). Qed.

Lemma front_fits_elem usize_max size k e p :
  0 ≤ k → start e ≤ p → p mod 2 ^ k = 0 → p + size - 1 ≤ end_ e →
  p + size - 1 ≤ usize_max → fits usize_max size k e.
Proof.
  intros Hk Hle Hp He Hu. pose proof (align_pad_least (start e) k p Hk Hle Hp).
  unfold fits, front_end. lia.
Qed.

(** Removing a block that starts an entry never splits. *)
Lemma remove_front_correct rs e b :
  wf rs → e ∈ entries rs → start e ≤ b ≤ end_ e →
  ∃ rs', remove rs (mkRange (start e) b) = Done rs' ∧ wf rs' ∧
         ∀ x, x ∈ rs' ↔ x ∈ rs ∧ x ∉ mkRange (start e) b.
Proof.
  intros Hwf He Hb. destruct (wf_rep rs Hwf) as (_ & Hok).
  pose proof (proj1 (Forall_forall _ _) (proj1 Hok) e He) as Hre.
  destruct (remove_correct rs (mkRange (start e) b) Hwf) as [|(_ & _ & e' & He' & Hlo & Hhi)];
    [unfold range_ok in *; cbn; lia|done|exfalso].
  cbn in *. destruct (ok_list_apart _ e e' Hok He He') as [<-|Hap]; [lia|].
  unfold apart in Hap. lia.
Qed.

(** The block found in a well-formed set, and what removing it leaves. *)
Lemma remove_alloc_correct usize_max size k rs base end_alc ptr rs' :
  wf rs → 0 < size → 0 ≤ k →
  alloc_ok usize_max size k (entries rs) (base, end_alc, ptr) →
  remove rs (mkRange base end_alc) = Done rs' →
  wf rs' ∧ ptr mod 2 ^ k = 0 ∧ ptr + size - 1 ≤ usize_max ∧
  ptr - 2 ^ k < base ≤ ptr ∧
  (∀ x, base ≤ x < ptr + size → x ∈ rs) ∧
  (∀ x, x ∈ rs' ↔ x ∈ rs ∧ ¬ (base ≤ x < ptr + size)).
Proof.
  intros Hwf Hsize Hk (e & He & Hb & Hpad & Hbase & Eend & Hend & Hu & Hal) Hrem.
  destruct (wf_rep rs Hwf) as (Hrep & Hok).
  pose proof (proj1 (Forall_forall _ _) (proj1 Hok) e He) as Hre. unfold range_ok in Hre.
  destruct (remove_correct rs (mkRange base end_alc) Hwf) as [(rs1 & E & Hwf' & Hin)|[E _]];
    [unfold range_ok; cbn; lia| |congruence].
  rewrite Hrem in E. injection E as <-. split_and!; try done; try lia.
  - intros x Hx. rewrite (rep_elem_of _ _ x Hrep). apply Exists_exists. exists e.
    unfold elem_of, elem_of_Range. split; [done|lia].
  - intros x. rewrite Hin, elem_of_mkRange. split; intros [? ?]; (split; [done|lia]).
Qed.

(** A block [allocate_prefer] hands out. *)
Lemma allocate_prefer_correct usize_max rs size k region ptr rs' :
  wf rs → 0 < size < 2 ^ 64 → 0 ≤ k < 64 →
  (∀ r, region = Some r → range_ok r) →
  allocate_prefer usize_max rs size (2 ^ k) region = Done (Some ptr, rs') →
  ∃ base,
    wf rs' ∧ ptr mod 2 ^ k = 0 ∧ ptr + size - 1 ≤ usize_max ∧
    ptr - 2 ^ k < base ≤ ptr ∧
    (∀ x, base ≤ x < ptr + size → x ∈ rs) ∧
    (∀ x, x ∈ rs' ↔ x ∈ rs ∧ ¬ (base ≤ x < ptr + size)).
Proof.
  intros Hwf Hsize Hk Hreg Halc. destruct (wf_rep rs Hwf) as (_ & Hok & _).
  unfold allocate_prefer in Halc. rewrite count_ones_pow2 in Halc by lia.
  destruct (Z.eqb_spec size 0); [lia|]. cbn [negb Z.eqb Pos.eqb] in Halc.
  destruct (search_loop _ _ _ _ _ _) as [[[[base end_alc] p]|]|] eqn:Es; [|done..].
  outcome_inv. exists base.
  eapply remove_alloc_correct; [done|lia|lia| |done].
  by apply (search_loop_sound usize_max size k Hsize Hk region _ (entries rs) None).
Qed.

(** Without a preferred region, [allocate] always returns. *)
Lemma allocate_returns usize_max rs size k : wf rs → 0 < size < 2 ^ 64 → 0 ≤ k < 64 →
  returns (allocate usize_max rs size (2 ^ k)).
Proof.
  intros Hwf Hsize Hk. destruct (wf_rep rs Hwf) as (Hrep & Hok).
  unfold allocate, allocate_prefer. rewrite count_ones_pow2 by lia.
  destruct (Z.eqb_spec size 0); [lia|]. cbn [negb Z.eqb Pos.eqb].
  pose proof (search_loop_best usize_max size k Hsize Hk (entries rs) None (proj1 Hok)) as Hb.
  destruct (search_loop _ _ _ _ _ _) as [[c|]|]; [|by eexists..].
  destruct Hb as (_ & [|(e & He & Hf & ->)] & _); [done|].
  pose proof (proj1 (Forall_forall _ _) (proj1 Hok) e He) as Hre. unfold front_alloc. cbn beta iota.
  destruct (remove_front_correct rs e (front_end size k e)) as (rs' & -> & _); [done..| |by eexists].
  unfold fits, front_end in *. pose proof (align_pad_spec (start e) k). lia.
Qed.

(** ** Counting *)

Fixpoint weight (l : list Range) : Z :=
  match l with [] => 0 | r :: l => (end_ r - start r + 1) + weight l end.

(** All member addresses of a list of entries. *)
Definition addresses (l : list Range) : list Z :=
  l ≫= λ r, seqZ (start r) (end_ r - start r + 1).

Lemma elem_of_addresses l x : x ∈ addresses l ↔ Exists (λ r, x ∈ r) l.
Proof.
  unfold addresses. rewrite list_elem_of_bind, Exists_exists.
  split; intros (r & H1 & H2); exists r.
  - rewrite elem_of_seqZ in H1. split; [done|]. unfold elem_of, elem_of_Range. lia.
  - rewrite elem_of_seqZ. unfold elem_of, elem_of_Range in H2. split; [lia|done].
Qed.

Lemma length_addresses l : Forall range_ok l → Z.of_nat (length (addresses l)) = weight l.
Proof.
  induction 1 as [|r l Hr _ IH]; [done|]. unfold range_ok in Hr.
  change (addresses (r :: l)) with (seqZ (start r) (end_ r - start r + 1) ++ addresses l).
  rewrite length_app, length_seqZ. cbn [weight]. lia.
Qed.

Lemma NoDup_addresses l : ok_list l → NoDup (addresses l).
Proof.
  intros [Hok Hs]. induction Hok as [|r l Hr Hok IH]; [constructor|].
  destruct Hs as [Hap Hs].
  change (addresses (r :: l)) with (seqZ (start r) (end_ r - start r + 1) ++ addresses l).
  apply NoDup_app. split_and!; [apply NoDup_seqZ| |by auto].
  intros x Hx Hx'. apply elem_of_seqZ in Hx.
  apply elem_of_addresses, Exists_exists in Hx' as (r' & Hr' & Hx').
  rewrite Forall_forall in Hap. specialize (Hap r' Hr').
  unfold apart, elem_of, elem_of_Range in *. lia.
Qed.

(** Entries with gaps between them: the gaps count too. *)
Lemma weight_bound n : ∀ l lo hi,
  length l = n → ok_list l → lo ≤ hi + 1 →
  Forall (λ r, lo ≤ start r ∧ end_ r < hi) l →
  weight l + Z.of_nat (length l) ≤ hi - lo + 1.
Proof.
  induction n as [n IH] using lt_wf_ind. intros [|r l] lo hi Hn Hok Hlh Hin; [cbn; lia|].
  apply (ok_list_mid []) in Hok as (Hok & Hr & Hap). cbn in Hok, Hap.
  apply Forall_cons in Hin as [Hrin Hin].
  set (below := filter (λ r', end_ r' < start r) l).
  set (above := filter (λ r', ¬ end_ r' < start r) l).
  assert (weight l + Z.of_nat (length l) =
    (weight below + Z.of_nat (length below)) + (weight above + Z.of_nat (length above))) as Hsplit.
  { unfold below, above. clear. induction l as [|a l IH]; [done|].
    rewrite !filter_cons. repeat case_decide; try done; cbn in *; lia. }
  assert (∀ P `{!∀ x, Decision (P x)}, ok_list (filter P l)) as Hokf.
  { intros P ?. clear -Hok. unfold ok_list in *. destruct Hok as [Hok Hs].
    induction Hok as [|a l Ha Hok IHl]; [done|]. destruct Hs as [Hap Hs].
    rewrite filter_cons. case_decide; [|by auto]. destruct (IHl Hs).
    split; [by constructor|]. split; [|done]. apply Forall_forall.
    intros x [_ Hx]%list_elem_of_filter. rewrite Forall_forall in Hap. by apply Hap. }
  assert (length below ≤ length l ∧ length above ≤ length l)%nat as [Hb Ha]
    by (split; apply length_filter).
  assert (weight below + Z.of_nat (length below) ≤ start r - 1 - lo + 1).
  { eapply (IH (length below)); [cbn in Hn; lia|done|apply Hokf|unfold range_ok in *; lia|].
    apply Forall_forall. intros x [Hx1 Hx2]%list_elem_of_filter.
    rewrite Forall_forall in Hin, Hap. specialize (Hin x Hx2). specialize (Hap x Hx2).
    destruct Hok as [Hok _]. rewrite Forall_forall in Hok. specialize (Hok x Hx2).
    unfold apart, range_ok in *. lia. }
  assert (weight above + Z.of_nat (length above) ≤ hi - (end_ r + 2) + 1).
  { eapply (IH (length above)); [cbn in Hn; lia|done|apply Hokf|lia|].
    apply Forall_forall. intros x [Hx1 Hx2]%list_elem_of_filter.
    rewrite Forall_forall in Hin, Hap. specialize (Hin x Hx2). specialize (Hap x Hx2).
    destruct Hok as [Hok _]. rewrite Forall_forall in Hok. specialize (Hok x Hx2).
    unfold apart, range_ok in *. lia. }
  cbn [weight length] in *. unfold range_ok in *. lia.
Qed.

Lemma sum_entries_weight l : ∀ acc,
  Forall range_ok l → 0 ≤ acc → acc + weight l < 2 ^ 64 →
  sum_entries acc l = Some (acc + weight l).
Proof.
  induction l as [|r l IH]; intros acc Hok Hacc Hlt; cbn in *; [f_equal; lia|].
  apply Forall_cons in Hok as [Hr Hok]. unfold range_ok in Hr.
  assert (0 ≤ weight l).
  { clear -Hok. induction Hok as [|r l Hr _ IH]; cbn; [lia|]. unfold range_ok in Hr. lia. }
  rewrite wrapping_sub_small by (unfold is_uint; lia). unfold checked_add.
  destruct (Z.ltb_spec (end_ r - start r + 1) (2 ^ 64)); [|lia]. cbn.
  rewrite wrapping_add_small by (unfold is_uint; lia). rewrite IH by (done || lia).
  f_equal. lia.
Qed.

Lemma sum_correct rs :
  wf rs → sum rs = if weight (entries rs) <? 2 ^ 64
                   then Some (weight (entries rs)) else None.
Proof.
  intros Hwf. destruct (wf_rep rs Hwf) as (_ & Hok). unfold sum.
  destruct (Z.ltb_spec (weight (entries rs)) (2 ^ 64)) as [Hlt|Hge].
  { rewrite sum_entries_weight; [done|apply Hok|lia|lia]. }
  pose proof (weight_bound _ _ 0 (2 ^ 64) eq_refl Hok ltac:(lia)) as Hb.
  destruct (entries rs) as [|r [|r' l]]; [cbn in Hge; lia| |].
  - apply (ok_list_mid []) in Hok as (_ & Hr & _). unfold range_ok in Hr. cbn in *.
    rewrite wrapping_sub_small by (unfold is_uint; lia). unfold checked_add.
    destruct (Z.ltb_spec (end_ r - start r + 1) (2 ^ 64)); [lia|done].
  - exfalso. cbn [length] in Hb. assert (weight (r :: r' :: l) + 2 ≤ 2 ^ 64 + 1); [|lia].
    etransitivity; [|rewrite <- (Z.sub_0_r (2 ^ 64)); apply Hb]; [lia|].
    destruct Hok as [Hok _]. eapply Forall_impl; [done|]. unfold range_ok. intros. lia.
Qed.

(** ** How many entries an operation adds *)

Lemma elem_of_dec (es : list Range) (x : Z) : Exists (λ r, x ∈ r) es ∨ ¬ Exists (λ r, x ∈ r) es.
Proof.
  induction es as [|e es [IH|IH]]; [right; intros H; inversion H|left; by right|].
  destruct (decide (start e ≤ x ≤ end_ e)); [left; by left|right].
  by rewrite Exists_cons; intros [|].
Qed.

(** The entries start where the set does. *)
Lemma start_boundary es e : ok_list es → e ∈ es →
  Exists (λ r, start e ∈ r) es ∧ ¬ Exists (λ r, start e - 1 ∈ r) es.
Proof.
  intros Hok He. pose proof (proj1 (Forall_forall _ _) (proj1 Hok) e He) as Hr. split.
  - apply Exists_exists. exists e. unfold range_ok, elem_of, elem_of_Range in *. split; [done|lia].
  - intros (e' & He' & Hx)%Exists_exists. unfold elem_of, elem_of_Range in Hx.
    destruct (ok_list_apart es e e' Hok He He') as [<-|Hap]; [lia|].
    pose proof (proj1 (Forall_forall _ _) (proj1 Hok) e' He') as Hr'.
    unfold apart, range_ok in *. lia.
Qed.

Lemma boundary_start es x : Exists (λ r, x ∈ r) es → ¬ Exists (λ r, x - 1 ∈ r) es →
  ∃ e, e ∈ es ∧ start e = x.
Proof.
  intros (e & He & Hx)%Exists_exists Hno. exists e. split; [done|].
  destruct (decide (start e = x)); [done|]. exfalso. apply Hno, Exists_exists.
  exists e. unfold elem_of, elem_of_Range in *. split; [done|lia].
Qed.

Lemma NoDup_starts es : ok_list es → NoDup (start <$> es).
Proof.
  induction es as [|e es IH]; intros Hok; [constructor|]. cbn. constructor.
  - intros (e' & Heq & He')%list_elem_of_fmap.
    pose proof Hok as (_ & He & Hap)%(ok_list_mid []). cbn in Hap. rewrite Forall_forall in Hap.
    specialize (Hap e' He'). destruct Hok as [Hall _]. rewrite Forall_cons, Forall_forall in Hall.
    pose proof (proj2 Hall e' He'). unfold apart, range_ok in *. lia.
  - apply IH. by pose proof Hok as (Hok' & _)%(ok_list_mid []).
Qed.

(** A set with at most one new boundary has at most one more entry. *)
Lemma in_use_bound rs rs' a : wf rs → wf rs' →
  (∀ x, x ∈ rs' → x - 1 ∉ rs' → x = a ∨ (x ∈ rs ∧ x - 1 ∉ rs)) →
  (in_use rs' ≤ S (in_use rs))%nat.
Proof.
  intros (es & Hrep & Hok) (es' & Hrep' & Hok') Hb.
  rewrite (rep_in_use _ _ Hrep), (rep_in_use _ _ Hrep').
  rewrite <- (length_fmap start es), <- (length_fmap start es').
  change (S (length (start <$> es))) with (length (a :: (start <$> es))).
  apply submseteq_length, NoDup_submseteq; [by apply NoDup_starts|].
  intros x (e & -> & He)%list_elem_of_fmap. apply elem_of_cons.
  destruct (start_boundary es' e Hok' He) as [H1 H2].
  apply (rep_elem_of _ _ _ Hrep') in H1. rewrite <- (rep_elem_of _ _ _ Hrep') in H2.
  destruct (Hb (start e) H1 H2) as [|[H3 H4]]; [by left|right].
  apply (rep_elem_of _ _ _ Hrep) in H3. rewrite (rep_elem_of _ _ _ Hrep) in H4.
  destruct (boundary_start es _ H3 H4) as (e0 & He0 & <-). by apply list_elem_of_fmap_2.
Qed.

Lemma insert_in_use rs rs' (range : Range) : wf rs → wf rs' →
  (∀ x, x ∈ rs' ↔ x ∈ rs ∨ x ∈ range) → (in_use rs' ≤ S (in_use rs))%nat.
Proof.
  intros Hwf Hwf' Hin. apply (in_use_bound _ _ (start range)); [done..|].
  intros x. rewrite !Hin. unfold elem_of at 2 4, elem_of_Range. intros [Hx|Hx] Hno; [|lia].
  right. split; [done|]. tauto.
Qed.

Lemma remove_in_use rs rs' (range : Range) : wf rs → wf rs' →
  (∀ x, x ∈ rs' ↔ x ∈ rs ∧ x ∉ range) → (in_use rs' ≤ S (in_use rs))%nat.
Proof.
  intros Hwf Hwf' Hin. apply (in_use_bound _ _ (end_ range + 1)); [done..|].
  intros x. rewrite !Hin. destruct (elem_of_dec (entries rs) (x - 1)) as [Hd|Hd].
  - intros [Hx Hr] Hno. left. unfold elem_of, elem_of_Range in Hr, Hno.
    assert (¬ ¬ (start range ≤ x - 1 ≤ end_ range)) as Hin' by (intros Hn; by apply Hno).
    lia.
  - intros [Hx Hr] _. by right.
Qed.

Lemma wf_uint rs x : wf rs → x ∈ rs → is_uint 64 x.
Proof.
  intros (es & Hrep & Hok & _) Hx. apply (rep_elem_of _ _ _ Hrep), Exists_exists in Hx as (e & He & Hx).
  rewrite Forall_forall in Hok. specialize (Hok e He).
  unfold range_ok, elem_of, elem_of_Range, is_uint in *. lia.
Qed.

(** ** Properties *)

Section properties.
Context (usize_max : Z).

(** C1: on a well-formed range set, [insert] of a valid range returns a
    well-formed range set holding exactly the old addresses and those of the
    range; it panics only when all 256 entries are in use and the range
    touches none of them. *)
Theorem insert_spec rs range :
  wf rs → range_ok range →
  (∃ rs', insert rs range = Done rs' ∧ wf rs' ∧
          ∀ x, x ∈ rs' ↔ x ∈ rs ∨ x ∈ range) ∨
  (insert rs range = Panic "Too many entries in RangeSet on insert" ∧
   in_use rs = CAPACITY ∧ Forall (apart range) (entries rs)).
Proof. apply insert_correct. Qed.

(** C2: on a well-formed range set, [remove] of a valid range returns a
    well-formed range set holding exactly the old addresses outside the range;
    it panics only when all 256 entries are in use and one of them has to be
    split. *)
Theorem remove_spec rs range :
  wf rs → range_ok range →
  (∃ rs', remove rs range = Done rs' ∧ wf rs' ∧
          ∀ x, x ∈ rs' ↔ x ∈ rs ∧ x ∉ range) ∨
  (remove rs range = Panic "Too many entries in RangeSet on split" ∧
   split_overflow range (entries rs)).
Proof. apply remove_correct. Qed.

(** C3: a block [allocate_prefer] hands out is aligned, addressable and was
    free; what it takes out of the set is exactly that block and the padding
    in front of it, less than one alignment unit. *)
Theorem allocate_prefer_sound rs size k region ptr rs' :
  wf rs → 0 < size < 2 ^ 64 → 0 ≤ k < 64 →
  (∀ r, region = Some r → range_ok r) →
  allocate_prefer usize_max rs size (2 ^ k) region = Done (Some ptr, rs') →
  ∃ base,
    wf rs' ∧ ptr mod 2 ^ k = 0 ∧ ptr + size - 1 ≤ usize_max ∧
    ptr - 2 ^ k < base ≤ ptr ∧
    (∀ x, base ≤ x < ptr + size → x ∈ rs) ∧
    (∀ x, x ∈ rs' ↔ x ∈ rs ∧ ¬ (base ≤ x < ptr + size)).
Proof. apply allocate_prefer_correct. Qed.

(** C27: when no entry is so close to the top of the address space that the
    block would wrap, [allocate] succeeds exactly when some entry has room for
    an aligned, addressable block, it never panics, and the block it chooses
    needs the least padding. *)
Theorem allocate_complete rs size k :
  wf rs → 0 < size < 2 ^ 64 → 0 ≤ k < 64 →
  (∀ e, e ∈ entries rs → front_end size k e < 2 ^ 64) →
  (allocate usize_max rs size (2 ^ k) = Done (None, rs) ∧
   ∀ p, p mod 2 ^ k = 0 → p + size - 1 ≤ usize_max →
        ¬ (∀ x, p ≤ x < p + size → x ∈ rs)) ∨
  (∃ e rs', allocate usize_max rs size (2 ^ k) =
              Done (Some (start e + align_pad (start e) k), rs') ∧
     e ∈ entries rs ∧ fits usize_max size k e ∧
     ∀ e', e' ∈ entries rs → fits usize_max size k e' →
           align_pad (start e) k ≤ align_pad (start e') k).
Proof.
  intros Hwf Hsize Hk Hno. destruct (wf_rep rs Hwf) as (Hrep & Hok).
  unfold allocate, allocate_prefer. rewrite count_ones_pow2 by lia.
  destruct (Z.eqb_spec size 0); [lia|]. cbn [negb Z.eqb Pos.eqb].
  pose proof (search_loop_best usize_max size k Hsize Hk (entries rs) None (proj1 Hok)) as Hb.
  destruct (search_loop _ _ _ _ _ _) as [[c|]|].
  - right. destruct Hb as (_ & [|(e & He & Hf & ->)] & Hmin & _); [done|].
    pose proof (proj1 (Forall_forall _ _) (proj1 Hok) e He) as Hre.
    unfold front_alloc. cbn beta iota.
    destruct (remove_front_correct rs e (front_end size k e)) as (rs' & -> & _); [done..| |].
    { unfold fits, front_end in *. pose proof (align_pad_spec (start e) k). lia. }
    exists e, rs'. split_and!; try done. intros e' He' Hf'. specialize (Hmin e' He' Hf').
    cbn in Hmin. unfold front_end in Hmin. lia.
  - left. destruct Hb as (_ & _ & Hnf). split; [done|]. intros p Hp Hu Hall.
    destruct (covered_interval (entries rs) p (p + size - 1)) as (e & He & Hlo & Hhi);
      [done|lia| |].
    { intros x Hx. apply (rep_elem_of _ _ x Hrep), Hall. lia. }
    eapply (Hnf e He), front_fits_elem; [lia|done..|lia|done].
  - exfalso. destruct Hb as (e & He & Hge). specialize (Hno e He). lia.
Qed.

(** one entry whose aligned block would pass the top of the address space
    makes [allocate] fail, whatever the other entries hold. *)
Theorem allocate_gives_up rs size k e :
  wf rs → 0 < size < 2 ^ 64 → 0 ≤ k < 64 →
  e ∈ entries rs → 2 ^ 64 ≤ front_end size k e →
  allocate usize_max rs size (2 ^ k) = Done (None, rs).
Proof.
  intros Hwf Hsize Hk He Hge. destruct (wf_rep rs Hwf) as (Hrep & Hok).
  unfold allocate, allocate_prefer. rewrite count_ones_pow2 by lia.
  destruct (Z.eqb_spec size 0); [lia|]. cbn [negb Z.eqb Pos.eqb].
  pose proof (search_loop_best usize_max size k Hsize Hk (entries rs) None (proj1 Hok)) as Hb.
  destruct (search_loop _ _ _ _ _ _) as [r|]; [|done].
  destruct Hb as (Hlt & _). specialize (Hlt e He). lia.
Qed.

(** [sum] is the number of addresses in the set; it is [None] exactly when
    the set is the whole 64-bit address space. *)
Theorem sum_spec rs l :
  wf rs → NoDup l → (∀ x, x ∈ l ↔ x ∈ rs) →
  sum rs = if Z.of_nat (length l) <? 2 ^ 64 then Some (Z.of_nat (length l)) else None.
Proof.
  intros Hwf Hnd Hl. destruct (wf_rep rs Hwf) as (Hrep & Hok).
  rewrite sum_correct by done. rewrite <- (length_addresses (entries rs)) by apply Hok.
  assert (l ≡ₚ addresses (entries rs)) as Hp; [|by rewrite !(Permutation_length Hp)].
  apply NoDup_Permutation; [done|by apply NoDup_addresses|].
  intros x. by rewrite Hl, (rep_elem_of _ _ x Hrep), elem_of_addresses.
Qed.
End properties.

(** ** Witnesses *)

(** A range set with the given entries, and the decidable side of [wf]. *)
Definition of_entries (es : list Range) : RangeSet :=
  mkRangeSet (es ++ replicate (CAPACITY - length es) (mkRange 0 0)) (length es).

Lemma of_entries_wf es :
  (length es ≤ CAPACITY)%nat → ok_list es → wf (of_entries es).
Proof.
  intros Hl Hok. exists es. split; [|done]. eexists. split; [done|]. split; [done|].
  rewrite length_app, length_replicate. lia.
Qed.

Ltac solve_ok_list :=
  unfold ok_list, range_ok, apart; cbn; repeat constructor; cbn; lia.

(** Two free regions of a small machine. *)
Definition demo_set : RangeSet :=
  of_entries [mkRange 0x100000 0x7fffff; mkRange 0x900000 0xffffff].

Lemma demo_wf : wf demo_set.
Proof. apply of_entries_wf; [cbn; unfold CAPACITY; lia|solve_ok_list]. Qed.

Lemma insert_spec_witness :
  wf demo_set ∧ range_ok (mkRange 0x800000 0x8fffff) ∧
  ∃ rs', insert demo_set (mkRange 0x800000 0x8fffff) = Done rs' ∧
         entries rs' = [mkRange 0x100000 0xffffff] ∧
         ∀ x, x ∈ rs' ↔ x ∈ demo_set ∨ x ∈ mkRange 0x800000 0x8fffff.
Proof.
  split; [exact demo_wf|]. split; [unfold range_ok; cbn; lia|].
  destruct (insert_spec demo_set (mkRange 0x800000 0x8fffff) demo_wf)
    as [(rs' & E & _ & H)|[E _]]; [unfold range_ok; cbn; lia| |discriminate E].
  exists rs'. split; [exact E|]. split; [|exact H].
  vm_compute in E. injection E as <-. reflexivity.
Defined.

Lemma remove_spec_witness :
  wf demo_set ∧
  ∃ rs', remove demo_set (mkRange 0x200000 0x2fffff) = Done rs' ∧
         entries rs' = [mkRange 0x300000 0x7fffff; mkRange 0x900000 0xffffff;
                        mkRange 0x100000 0x1fffff] ∧
         ∀ x, x ∈ rs' ↔ x ∈ demo_set ∧ x ∉ mkRange 0x200000 0x2fffff.
Proof.
  split; [exact demo_wf|].
  destruct (remove_spec demo_set (mkRange 0x200000 0x2fffff) demo_wf)
    as [(rs' & E & _ & H)|[E _]]; [unfold range_ok; cbn; lia| |discriminate E].
  exists rs'. split; [exact E|]. split; [|exact H].
  vm_compute in E. injection E as <-. reflexivity.
Defined.

Lemma allocate_prefer_sound_witness :
  ∃ rs', allocate_prefer u64_max demo_set 0x1000 (2 ^ 12)
           (Some (mkRange 0xa00001 0xffffff)) = Done (Some 0xa01000, rs') ∧
         0xa01000 mod 2 ^ 12 = 0 ∧ (0xa01000 ∈ rs' → False).
Proof.
  eexists. split; [vm_compute; reflexivity|].
  match goal with |- context [_ ∈ ?rs] => set (rs' := rs) end.
  destruct (allocate_prefer_sound u64_max demo_set 0x1000 12
              (Some (mkRange 0xa00001 0xffffff)) 0xa01000 rs')
    as (base & _ & Hal & _ & Hb & _ & Hin).
  - exact demo_wf.
  - lia.
  - lia.
  - intros r [= <-]. unfold range_ok. cbn. lia.
  - vm_compute. reflexivity.
  - split; [exact Hal|]. intros [_ H]%Hin. apply H. lia.
Defined.

Lemma allocate_complete_witness :
  ∃ p rs', allocate u64_max demo_set 0x1000 (2 ^ 12) = Done (Some p, rs') ∧
           p = 0x100000.
Proof.
  destruct (allocate_complete u64_max demo_set 0x1000 12) as [[E _]|(e & rs' & E & _)].
  - exact demo_wf.
  - lia.
  - lia.
  - intros e He. vm_compute in He. apply elem_of_cons in He as [->|He]; [reflexivity|].
    apply elem_of_cons in He as [->|He]; [reflexivity|]. by apply elem_of_nil in He.
  - vm_compute in E. discriminate E.
  - assert (∃ r, allocate u64_max demo_set 0x1000 (2 ^ 12) = Done (Some 0x100000, r))
      as [r Er] by (eexists; vm_compute; reflexivity).
    eexists _, rs'. split; [exact E|]. rewrite Er in E. injection E as <- _. reflexivity.
Defined.

(** 16 MiB of low memory and the last page of the address space. *)
Definition top_set : RangeSet :=
  of_entries [mkRange 0 0xffffff; mkRange 0xfffffffffffff000 0xffffffffffffffff].

Lemma top_wf : wf top_set.
Proof. apply of_entries_wf; [cbn; unfold CAPACITY; lia|solve_ok_list]. Qed.

Lemma allocate_gives_up_witness :
  allocate u64_max top_set 0x2000 (2 ^ 12) = Done (None, top_set) ∧
  ∀ x, 0 ≤ x < 0x2000 → x ∈ top_set.
Proof.
  split.
  - apply (allocate_gives_up u64_max top_set 0x2000 12
             (mkRange 0xfffffffffffff000 0xffffffffffffffff)).
    + exact top_wf.
    + lia.
    + lia.
    + right. left.
    + vm_compute. discriminate.
  - intros x Hx. left. unfold elem_of, elem_of_Range. cbn. lia.
Defined.

Lemma sum_spec_witness :
  sum (of_entries [mkRange 3 5; mkRange 8 8]) = Some 4.
Proof.
  etransitivity; [apply (sum_spec (of_entries [mkRange 3 5; mkRange 8 8]) [3; 4; 5; 8])|].
  - apply of_entries_wf; [cbn; unfold CAPACITY; lia|solve_ok_list].
  - by apply (bool_decide_unpack _).
  - intros x. rewrite !elem_of_cons, elem_of_nil. unfold elem_of at 1, elem_of_RangeSet.
    cbn. rewrite !Exists_cons, Exists_nil. unfold elem_of, elem_of_Range. cbn. lia.
  - reflexivity.
Defined.
