(* ===== verification/Net.v ===== *)
(** * Networking: packets, IPv4/UDP parsing and bound ports (kernel/src/net.rs)

    [Packet] is the 4 KiB DMA buffer with its length; [checksum], [eth], [ip],
    [udp] and [create_udp_raw] are its methods.  [NetDevice] keeps the driver
    and the queues of the bound UDP ports; the driver is the typeclass
    [NetDriver], the Rust trait, and the device's theorems are proved against
    [NetDriverLaws], what the trait promises. *)

From stdpp Require Import base tactics option list numbers strings gmap.
From Stdlib Require Import ZArith Lia.
From S2P Require Import Prelude MachineInt Bytes.

Local Open Scope Z_scope.

(** IPv4 ethernet frame type, and the UDP protocol of the IP header. *)
Definition ETHTYPE_IPV4 : Z := 0x0800.
Definition IPPROTO_UDP : Z := 0x11.

(** [Ipv4Addr(u32)] *)
Definition Ipv4Addr : Type := Z.

Record Ethernet := mkEthernet {
  dst_mac : list Z;
  src_mac : list Z;
  typ : Z;
  eth_payload : list Z;
}.

Record Ip := mkIp {
  ip_eth : Ethernet;
  src_ip : Ipv4Addr;
  dst_ip : Ipv4Addr;
  protocol : Z;
  ip_payload : list Z;
}.

Record Udp := mkUdp {
  udp_ip : Ip;
  dst_port : Z;
  src_port : Z;
  udp_payload : list Z;
}.

(** The buffer of a packet is a [PhysContig<[u8; 4096]>]: its bytes and the
    physical address the NIC sees. *)
Record Packet := mkPacket {
  phys_addr : Z;
  buffer : list Z;
  plength : Z;
}.

(** [Packet::new], on the physical allocation it is given. *)
Definition packet_new (paddr : Z) : Packet :=
  mkPacket paddr (replicate 4096 0) 0.

(** [raw] *)
Definition raw (p : Packet) : outcome (list Z) :=
  slice (buffer p) 0 (Z.to_nat (plength p)).

(** [set_len] *)
Definition set_len (p : Packet) (len : Z) : outcome Packet :=
  assert ((len <=? 1514) && (len <=? Z.of_nat (length (buffer p))))
    "set_len() on packet OOB";;
  Done (mkPacket (phys_addr p) (buffer p) len).

(** The loop of [checksum] over the 2-byte pairs of the payload; [from_ne_bytes]
    is little endian on this machine. *)
Fixpoint checksum_pairs (c : Z) (bytes : list Z) : Z :=
  match bytes with
  | b0 :: b1 :: rest =>
      checksum_pairs (wrapping_add 32 c (from_le_bytes [b0; b1])) rest
  | _ => c
  end.

(** [Packet::checksum] *)
Definition checksum (c : Z) (bytes : list Z) : Z :=
  let c := checksum_pairs c bytes in
  let c :=
    if decide (Z.of_nat (length bytes) mod 2 ≠ 0) then
      wrapping_add 32 c (shl 16 (List.last bytes 0) 8)
    else c in
  let c := wrapping_add 32 (Z.land c 0xffff) (Z.shiftr c 16) in
  let c := wrapping_add 32 (Z.land c 0xffff) (Z.shiftr c 16) in
  swap_bytes 2 (bnot 16 (wrap 16 c)).

(** [Packet::eth] *)
Definition eth (p : Packet) : outcome (option Ethernet) :=
  raw ← raw p;
  dst ←? get raw 0x0 0x6;
  dst_mac ←? try_array 6 dst;
  src ←? get raw 0x6 0xc;
  src_mac ←? try_array 6 src;
  t ←? get raw 0xc 0xe;
  t ←? try_array 2 t;
  payload ←? get_from raw 0xe;
  Done (Some (mkEthernet dst_mac src_mac (from_be_bytes t) payload)).

(** [Packet::ip] *)
Definition ip (p : Packet) : outcome (option Ip) :=
  eth ← eth p;
  eth ←? eth;
  if negb (typ eth =? ETHTYPE_IPV4) then Done None else
  header ←? get (eth_payload eth) 0 20;
  h0 ← index header 0;
  let version := Z.land (Z.shiftr h0 4) 0xf in
  let ihl := Z.land (Z.shiftr h0 0) 0xf in
  if negb (version =? 4) || negb (ihl =? 5) then Done None else
  t ← slice header 2 4;
  t ←? try_array 2 t;
  let total_length := from_be_bytes t in
  h6 ← index header 6;
  let flags := Z.land (Z.shiftr h6 5) 7 in
  if negb (Z.land flags 5 =? 0) then Done None else
  f ← slice header 6 8;
  f ←? try_array 2 f;
  let frag_offset := Z.land (from_be_bytes f) 0x1fff in
  if negb (frag_offset =? 0) then Done None else
  protocol ← index header 9;
  s ← slice header 12 16;
  s ←? try_array 4 s;
  let src_ip := from_be_bytes s in
  d ← slice header 16 20;
  d ←? try_array 4 d;
  let dst_ip := from_be_bytes d in
  if (total_length <? 20) || (Z.of_nat (length (eth_payload eth)) <? total_length)
  then Done None else
  if negb (checksum 0 header =? 0) then Done None else
  payload ← slice (eth_payload eth) 20 (Z.to_nat total_length);
  Done (Some (mkIp eth src_ip dst_ip protocol payload)).

(** The pseudo header part of [Packet::udp]. *)
Definition pseudo_header (ip : Ip) (len : Z) : outcome (option Z) :=
  let src_ip := to_be_bytes 4 (src_ip ip) in
  let dst_ip := to_be_bytes 4 (dst_ip ip) in
  let c := 0 in
  s01 ← slice src_ip 0 2;
  s01 ←? try_array 2 s01;
  let c := wrapping_add 32 c (from_le_bytes s01) in
  s23 ← slice src_ip 2 4;
  s23 ←? try_array 2 s23;
  let c := wrapping_add 32 c (from_le_bytes s23) in
  d01 ← slice dst_ip 0 2;
  d01 ←? try_array 2 d01;
  let c := wrapping_add 32 c (from_le_bytes d01) in
  d23 ← slice dst_ip 2 4;
  d23 ←? try_array 2 d23;
  let c := wrapping_add 32 c (from_le_bytes d23) in
  let c := wrapping_add 32 c (swap_bytes 2 (protocol ip)) in
  Done (Some (wrapping_add 32 c (swap_bytes 2 len))).

(** [Packet::udp] *)
Definition udp (p : Packet) : outcome (option Udp) :=
  ip ← ip p;
  ip ←? ip;
  header ←? get (ip_payload ip) 0 8;
  s ← slice header 0 2;
  s ←? try_array 2 s;
  let src_port := from_be_bytes s in
  d ← slice header 2 4;
  d ←? try_array 2 d;
  let dst_port := from_be_bytes d in
  l ← slice header 4 6;
  l ←? try_array 2 l;
  let len := from_be_bytes l in
  o ← slice header 6 8;
  o ←? try_array 2 o;
  let orig_checksum := from_be_bytes o in
  checksum_ok ←
    (if negb (orig_checksum =? 0) then
       c ← pseudo_header ip len;
       c ←? c;
       if negb (checksum c (ip_payload ip) =? 0) then Done None else Done (Some tt)
     else Done (Some tt));
  _ ←? checksum_ok;
  if (len <? 8) || (Z.of_nat (length (ip_payload ip)) <? len) then Done None else
  payload ← slice (ip_payload ip) 8 (Z.to_nat len);
  Done (Some (mkUdp ip dst_port src_port payload)).

(** The three header blocks of [create_udp_raw]. *)
Definition write_eth (b : list Z) (src_eth dst_eth : list Z) : outcome (list Z) :=
  eth ← slice b 0 14;
  eth ← copy_from_slice eth 0x0 0x6 dst_eth;
  eth ← copy_from_slice eth 0x6 0xc src_eth;
  eth ← copy_from_slice eth 0xc 0xe (to_be_bytes 2 ETHTYPE_IPV4);
  copy_from_slice b 0 14 eth.

Definition write_ip (b : list Z) (src_ip dst_ip : Ipv4Addr) (message_len : Z)
    : outcome (list Z) :=
  ip ← slice b 14 (14 + 20);
  ip ← index_set ip 0 0x45;
  ip ← index_set ip 1 0;
  let ip_size := wrap 16 (wrapping_add 64 (20 + 8) message_len) in
  ip ← copy_from_slice ip 2 4 (to_be_bytes 2 ip_size);
  ip ← copy_from_slice ip 4 8 [0; 0; 0; 0];
  ip ← index_set ip 8 64;
  ip ← index_set ip 9 IPPROTO_UDP;
  ip ← copy_from_slice ip 10 12 [0; 0];
  ip ← copy_from_slice ip 12 16 (to_be_bytes 4 src_ip);
  ip ← copy_from_slice ip 16 20 (to_be_bytes 4 dst_ip);
  let c := checksum 0 ip in
  ip ← copy_from_slice ip 10 12 (to_be_bytes 2 c);
  copy_from_slice b 14 (14 + 20) ip.

Definition write_udp (b : list Z) (src_port dst_port : Z) (message_len : Z)
    : outcome (list Z) :=
  udp ← slice b (14 + 20) (14 + 20 + 8);
  udp ← copy_from_slice udp 0 2 (to_be_bytes 2 src_port);
  udp ← copy_from_slice udp 2 4 (to_be_bytes 2 dst_port);
  let udp_size := wrap 16 (wrapping_add 64 8 message_len) in
  udp ← copy_from_slice udp 4 6 (to_be_bytes 2 udp_size);
  udp ← copy_from_slice udp 6 8 [0; 0];
  copy_from_slice b (14 + 20) (14 + 20 + 8) udp.

(** [Packet::create_udp_raw]: the packet and the index of the message. *)
Definition create_udp_raw (p : Packet) (src_eth dst_eth : list Z)
    (src_ip dst_ip : Ipv4Addr) (src_port dst_port : Z) (message_len : Z)
    : outcome (Packet * nat) :=
  b ← write_eth (buffer p) src_eth dst_eth;
  b ← write_ip b src_ip dst_ip message_len;
  b ← write_udp b src_port dst_port message_len;
  p ← set_len (mkPacket (phys_addr p) b (plength p))
        (wrapping_add 64 (14 + 20 + 8) message_len);
  Done (p, (14 + 20 + 8)%nat).

(** [raw_mut()[a..b].copy_from_slice(src)]: what a client of the packet does
    with the index [create_udp_raw] returns. *)
Definition raw_mut_write (p : Packet) (a b : nat) (src : list Z) : outcome Packet :=
  r ← raw p;
  r ← copy_from_slice r a b src;
  Done (mkPacket (phys_addr p) (r ++ drop (Z.to_nat (plength p)) (buffer p)) (plength p)).

(** ** The checksum against RFC 1071

    The reference adds 16-bit big-endian words with end-around carry, pads an
    odd byte string with a zero byte, and complements the sum. *)

Definition ones_add (x y : Z) : Z := if x + y <? 65536 then x + y else x + y - 65535.

Fixpoint be_sum (s : Z) (bytes : list Z) : Z :=
  match bytes with
  | b0 :: b1 :: rest => be_sum (ones_add s (256 * b0 + b1)) rest
  | [b0] => ones_add s (256 * b0)
  | [] => s
  end.

Definition rfc1071 (bytes : list Z) : Z := 65535 - be_sum 0 bytes.

(** The exact sum of the little-endian words the code adds up. *)
Fixpoint le_sum (bytes : list Z) : Z :=
  match bytes with
  | b0 :: b1 :: rest => b0 + 256 * b1 + le_sum rest
  | _ => 0
  end.

(** [r] is the ones-complement representation of [s]: congruent modulo 65535,
    and zero only for zero. *)
Definition ones_rep (r s : Z) : Prop :=
  0 ≤ r ≤ 65535 ∧ r mod 65535 = s mod 65535 ∧ (r = 0 ↔ s = 0).

Lemma ones_rep_unique r1 r2 s : ones_rep r1 s → ones_rep r2 s → r1 = r2.
Proof.
  intros (? & ? & ?) (? & ? & ?).
  destruct (decide (r1 = 65535)), (decide (r2 = 65535)); subst; try lia.
  - rewrite (Z.mod_small r2) in * by lia. change (65535 mod 65535) with 0 in *. lia.
  - rewrite (Z.mod_small r1) in * by lia. change (65535 mod 65535) with 0 in *. lia.
  - rewrite !Z.mod_small in * by lia. lia.
Qed.

Lemma ones_add_rep x y s :
  ones_rep x s → 0 ≤ s → 0 ≤ y ≤ 65535 → ones_rep (ones_add x y) (s + y).
Proof.
  intros (? & Hm & Hz) ? ?. unfold ones_add, ones_rep.
  destruct (Z.ltb_spec (x + y) 65536); (split; [lia|split; [|lia]]).
  - by rewrite Z.add_mod, Hm, <- Z.add_mod by lia.
  - replace (x + y - 65535) with (x + y + (-1) * 65535) by lia.
    by rewrite Z.mod_add, Z.add_mod, Hm, <- Z.add_mod by lia.
Qed.

(** One carry fold keeps the sum modulo 65535; two are enough for 32 bits. *)
Definition fold_carry (c : Z) : Z :=
  wrapping_add 32 (Z.land c 0xffff) (Z.shiftr c 16).

Lemma fold_carry_eq c : is_uint 32 c → fold_carry c = c mod 65536 + c / 65536.
Proof.
  intros Hc. unfold fold_carry. change 0xffff with (2 ^ 16 - 1).
  rewrite land_mask_mod, Z.shiftr_div_pow2 by lia.
  change (2 ^ 16) with 65536. unfold is_uint in *. change (2 ^ 32) with 4294967296 in *.
  apply wrapping_add_small. unfold is_uint. change (2 ^ 32) with 4294967296.
  pose proof (Z.mod_pos_bound c 65536). pose proof (Z.div_mod c 65536).
  assert (0 ≤ c / 65536) by (apply Z.div_pos; lia). lia.
Qed.

Lemma fold_carry_rep c : is_uint 32 c →
  0 ≤ fold_carry c ≤ 131070 ∧ fold_carry c mod 65535 = c mod 65535 ∧
  (fold_carry c = 0 ↔ c = 0) ∧ (c ≤ 131070 → fold_carry c ≤ 65535).
Proof.
  intros Hc. rewrite fold_carry_eq by done.
  unfold is_uint in Hc. change (2 ^ 32) with 4294967296 in Hc.
  pose proof (Z.mod_pos_bound c 65536). pose proof (Z.div_mod c 65536).
  assert (0 ≤ c / 65536) by (apply Z.div_pos; lia). split; [lia|split; [|lia]].
  replace (c mod 65536 + c / 65536) with (c + (- (c / 65536)) * 65535) by lia.
  by rewrite Z.mod_add.
Qed.

Lemma fold_carry_twice c : is_uint 32 c → ones_rep (fold_carry (fold_carry c)) c.
Proof.
  intros Hc. destruct (fold_carry_rep c Hc) as (H1 & H2 & H3 & _).
  assert (is_uint 32 (fold_carry c)) as Hc' by (split; [lia|change (2 ^ 32) with 4294967296; lia]).
  destruct (fold_carry_rep _ Hc') as (H1' & H2' & H3' & H4').
  unfold ones_rep. split; [lia|split; [congruence|]]. by rewrite H3', H3.
Qed.

(** Byte order does not matter: swapping a word multiplies it by 256. *)
Lemma swap_bytes_2 x : swap_bytes 2 x = 256 * (x mod 256) + (x / 256) mod 256.
Proof.
  unfold swap_bytes, from_be_bytes, reverse. cbn [to_le_bytes rev_append from_le_bytes]. lia.
Qed.

Lemma swap_bytes_rep r s : ones_rep r s → ones_rep (swap_bytes 2 r) (256 * s).
Proof.
  intros (Hr & Hm & Hz). rewrite swap_bytes_2.
  pose proof (Z.mod_pos_bound r 256). pose proof (Z.div_mod r 256).
  assert (0 ≤ r / 256 < 256).
  { split; [apply Z.div_pos; lia|]. apply Z.div_lt_upper_bound; lia. }
  rewrite (Z.mod_small (r / 256)) by lia. split; [lia|split; [|lia]].
  replace (256 * (r mod 256) + r / 256) with (256 * r + (- (r / 256)) * 65535) by lia.
  by rewrite Z.mod_add, Z.mul_mod, Hm, <- Z.mul_mod by lia.
Qed.

Lemma swap_bytes_compl r : 0 ≤ r ≤ 65535 →
  swap_bytes 2 (65535 - r) = 65535 - swap_bytes 2 r.
Proof.
  intros. rewrite !swap_bytes_2.
  pose proof (Z.mod_pos_bound r 256). pose proof (Z.div_mod r 256).
  assert (0 ≤ r / 256 < 256).
  { split; [apply Z.div_pos; lia|]. apply Z.div_lt_upper_bound; lia. }
  replace (65535 - r) with ((255 - r mod 256) + (255 - r / 256) * 256) by lia.
  rewrite Z.mod_add, Z.div_add by lia.
  rewrite (Z.mod_small (255 - r mod 256)), (Z.div_small (255 - r mod 256)) by lia.
  rewrite (Z.mod_small (0 + (255 - r / 256))), (Z.mod_small (r / 256)) by lia. lia.
Qed.

Lemma bnot_16 r : 0 ≤ r ≤ 65535 → bnot 16 (wrap 16 r) = 65535 - r.
Proof.
  intros. rewrite wrap_small by (split; [lia|change (2 ^ 16) with 65536; lia]).
  unfold bnot. change (Z.ones 16) with 65535.
  assert (Z.lxor r 65535 = Z.ldiff 65535 r) as ->.
  { apply Z.bits_inj'. intros i Hi. rewrite Z.lxor_spec, Z.ldiff_spec.
    change 65535 with (Z.ones 16). destruct (Z.lt_ge_cases i 16).
    - rewrite Z.ones_spec_low by lia. by destruct (Z.testbit r i).
    - rewrite Z.ones_spec_high by lia.
      rewrite (uint_testbit_high 16 r i); [done| |done].
      split; [lia|change (2 ^ 16) with 65536; lia]. }
  assert (Z.land 65535 r = r) as Hl.
  { rewrite Z.land_comm. change 65535 with (2 ^ 16 - 1). rewrite land_mask_mod by lia.
    apply Z.mod_small. change (2 ^ 16) with 65536. lia. }
  pose proof (Z.sub_nocarry_ldiff 65535 r) as E. rewrite E; [done|].
  apply Z.bits_inj'. intros i Hi. rewrite Z.ldiff_spec, Z.bits_0.
  change 65535 with (Z.ones 16). destruct (Z.lt_ge_cases i 16).
  - rewrite Z.ones_spec_low by lia. by destruct (Z.testbit r i).
  - rewrite (uint_testbit_high 16 r i); [done| |done].
    split; [lia|change (2 ^ 16) with 65536; lia].
Qed.

Lemma pair_ind {A} (P : list A → Prop) :
  P [] → (∀ a, P [a]) → (∀ a b l, P l → P (a :: b :: l)) → ∀ l, P l.
Proof.
  intros H0 H1 H2 l. assert (P l ∧ ∀ a, P (a :: l)) as [? _]; [|done].
  induction l as [|b l [IH1 IH2]]; split; auto.
Qed.

Lemma le_sum_bounds bytes :
  bytes_ok bytes → 0 ≤ le_sum bytes ≤ 65535 * Z.of_nat (length bytes).
Proof.
  induction bytes as [| |b0 b1 l IH] using pair_ind; [cbn; lia..|].
  intros [H0 [H1 Hl]%Forall_cons]%Forall_cons. specialize (IH Hl).
  unfold is_uint in *. cbn [le_sum length]. lia.
Qed.

Lemma checksum_pairs_eq bytes : ∀ c,
  bytes_ok bytes → is_uint 32 c → c + 65535 * Z.of_nat (length bytes) < 2 ^ 32 →
  checksum_pairs c bytes = c + le_sum bytes.
Proof.
  induction bytes as [| |b0 b1 l IH] using pair_ind; intros c Hok Hc Hlen;
    [cbn; lia..|].
  apply Forall_cons in Hok as [H0 [H1 Hl]%Forall_cons].
  cbn [length] in Hlen. cbn [checksum_pairs le_sum from_le_bytes].
  unfold is_uint in *. change (2 ^ 8) with 256 in *.
  rewrite wrapping_add_small by (unfold is_uint; lia).
  rewrite IH; [lia|done|unfold is_uint; lia|lia].
Qed.

Lemma be_sum_rep bytes : ∀ r s,
  bytes_ok bytes → ones_rep r (256 * s) → 0 ≤ s → Nat.Even (length bytes) →
  ones_rep (be_sum r bytes) (256 * (s + le_sum bytes)).
Proof.
  induction bytes as [| |b0 b1 l IH] using pair_ind; intros r s Hok Hr Hs Hev.
  - cbn. by rewrite Z.add_0_r.
  - apply Nat.even_spec in Hev. discriminate.
  - apply Forall_cons in Hok as [H0 [H1 Hl]%Forall_cons]. cbn [be_sum le_sum].
    unfold is_uint in *. change (2 ^ 8) with 256 in *.
    rewrite Z.add_assoc. apply IH; [done| |lia|by apply Nat.even_spec in Hev; apply Nat.even_spec].
    pose proof (ones_add_rep r (256 * b0 + b1) (256 * s) Hr) as (? & Hm & Hz); [lia..|].
    split; [lia|]. split; [|lia].
    rewrite Hm. replace (256 * (s + (b0 + 256 * b1)))
      with (256 * s + (256 * b0 + b1) + b1 * 65535) by lia. by rewrite Z.mod_add.
Qed.

Lemma le_sum_app l1 l2 : Nat.Even (length l1) → le_sum (l1 ++ l2) = le_sum l1 + le_sum l2.
Proof.
  induction l1 as [| |b0 b1 l IH] using pair_ind; intros Hev; [done| |].
  - apply Nat.even_spec in Hev. discriminate.
  - cbn [app le_sum]. rewrite IH; [lia|].
    by apply Nat.even_spec in Hev; apply Nat.even_spec.
Qed.

Lemma last_snoc_Z (l : list Z) b : List.last (l ++ [b]) 0 = b.
Proof. induction l as [|x l IH]; [done|]. cbn. by destruct (l ++ [b]) eqn:E; [destruct l|]. Qed.

(** What the code computes, in closed form. *)
Lemma checksum_rep c S bytes :
  is_uint 32 S →
  (if decide (Z.of_nat (length bytes) mod 2 ≠ 0)
   then wrapping_add 32 (checksum_pairs c bytes) (shl 16 (List.last bytes 0) 8)
   else checksum_pairs c bytes) = S →
  ∃ r, ones_rep r (256 * S) ∧ checksum c bytes = 65535 - r.
Proof.
  intros HS E. unfold checksum. rewrite E.
  change (wrapping_add 32 (Z.land S 65535) (Z.shiftr S 16)) with (fold_carry S).
  change (wrapping_add 32 (Z.land (fold_carry S) 65535) (Z.shiftr (fold_carry S) 16))
    with (fold_carry (fold_carry S)).
  pose proof (fold_carry_twice S HS) as Hr.
  exists (swap_bytes 2 (fold_carry (fold_carry S))).
  split; [by apply swap_bytes_rep|].
  destruct Hr as [Hb _]. by rewrite bnot_16, swap_bytes_compl.
Qed.

Lemma even_length_mod {A} (l : list A) :
  Nat.Even (length l) → Z.of_nat (length l) mod 2 = 0.
Proof. intros [k ->]. rewrite Nat2Z.inj_mul, Z.mul_comm. by apply Z.mod_mul. Qed.

(** The initial value [c] is the sum of the words of a prefix [pre]: the pseudo
    header, or nothing. *)
Lemma checksum_even pre bytes :
  bytes_ok pre → bytes_ok bytes → Nat.Even (length pre) → Nat.Even (length bytes) →
  Z.of_nat (length pre + length bytes) < 65536 →
  checksum (le_sum pre) bytes = rfc1071 (pre ++ bytes).
Proof.
  intros Hp Hb Ep Eb Hlen.
  pose proof (le_sum_bounds _ Hp) as Hbp. pose proof (le_sum_bounds _ Hb) as Hbb.
  assert (65535 * Z.of_nat (length pre + length bytes) < 2 ^ 32) by (change (2 ^ 32) with 4294967296; lia).
  destruct (checksum_rep (le_sum pre) (le_sum pre + le_sum bytes) bytes) as (r & Hr & ->).
  - unfold is_uint; lia.
  - rewrite even_length_mod by done. rewrite decide_False by lia.
    apply checksum_pairs_eq; [done|unfold is_uint; lia|lia].
  - unfold rfc1071. f_equal. apply (ones_rep_unique _ _ (256 * (0 + le_sum (pre ++ bytes)))).
    + by rewrite le_sum_app by done.
    + apply be_sum_rep; [by apply Forall_app|by repeat split|lia|].
      rewrite length_app. apply Nat.Even_Even_add; auto.
Qed.

Lemma checksum_odd_pad pre bytes b :
  bytes_ok pre → bytes_ok (bytes ++ [b]) → Nat.Even (length pre) → Nat.Even (length bytes) →
  Z.of_nat (length pre + length bytes + 2) < 65536 →
  checksum (le_sum pre) (bytes ++ [b]) = rfc1071 (pre ++ bytes ++ [0; b]).
Proof.
  intros Hp [Hb [Hlast _]%Forall_cons]%Forall_app Ep Eb Hlen.
  pose proof (le_sum_bounds _ Hp) as Hbp. pose proof (le_sum_bounds _ Hb) as Hbb.
  assert (65535 * Z.of_nat (length pre + length bytes + 2) < 2 ^ 32) by (change (2 ^ 32) with 4294967296; lia).
  assert (le_sum (bytes ++ [b]) = le_sum bytes) as Es by (rewrite le_sum_app by done; cbn; lia).
  unfold is_uint in Hlast. change (2 ^ 8) with 256 in Hlast.
  destruct (checksum_rep (le_sum pre) (le_sum pre + le_sum bytes + 256 * b) (bytes ++ [b])) as (r & Hr & ->).
  - unfold is_uint; lia.
  - rewrite length_app. cbn [length]. rewrite decide_True.
    2:{ apply even_length_mod in Eb. rewrite Nat2Z.inj_add, Z.add_mod, Eb by lia. done. }
    rewrite last_snoc_Z, checksum_pairs_eq; [|by apply Forall_app; auto| |].
    + unfold shl. rewrite Z.shiftl_mul_pow2 by lia. change (2 ^ 8) with 256.
      rewrite wrap_small by (unfold is_uint; change (2 ^ 16) with 65536; lia).
      rewrite Es, wrapping_add_small by (unfold is_uint; lia). lia.
    + unfold is_uint; lia.
    + rewrite length_app. cbn [length]. lia.
  - unfold rfc1071. f_equal. apply (ones_rep_unique _ _ (256 * (0 + le_sum (pre ++ bytes ++ [0; b])))).
    + rewrite !le_sum_app by done. cbn [le_sum].
      by replace (0 + (le_sum pre + (le_sum bytes + (0 + 256 * b + 0))))
        with (le_sum pre + le_sum bytes + 256 * b) by lia.
    + apply be_sum_rep; [|by repeat split|lia|].
      * repeat apply Forall_app_2; [done..|]. by repeat apply Forall_cons_2.
      * rewrite !length_app. repeat apply Nat.Even_Even_add; auto. by exists 1%nat.
Qed.

(** ** What the parsers accept

    The formats as grammars over the bytes of the packet. *)

Definition packet_ok (p : Packet) : Prop :=
  bytes_ok (buffer p) ∧ length (buffer p) = 4096%nat ∧ 0 ≤ plength p ≤ 1514.

(** The bytes of the packet. *)
Definition contents (p : Packet) : list Z := take (Z.to_nat (plength p)) (buffer p).

Lemma raw_contents p : packet_ok p → raw p = Done (contents p).
Proof.
  intros (_ & Hl & Hp). unfold raw, contents. apply slice_get, get_Some.
  rewrite Hl. split; [lia|]. by rewrite Nat.sub_0_r, drop_0.
Qed.

Lemma contents_ok p : packet_ok p → bytes_ok (contents p).
Proof. intros [Hb _]. by apply Forall_take. Qed.

Inductive eth_frame : list Z → Ethernet → Prop :=
| Eth_frame dst src t0 t1 payload :
    length dst = 6%nat → length src = 6%nat →
    eth_frame (dst ++ src ++ [t0; t1] ++ payload)
      (mkEthernet dst src (256 * t0 + t1) payload).

(** No options, no fragments; bytes after [total_length] are ignored. *)
Inductive ip_packet : list Z → Ip → Prop :=
| Ip_packet bytes e tos len id df ttl proto c sip dip payload trailer :
    eth_frame bytes e → typ e = ETHTYPE_IPV4 →
    length len = 2%nat → length id = 2%nat → length c = 2%nat →
    length sip = 4%nat → length dip = 4%nat → df = 0 ∨ df = 0x40 →
    let header := [0x45; tos] ++ len ++ id ++ [df; 0; ttl; proto] ++ c ++ sip ++ dip in
    eth_payload e = header ++ payload ++ trailer →
    from_be_bytes len = 20 + Z.of_nat (length payload) →
    rfc1071 header = 0 →
    ip_packet bytes (mkIp e (from_be_bytes sip) (from_be_bytes dip) proto payload).

Lemma eth_spec p e : packet_ok p →
  eth p = Done (Some e) ↔ eth_frame (contents p) e.
Proof.
  intros Hp. unfold eth. rewrite (raw_contents p Hp), bind_Done_l.
  generalize (contents p) as l. intros l. split.
  - do 14 (destruct l as [|? l]; [by slices|]). slices. intros [= <-].
    rewrite from_be_bytes_2.
    by apply (Eth_frame [_; _; _; _; _; _] [_; _; _; _; _; _]).
  - intros [dst src t0 t1 payload Hd Hs].
    do 7 (destruct dst as [|? dst]; try discriminate Hd).
    do 7 (destruct src as [|? src]; try discriminate Hs).
    cbn [app]. slices. by rewrite from_be_bytes_2.
Qed.

Lemma eth_returns p : packet_ok p → ∃ e, eth p = Done e.
Proof.
  intros Hp. unfold eth. rewrite (raw_contents p Hp), bind_Done_l.
  generalize (contents p) as l. intros l.
  do 14 (destruct l as [|? l]; [slices; by eexists|]). slices. by eexists.
Qed.

(** The bit tests of [ip]: version and header length, flags and offset. *)
Lemma version_ihl h :
  is_uint 8 h →
  negb (Z.land (Z.shiftr h 4) 0xf =? 4) || negb (Z.land (Z.shiftr h 0) 0xf =? 5)
  = negb (h =? 0x45).
Proof.
  unfold is_uint. intros Hh. rewrite Z.shiftr_0_r. change 0xf with (2 ^ 4 - 1).
  rewrite !land_mask_mod, Z.shiftr_div_pow2 by lia.
  change (2 ^ 4) with 16 in *. change (2 ^ 8) with 256 in *.
  pose proof (Z.div_mod h 16). pose proof (Z.mod_pos_bound h 16).
  rewrite (Z.mod_small (h / 16)).
  2:{ split; [apply Z.div_pos; lia|apply Z.div_lt_upper_bound; lia]. }
  destruct (Z.eqb_spec (h / 16) 4), (Z.eqb_spec (h mod 16) 5), (Z.eqb_spec h 69);
    cbn; try done; subst; exfalso; lia.
Qed.

Lemma flags_offset h6 h7 :
  is_uint 8 h6 → is_uint 8 h7 →
  (Z.land (Z.land (Z.shiftr h6 5) 7) 5 = 0 ∧
   Z.land (from_be_bytes [h6; h7]) 0x1fff = 0) ↔ (h6 = 0 ∨ h6 = 0x40) ∧ h7 = 0.
Proof.
  intros H6 H7. rewrite from_be_bytes_2. change 0x1fff with (2 ^ 13 - 1).
  rewrite land_mask_mod by lia. unfold is_uint in *.
  change (2 ^ 13) with 8192. change (2 ^ 8) with 256 in *. split.
  - intros [Hf Ho]. pose proof (Z.div_mod (256 * h6 + h7) 8192) as Hd.
    rewrite Ho in Hd. revert Hd. generalize ((256 * h6 + h7) / 8192) as q. intros q Hd.
    assert (h7 = 0 ∧ h6 = 32 * q ∧ 0 ≤ q < 8) as (-> & -> & Hq) by lia.
    assert (q = 0 ∨ q = 1 ∨ q = 2 ∨ q = 3 ∨ q = 4 ∨ q = 5 ∨ q = 6 ∨ q = 7)
      as Hc by lia. clear Hq Hd Ho H6 H7.
    destruct Hc as [->|[->|[->|[->|[->|[->|[->| ->]]]]]]]; (discriminate Hf || lia).
  - by intros [[-> | ->] ->].
Qed.

(** [ip] on the payload of an IPv4 frame, with its tests in one condition. *)
Definition ip_header_ok (e : Ethernet) (h0 h6 h7 : Z) (header : list Z) (len : Z) : bool :=
  (typ e =? ETHTYPE_IPV4) && (h0 =? 0x45) && ((h6 =? 0) || (h6 =? 0x40)) && (h7 =? 0) &&
  (20 <=? len) && (len <=? Z.of_nat (length (eth_payload e))) &&
  (rfc1071 header =? 0).

Lemma ip_eval p e h0 h1 h2 h3 h4 h5 h6 h7 h8 h9 h10 h11 s0 s1 s2 s3 d0 d1 d2 d3 rest :
  eth p = Done (Some e) → bytes_ok (eth_payload e) →
  let header := [h0; h1; h2; h3; h4; h5; h6; h7; h8; h9; h10; h11;
                 s0; s1; s2; s3; d0; d1; d2; d3] in
  eth_payload e = header ++ rest →
  let len := from_be_bytes [h2; h3] in
  ip p = Done (if ip_header_ok e h0 h6 h7 header len then
                 Some (mkIp e (from_be_bytes [s0; s1; s2; s3]) (from_be_bytes [d0; d1; d2; d3])
                   h9 (take (Z.to_nat (len - 20)) rest))
               else None).
Proof.
  intros He Hok header Hpl len. unfold ip. rewrite He, bind_Done_l. cbn [or_return].
  unfold ip_header_ok. destruct (Z.eqb_spec (typ e) ETHTYPE_IPV4); [cbn [negb andb]|done].
  assert (get (eth_payload e) 0 20 = Some header) as ->.
  { rewrite Hpl. apply (get_app []); done. }
  assert (bytes_ok header) as Hh by (rewrite Hpl in Hok; by apply Forall_app in Hok as [? _]).
  assert (∀ i x, header !! i = Some x → is_uint 8 x) as Hb
    by (intros i x Hi; by apply (Forall_lookup_1 _ _ _ _ Hh Hi)).
  assert (checksum 0 header = rfc1071 header) as Hck.
  { apply (checksum_even []); [by constructor|done|by exists 0%nat|by exists 10%nat|cbn; lia]. }
  assert (0 ≤ from_be_bytes [h2; h3]) as Hlen.
  { apply from_be_bytes_uint, (bytes_ok_get header _ 2 4); [done|]. unfold header. by slices. }
  unfold header in *. slices. rewrite Hck.
  rewrite version_ihl by (apply (Hb 0%nat); done).
  destruct (Z.eqb_spec h0 69); [cbn [negb andb]|done].
  pose proof (flags_offset h6 h7 (Hb 6%nat _ eq_refl) (Hb 7%nat _ eq_refl)) as Hfo.
  fold len in Hlen |- *.
  destruct (Z.eqb_spec (Z.land (Z.land (Z.shiftr h6 5) 7) 5) 0) as [Hf|Hf];
    destruct (Z.eqb_spec (Z.land (from_be_bytes [h6; h7]) 8191) 0) as [Ho|Ho];
    destruct (Z.eqb_spec h6 0); destruct (Z.eqb_spec h6 64);
    destruct (Z.eqb_spec h7 0); cbn [negb andb orb]; try (exfalso; tauto); try done.
  all: rewrite (Z.leb_antisym len 20), (Z.leb_antisym (Z.of_nat _) len).
  all: destruct (Z.ltb_spec len 20); cbn [negb andb orb]; try done.
  all: destruct (Z.ltb_spec (Z.of_nat (length (eth_payload e))) len); cbn [negb andb orb]; try done.
  all: destruct (rfc1071 _ =? 0); cbn [negb]; [|done].
  all: rewrite Hpl, (get_app_r _ rest 20 len) by (rewrite <- ?Hpl; done).
  all: done.
Qed.

Lemma eth_payload_ok bytes e : bytes_ok bytes → eth_frame bytes e → bytes_ok (eth_payload e).
Proof.
  intros Hb Hf. destruct Hf as [dst src t0 t1 payload _ _]. cbn.
  by apply Forall_app in Hb as [_ [_ [_ Hb]%Forall_app]%Forall_app].
Qed.

(** Short packets are refused. *)
Lemma ip_short p : packet_ok p →
  (∀ e, eth p = Done (Some e) → (length (eth_payload e) < 20)%nat) → ip p = Done None.
Proof.
  intros Hp Hs. unfold ip. destruct (eth_returns p Hp) as [[e|] He]; rewrite He, bind_Done_l; [|done].
  cbn [or_return]. destruct (negb _); [done|].
  assert (get (eth_payload e) 0 20 = None) as ->; [|done].
  specialize (Hs e He). unfold get. rewrite decide_False; [done|lia].
Qed.

Lemma split_20 (l : list Z) : (20 ≤ length l)%nat →
  ∃ h0 h1 h2 h3 h4 h5 h6 h7 h8 h9 h10 h11 s0 s1 s2 s3 d0 d1 d2 d3 rest,
  l = [h0; h1; h2; h3; h4; h5; h6; h7; h8; h9; h10; h11; s0; s1; s2; s3; d0; d1; d2; d3] ++ rest.
Proof.
  intros H. do 20 (destruct l as [|? l]; [cbn in H; lia|]). by repeat eexists.
Qed.

Lemma split_2 {A} (l : list A) : length l = 2%nat → ∃ a b, l = [a; b].
Proof. do 3 (destruct l as [|? l]; try done). by repeat eexists. Qed.

Lemma split_4 {A} (l : list A) : length l = 4%nat → ∃ a b c d, l = [a; b; c; d].
Proof. do 5 (destruct l as [|? l]; try done). by repeat eexists. Qed.

Lemma ip_sound p i : packet_ok p → ip p = Done (Some i) → ip_packet (contents p) i.
Proof.
  intros Hp Hi. destruct (eth_returns p Hp) as [[e|] He].
  2:{ rewrite ip_short in Hi; [done..|]. by rewrite He. }
  destruct (decide (20 ≤ length (eth_payload e))%nat) as [Hlen|Hlen].
  2:{ rewrite ip_short in Hi; [done..|]. intros ?. rewrite He. intros [= <-]. lia. }
  pose proof (proj1 (eth_spec p e Hp) He) as Hf.
  pose proof (eth_payload_ok _ _ (contents_ok p Hp) Hf) as Hok.
  destruct (split_20 _ Hlen) as
    (h0&h1&h2&h3&h4&h5&h6&h7&h8&h9&h10&h11&s0&s1&s2&s3&d0&d1&d2&d3&rest&Hpl).
  rewrite (ip_eval p e h0 h1 h2 h3 h4 h5 h6 h7 h8 h9 h10 h11 s0 s1 s2 s3 d0 d1 d2 d3 rest
    He Hok Hpl) in Hi.
  destruct (ip_header_ok _ _ _ _ _ _) eqn:Hh; [injection Hi as <-|done].
  unfold ip_header_ok in Hh. rewrite !andb_true_iff, orb_true_iff in Hh.
  rewrite !Z.eqb_eq, !Z.leb_le in Hh.
  destruct Hh as ((((((Ht & ->) & H6) & ->) & Hl1) & Hl2) & Hc).
  set (len := from_be_bytes [h2; h3]) in *.
  apply (Ip_packet (contents p) e h1 [h2; h3] [h4; h5] h6 h8 h9 [h10; h11]
    [s0; s1; s2; s3] [d0; d1; d2; d3] (take (Z.to_nat (len - 20)) rest)
    (drop (Z.to_nat (len - 20)) rest)); try done.
  - rewrite take_drop. apply Hpl.
  - fold len. rewrite Hpl, length_app in Hl2. cbn [length] in Hl2. rewrite length_take. lia.
Qed.

Lemma ip_complete p i : packet_ok p → ip_packet (contents p) i → ip p = Done (Some i).
Proof.
  intros Hp Hi. remember (contents p) as bytes eqn:Eb.
  destruct Hi as [bytes e tos len id df ttl proto c sip dip payload trailer Hf Ht
    Hlen Hid Hc Hs Hd Hdf header Hpl Hl Hck]. subst bytes.
  destruct (split_2 _ Hlen) as (h2 & h3 & ->). destruct (split_2 _ Hid) as (h4 & h5 & ->).
  destruct (split_2 _ Hc) as (h10 & h11 & ->).
  destruct (split_4 _ Hs) as (s0 & s1 & s2 & s3 & ->).
  destruct (split_4 _ Hd) as (d0 & d1 & d2 & d3 & ->).
  rewrite (ip_eval p e 0x45 tos h2 h3 h4 h5 df 0 ttl proto h10 h11 s0 s1 s2 s3 d0 d1 d2 d3
    (payload ++ trailer)); [|by apply eth_spec|by apply (eth_payload_ok _ _ (contents_ok p Hp))|done].
  assert (ip_header_ok e 69 df 0 header (from_be_bytes [h2; h3]) = true) as Hh.
  { unfold ip_header_ok. rewrite !andb_true_iff, orb_true_iff, !Z.eqb_eq, !Z.leb_le.
    rewrite Hl, Hpl, app_assoc, (length_app _ trailer), length_app.
    change (length header) with 20%nat. split_and!; try done; lia. }
  unfold header in Hh. cbn [app] in Hh. rewrite Hh, Hl.
  replace (Z.to_nat (20 + Z.of_nat (length payload) - 20)) with (length payload) by lia.
  by rewrite take_app_length.
Qed.

Lemma ip_returns p : packet_ok p → ∃ i, ip p = Done i.
Proof.
  intros Hp. destruct (eth_returns p Hp) as [[e|] He].
  2:{ rewrite ip_short; [by eexists|done|]. by rewrite He. }
  destruct (decide (20 ≤ length (eth_payload e))%nat) as [Hlen|Hlen].
  2:{ rewrite ip_short; [by eexists|done|]. intros ?. rewrite He. intros [= <-]. lia. }
  pose proof (proj1 (eth_spec p e Hp) He) as Hf.
  pose proof (eth_payload_ok _ _ (contents_ok p Hp) Hf) as Hok.
  destruct (split_20 _ Hlen) as
    (h0&h1&h2&h3&h4&h5&h6&h7&h8&h9&h10&h11&s0&s1&s2&s3&d0&d1&d2&d3&rest&Hpl).
  rewrite (ip_eval p e h0 h1 h2 h3 h4 h5 h6 h7 h8 h9 h10 h11 s0 s1 s2 s3 d0 d1 d2 d3 rest
    He Hok Hpl). by eexists.
Qed.

(** The pseudo header of RFC 768 as bytes, and the padding the code gives an
    odd payload: its last byte is the high byte of a little-endian word, as if
    a zero byte stood before it. *)
Definition pseudo_bytes (i : Ip) (len : Z) : list Z :=
  to_be_bytes 4 (src_ip i) ++ to_be_bytes 4 (dst_ip i) ++ [0; protocol i] ++
  to_be_bytes 2 len.

Definition pad_as_coded (l : list Z) : list Z :=
  if decide (Z.of_nat (length l) mod 2 ≠ 0) then
    removelast l ++ [0; List.last l 0] else l.

Inductive udp_datagram (bytes : list Z) : Udp → Prop :=
| Udp_datagram i sport dport len c payload trailer :
    ip_packet bytes i →
    length sport = 2%nat → length dport = 2%nat → length len = 2%nat → length c = 2%nat →
    ip_payload i = sport ++ dport ++ len ++ c ++ payload ++ trailer →
    from_be_bytes len = 8 + Z.of_nat (length payload) →
    c = [0; 0] ∨
    rfc1071 (pseudo_bytes i (from_be_bytes len) ++ pad_as_coded (ip_payload i)) = 0 →
    udp_datagram bytes (mkUdp i (from_be_bytes dport) (from_be_bytes sport) payload).

Lemma checksum_padded pre bytes :
  bytes_ok pre → bytes_ok bytes → Nat.Even (length pre) →
  Z.of_nat (length pre + length bytes) < 65534 →
  checksum (le_sum pre) bytes = rfc1071 (pre ++ pad_as_coded bytes).
Proof.
  intros Hp Hb Ep Hlen. unfold pad_as_coded.
  destruct (Nat.Even_or_Odd (length bytes)) as [He|Ho].
  - rewrite even_length_mod, decide_False by (done || lia). apply checksum_even; try done. lia.
  - assert (bytes ≠ []) as Hne by (intros ->; destruct Ho as [k Hk]; cbn in Hk; lia).
    destruct (exists_last Hne) as (l & b & ->).
    rewrite length_app in *. cbn [length] in *.
    assert (Nat.Even (length l)) as El.
    { destruct Ho as [k Hk]. exists k. lia. }
    rewrite decide_True, last_snoc_Z, removelast_last.
    + apply checksum_odd_pad; try done. lia.
    + apply even_length_mod in El. rewrite Nat2Z.inj_add, Z.add_mod, El by lia. done.
Qed.

Lemma pseudo_header_eq i len :
  is_uint 8 (protocol i) → is_uint 16 len →
  pseudo_header i len = Done (Some (le_sum (pseudo_bytes i len))).
Proof.
  intros Hp Hl. unfold pseudo_header, pseudo_bytes.
  destruct (split_4 _ (length_to_be_bytes 4 (src_ip i))) as (s0 & s1 & s2 & s3 & Es).
  destruct (split_4 _ (length_to_be_bytes 4 (dst_ip i))) as (d0 & d1 & d2 & d3 & Ed).
  pose proof (to_be_bytes_ok 4 (src_ip i)) as Hs. pose proof (to_be_bytes_ok 4 (dst_ip i)) as Hd.
  rewrite Es, Ed in *. slices. do 2 f_equal.
  unfold bytes_ok in *. rewrite !Forall_cons in Hs, Hd. unfold is_uint in *.
  change (2 ^ 8) with 256 in *. change (2 ^ 16) with 65536 in *.
  unfold to_be_bytes, reverse. cbn [to_le_bytes rev_append app le_sum from_le_bytes].
  rewrite !swap_bytes_2, (Z.mod_small (protocol i)), (Z.div_small (protocol i)) by lia.
  rewrite Zmod_0_l. pose proof (Z.mod_pos_bound len 256).
  pose proof (Z.mod_pos_bound (len / 256) 256).
  wrapping_add_inner. lia.
Qed.

Lemma pseudo_bytes_ok i len : is_uint 8 (protocol i) → bytes_ok (pseudo_bytes i len).
Proof.
  intros. repeat apply Forall_app_2; try apply to_be_bytes_ok.
  by repeat apply Forall_cons_2.
Qed.

Lemma length_pseudo_bytes i len : length (pseudo_bytes i len) = 12%nat.
Proof. unfold pseudo_bytes. by rewrite !length_app, !length_to_be_bytes. Qed.

(** What [ip_packet] says about the sizes of its parts. *)
Lemma ip_packet_parts bytes i : bytes_ok bytes → ip_packet bytes i →
  bytes_ok (ip_payload i) ∧ is_uint 8 (protocol i) ∧
  is_uint 32 (src_ip i) ∧ is_uint 32 (dst_ip i) ∧ (length (ip_payload i) ≤ length bytes)%nat.
Proof.
  intros Hb Hi. destruct Hi as [bytes e tos len id df ttl proto c sip dip payload trailer Hf Ht
    Hlen Hid Hc Hs Hd Hdf header Hpl Hl Hck]. cbn.
  pose proof (eth_payload_ok _ _ Hb Hf) as Hok. rewrite Hpl in Hok.
  apply Forall_app in Hok as [Hh [Hp _]%Forall_app].
  assert (bytes_ok sip ∧ bytes_ok dip ∧ is_uint 8 proto) as (Hsip & Hdip & Hproto).
  { unfold header in Hh. rewrite !Forall_app, !Forall_cons in Hh. tauto. }
  split_and!; [done|done|..].
  - apply from_be_bytes_uint in Hsip. by rewrite Hs in Hsip.
  - apply from_be_bytes_uint in Hdip. by rewrite Hd in Hdip.
  - destruct Hf as [dst src t0 t1 pl _ _]. cbn [eth_payload] in Hpl.
    rewrite !length_app, Hpl, !length_app. lia.
Qed.

(** [udp] once the IP layer has parsed and there are eight header bytes. *)
Lemma udp_eval p i a0 a1 b0 b1 l0 l1 c0 c1 rest :
  packet_ok p → ip p = Done (Some i) →
  ip_payload i = [a0; a1; b0; b1; l0; l1; c0; c1] ++ rest →
  let len := from_be_bytes [l0; l1] in
  udp p = Done (
    if (negb (from_be_bytes [c0; c1] =? 0) &&
        negb (rfc1071 (pseudo_bytes i len ++ pad_as_coded (ip_payload i)) =? 0)) ||
       (len <? 8) || (Z.of_nat (length (ip_payload i)) <? len)
    then None
    else Some (mkUdp i (from_be_bytes [b0; b1]) (from_be_bytes [a0; a1])
                 (take (Z.to_nat (len - 8)) rest))).
Proof.
  intros Hp Hi Hpl len. pose proof (ip_sound p i Hp Hi) as Hsound.
  destruct (ip_packet_parts _ _ (contents_ok p Hp) Hsound) as (Hok & Hproto & _ & _ & Hsz).
  assert (Z.of_nat (length (contents p)) ≤ 1514).
  { unfold contents. rewrite length_take. destruct Hp as (_ & _ & ?). lia. }
  assert (is_uint 16 len) as Hlen.
  { apply (from_be_bytes_uint [l0; l1]), (bytes_ok_get (ip_payload i) _ 4 6); [done|].
    rewrite Hpl. by slices. }
  unfold udp. rewrite Hi, bind_Done_l. cbn [or_return].
  assert (get (ip_payload i) 0 8 = Some [a0; a1; b0; b1; l0; l1; c0; c1]) as ->.
  { rewrite Hpl. cbn [app]. by slices. }
  slices. fold len. rewrite pseudo_header_eq by done.
  rewrite bind_Done_l. cbn [or_return]. rewrite checksum_padded.
  2: by apply pseudo_bytes_ok. 2: done.
  2:{ rewrite length_pseudo_bytes. by exists 6%nat. }
  2:{ rewrite length_pseudo_bytes. lia. }
  destruct (from_be_bytes [c0; c1] =? 0); cbn [negb andb orb];
    [|destruct (rfc1071 _ =? 0); cbn [negb orb]; [|done]].
  all: rewrite bind_Done_l; cbn [or_return].
  all: destruct (Z.ltb_spec len 8); cbn [orb]; [done|].
  all: destruct (Z.ltb_spec (Z.of_nat (length (ip_payload i))) len); [done|].
  all: by rewrite Hpl, (get_app_r _ rest 8 len) by (rewrite <- ?Hpl; done).
Qed.

Lemma udp_short p : packet_ok p →
  (∀ i, ip p = Done (Some i) → (length (ip_payload i) < 8)%nat) → udp p = Done None.
Proof.
  intros Hp Hs. unfold udp. destruct (ip_returns p Hp) as [[i|] Hi];
    rewrite Hi, bind_Done_l; [|done].
  cbn [or_return]. assert (get (ip_payload i) 0 8 = None) as ->; [|done].
  specialize (Hs i Hi). unfold get. rewrite decide_False; [done|lia].
Qed.

(** Every packet is refused for lack of a UDP header or has its eight bytes. *)
Lemma udp_cases p : packet_ok p →
  udp p = Done None ∨
  ∃ i a0 a1 b0 b1 l0 l1 c0 c1 rest, ip p = Done (Some i) ∧
    ip_payload i = [a0; a1; b0; b1; l0; l1; c0; c1] ++ rest.
Proof.
  intros Hp. destruct (ip_returns p Hp) as [[i|] Hi].
  2:{ left. apply udp_short; [done|]. by rewrite Hi. }
  destruct (ip_payload i) as [|a0 [|a1 [|b0 [|b1 [|l0 [|l1 [|c0 [|c1 rest]]]]]]]] eqn:E;
    [left; apply udp_short; [done|]; rewrite Hi; intros ? [= <-]; rewrite E; cbn; lia ..|].
  right. by exists i, a0, a1, b0, b1, l0, l1, c0, c1, rest.
Qed.

Lemma be2_zero a b : is_uint 8 a → is_uint 8 b → from_be_bytes [a; b] = 0 → [a; b] = [0; 0].
Proof. unfold is_uint. rewrite from_be_bytes_2. intros. assert (a = 0) by lia. assert (b = 0) by lia. congruence. Qed.

Lemma udp_sound p u : packet_ok p → udp p = Done (Some u) → udp_datagram (contents p) u.
Proof.
  intros Hp Hu. destruct (udp_cases p Hp) as [E|(i&a0&a1&b0&b1&l0&l1&c0&c1&rest&Hi&Hpl)]; [congruence|].
  pose proof (ip_sound p i Hp Hi) as Hs.
  destruct (ip_packet_parts _ _ (contents_ok p Hp) Hs) as (Hok & _).
  rewrite (udp_eval p i a0 a1 b0 b1 l0 l1 c0 c1 rest Hp Hi Hpl) in Hu.
  set (len := from_be_bytes [l0; l1]) in *.
  destruct (Z.ltb_spec len 8); [by rewrite orb_true_r in Hu|].
  destruct (Z.ltb_spec (Z.of_nat (length (ip_payload i))) len); [by rewrite orb_true_r in Hu|].
  rewrite !orb_false_r in Hu. rewrite Hpl, length_app in *. cbn [length] in *.
  destruct (negb _ && negb _) eqn:Hc; [done|]. injection Hu as <-.
  apply (Udp_datagram _ i [a0; a1] [b0; b1] [l0; l1] [c0; c1] (take (Z.to_nat (len - 8)) rest)
    (drop (Z.to_nat (len - 8)) rest)); try done.
  - by rewrite take_drop.
  - fold len. rewrite length_take. lia.
  - apply andb_false_iff in Hc as [Hc|Hc]; apply negb_false_iff, Z.eqb_eq in Hc.
    + left. unfold bytes_ok in Hok. rewrite Forall_app, !Forall_cons in Hok. apply be2_zero; tauto.
    + right. fold len. by rewrite Hpl.
Qed.

Lemma udp_complete p u : packet_ok p → udp_datagram (contents p) u → udp p = Done (Some u).
Proof.
  intros Hp Hu. destruct Hu as [i sport dport len c payload trailer Hi Hs Hd Hl Hc Hpl Hlen Hck].
  apply (ip_complete p i Hp) in Hi.
  destruct (split_2 _ Hs) as (a0 & a1 & ->). destruct (split_2 _ Hd) as (b0 & b1 & ->).
  destruct (split_2 _ Hl) as (l0 & l1 & ->). destruct (split_2 _ Hc) as (c0 & c1 & ->).
  rewrite (udp_eval p i a0 a1 b0 b1 l0 l1 c0 c1 (payload ++ trailer) Hp Hi Hpl).
  destruct (Z.ltb_spec (from_be_bytes [l0; l1]) 8); [lia|].
  destruct (Z.ltb_spec (Z.of_nat (length (ip_payload i))) (from_be_bytes [l0; l1])) as [Hb|_].
  { rewrite Hpl, Hlen, !length_app in Hb. cbn [length] in Hb. lia. }
  rewrite !orb_false_r. destruct (negb _ && negb _) eqn:E.
  - apply andb_true_iff in E as [E1 E2]. destruct Hck as [[= -> ->]|Hck]; [done|].
    by rewrite Hck in E2.
  - rewrite Hlen. replace (Z.to_nat (8 + Z.of_nat (length payload) - 8)) with (length payload) by lia.
    by rewrite take_app_length.
Qed.

Lemma udp_returns p : packet_ok p → ∃ u, udp p = Done u.
Proof.
  intros Hp. destruct (udp_cases p Hp) as [E|(i&a0&a1&b0&b1&l0&l1&c0&c1&rest&Hi&Hpl)]; [by eexists|].
  rewrite (udp_eval p i a0 a1 b0 b1 l0 l1 c0 c1 rest Hp Hi Hpl). by eexists.
Qed.

(** ** Building a packet *)

(** The bytes [create_udp_raw] puts at the front of the buffer. *)
Definition eth_header (src_eth dst_eth : list Z) : list Z := dst_eth ++ src_eth ++ [0x08; 0x00].

Definition ip_header (c : list Z) (src_ip dst_ip : Z) (message_len : Z) : list Z :=
  [0x45; 0] ++ to_be_bytes 2 (28 + message_len) ++ [0; 0; 0; 0; 64; IPPROTO_UDP] ++ c ++
  to_be_bytes 4 src_ip ++ to_be_bytes 4 dst_ip.

Definition udp_header (src_port dst_port message_len : Z) : list Z :=
  to_be_bytes 2 src_port ++ to_be_bytes 2 dst_port ++ to_be_bytes 2 (8 + message_len) ++ [0; 0].

Definition ip_checksum (src_ip dst_ip message_len : Z) : list Z :=
  to_be_bytes 2 (rfc1071 (ip_header [0; 0] src_ip dst_ip message_len)).

Lemma split_6 {A} (l : list A) : length l = 6%nat → ∃ a b c d e f, l = [a; b; c; d; e; f].
Proof. do 7 (destruct l as [|? l]; try done). by repeat eexists. Qed.

Lemma to_be_bytes_2 z : to_be_bytes 2 z = [(z / 256) mod 256; z mod 256].
Proof. done. Qed.

Lemma write_eth_eq b src_eth dst_eth :
  length src_eth = 6%nat → length dst_eth = 6%nat → (14 ≤ length b)%nat →
  write_eth b src_eth dst_eth = Done (eth_header src_eth dst_eth ++ drop 14 b).
Proof.
  intros Hs Hd Hb.
  destruct (split_6 _ Hs) as (?&?&?&?&?&?& ->). destruct (split_6 _ Hd) as (?&?&?&?&?&?& ->).
  do 14 (destruct b as [|? b]; [cbn in Hb; lia|]).
  unfold write_eth. slices. rewrite to_be_bytes_2. by writes.
Qed.

Lemma split_20_exact (l : list Z) : length l = 20%nat →
  ∃ h0 h1 h2 h3 h4 h5 h6 h7 h8 h9 h10 h11 s0 s1 s2 s3 d0 d1 d2 d3,
  l = [h0; h1; h2; h3; h4; h5; h6; h7; h8; h9; h10; h11; s0; s1; s2; s3; d0; d1; d2; d3].
Proof. do 21 (destruct l as [|? l]; try done). by repeat eexists. Qed.

Lemma ip_header_ok_bytes c src dst m : bytes_ok c → bytes_ok (ip_header c src dst m).
Proof.
  intros. unfold ip_header. repeat apply Forall_app_2; try apply to_be_bytes_ok; try done;
    by repeat apply Forall_cons_2.
Qed.

Lemma length_ip_header c src dst m : length c = 2%nat → length (ip_header c src dst m) = 20%nat.
Proof. intros Hc. unfold ip_header. by rewrite !length_app, !length_to_be_bytes, Hc. Qed.

Lemma write_ip_eq pre old rest src dst m :
  length pre = 14%nat → length old = 20%nat → 0 ≤ m ≤ 1472 →
  write_ip (pre ++ old ++ rest) src dst m =
  Done (pre ++ ip_header (ip_checksum src dst m) src dst m ++ rest).
Proof.
  intros Hpre Hold Hm. unfold write_ip, slice.
  rewrite get_app by (rewrite ?Hpre, ?Hold; done). cbn [expect]. rewrite bind_Done_l.
  set (whole := pre ++ old ++ rest).
  destruct (split_20_exact _ Hold) as
    (h0&h1&h2&h3&h4&h5&h6&h7&h8&h9&h10&h11&?&?&?&?&?&?&?&?&E). rewrite E. writes.
  rewrite wrapping_add_small by (unfold is_uint; cbn [Z.pow]; lia).
  rewrite wrap_small by (unfold is_uint; change (2 ^ 16) with 65536; lia).
  replace (20 + 8 + m) with (28 + m) by lia.
  destruct (split_4 _ (length_to_be_bytes 4 src)) as (s0 & s1 & s2 & s3 & Es).
  destruct (split_4 _ (length_to_be_bytes 4 dst)) as (d0 & d1 & d2 & d3 & Ed).
  assert (checksum 0 (ip_header [0; 0] src dst m) = rfc1071 (ip_header [0; 0] src dst m)) as Hck.
  { apply (checksum_even []); [by constructor| |by exists 0%nat| |].
    - by apply ip_header_ok_bytes; repeat apply Forall_cons_2.
    - rewrite length_ip_header by done. by exists 10%nat.
    - rewrite length_ip_header by done. done. }
  unfold ip_checksum. rewrite <- Hck. clear Hck. unfold ip_header. rewrite Es, Ed, !to_be_bytes_2.
  writes. unfold whole.
  rewrite copy_from_slice_app by (rewrite ?Hpre, ?Hold; done). done.
Qed.

Lemma write_udp_eq pre old rest sport dport m :
  length pre = 34%nat → length old = 8%nat → 0 ≤ m ≤ 1472 →
  write_udp (pre ++ old ++ rest) sport dport m = Done (pre ++ udp_header sport dport m ++ rest).
Proof.
  intros Hpre Hold Hm. unfold write_udp, slice.
  rewrite get_app by (rewrite ?Hpre, ?Hold; done). cbn [expect]. rewrite bind_Done_l.
  set (whole := pre ++ old ++ rest).
  assert (∃ a b c d e f g h, old = [a; b; c; d; e; f; g; h]) as (?&?&?&?&?&?&?&?&E).
  { clear whole. do 9 (destruct old as [|? old]; try done). by repeat eexists. }
  rewrite E. rewrite wrapping_add_small by (unfold is_uint; cbn [Z.pow]; lia).
  rewrite wrap_small by (unfold is_uint; change (2 ^ 16) with 65536; lia).
  unfold udp_header. rewrite !to_be_bytes_2. writes. unfold whole.
  rewrite copy_from_slice_app by (rewrite ?Hpre, ?Hold; done). done.
Qed.

(** The packet [create_udp_raw] builds. *)
Definition udp_packet_header (src_eth dst_eth : list Z) (src dst sport dport m : Z) : list Z :=
  eth_header src_eth dst_eth ++ ip_header (ip_checksum src dst m) src dst m ++
  udp_header sport dport m.

Lemma length_udp_packet_header src_eth dst_eth src dst sport dport m :
  length src_eth = 6%nat → length dst_eth = 6%nat →
  length (udp_packet_header src_eth dst_eth src dst sport dport m) = 42%nat.
Proof.
  intros Hs Hd. unfold udp_packet_header, eth_header, udp_header.
  rewrite !length_app, length_ip_header, !length_to_be_bytes, Hs, Hd by apply length_to_be_bytes.
  done.
Qed.

Lemma set_len_eq p len :
  len ≤ 1514 ∧ len ≤ Z.of_nat (length (buffer p)) →
  set_len p len = Done (mkPacket (phys_addr p) (buffer p) len).
Proof.
  intros H. unfold set_len, assert.
  by rewrite (proj2 (Z.leb_le len 1514)), (proj2 (Z.leb_le len (Z.of_nat _))) by lia.
Qed.

Lemma create_udp_raw_eq p src_eth dst_eth src dst sport dport m :
  length (buffer p) = 4096%nat → length src_eth = 6%nat → length dst_eth = 6%nat → 0 ≤ m ≤ 1472 →
  create_udp_raw p src_eth dst_eth src dst sport dport m =
  Done (mkPacket (phys_addr p)
          (udp_packet_header src_eth dst_eth src dst sport dport m ++ drop 42 (buffer p))
          (42 + m), 42%nat).
Proof.
  intros Hb Hs Hd Hm. unfold create_udp_raw.
  rewrite write_eth_eq, bind_Done_l by (done || lia).
  assert (length (eth_header src_eth dst_eth) = 14%nat) as He
    by (unfold eth_header; rewrite !length_app, Hs, Hd; done).
  rewrite <- (take_drop 20 (drop 14 (buffer p))), drop_drop.
  rewrite write_ip_eq, bind_Done_l by (rewrite ?length_take, ?length_drop; lia).
  rewrite <- (take_drop 8 (drop (14 + 20) (buffer p))), drop_drop, app_assoc.
  rewrite write_udp_eq, bind_Done_l.
  2:{ rewrite length_app, length_ip_header by apply length_to_be_bytes. lia. }
  2:{ rewrite length_take, length_drop. lia. }
  2: done.
  rewrite wrapping_add_small by (unfold is_uint; cbn [Z.pow]; lia).
  rewrite set_len_eq; cbn [buffer phys_addr].
  - rewrite bind_Done_l. replace (14 + 20 + 8 + m) with (42 + m) by lia.
    unfold udp_packet_header. by rewrite <- !app_assoc.
  - rewrite !length_app, He, length_ip_header, length_drop by apply length_to_be_bytes.
    unfold udp_header. rewrite !length_app, !length_to_be_bytes. cbn [length]. lia.
Qed.

(** The checksum field makes the header sum to zero. *)
Lemma rfc1071_field pre post :
  bytes_ok pre → bytes_ok post → Nat.Even (length pre) → Nat.Even (length post) →
  let c := rfc1071 (pre ++ [0; 0] ++ post) in
  is_uint 16 c ∧ rfc1071 (pre ++ to_be_bytes 2 c ++ post) = 0.
Proof.
  intros Hp Hq Ep Eq c.
  assert (∀ f, bytes_ok f → length f = 2%nat →
    ones_rep (be_sum 0 (pre ++ f ++ post)) (256 * (le_sum pre + (le_sum f + le_sum post)))) as Hrep.
  { intros f Hf Hl. pose proof (be_sum_rep (pre ++ f ++ post) 0 0) as H.
    rewrite !le_sum_app in H by (done || by rewrite Hl; exists 1%nat). apply H; [|by repeat split|done|].
    - by repeat apply Forall_app_2.
    - rewrite !length_app, Hl. repeat apply Nat.Even_Even_add; try done. by exists 1%nat. }
  pose proof (Hrep [0; 0]) as H0. pose proof (le_sum_bounds _ Hp) as Bp.
  pose proof (le_sum_bounds _ Hq) as Bq.
  destruct H0 as (Hr & Hm & Hz); [by repeat apply Forall_cons_2|done|].
  cbn [le_sum] in Hm, Hz. unfold c, rfc1071 in *. set (r := be_sum 0 (pre ++ [0; 0] ++ post)) in *.
  assert (is_uint 16 (65535 - r)) as Hc by (unfold is_uint; change (2 ^ 16) with 65536; lia).
  split; [done|]. destruct (Hrep (to_be_bytes 2 (65535 - r))) as (Hr' & Hm' & Hz');
    [apply to_be_bytes_ok|apply length_to_be_bytes|].
  set (S0 := le_sum pre + le_sum post) in *.
  assert (le_sum (to_be_bytes 2 (65535 - r)) = 65535 - swap_bytes 2 r) as Hle.
  { rewrite <- swap_bytes_compl, swap_bytes_2, to_be_bytes_2 by done. cbn [le_sum]. lia. }
  rewrite Hle in Hm', Hz'. destruct (swap_bytes_rep r (256 * S0)) as (Hs & Hsm & Hsz).
  { split_and!; [lia..| |]; unfold S0; [rewrite Hm; f_equal; lia|lia]. }
  set (r' := be_sum 0 (pre ++ to_be_bytes 2 (65535 - r) ++ post)) in *.
  assert (r' mod 65535 = 0) as Hr0.
  { rewrite Hm'. apply Z.mod_divide; [lia|].
    assert ((swap_bytes 2 r - 256 * (256 * S0)) mod 65535 = 0) as Hd
      by (by rewrite Zminus_mod, Hsm, Z.sub_diag).
    apply Z.mod_divide in Hd as [k Hk]; [|lia]. exists (256 * (1 - k - S0)). unfold S0 in *. lia. }
  apply Z.mod_divide in Hr0 as [k Hk]; [|lia]. assert (r' ≠ 0); [|nia].
  intros E. apply Hz' in E. unfold S0 in *. lia.
Qed.

(** Writing a part of the packet through [raw_mut]. *)
Lemma raw_mut_write_mid paddr pre old post src len a b :
  a = length pre → b = (a + length old)%nat → length src = length old →
  Z.of_nat b ≤ len ≤ Z.of_nat (length (pre ++ old ++ post)) →
  raw_mut_write (mkPacket paddr (pre ++ old ++ post) len) a b src
  = Done (mkPacket paddr (pre ++ src ++ post) len).
Proof.
  intros -> -> Hs Hlen. unfold raw_mut_write, raw. cbn [buffer plength phys_addr].
  set (k := (Z.to_nat len - length pre - length old)%nat).
  assert (Z.to_nat len = length pre + (length old + k))%nat as Ek by lia.
  rewrite !length_app in Hlen.
  rewrite (slice_get _ (pre ++ old ++ take k post)).
  2:{ apply get_Some. rewrite !length_app. split; [lia|].
      by rewrite drop_0, Nat.sub_0_r, Ek, !take_app_add. }
  rewrite bind_Done_l, copy_from_slice_app, bind_Done_l by done.
  rewrite Ek, !drop_app_add, <- !app_assoc. by rewrite take_drop.
Qed.

Lemma bytes_ok_udp_packet_header src_eth dst_eth src dst sport dport m :
  bytes_ok src_eth → bytes_ok dst_eth →
  bytes_ok (udp_packet_header src_eth dst_eth src dst sport dport m).
Proof.
  intros. unfold udp_packet_header, eth_header, udp_header.
  repeat apply Forall_app_2; try apply ip_header_ok_bytes; try apply to_be_bytes_ok; try done;
    by repeat apply Forall_cons_2.
Qed.

Lemma ip_header_checksum src dst m :
  rfc1071 (ip_header (ip_checksum src dst m) src dst m) = 0.
Proof.
  unfold ip_checksum, ip_header.
  pose proof (rfc1071_field
    ([0x45; 0] ++ to_be_bytes 2 (28 + m) ++ [0; 0; 0; 0; 64; IPPROTO_UDP])
    (to_be_bytes 4 src ++ to_be_bytes 4 dst)) as H. rewrite <- !app_assoc in H. apply H.
  - repeat apply Forall_app_2; try apply to_be_bytes_ok; by repeat apply Forall_cons_2.
  - apply Forall_app_2; apply to_be_bytes_ok.
  - rewrite !length_app, length_to_be_bytes. by exists 5%nat.
  - rewrite !length_app, !length_to_be_bytes. by exists 4%nat.
Qed.

Lemma udp_packet_parses src_eth dst_eth src dst sport dport msg :
  length src_eth = 6%nat → length dst_eth = 6%nat →
  is_uint 32 src → is_uint 32 dst → is_uint 16 sport → is_uint 16 dport →
  Z.of_nat (length msg) ≤ 1472 →
  let m := Z.of_nat (length msg) in
  udp_datagram (udp_packet_header src_eth dst_eth src dst sport dport m ++ msg)
    (mkUdp (mkIp (mkEthernet dst_eth src_eth ETHTYPE_IPV4
                    (ip_header (ip_checksum src dst m) src dst m ++ udp_header sport dport m ++ msg))
              src dst IPPROTO_UDP (udp_header sport dport m ++ msg))
       dport sport msg).
Proof.
  intros Hs Hd Hsrc Hdst Hsp Hdp Hlen m.
  assert (∀ k, 0 ≤ k ≤ 28 → is_uint 16 (k + m)) as Hm.
  { intros k Hk. unfold is_uint. change (2 ^ 16) with 65536. lia. }
  pose proof (Udp_datagram
    (udp_packet_header src_eth dst_eth src dst sport dport m ++ msg)
    (mkIp (mkEthernet dst_eth src_eth ETHTYPE_IPV4
             (ip_header (ip_checksum src dst m) src dst m ++ udp_header sport dport m ++ msg))
       src dst IPPROTO_UDP (udp_header sport dport m ++ msg))
    (to_be_bytes 2 sport) (to_be_bytes 2 dport) (to_be_bytes 2 (8 + m)) [0; 0] msg []) as H.
  rewrite !from_to_be_bytes in H by (done || by apply Hm). rewrite !length_to_be_bytes in H.
  apply H; try done; [|unfold udp_header; cbn [ip_payload]; by rewrite app_nil_r, <- !app_assoc|by left].
  pose proof (Ip_packet (udp_packet_header src_eth dst_eth src dst sport dport m ++ msg)
    (mkEthernet dst_eth src_eth ETHTYPE_IPV4
       (ip_header (ip_checksum src dst m) src dst m ++ udp_header sport dport m ++ msg))
    0 (to_be_bytes 2 (28 + m)) [0; 0] 0 64 IPPROTO_UDP (ip_checksum src dst m)
    (to_be_bytes 4 src) (to_be_bytes 4 dst) (udp_header sport dport m ++ msg) []) as Hip.
  rewrite !from_to_be_bytes in Hip by (done || by apply Hm). rewrite !length_to_be_bytes in Hip.
  apply Hip; try done; [|by left|by rewrite app_nil_r| |apply ip_header_checksum].
  - unfold udp_packet_header, eth_header. rewrite <- !app_assoc.
    by apply (Eth_frame dst_eth src_eth 8 0).
  - unfold udp_header. rewrite !length_app, !length_to_be_bytes. cbn [length]. lia.
Qed.

(** ** Network devices *)

(** [PacketLease]: a packet on loan from the driver; its owner is the driver
    every operation below is given. *)
Record PacketLease := mkPacketLease { lease_packet : option Packet }.

Definition lease_new (p : Packet) : PacketLease := mkPacketLease (Some p).

(** [PacketLease::take] *)
Definition lease_take (l : PacketLease) : outcome Packet := unwrap (lease_packet l).

(** [PacketLease::deref] *)
Definition lease_deref (l : PacketLease) : outcome Packet := unwrap (lease_packet l).

(** The [NetDriver] trait. *)
Class NetDriver (D : Type) := {
  drv_mac : D → list Z;
  drv_recv : D → outcome (D * option PacketLease);
  drv_send : Packet → D → outcome D;
  drv_allocate_packet : D → outcome (D * Packet);
  drv_release_packet : Packet → D → D;
}.

(** [PacketLease::drop] *)
Definition lease_drop `{NetDriver D} (l : PacketLease) (d : D) : D :=
  match lease_packet l with Some p => drv_release_packet p d | None => d end.

(** [NetDevice]; its two locks are taken one after the other in every
    operation, so an operation is one step on the two guarded values. *)
Record NetDevice (D : Type) := mkNetDevice {
  driver : D;
  mac : list Z;
  udp_binds : gmap Z (list Packet);
}.
Arguments mkNetDevice {D}.
Arguments driver {D}.
Arguments mac {D}.
Arguments udp_binds {D}.

Record UDPBind := mkUDPBind { port : Z }.

Section device.
Context `{NetDriver D}.
Implicit Types dev : NetDevice D.

(** [bind_udp] *)
Definition bind_udp (port : Z) dev : NetDevice D * option UDPBind :=
  match udp_binds dev !! port with
  | None =>
      (mkNetDevice (driver dev) (mac dev) (<[port := []]> (udp_binds dev)),
       Some (mkUDPBind port))
  | Some _ => (dev, None)
  end.

(** [unbind_udp] *)
Definition unbind_udp (port : Z) dev : outcome (NetDevice D) :=
  queued_packets ← unwrap (udp_binds dev !! port);
  Done (mkNetDevice
    (foldl (λ d packet, drv_release_packet packet d) (driver dev) queued_packets)
    (mac dev) (delete port (udp_binds dev))).

(** [recv_udp]; the closure [func] works on state [s] of the caller. *)
Definition recv_udp {S T} (port : Z) (func : Packet → Udp → S → outcome (S * option T))
    (s : S) dev : outcome (NetDevice D * S * option T) :=
  ent ← unwrap (udp_binds dev !! port);
  match ent with
  | packet :: ent =>
      u ← udp packet;
      u ← unwrap u;
      '(s, ret) ← func packet u s;
      Done (mkNetDevice (drv_release_packet packet (driver dev)) (mac dev)
              (<[port := ent]> (udp_binds dev)), s, ret)
  | [] =>
      '(d, lease) ← drv_recv (driver dev);
      match lease with
      | None => Done (mkNetDevice d (mac dev) (udp_binds dev), s, None)
      | Some lease =>
          packet ← lease_deref lease;
          u ← udp packet;
          match u with
          | Some u =>
              if dst_port u =? port then
                '(s, ret) ← func packet u s;
                Done (mkNetDevice (lease_drop lease d) (mac dev) (udp_binds dev), s, ret)
              else
                match udp_binds dev !! dst_port u with
                | Some x =>
                    packet ← lease_take lease;
                    Done (mkNetDevice d (mac dev)
                            (<[dst_port u := x ++ [packet]]> (udp_binds dev)), s, None)
                | None =>
                    Done (mkNetDevice (lease_drop lease d) (mac dev) (udp_binds dev), s, None)
                end
          | None => Done (mkNetDevice (lease_drop lease d) (mac dev) (udp_binds dev), s, None)
          end
      end
  end.

(** [send], [allocate_packet] and [mac] of the device. *)
Definition device_send (packet : Packet) dev : outcome (NetDevice D) :=
  d ← drv_send packet (driver dev);
  Done (mkNetDevice d (mac dev) (udp_binds dev)).

Definition device_allocate_packet dev : outcome (NetDevice D * Packet) :=
  '(d, packet) ← drv_allocate_packet (driver dev);
  Done (mkNetDevice d (mac dev) (udp_binds dev), packet).

(** [UDPBind::recv] and its [Drop]. *)
Definition bind_recv {S T} (b : UDPBind) (func : Packet → Udp → S → outcome (S * option T))
    (s : S) dev : outcome (NetDevice D * S * option T) :=
  recv_udp (port b) func s dev.

Definition bind_drop (b : UDPBind) dev : outcome (NetDevice D) :=
  unbind_udp (port b) dev.

End device.

(** What a driver promises while its own invariant [drv_ok] holds, which all of
    its operations keep: the packets it lends are well formed, and [leased] is
    the account of the ones not given back. *)
Class NetDriverLaws (D : Type) `{NetDriver D} := {
  drv_ok : D → Prop;
  leased : D → list Packet;
  recv_some d d' l : drv_ok d → drv_recv d = Done (d', Some l) →
    drv_ok d' ∧ ∃ p, l = lease_new p ∧ packet_ok p ∧ leased d' ≡ₚ p :: leased d;
  recv_none d d' : drv_ok d → drv_recv d = Done (d', None) → drv_ok d' ∧ leased d' ≡ₚ leased d;
  release_leased p d : drv_ok d → p ∈ leased d → packet_ok p →
    drv_ok (drv_release_packet p d) ∧ leased d ≡ₚ p :: leased (drv_release_packet p d);
  allocate_leased d d' p : drv_ok d → drv_allocate_packet d = Done (d', p) →
    drv_ok d' ∧ packet_ok p ∧ leased d' ≡ₚ leased d;
  send_leased p d d' : drv_ok d → packet_ok p → drv_send p d = Done d' →
    drv_ok d' ∧ leased d' ≡ₚ leased d;
}.

(** The driver's operations return: no allocation fails and every transmission
    completes. *)
Class NetDriverLive (D : Type) `{NetDriverLaws D} := {
  recv_returns d : drv_ok d → returns (drv_recv d);
  send_returns p d : drv_ok d → packet_ok p → returns (drv_send p d);
  allocate_returns d : drv_ok d → returns (drv_allocate_packet d);
}.

Section device_proofs.
Context `{NetDriverLaws D}.
Implicit Types dev : NetDevice D.

(** Every queued packet is a UDP datagram for the port of its queue. *)
Definition queue_ok (m : gmap Z (list Packet)) : Prop :=
  map_Forall (λ port q, Forall (λ p, packet_ok p ∧
    ∃ u, udp p = Done (Some u) ∧ dst_port u = port) q) m.

Definition queued (m : gmap Z (list Packet)) : list Packet :=
  map_to_list m ≫= snd.

(** The device holds exactly the packets the driver lent, one queue each. *)
Definition device_inv dev : Prop :=
  drv_ok (driver dev) ∧ queue_ok (udp_binds dev) ∧ leased (driver dev) ≡ₚ queued (udp_binds dev).

Lemma queued_insert_new m k q : m !! k = None → queued (<[k := q]> m) ≡ₚ q ++ queued m.
Proof.
  intros Hk. unfold queued. by rewrite (map_to_list_insert m k q Hk).
Qed.

Lemma queued_delete m k q : m !! k = Some q → queued m ≡ₚ q ++ queued (delete k m).
Proof.
  intros Hk. rewrite <- queued_insert_new by apply lookup_delete_eq.
  by rewrite insert_delete_eq, insert_id.
Qed.

Lemma queued_insert m k q q' : m !! k = Some q →
  queued (<[k := q']> m) ≡ₚ q' ++ queued (delete k m).
Proof.
  intros Hk. rewrite <- insert_delete_eq. apply queued_insert_new, lookup_delete_eq.
Qed.

Lemma queue_ok_insert m k q :
  queue_ok m → Forall (λ p, packet_ok p ∧ ∃ u, udp p = Done (Some u) ∧ dst_port u = k) q →
  queue_ok (<[k := q]> m).
Proof. intros Hm Hq. by apply map_Forall_insert_2. Qed.

Lemma release_all q : ∀ d rest,
  drv_ok d → Forall packet_ok q → leased d ≡ₚ q ++ rest →
  let d' := foldl (λ d packet, drv_release_packet packet d) d q in
  drv_ok d' ∧ leased d' ≡ₚ rest.
Proof.
  induction q as [|p q IH]; intros d rest Hd Hq Hl; cbn; [done|].
  apply Forall_cons in Hq as [Hp Hq].
  destruct (release_leased p d Hd) as [Hd' Hl']; [|done|].
  { rewrite Hl. apply elem_of_cons. by left. }
  apply IH; [done|done|]. apply (Permutation_cons_inv (a := p)). by rewrite <- Hl', Hl.
Qed.

Lemma queue_packets_ok m port q : queue_ok m → m !! port = Some q → Forall packet_ok q.
Proof.
  intros Hm Hq. apply (Forall_impl _ _ _ (map_Forall_lookup_1 _ _ _ _ Hm Hq)). by intros p [? _].
Qed.

Lemma bind_udp_inv port dev dev' b :
  device_inv dev → bind_udp port dev = (dev', b) → device_inv dev'.
Proof.
  intros (Hd & Hq & Hl) E. unfold bind_udp in E.
  destruct (udp_binds dev !! port) eqn:Ep; injection E as <- <-; [done|].
  split; [done|]. split; [by apply queue_ok_insert|]. cbn. by rewrite queued_insert_new.
Qed.

Lemma unbind_udp_correct port dev q :
  device_inv dev → udp_binds dev !! port = Some q →
  ∃ dev', unbind_udp port dev = Done dev' ∧ device_inv dev' ∧
    udp_binds dev' = delete port (udp_binds dev) ∧ mac dev' = mac dev.
Proof.
  intros (Hd & Hq & Hl) Hp. unfold unbind_udp. rewrite Hp. cbn. eexists. split; [done|].
  split; [|done]. destruct (release_all q (driver dev) (queued (delete port (udp_binds dev))) Hd) as [Hd' Hl'].
  - by apply (queue_packets_ok (udp_binds dev) port).
  - by rewrite Hl, (queued_delete _ _ _ Hp).
  - split; [done|]. split; [by apply map_Forall_delete|done].
Qed.

(** A packet that came with a lease is released when the lease is dropped. *)
Lemma lease_drop_new p d : lease_drop (lease_new p) d = drv_release_packet p d.
Proof. done. Qed.

(** The head of a queue goes to the closure and back to the driver. *)
Lemma recv_udp_queued {S T} port (func : Packet → Udp → S → outcome (S * option T)) s dev p q :
  device_inv dev → udp_binds dev !! port = Some (p :: q) →
  (∀ u, udp p = Done (Some u) → dst_port u = port → returns (func p u s)) →
  ∃ dev' s' r u, recv_udp port func s dev = Done (dev', s', r) ∧ device_inv dev' ∧
    udp_binds dev' = <[port := q]> (udp_binds dev) ∧
    udp p = Done (Some u) ∧ dst_port u = port ∧ func p u s = Done (s', r).
Proof.
  intros (Hd & Hq & Hl) Hp Hf. pose proof (map_Forall_lookup_1 _ _ _ _ Hq Hp) as Hall.
  apply Forall_cons in Hall as [(Hpok & u & Hu & Hdst) Hall].
  destruct (Hf u Hu Hdst) as [[s' r] Hfr].
  unfold recv_udp. rewrite Hp. cbn. rewrite Hu. cbn. rewrite Hfr. cbn.
  eexists _, s', r, u. split; [done|]. split; [|done].
  destruct (release_leased p (driver dev) Hd) as [Hd' Hl']; [|done|].
  { rewrite Hl, (queued_delete _ _ _ Hp). apply elem_of_cons. by left. }
  split; [done|]. split; cbn; [by apply queue_ok_insert|].
  apply (Permutation_cons_inv (a := p)).
  by rewrite <- Hl', Hl, (queued_delete _ _ _ Hp), (queued_insert _ _ _ q Hp).
Qed.

(** With an empty queue the driver is asked; a datagram for another bound port
    is queued there, anything else goes back. *)
Lemma recv_udp_empty {S T} port (func : Packet → Udp → S → outcome (S * option T)) s dev :
  device_inv dev → udp_binds dev !! port = Some [] → returns (drv_recv (driver dev)) →
  (∀ p u, udp p = Done (Some u) → dst_port u = port → returns (func p u s)) →
  ∃ dev' s' r, recv_udp port func s dev = Done (dev', s', r) ∧ device_inv dev' ∧
    dom (udp_binds dev') = dom (udp_binds dev) ∧
    (s' = s ∧ r = None ∨
     ∃ p u, udp p = Done (Some u) ∧ dst_port u = port ∧ func p u s = Done (s', r) ∧
       udp_binds dev' = udp_binds dev).
Proof.
  intros (Hd & Hq & Hl) Hp [[d [l|]] Hr] Hf; unfold recv_udp; rewrite Hp; cbn; rewrite Hr; cbn.
  2:{ eexists _, s, None. split; [done|]. split; [|by auto].
      destruct (recv_none _ _ Hd Hr) as [Hd' Hl']. split; [done|]. split; [done|]. cbn. by rewrite Hl'. }
  destruct (recv_some _ _ _ Hd Hr) as (Hd' & p & -> & Hpok & Hld). cbn.
  destruct (release_leased p d Hd') as [Hd2 Hl2]; [|done|].
  { rewrite Hld. apply elem_of_cons. by left. }
  assert (leased (drv_release_packet p d) ≡ₚ queued (udp_binds dev)) as Hrel.
  { apply (Permutation_cons_inv (a := p)). by rewrite <- Hl2, Hld, Hl. }
  destruct (udp_returns p Hpok) as [[u|] Hu]; rewrite Hu; cbn.
  2:{ eexists _, s, None. split; [done|]. split; [done|by auto]. }
  destruct (Z.eqb_spec (dst_port u) port) as [Hdst|Hdst].
  - destruct (Hf p u Hu Hdst) as [[s' r] Hfr]. rewrite Hfr. cbn.
    eexists _, s', r. split; [done|]. split; [done|]. split; [done|]. right. by exists p, u.
  - destruct (udp_binds dev !! dst_port u) as [x|] eqn:Ex.
    2:{ eexists _, s, None. split; [done|]. split; [done|by auto]. }
    cbn. eexists _, s, None. split; [done|]. split; [split; [done|split]|split; [|by left]]; cbn.
    + apply queue_ok_insert; [done|]. apply Forall_app_2.
      * apply (map_Forall_lookup_1 _ _ _ _ Hq Ex).
      * apply Forall_singleton. split; [done|]. by exists u.
    + rewrite Hld, Hl, (queued_delete _ _ _ Ex), (queued_insert _ _ _ _ Ex).
      by rewrite <- app_assoc, Permutation_middle.
    + apply dom_insert_lookup_L. by eexists.
Qed.

End device_proofs.

(** ** Odd payloads *)

Lemma be_sum_pad l : ∀ r b, Nat.Even (length l) → be_sum r (l ++ [b]) = be_sum r (l ++ [b; 0]).
Proof.
  induction l as [| |b0 b1 l IH] using pair_ind; intros r b Hev.
  - cbn. f_equal. lia.
  - apply Nat.even_spec in Hev. discriminate.
  - cbn [app be_sum]. apply IH. by apply Nat.even_spec in Hev; apply Nat.even_spec.
Qed.

Lemma rfc1071_odd_differs pre l b :
  bytes_ok pre → bytes_ok (l ++ [b]) → Nat.Even (length pre) → Nat.Even (length l) → b ≠ 0 →
  rfc1071 (pre ++ l ++ [b]) ≠ rfc1071 (pre ++ l ++ [0; b]).
Proof.
  intros Hp [Hl [Hb _]%Forall_cons]%Forall_app Ep El Hne. unfold rfc1071.
  assert (Nat.Even (length (pre ++ l))) as Ee by (rewrite length_app; by apply Nat.Even_Even_add).
  rewrite !app_assoc, be_sum_pad by done. intros E.
  assert (∀ x y, is_uint 8 x → is_uint 8 y →
    ones_rep (be_sum 0 ((pre ++ l) ++ [x; y])) (256 * (le_sum (pre ++ l) + (x + 256 * y)))) as Hrep.
  { intros x y Hx Hy. pose proof (be_sum_rep ((pre ++ l) ++ [x; y]) 0 0) as Hr.
    rewrite le_sum_app in Hr by done. cbn [le_sum] in Hr. rewrite Z.add_0_r in Hr. apply Hr.
    - repeat apply Forall_app_2; try done. by repeat apply Forall_cons_2.
    - by repeat split.
    - done.
    - rewrite length_app. apply Nat.Even_Even_add; [done|by exists 1%nat]. }
  destruct (Hrep b 0) as (_ & H1 & _); [done..|]. destruct (Hrep 0 b) as (_ & H2 & _); [done..|].
  replace (be_sum 0 ((pre ++ l) ++ [b; 0])) with (be_sum 0 ((pre ++ l) ++ [0; b])) in H1 by lia.
  rewrite H1 in H2. set (S := le_sum (pre ++ l)) in *. unfold is_uint in Hb. change (2 ^ 8) with 256 in Hb.
  assert ((256 * (S + (0 + 256 * b)) - 256 * (S + (b + 256 * 0))) mod 65535 = 0) as Hz.
  { by rewrite Zminus_mod, H2, Z.sub_diag. }
  apply Z.mod_divide in Hz as [k Hk]; [|lia]. lia.
Qed.

Lemma udp_odd_refused p i b l len :
  packet_ok p → ip p = Done (Some i) →
  ip_payload i = l ++ [b] → Nat.Even (length l) → (8 ≤ length l)%nat → b ≠ 0 →
  get (ip_payload i) 4 6 = Some len → get (ip_payload i) 6 8 ≠ Some [0; 0] →
  rfc1071 (pseudo_bytes i (from_be_bytes len) ++ ip_payload i) = 0 →
  udp p = Done None.
Proof.
  intros Hp Hi Hpl El Hlen Hb Hg Hck Hrfc.
  destruct (udp_cases p Hp) as [|(i'&a0&a1&b0&b1&l0&l1&c0&c1&rest&Hi'&E)]; [done|].
  rewrite Hi in Hi'. injection Hi' as <-.
  destruct (ip_packet_parts _ _ (contents_ok p Hp) (ip_sound p i Hp Hi)) as (Hok & Hproto & _).
  rewrite (udp_eval p i a0 a1 b0 b1 l0 l1 c0 c1 rest Hp Hi E).
  assert (len = [l0; l1]) as -> by (rewrite E in Hg; revert Hg; cbn [app]; slices; by intros [= ->]).
  destruct (Z.eqb_spec (from_be_bytes [c0; c1]) 0) as [Hz|_].
  { exfalso. apply Hck. apply be2_zero in Hz as [= -> ->]; [rewrite E; cbn [app]; by slices|..];
      rewrite E in Hok; unfold bytes_ok in Hok; rewrite Forall_app, !Forall_cons in Hok; tauto. }
  destruct (Z.eqb_spec (rfc1071 (pseudo_bytes i (from_be_bytes [l0; l1]) ++
    pad_as_coded (ip_payload i))) 0) as [Hz|_]; [|done]. exfalso.
  unfold pad_as_coded in Hz. rewrite Hpl in Hz, Hrfc, Hok.
  rewrite length_app, last_snoc_Z, removelast_last, decide_True in Hz.
  2:{ apply even_length_mod in El. cbn [length]. rewrite Nat2Z.inj_add, Z.add_mod, El by lia. done. }
  apply (rfc1071_odd_differs (pseudo_bytes i (from_be_bytes [l0; l1])) l b); try done.
  - by apply pseudo_bytes_ok.
  - rewrite length_pseudo_bytes. by exists 6%nat.
  - congruence.
Qed.

(** ** Properties *)

#[export] Instance packet_ok_dec p : Decision (packet_ok p).
Proof. unfold packet_ok. apply _. Defined.

(** C28: On an even number of bytes, [checksum] with the sum of a (pseudo)
    header as its initial value is the Internet checksum of RFC 1071 over the
    header and the bytes: adding little-endian words, folding twice and
    swapping agrees with adding big-endian words with end-around carry. *)
Theorem checksum_matches_rfc1071 pre bytes :
  bytes_ok pre → bytes_ok bytes → Nat.Even (length pre) → Nat.Even (length bytes) →
  Z.of_nat (length pre + length bytes) < 65536 →
  checksum (le_sum pre) bytes = rfc1071 (pre ++ bytes).
Proof. apply checksum_even. Qed.

Lemma checksum_matches_rfc1071_witness :
  checksum (le_sum [192; 168]) [255; 255; 1; 2] = 0x3e55.
Proof.
  rewrite checksum_matches_rfc1071; [reflexivity|by_decide|by_decide|..].
  - by exists 1%nat.
  - by exists 2%nat.
  - reflexivity.
Defined.

(** A datagram with an odd number of bytes, a non-zero last byte and a
    checksum that is correct by RFC 768 is refused: the last byte is added as
    the wrong half of its 16-bit word. *)
Theorem udp_rejects_odd p i b l len :
  packet_ok p → ip p = Done (Some i) →
  ip_payload i = l ++ [b] → Nat.Even (length l) → (8 ≤ length l)%nat → b ≠ 0 →
  get (ip_payload i) 4 6 = Some len → get (ip_payload i) 6 8 ≠ Some [0; 0] →
  rfc1071 (pseudo_bytes i (from_be_bytes len) ++ ip_payload i) = 0 →
  udp p = Done None.
Proof. apply udp_odd_refused. Qed.

(** Packets for the witnesses: a datagram from port 68 to port 67. *)
Definition demo_build (ck msg : list Z) : Packet :=
  match
    ('(p, i) ← create_udp_raw (packet_new 0x1000) [1; 2; 3; 4; 5; 6] [7; 8; 9; 10; 11; 12]
       0xc0a80001 0xffffffff 68 67 (Z.of_nat (length msg));
     p ← raw_mut_write p i (i + length msg) msg;
     raw_mut_write p 40 42 ck)
  with Done p => p | _ => packet_new 0 end.

Definition demo_packet : Packet := demo_build [0; 0] [104; 105].
Definition demo_odd : Packet := demo_build [253; 171] [65].

Definition demo_ip (p : Packet) : Ip :=
  match ip p with Done (Some i) => i | _ => mkIp (mkEthernet [] [] 0 []) 0 0 0 [] end.

Lemma udp_rejects_odd_witness :
  rfc1071 (pseudo_bytes (demo_ip demo_odd) 9 ++ ip_payload (demo_ip demo_odd)) = 0 ∧
  udp demo_odd = Done None.
Proof.
  split; [vm_compute; reflexivity|].
  apply (udp_rejects_odd demo_odd (demo_ip demo_odd) 65 [0; 68; 0; 67; 0; 9; 253; 171] [0; 9]).
  - by_decide.
  - vm_compute. reflexivity.
  - vm_compute. reflexivity.
  - by exists 4%nat.
  - cbn. lia.
  - discriminate.
  - vm_compute. reflexivity.
  - vm_compute. discriminate.
  - vm_compute. reflexivity.
Defined.



(** C16: Round trip: a packet built by [create_udp_raw], with the message
    written at the index it returns, is parsed by [udp] back to the addresses,
    ports and message, for every message of at most 1472 bytes. *)
Theorem udp_roundtrip p src_eth dst_eth src dst sport dport msg :
  packet_ok p → bytes_ok src_eth → bytes_ok dst_eth → bytes_ok msg →
  length src_eth = 6%nat → length dst_eth = 6%nat →
  is_uint 32 src → is_uint 32 dst → is_uint 16 sport → is_uint 16 dport →
  Z.of_nat (length msg) ≤ 1472 →
  ∃ p1 i p2 u,
    create_udp_raw p src_eth dst_eth src dst sport dport (Z.of_nat (length msg)) = Done (p1, i) ∧
    raw_mut_write p1 i (i + length msg) msg = Done p2 ∧ packet_ok p2 ∧
    udp p2 = Done (Some u) ∧
    udp_payload u = msg ∧ src_port u = sport ∧ dst_port u = dport ∧
    src_ip (udp_ip u) = src ∧ dst_ip (udp_ip u) = dst ∧ protocol (udp_ip u) = IPPROTO_UDP ∧
    src_mac (ip_eth (udp_ip u)) = src_eth ∧ dst_mac (ip_eth (udp_ip u)) = dst_eth.
Proof.
  intros (Hb & Hbl & _) Hse Hde Hmsg Hs Hd Hsrc Hdst Hsp Hdp Hlen.
  set (m := Z.of_nat (length msg)).
  set (hdr := udp_packet_header src_eth dst_eth src dst sport dport m).
  assert (length hdr = 42%nat) as Hh by by apply length_udp_packet_header.
  rewrite create_udp_raw_eq by (done || lia). fold hdr.
  replace (42 + m) with (Z.of_nat (42 + length msg)) by lia.
  eexists _, 42%nat, _, _. split; [done|]. split.
  { rewrite <- (take_drop (length msg) (drop 42 (buffer p))).
    apply raw_mut_write_mid; rewrite ?length_app, ?length_take, ?length_drop; lia. }
  set (p2 := mkPacket _ _ _).
  assert (packet_ok p2) as Hp2.
  { split; [|split; [|cbn [p2 plength]; lia]]; cbn [p2 buffer].
    - apply Forall_app_2; [by apply bytes_ok_udp_packet_header|].
      apply Forall_app_2; [done|]. by repeat apply Forall_drop.
    - rewrite !length_app, !length_drop, Hh, Hbl. lia. }
  split; [done|]. split.
  { apply udp_complete; [done|].
    assert (contents p2 = hdr ++ msg) as ->; [|by apply udp_packet_parses].
    unfold contents. cbn [p2 buffer plength]. rewrite Nat2Z.id, app_assoc.
    apply take_app_length'. rewrite length_app. lia. }
  done.
Qed.

Lemma udp_roundtrip_witness : ∃ p1 i p2,
  create_udp_raw (packet_new 0x1000) [1; 2; 3; 4; 5; 6] [7; 8; 9; 10; 11; 12]
    0xc0a80001 0xffffffff 68 67 2 = Done (p1, i) ∧
  raw_mut_write p1 i (i + 2) [104; 105] = Done p2 ∧ ∃ u, udp p2 = Done (Some u).
Proof.
  destruct (udp_roundtrip (packet_new 0x1000) [1; 2; 3; 4; 5; 6] [7; 8; 9; 10; 11; 12]
    0xc0a80001 0xffffffff 68 67 [104; 105]) as (p1 & i & p2 & u & H1 & H2 & _ & H3 & _);
    [by_decide|by_decide|by_decide|by_decide|reflexivity|reflexivity
    |by_decide|by_decide|by_decide|by_decide|discriminate|].
  exists p1, i, p2. split; [exact H1|]. split; [exact H2|]. by exists u.
Defined.

(** A protocol other than UDP is not checked: a TCP segment whose first bytes
    look like a UDP header is accepted. *)
Definition demo_tcp : Packet :=
  match (p ← raw_mut_write demo_packet 23 24 [6]; raw_mut_write p 24 26 [186; 49])
  with Done p => p | _ => demo_packet end.

Lemma udp_accepts_other_protocol :
  ∃ u, udp demo_tcp = Done (Some u) ∧ protocol (udp_ip u) = 6.
Proof. eexists. split; [vm_compute; reflexivity|reflexivity]. Qed.

(** Receiving on a bound port: [recv_udp] never panics, keeps every
    queue free of packets for other ports, gives the closure the oldest queued
    datagram of the port (or one that has just arrived for it, or nothing),
    and accounts for every packet: what the driver has lent is exactly what
    the queues hold. *)
Theorem recv_udp_spec `{NetDriverLaws D} {S T} (port : Z)
    (func : Packet → Udp → S → outcome (S * option T)) (s : S) (dev : NetDevice D) q :
  device_inv dev → udp_binds dev !! port = Some q → returns (drv_recv (driver dev)) →
  (∀ p u, udp p = Done (Some u) → dst_port u = port → returns (func p u s)) →
  ∃ dev' s' r, recv_udp port func s dev = Done (dev', s', r) ∧ device_inv dev' ∧
    dom (udp_binds dev') = dom (udp_binds dev) ∧
    match q with
    | p :: q' =>
        udp_binds dev' = <[port := q']> (udp_binds dev) ∧
        ∃ u, udp p = Done (Some u) ∧ dst_port u = port ∧ func p u s = Done (s', r)
    | [] =>
        s' = s ∧ r = None ∨
        ∃ p u, udp p = Done (Some u) ∧ dst_port u = port ∧ func p u s = Done (s', r) ∧
          udp_binds dev' = udp_binds dev
    end.
Proof.
  intros Hinv Hp Hr Hf. destruct q as [|p q].
  - by apply recv_udp_empty.
  - destruct (recv_udp_queued port func s dev p q Hinv Hp) as (dev' & s' & r & u & H1 & H2 & H3 & H4).
    { intros u. by apply Hf. }
    exists dev', s', r. split; [done|]. split; [done|]. split; [|by eauto].
    rewrite H3. apply dom_insert_lookup_L. by eexists.
Qed.

(** A driver over a list of frames to receive, with the account of what it lent
    and the frames it sent. *)
Record ListDriver := mkListDriver {
  inbox : list Packet; lent : list Packet; outbox : list Packet }.

#[export] Instance ListDriver_driver : NetDriver ListDriver := {
  drv_mac _ := [7; 8; 9; 10; 11; 12];
  drv_recv d :=
    match inbox d with
    | p :: rest =>
        if decide (packet_ok p)
        then Done (mkListDriver rest (p :: lent d) (outbox d), Some (lease_new p))
        else Done (mkListDriver rest (lent d) (outbox d), None)
    | [] => Done (d, None)
    end;
  drv_send p d := Done (mkListDriver (inbox d) (lent d) (outbox d ++ [p]));
  drv_allocate_packet d := Done (d, packet_new 0x2000);
  drv_release_packet p d :=
    mkListDriver (inbox d)
      (match list_find (λ x, phys_addr x = phys_addr p ∧ buffer x = buffer p ∧ plength x = plength p) (lent d) with
       | Some (i, _) => delete i (lent d)
       | None => lent d
       end) (outbox d);
}.

Lemma packet_ext p q :
  phys_addr p = phys_addr q → buffer p = buffer q → plength p = plength q → p = q.
Proof. destruct p, q; cbn; congruence. Qed.

#[export] Instance ListDriver_laws : NetDriverLaws ListDriver.
Proof.
  refine {| drv_ok _ := True; leased := lent |}.
  - intros [[|p rest] out sent] d' l _; cbn; [done|]. case_decide; [|done].
    intros [= <- <-]. split; [done|]. by exists p.
  - intros [[|p rest] out sent] d' _; cbn; [by intros [= <-]|]. case_decide; [done|]. by intros [= <-].
  - intros p [i out sent] _ Hp _. split; [done|]. cbn in *.
    destruct (list_find _ out) as [[j x]|] eqn:E.
    + apply list_find_Some in E as (Hj & (E1 & E2 & E3) & _).
      assert (x = p) as -> by by apply packet_ext. by apply delete_Permutation.
    + apply list_find_None in E. rewrite Forall_forall in E. exfalso. by apply (E p).
  - intros d d' p _ [= <- <-]. split; [done|]. split; [by_decide|done].
  - by intros p d d' _ _ [= <-].
Defined.

#[export] Instance ListDriver_live : NetDriverLive ListDriver.
Proof.
  split.
  - intros [[|p rest] out sent] _; cbn; [by eexists|]. case_decide; by eexists.
  - intros. by eexists.
  - intros. by eexists.
Defined.

Lemma recv_udp_spec_witness :
  ∃ dev' s' r, recv_udp 67 (λ _ u n, Done (n + 1, Some (udp_payload u))) 0
    (mkNetDevice (mkListDriver [demo_packet] [] []) [] {[ 67 := [] ]}) = Done (dev', s', r) ∧
  device_inv dev'.
Proof.
  destruct (recv_udp_spec 67 (λ _ u n, Done (n + 1, Some (udp_payload u))) 0
    (mkNetDevice (mkListDriver [demo_packet] [] []) [] {[ 67 := [] ]}) [])
    as (dev' & s' & r & H1 & H2 & _).
  - split; [exact I|]. split; [|reflexivity]. by apply map_Forall_singleton.
  - apply lookup_singleton_eq.
  - cbn. case_decide; by eexists.
  - intros. by eexists.
  - exists dev', s', r. split; [exact H1|exact H2].
Defined.

(** Dropping a bind gives every packet still queued on its port back to
    the driver exactly once, forgets the port (so it can be bound again) and
    leaves the other ports alone. *)
Theorem bind_drop_spec `{NetDriverLaws D} (b : UDPBind) (dev : NetDevice D) q :
  device_inv dev → udp_binds dev !! port b = Some q →
  ∃ dev', bind_drop b dev = Done dev' ∧ device_inv dev' ∧
    udp_binds dev' = delete (port b) (udp_binds dev) ∧
    leased (driver dev) ≡ₚ q ++ leased (driver dev') ∧
    (bind_udp (port b) dev').2 = Some b.
Proof.
  intros Hinv Hp. destruct (unbind_udp_correct (port b) dev q Hinv Hp) as (dev' & H1 & H2 & H3 & _).
  exists dev'. split; [done|]. split; [done|]. split; [done|]. split.
  - destruct Hinv as (_ & _ & ->), H2 as (_ & _ & ->). rewrite H3. by apply queued_delete.
  - unfold bind_udp. rewrite H3, lookup_delete_eq. by destruct b.
Qed.

Lemma bind_drop_spec_witness :
  ∃ dev', bind_drop (mkUDPBind 67)
    (mkNetDevice (mkListDriver [] [demo_packet] []) [] {[ 67 := [demo_packet] ]}) = Done dev' ∧
  device_inv dev' ∧ leased (driver dev') ≡ₚ [].
Proof.
  destruct (bind_drop_spec (mkUDPBind 67)
    (mkNetDevice (mkListDriver [] [demo_packet] []) [] {[ 67 := [demo_packet] ]}) [demo_packet])
    as (dev' & H1 & H2 & _ & H3 & _).
  - split; [exact I|]. split; [|reflexivity]. apply map_Forall_singleton, Forall_singleton. split.
    + by_decide.
    + eexists. split; vm_compute; reflexivity.
  - apply lookup_singleton_eq.
  - exists dev'. split; [exact H1|]. split; [exact H2|].
    by apply Permutation_cons_inv, Permutation_sym in H3.
Defined.
