(* ===== verification/Dhcp.v ===== *)
(** * The DHCP client (kernel/src/dhcp.rs)

    [DhcpOption::parse] and [serialize], the packed [Header], building and
    parsing of packets, and [get_lease], the client's exchange of DISCOVER,
    OFFER, REQUEST and ACK over a [NetDevice].  [NetDevice::new], which runs the
    client, is modelled here as well. *)

From stdpp Require Import base tactics option list numbers strings gmap.
From Stdlib Require Import ZArith Lia.
From S2P Require Import Prelude MachineInt Bytes Net.

Local Open Scope Z_scope.

(** The magic DHCP cookie *)
Definition DHCP_COOKIE : Z := 0x63825363.

Record Lease := mkLease {
  client_ip : Ipv4Addr;
  server_ip : Ipv4Addr;
  broadcast_ip : option Ipv4Addr;
  subnet_mask : option Ipv4Addr;
}.

(** The packed header, 240 bytes; [name] and [file] are arrays of [u64] in the
    code, only ever zeroed and never read: their bytes are kept. *)
Record Header := mkHeader {
  op : Z; htype : Z; hlen : Z; hops : Z;
  xid : Z; secs : Z; flags : Z;
  ciaddr : Z; yiaddr : Z; siaddr : Z; giaddr : Z;
  chaddr : list Z; name : list Z; file : list Z;
  cookie : Z;
}.

Definition size_of_Header : nat := 240.

(** [Header::default()] *)
Definition header_default : Header :=
  mkHeader 0 0 0 0 0 0 0 0 0 0 0 (replicate 16 0) (replicate 64 0) (replicate 128 0) 0.

(** [&*(ptr as *const Header)]: the fields at their offsets, native endian. *)
Definition header_of_bytes (b : list Z) : Header :=
  let field off n := from_le_bytes (take n (drop off b)) in
  mkHeader (field 0 1)%nat (field 1 1)%nat (field 2 1)%nat (field 3 1)%nat
    (field 4 4)%nat (field 8 2)%nat (field 10 2)%nat
    (field 12 4)%nat (field 16 4)%nat (field 20 4)%nat (field 24 4)%nat
    (take 16 (drop 28 b)) (take 64 (drop 44 b)) (take 128 (drop 108 b))
    (field 236 4)%nat.

(** [*(ptr as *mut Header) = header] *)
Definition header_to_bytes (h : Header) : list Z :=
  to_le_bytes 1 (op h) ++ to_le_bytes 1 (htype h) ++ to_le_bytes 1 (hlen h) ++
  to_le_bytes 1 (hops h) ++ to_le_bytes 4 (xid h) ++ to_le_bytes 2 (secs h) ++
  to_le_bytes 2 (flags h) ++ to_le_bytes 4 (ciaddr h) ++ to_le_bytes 4 (yiaddr h) ++
  to_le_bytes 4 (siaddr h) ++ to_le_bytes 4 (giaddr h) ++ chaddr h ++ name h ++ file h ++
  to_le_bytes 4 (cookie h).

(** [Opcode] and [HardwareType] with their discriminants *)
Inductive Opcode := OpRequest | OpReply.
Definition opcode_u8 (o : Opcode) : Z := match o with OpRequest => 1 | OpReply => 2 end.
Inductive HardwareType := HwEthernet.
Definition hardware_u8 (h : HardwareType) : Z := match h with HwEthernet => 1 end.

Inductive MessageType := Discover | Offer | Request | Ack | Invalid.

#[export] Instance MessageType_eq_dec : EqDecision MessageType.
Proof. solve_decision. Defined.

Definition message_type_u8 (t : MessageType) : Z :=
  match t with Discover => 1 | Offer => 2 | Request => 3 | Ack => 5 | Invalid => 0xff end.

(** [From<u8> for MessageType] *)
Definition message_type_from (v : Z) : MessageType :=
  match v with 1 => Discover | 2 => Offer | 3 => Request | 5 => Ack | _ => Invalid end.

Inductive DhcpOption :=
| SubnetMask (ip : Z)
| BroadcastIp (ip : Z)
| RequestedIp (ip : Z)
| LeaseTime (t : Z)
| MessageTypeOpt (t : MessageType)
| ServerIp (ip : Z)
| ParameterRequestList (ps : list Z)
| RenewalTime (t : Z)
| Unknown (code : Z) (payload : list Z)
| EndOpt.

#[export] Instance DhcpOption_eq_dec : EqDecision DhcpOption.
Proof. solve_decision. Defined.

(** [DhcpOptionId as u8] *)
Inductive DhcpOptionId :=
| IdSubnetMask | IdBroadcastIp | IdRequestedIp | IdLeaseTime | IdMessageType
| IdServerIp | IdParameterRequestList | IdRenewalTime | IdEnd.

Definition option_id (i : DhcpOptionId) : Z :=
  match i with
  | IdSubnetMask => 1 | IdBroadcastIp => 28 | IdRequestedIp => 50 | IdLeaseTime => 51
  | IdMessageType => 53 | IdServerIp => 54 | IdParameterRequestList => 55
  | IdRenewalTime => 58 | IdEnd => 255
  end.

(** [DhcpOption::parse]: the option and the updated pointer. *)
Definition parse (ptr : list Z) : outcome (option (DhcpOption * list Z)) :=
  code ←? ptr !! 0%nat;
  len ←? ptr !! 1%nat;
  let len := Z.to_nat len in
  payload ←? get ptr 2 (2 + len);
  let u32_option (c : Z → DhcpOption) : outcome (option (DhcpOption * list Z)) :=
    a ←? try_array 4 payload;
    rest ← slice ptr (2 + len) (length ptr);
    Done (Some (c (from_be_bytes a), rest)) in
  match code with
  | 1 => u32_option SubnetMask
  | 28 => u32_option BroadcastIp
  | 50 => u32_option RequestedIp
  | 51 => u32_option LeaseTime
  | 53 =>
      a ←? try_array 1 payload;
      rest ← slice ptr (2 + len) (length ptr);
      Done (Some (MessageTypeOpt (message_type_from (from_be_bytes a)), rest))
  | 54 => u32_option ServerIp
  | 55 =>
      rest ← slice ptr (2 + len) (length ptr);
      Done (Some (ParameterRequestList payload, rest))
  | 58 => u32_option RenewalTime
  | 255 =>
      rest ← slice ptr (length ptr) (length ptr);
      Done (Some (EndOpt, rest))
  | x =>
      rest ← slice ptr (2 + len) (length ptr);
      Done (Some (Unknown x payload, rest))
  end.

(** [DhcpOption::serialize] *)
Definition serialize (o : DhcpOption) (buffer : list Z) : outcome (list Z) :=
  let fixed id n (b : list Z) := Done (buffer ++ [option_id id; n] ++ b) in
  let counted code (b : list Z) :=
    n ← unwrap (try_into 8 (Z.of_nat (length b)));
    Done (buffer ++ [code; n] ++ b) in
  match o with
  | SubnetMask mask => fixed IdSubnetMask 4 (to_be_bytes 4 mask)
  | BroadcastIp addr => fixed IdBroadcastIp 4 (to_be_bytes 4 addr)
  | RequestedIp addr => fixed IdRequestedIp 4 (to_be_bytes 4 addr)
  | LeaseTime time => fixed IdLeaseTime 4 (to_be_bytes 4 time)
  | MessageTypeOpt typ => fixed IdMessageType 1 [message_type_u8 typ]
  | ServerIp addr => fixed IdServerIp 4 (to_be_bytes 4 addr)
  | ParameterRequestList parameters => counted (option_id IdParameterRequestList) parameters
  | RenewalTime time => fixed IdRenewalTime 4 (to_be_bytes 4 time)
  | Unknown typ payload => counted typ payload
  | EndOpt => Done (buffer ++ [option_id IdEnd])
  end.

(** Several options appended one after the other. *)
Fixpoint serialize_all (os : list DhcpOption) (buffer : list Z) : outcome (list Z) :=
  match os with
  | [] => Done buffer
  | o :: os => buffer ← serialize o buffer; serialize_all os buffer
  end.

(** The [while options.len() > 0] loop of [parse_dhcp_packet]. *)
Fixpoint parse_options (fuel : nat) (options : list Z) (acc : list DhcpOption)
    : outcome (list DhcpOption) :=
  match options with
  | [] => Done acc
  | _ =>
      match fuel with
      | O => OutOfFuel
      | S fuel =>
          r ← parse options;
          match r with
          | Some (o, options) => parse_options fuel options (acc ++ [o])
          | None => Done acc
          end
      end
  end.

(** [parse_dhcp_packet]; an option takes at least one byte, so the number of
    bytes is enough fuel. *)
Definition parse_dhcp_packet (x : Z) (u : Udp)
    : outcome (option (Header * list DhcpOption)) :=
  let message := udp_payload u in
  header ←? get message 0 size_of_Header;
  let header := header_of_bytes header in
  if negb (xid header =? x) then Done None else
  if negb (op header =? opcode_u8 OpReply) || negb (htype header =? hardware_u8 HwEthernet)
     || negb (hlen header =? 6) || negb (cookie header =? swap_bytes 4 DHCP_COOKIE)
  then Done None else
  options ← slice message size_of_Header (length message);
  dhcp_options ← parse_options (length options) options [];
  Done (Some (header, dhcp_options)).

(** The header [create_dhcp_packet] fills in. *)
Definition request_header (x : Z) (mac : list Z) : outcome Header :=
  ch ← copy_from_slice (chaddr header_default) 0 6 mac;
  Done (mkHeader (opcode_u8 OpRequest) (hardware_u8 HwEthernet) 6 0 x 0 0 0 0 0 0
          ch (name header_default) (file header_default) (swap_bytes 4 DHCP_COOKIE)).

(** [create_dhcp_packet] *)
Definition create_dhcp_packet (p : Packet) (x : Z) (mac options : list Z) : outcome Packet :=
  '(p, offset) ← create_udp_raw p mac (replicate 6 0xff) 0 (bnot 32 0) 68 67
    (wrapping_add 64 (Z.of_nat size_of_Header) (Z.of_nat (length options)));
  header ← request_header x mac;
  p ← raw_mut_write p offset (offset + size_of_Header) (header_to_bytes header);
  raw_mut_write p (offset + size_of_Header) (offset + size_of_Header + length options) options.

(** [options.iter().find_map(..)] *)
Fixpoint find_map {A B} (f : A → option B) (l : list A) : option B :=
  match l with
  | [] => None
  | a :: l => match f a with Some b => Some b | None => find_map f l end
  end.

Definition as_server_ip (o : DhcpOption) : option Z :=
  match o with ServerIp ip => Some ip | _ => None end.
Definition as_broadcast_ip (o : DhcpOption) : option Z :=
  match o with BroadcastIp ip => Some ip | _ => None end.
Definition as_subnet_mask (o : DhcpOption) : option Z :=
  match o with SubnetMask ip => Some ip | _ => None end.

(** The closure of the first [bind.recv] loop; its state is
    [(offer_ip, server_ip)]. *)
Definition on_offer (x : Z) (mac : list Z) (pkt : Packet) (u : Udp)
    (s : option Z * option Z) : outcome ((option Z * option Z) * option unit) :=
  if decide (dst_mac (ip_eth (udp_ip u)) ≠ mac) then Done (s, None) else
  r ← parse_dhcp_packet x u;
  match r with
  | None => Done (s, None)
  | Some (header, options) =>
      if decide (MessageTypeOpt Offer ∈ options) then
        Done ((Some (swap_bytes 4 (yiaddr header)), find_map as_server_ip options), Some tt)
      else Done (s, None)
  end.

(** The closure of the second loop; its state is [(broadcast_ip, subnet_mask)]. *)
Definition on_ack (x : Z) (mac : list Z) (pkt : Packet) (u : Udp)
    (s : option Z * option Z) : outcome ((option Z * option Z) * option unit) :=
  if decide (dst_mac (ip_eth (udp_ip u)) ≠ mac) then Done (s, None) else
  r ← parse_dhcp_packet x u;
  match r with
  | None => Done (s, None)
  | Some (header, options) =>
      if decide (MessageTypeOpt Ack ∈ options) then
        Done ((find_map as_broadcast_ip options, find_map as_subnet_mask options), Some tt)
      else Done (s, None)
  end.

Definition discover_options : list DhcpOption :=
  [MessageTypeOpt Discover;
   ParameterRequestList [option_id IdMessageType; option_id IdServerIp]; EndOpt].

Definition request_options (offer_ip server_ip : Z) : list DhcpOption :=
  [MessageTypeOpt Request; RequestedIp offer_ip; ServerIp server_ip;
   ParameterRequestList [option_id IdMessageType; option_id IdBroadcastIp; option_id IdSubnetMask];
   EndOpt].

Section client.
Context `{NetDriver D}.

(** [while bind.recv(..).is_none() {}]: [fuel] bounds the number of polls. *)
Fixpoint wait_for {S T} (fuel : nat) (b : UDPBind)
    (func : Packet → Udp → S → outcome (S * option T)) (s : S) (dev : NetDevice D)
    : outcome (NetDevice D * S) :=
  match fuel with
  | O => OutOfFuel
  | S fuel =>
      '(dev, s, r) ← bind_recv b func s dev;
      match r with
      | Some _ => Done (dev, s)
      | None => wait_for fuel b func s dev
      end
  end.

(** Allocate a packet, build the DHCP message and send it. *)
Definition send_dhcp (x : Z) (options : list DhcpOption) (dev : NetDevice D)
    : outcome (NetDevice D) :=
  options ← serialize_all options [];
  '(dev, packet) ← device_allocate_packet dev;
  packet ← create_dhcp_packet packet x (mac dev) options;
  device_send packet dev.

(** [get_lease]; [tsc] is what [cpu::rdtsc()] reads.  The bind is dropped on
    every return. *)
Definition get_lease (fuel : nat) (tsc : Z) (dev : NetDevice D)
    : outcome (NetDevice D * option Lease) :=
  let x := wrap 32 tsc in
  let '(dev, bind) := bind_udp 68 dev in
  bind ← expect bind "Could not bind to port 68 for dhcp";
  dev ← send_dhcp x discover_options dev;
  '(dev, (offer_ip, server_ip)) ← wait_for fuel bind (on_offer x (mac dev)) (None, None) dev;
  match offer_ip, server_ip with
  | Some offer_ip, Some server_ip =>
      dev ← send_dhcp x (request_options offer_ip server_ip) dev;
      '(dev, (broadcast_ip, subnet_mask)) ←
        wait_for fuel bind (on_ack x (mac dev)) (None, None) dev;
      dev ← bind_drop bind dev;
      Done (dev, Some (mkLease offer_ip server_ip broadcast_ip subnet_mask))
  | _, _ =>
      dev ← bind_drop bind dev;
      Done (dev, None)
  end.

(** [NetDevice::new] *)
Definition net_device_new (fuel : nat) (tsc : Z) (d : D) : outcome (NetDevice D) :=
  let device := mkNetDevice d (drv_mac d) ∅ in
  '(device, lease) ← get_lease fuel tsc device;
  Done device.

End client.

(** ** Options: parsing is the inverse of serializing *)

Definition known_codes : list Z := [1; 28; 50; 51; 53; 54; 55; 58; 255].

(** The options the client can represent on the wire, [End] apart. *)
Definition option_ok (o : DhcpOption) : Prop :=
  match o with
  | SubnetMask z | BroadcastIp z | RequestedIp z | LeaseTime z | ServerIp z | RenewalTime z =>
      is_uint 32 z
  | MessageTypeOpt _ => True
  | ParameterRequestList l => (length l ≤ 255)%nat
  | Unknown code l => is_uint 8 code ∧ (code ∉ known_codes) ∧ (length l ≤ 255)%nat
  | EndOpt => False
  end.

#[export] Instance option_ok_dec o : Decision (option_ok o).
Proof. destruct o; apply _. Defined.

(** The wire format of one option. *)
Definition option_bytes (o : DhcpOption) : list Z :=
  match o with
  | SubnetMask z => [1; 4] ++ to_be_bytes 4 z
  | BroadcastIp z => [28; 4] ++ to_be_bytes 4 z
  | RequestedIp z => [50; 4] ++ to_be_bytes 4 z
  | LeaseTime z => [51; 4] ++ to_be_bytes 4 z
  | MessageTypeOpt t => [53; 1; message_type_u8 t]
  | ServerIp z => [54; 4] ++ to_be_bytes 4 z
  | ParameterRequestList l => [55; Z.of_nat (length l)] ++ l
  | RenewalTime z => [58; 4] ++ to_be_bytes 4 z
  | Unknown c l => [c; Z.of_nat (length l)] ++ l
  | EndOpt => [255]
  end.

Lemma try_into_length (l : list Z) : (length l ≤ 255)%nat →
  unwrap (try_into 8 (Z.of_nat (length l))) = Done (Z.of_nat (length l)).
Proof. intros. apply unwrap_Done, try_into_Some. split; [done|]. change (2 ^ 8) with 256. lia. Qed.

(** The options [serialize] does not panic on: at most 255 bytes of payload. *)
Definition option_fits (o : DhcpOption) : Prop :=
  match o with
  | ParameterRequestList l | Unknown _ l => (length l ≤ 255)%nat
  | _ => True
  end.

Lemma option_ok_fits o : option_ok o → option_fits o.
Proof. destruct o; cbn; tauto. Qed.

Lemma serialize_eq o buffer :
  option_fits o → serialize o buffer = Done (buffer ++ option_bytes o).
Proof.
  intros Ho. destruct o; cbn [serialize option_bytes option_fits] in *; try done;
    by rewrite try_into_length.
Qed.

Lemma serialize_all_eq os : ∀ buffer,
  Forall option_fits os → serialize_all os buffer = Done (buffer ++ (os ≫= option_bytes)).
Proof.
  induction os as [|o os IH]; intros buffer Hos; cbn; [by rewrite app_nil_r|].
  apply Forall_cons in Hos as [Ho Hos].
  rewrite serialize_eq, bind_Done_l, IH by done. by rewrite <- app_assoc.
Qed.

(** The tail of a TLV option: what [payload] and the new pointer are. *)
Lemma tlv_get c n payload rest : Z.to_nat n = length payload →
  get ([c; n] ++ payload ++ rest) 2 (2 + Z.to_nat n) = Some payload ∧
  slice ([c; n] ++ payload ++ rest) (2 + Z.to_nat n) (length ([c; n] ++ payload ++ rest))
  = Done rest.
Proof.
  intros ->. split.
  - by apply (get_app [c; n]).
  - apply slice_get. pose proof (get_app ([c; n] ++ payload) rest []) as Hg.
    rewrite app_nil_r, <- app_assoc in Hg. apply Hg; [by rewrite length_app|].
    rewrite !length_app. cbn [length]. lia.
Qed.

Lemma parse_known c n payload rest :
  Z.to_nat n = length payload →
  parse ([c; n] ++ payload ++ rest) =
  (let u32_option (k : Z → DhcpOption) : outcome (option (DhcpOption * list Z)) :=
     a ←? try_array 4 payload; Done (Some (k (from_be_bytes a), rest)) in
   match c with
   | 1 => u32_option SubnetMask
   | 28 => u32_option BroadcastIp
   | 50 => u32_option RequestedIp
   | 51 => u32_option LeaseTime
   | 53 => a ←? try_array 1 payload;
           Done (Some (MessageTypeOpt (message_type_from (from_be_bytes a)), rest))
   | 54 => u32_option ServerIp
   | 55 => Done (Some (ParameterRequestList payload, rest))
   | 58 => u32_option RenewalTime
   | 255 => Done (Some (EndOpt, []))
   | x => Done (Some (Unknown x payload, rest))
   end).
Proof.
  intros Hn. destruct (tlv_get c n payload rest Hn) as [Hg Hs].
  unfold parse. change ([c; n] ++ payload ++ rest) with (c :: n :: payload ++ rest) in *.
  cbn [lookup list_lookup or_return]. rewrite Hg. cbn [or_return]. rewrite Hs.
  assert (slice (c :: n :: payload ++ rest) (length (c :: n :: payload ++ rest))
    (length (c :: n :: payload ++ rest)) = Done []) as ->.
  { apply slice_get, get_Some. split; [lia|]. by rewrite drop_all, Nat.sub_diag. }
  rewrite !bind_Done_l. done.
Qed.

Lemma unknown_code {A} c (a1 a28 a50 a51 a53 a54 a55 a58 a255 : A) (f : Z → A) :
  is_uint 8 c → c ∉ known_codes →
  match c with
  | 1 => a1 | 28 => a28 | 50 => a50 | 51 => a51 | 53 => a53 | 54 => a54 | 55 => a55
  | 58 => a58 | 255 => a255 | x => f x
  end = f c.
Proof.
  intros [Hc _] Hn. unfold known_codes in Hn. rewrite !not_elem_of_cons in Hn.
  destruct Hn as (? & ? & ? & ? & ? & ? & ? & ? & ? & _).
  destruct c as [|p|p]; [done| |done].
  do 8 (destruct p as [p|p|]; try done).
Qed.

Lemma parse_serialized o rest : option_ok o →
  parse (option_bytes o ++ rest) = Done (Some (o, rest)).
Proof.
  intros Ho. destruct o; cbn [option_bytes option_ok] in *; rewrite <- ?app_assoc.
  all: try (rewrite parse_known by by rewrite length_to_be_bytes).
  all: try (cbn -[to_be_bytes from_be_bytes]; rewrite try_array_ok by apply length_to_be_bytes;
            cbn [or_return]; by rewrite from_to_be_bytes).
  - change [53; 1; message_type_u8 t] with ([53; 1] ++ [message_type_u8 t]).
    rewrite <- app_assoc, parse_known by done. by destruct t.
  - by rewrite parse_known by by rewrite Nat2Z.id.
  - destruct Ho as (Hc & Hn & _). rewrite parse_known by by rewrite Nat2Z.id.
    exact (unknown_code code _ _ _ _ _ _ _ _ _ (λ x, Done (Some (Unknown x payload, rest))) Hc Hn).
  - done.
Qed.

(** [parse] never panics, and consumes at least two bytes. *)
Lemma parse_shape ptr :
  parse ptr = Done None ∨
  ∃ c n payload rest, ptr = [c; n] ++ payload ++ rest ∧ Z.to_nat n = length payload.
Proof.
  destruct ptr as [|c [|n l]]; [by left..|].
  destruct (get (c :: n :: l) 2 (2 + Z.to_nat n)) as [payload|] eqn:E.
  - right. apply get_Some in E as [Hb _]. cbn [length] in Hb.
    exists c, n, (take (Z.to_nat n) l), (drop (Z.to_nat n) l).
    split; [by rewrite take_drop|]. rewrite length_take. lia.
  - left. unfold parse. cbn [lookup list_lookup or_return]. by rewrite E.
Qed.

(** A match on the option code, whatever the branches. *)
Lemma code_cases {A} (P : A → Prop) c (a1 a28 a50 a51 a53 a54 a55 a58 a255 : A) (f : Z → A) :
  P a1 → P a28 → P a50 → P a51 → P a53 → P a54 → P a55 → P a58 → P a255 → (∀ x, P (f x)) →
  P match c with
    | 1 => a1 | 28 => a28 | 50 => a50 | 51 => a51 | 53 => a53 | 54 => a54 | 55 => a55
    | 58 => a58 | 255 => a255 | x => f x
    end.
Proof. intros. destruct c as [|p|p]; [done| |done]. do 8 (destruct p as [p|p|]; try done). Qed.

Lemma parse_result ptr :
  parse ptr = Done None ∨
  ∃ o rest, parse ptr = Done (Some (o, rest)) ∧ (length rest + 2 ≤ length ptr)%nat.
Proof.
  destruct (parse_shape ptr) as [|(c & n & payload & rest & -> & Hl)]; [by left|].
  rewrite (parse_known c n payload rest Hl). cbn zeta.
  assert (length ([c; n] ++ payload ++ rest) = 2 + length payload + length rest)%nat as ->
    by (rewrite !length_app; cbn [length]; lia).
  assert (∀ k (o : list Z → DhcpOption), (x ←? try_array k payload; Done (Some (o x, rest))) = Done None ∨
    ∃ o' rest', (x ←? try_array k payload; Done (Some (o x, rest))) = Done (Some (o', rest')) ∧
      (length rest' + 2 ≤ 2 + length payload + length rest)%nat) as Hbr.
  { intros k o. destruct (try_array k payload); [right|by left]. eexists _, _. split; [done|]. lia. }
  apply (code_cases (λ x, x = Done None ∨ ∃ o rest', x = Done (Some (o, rest')) ∧
    (length rest' + 2 ≤ 2 + length payload + length rest)%nat)
    c _ _ _ _ _ _ _ _ _ (λ x, Done (Some (Unknown x payload, rest)))).
  all: try apply Hbr.
  all: right; eexists _, _; split; [done|]; cbn [length]; lia.
Qed.

Lemma parse_options_returns fuel : ∀ options acc,
  (length options ≤ fuel)%nat → ∃ os, parse_options fuel options acc = Done os.
Proof.
  induction fuel as [|fuel IH]; intros options acc Hf.
  - destruct options; [by eexists|cbn in Hf; lia].
  - cbn [parse_options]. destruct options as [|b l]; [by eexists|].
    destruct (parse_result (b :: l)) as [->|(o & rest & -> & Hl)]; cbn; [by eexists|].
    apply IH. lia.
Qed.

(** The loop gives back the serialized options, and stops at the lone [End]. *)
Lemma parse_options_serialized os : ∀ fuel acc,
  Forall option_ok os → (length (os ≫= option_bytes) < fuel)%nat →
  parse_options fuel ((os ≫= option_bytes) ++ [option_id IdEnd]) acc = Done (acc ++ os).
Proof.
  induction os as [|o os IH]; intros fuel acc Hos Hf; (destruct fuel as [|fuel]; [cbn in Hf; lia|]).
  - cbn. by rewrite app_nil_r.
  - apply Forall_cons in Hos as [Ho Hos]. cbn [mbind list_bind] in *. rewrite <- app_assoc.
    assert (option_bytes o ≠ []) as Hne by (by destruct o).
    destruct (option_bytes o ++ mbind option_bytes os ++ [option_id IdEnd]) as [|b l] eqn:E.
    { apply app_eq_nil in E as [? _]. done. }
    cbn [parse_options]. rewrite <- E, parse_serialized, bind_Done_l by done.
    rewrite IH; [by rewrite <- app_assoc|done|].
    rewrite length_app in Hf. destruct (option_bytes o); [done|cbn in Hf; lia].
Qed.

(** ** The packed header *)

Definition header_ok (h : Header) : Prop :=
  is_uint 8 (op h) ∧ is_uint 8 (htype h) ∧ is_uint 8 (hlen h) ∧ is_uint 8 (hops h) ∧
  is_uint 32 (xid h) ∧ is_uint 16 (secs h) ∧ is_uint 16 (flags h) ∧
  is_uint 32 (ciaddr h) ∧ is_uint 32 (yiaddr h) ∧ is_uint 32 (siaddr h) ∧
  is_uint 32 (giaddr h) ∧ is_uint 32 (cookie h) ∧
  length (chaddr h) = 16%nat ∧ length (name h) = 64%nat ∧ length (file h) = 128%nat.

Lemma drop_add_app {A} (pre l : list A) n m : n = length pre → drop (n + m) (pre ++ l) = drop m l.
Proof. intros ->. apply drop_app_add. Qed.

Lemma length_header_to_bytes h : header_ok h → length (header_to_bytes h) = size_of_Header.
Proof.
  intros H. unfold header_ok in H. unfold header_to_bytes.
  rewrite !length_app, !length_to_le_bytes. destruct_and! H. unfold size_of_Header. lia.
Qed.

Lemma header_roundtrip h : header_ok h → header_of_bytes (header_to_bytes h) = h.
Proof.
  intros (?&?&?&?&?&?&?&?&?&?&?&?& Hc & Hn & Hf). unfold header_to_bytes.
  set (tail := chaddr h ++ name h ++ file h ++ to_le_bytes 4 (cookie h)).
  assert (take 16 tail = chaddr h) as E1 by by apply take_app_length'.
  assert (take 64 (drop 16 tail) = name h) as E2.
  { unfold tail. rewrite drop_app_length' by done. by apply take_app_length'. }
  assert (take 128 (drop 80 tail) = file h) as E3.
  { unfold tail. rewrite (drop_add_app _ _ 16 64) by done. rewrite drop_app_length' by done.
    by apply take_app_length'. }
  assert (take 4 (drop 208 tail) = to_le_bytes 4 (cookie h)) as E4.
  { unfold tail. rewrite (drop_add_app _ _ 16 192), (drop_add_app _ _ 64 128) by done.
    by rewrite drop_app_length' by done. }
  assert (∀ n z, is_uint (8 * Z.of_nat n) z → from_le_bytes (to_le_bytes n z) = z) as Hle
    by apply from_to_le_bytes.
  etrans; [|exact (match h with mkHeader _ _ _ _ _ _ _ _ _ _ _ _ _ _ _ => eq_refl end :
    mkHeader (op h) (htype h) (hlen h) (hops h) (xid h) (secs h) (flags h) (ciaddr h) (yiaddr h)
      (siaddr h) (giaddr h) (chaddr h) (name h) (file h) (cookie h) = h)].
  unfold header_of_bytes. f_equal.
  all: lazymatch goal with
       | |- from_le_bytes (take ?n _) = cookie _ => idtac
       | |- from_le_bytes (take ?n _) = ?z => exact (Hle n z ltac:(done))
       | _ => idtac
       end.
  1: exact E1. 1: exact E2. 1: exact E3.
  etrans; [|by apply (Hle 4%nat)]. f_equal. exact E4.
Qed.

(** ** Building a request *)

Definition the_request_header (x : Z) (mac : list Z) : Header :=
  mkHeader 1 1 6 0 x 0 0 0 0 0 0 (mac ++ replicate 10 0) (replicate 64 0) (replicate 128 0)
    (swap_bytes 4 DHCP_COOKIE).

Lemma request_header_eq x mac : length mac = 6%nat →
  request_header x mac = Done (the_request_header x mac).
Proof. intros Hm. unfold request_header. by rewrite copy_from_slice_eq by (cbn; lia). Qed.

Lemma the_request_header_ok x mac : is_uint 32 x → length mac = 6%nat →
  header_ok (the_request_header x mac).
Proof.
  intros Hx Hm. unfold header_ok, the_request_header. cbn [op htype hlen hops xid secs flags ciaddr
    yiaddr siaddr giaddr cookie chaddr name file].
  rewrite length_app, Hm. split_and!; try done; by_decide.
Qed.

Lemma header_to_bytes_ok h :
  bytes_ok (chaddr h) → bytes_ok (name h) → bytes_ok (file h) → bytes_ok (header_to_bytes h).
Proof. intros. unfold header_to_bytes. repeat apply Forall_app_2; try apply to_le_bytes_ok; done. Qed.

Lemma the_request_header_bytes x mac : bytes_ok mac →
  bytes_ok (header_to_bytes (the_request_header x mac)).
Proof.
  intros. apply header_to_bytes_ok; cbn; [apply Forall_app_2; [done|by_decide]|by_decide|by_decide].
Qed.

(** The message of a DHCP request: the packed header and the options. *)
Definition request_message (x : Z) (mac options : list Z) : list Z :=
  header_to_bytes (the_request_header x mac) ++ options.

Lemma create_dhcp_packet_eq p x mac options :
  packet_ok p → is_uint 32 x → length mac = 6%nat → Z.of_nat (length options) ≤ 1232 →
  create_dhcp_packet p x mac options =
  Done (mkPacket (phys_addr p)
    (udp_packet_header mac (replicate 6 255) 0 4294967295 68 67 (240 + Z.of_nat (length options))
     ++ request_message x mac options ++ drop (length options) (drop 240 (drop 42 (buffer p))))
    (42 + (240 + Z.of_nat (length options)))).
Proof.
  intros (_ & Hl & _) Hx Hm Ho. unfold create_dhcp_packet.
  rewrite wrapping_add_small by (unfold is_uint, size_of_Header; cbn [Z.pow]; lia).
  change (Z.of_nat size_of_Header) with 240. change (bnot 32 0) with 4294967295.
  rewrite create_udp_raw_eq, bind_Done_l by (done || lia).
  rewrite request_header_eq, bind_Done_l by done.
  set (hdr := udp_packet_header _ _ _ _ _ _ _). set (rest := drop 42 (buffer p)).
  assert (length hdr = 42%nat) as Hh by by apply length_udp_packet_header.
  assert (length rest = 4054%nat) as Hr by (unfold rest; rewrite length_drop, Hl; lia).
  pose proof (length_header_to_bytes _ (the_request_header_ok x mac Hx Hm)) as Hhb.
  rewrite <- (take_drop 240 rest) at 1.
  rewrite raw_mut_write_mid, bind_Done_l;
    [|rewrite ?length_app, ?length_take, ?length_drop, ?Hhb, ?Hr, ?Hh; unfold size_of_Header; lia ..].
  rewrite <- (take_drop (length options) (drop 240 rest)) at 1. rewrite app_assoc.
  rewrite raw_mut_write_mid;
    [|rewrite ?length_app, ?length_take, ?length_drop, ?Hhb, ?Hr, ?Hh; unfold size_of_Header; lia ..].
  unfold request_message. by rewrite <- !app_assoc.
Qed.

Lemma create_dhcp_packet_correct p x mac options :
  packet_ok p → is_uint 32 x → bytes_ok mac → length mac = 6%nat →
  bytes_ok options → Z.of_nat (length options) ≤ 1232 →
  ∃ p' u, create_dhcp_packet p x mac options = Done p' ∧ packet_ok p' ∧
    udp p' = Done (Some u) ∧ udp_payload u = request_message x mac options ∧
    src_port u = 68 ∧ dst_port u = 67 ∧ src_ip (udp_ip u) = 0 ∧
    dst_ip (udp_ip u) = 0xffffffff ∧ src_mac (ip_eth (udp_ip u)) = mac ∧
    dst_mac (ip_eth (udp_ip u)) = replicate 6 0xff.
Proof.
  intros Hp Hx Hmb Hm Hob Ho. rewrite create_dhcp_packet_eq by done.
  destruct Hp as (Hb & Hl & _).
  set (msg := request_message x mac options). set (p' := mkPacket _ _ _).
  assert (length msg = (240 + length options)%nat) as Hml.
  { unfold msg, request_message. rewrite length_app, length_header_to_bytes; [done|].
    by apply the_request_header_ok. }
  assert (packet_ok p') as Hp'.
  { split; [|split; [|cbn [p' plength]; lia]]; cbn [p' buffer].
    - apply Forall_app_2; [by apply bytes_ok_udp_packet_header; [|by_decide]|].
      apply Forall_app_2; [|by repeat apply Forall_drop].
      apply Forall_app_2; [by apply the_request_header_bytes|done].
    - rewrite !length_app, length_udp_packet_header, !length_drop by done. fold msg.
      rewrite Hml, Hl. lia. }
  pose proof (udp_packet_parses mac (replicate 6 255) 0 4294967295 68 67 msg) as Hd.
  replace (Z.of_nat (length msg)) with (240 + Z.of_nat (length options)) in Hd by lia.
  assert (contents p' = udp_packet_header mac (replicate 6 255) 0 4294967295 68 67
    (240 + Z.of_nat (length options)) ++ msg) as Hcont.
  { unfold contents. cbn [p' buffer plength]. rewrite app_assoc. apply take_app_length'.
    rewrite length_app, length_udp_packet_header by done. lia. }
  eexists _, _. split; [done|]. split; [done|]. split.
  { apply udp_complete; [done|]. rewrite Hcont. apply Hd; try done; by_decide || lia. }
  done.
Qed.

(** ** The exchange *)

Lemma parse_dhcp_packet_returns x u : returns (parse_dhcp_packet x u).
Proof.
  unfold parse_dhcp_packet, returns. destruct (get _ _ _) as [hd|] eqn:E; cbn [or_return]; [|by eexists].
  destruct (negb _); [by eexists|]. destruct (_ || _); [by eexists|].
  apply get_Some in E as [[_ Hlen] _].
  rewrite (slice_get _ (drop size_of_Header (udp_payload u))).
  2:{ apply get_Some. split; [lia|]. rewrite <- length_drop, firstn_all. done. }
  rewrite bind_Done_l.
  destruct (parse_options_returns _ (drop size_of_Header (udp_payload u)) [] (le_n _)) as [os ->].
  by eexists.
Qed.

(** A reply of type [t] to the transaction [x], addressed to [mac]. *)
Definition dhcp_reply (x : Z) (mac : list Z) (t : MessageType) (u : Udp)
    (h : Header) (os : list DhcpOption) : Prop :=
  dst_port u = 68 ∧ dst_mac (ip_eth (udp_ip u)) = mac ∧
  parse_dhcp_packet x u = Done (Some (h, os)) ∧ MessageTypeOpt t ∈ os.

(** The two closures: they return, and accept exactly the replies. *)
Lemma on_offer_spec x mac pkt u s : dst_port u = 68 →
  (∃ h os, dhcp_reply x mac Offer u h os ∧
     on_offer x mac pkt u s =
       Done ((Some (swap_bytes 4 (yiaddr h)), find_map as_server_ip os), Some tt)) ∨
  on_offer x mac pkt u s = Done (s, None).
Proof.
  intros Hd. unfold on_offer. case_decide as Hm; [by right|].
  destruct (parse_dhcp_packet_returns x u) as [[[h os]|] E]; rewrite E; cbn; [|by right].
  case_decide; [left|by right]. exists h, os. split; [|done].
  by split_and!.
Qed.

Lemma on_ack_spec x mac pkt u s : dst_port u = 68 →
  (∃ h os, dhcp_reply x mac Ack u h os ∧
     on_ack x mac pkt u s =
       Done ((find_map as_broadcast_ip os, find_map as_subnet_mask os), Some tt)) ∨
  on_ack x mac pkt u s = Done (s, None).
Proof.
  intros Hd. unfold on_ack. case_decide as Hm; [by right|].
  destruct (parse_dhcp_packet_returns x u) as [[[h os]|] E]; rewrite E; cbn; [|by right].
  case_decide; [left|by right]. exists h, os. split; [|done].
  by split_and!.
Qed.

Lemma discover_bytes :
  (discover_options ≫= option_bytes) = [53; 1; 1; 55; 2; 53; 54; 255].
Proof. reflexivity. Qed.

Lemma request_bytes ip sip : (request_options ip sip ≫= option_bytes) =
  [53; 1; 3; 50; 4] ++ to_be_bytes 4 ip ++ [54; 4] ++ to_be_bytes 4 sip ++ [55; 3; 53; 28; 1; 255].
Proof. reflexivity. Qed.

Section client_proofs.
Context `{!NetDriver D} `{!NetDriverLaws D} `{!NetDriverLive D}.
Implicit Types dev : NetDevice D.

Definition mac_ok (m : list Z) : Prop := bytes_ok m ∧ length m = 6%nat.

Lemma send_dhcp_correct x options dev :
  is_uint 32 x → mac_ok (mac dev) → device_inv dev → Forall option_fits options →
  bytes_ok (options ≫= option_bytes) → Z.of_nat (length (options ≫= option_bytes)) ≤ 1232 →
  ∃ dev', send_dhcp x options dev = Done dev' ∧ device_inv dev' ∧
    udp_binds dev' = udp_binds dev ∧ mac dev' = mac dev.
Proof.
  intros Hx [Hmb Hml] (Hd & Hq & Hl) Hf Hb Hlen. unfold send_dhcp, device_allocate_packet, device_send.
  rewrite serialize_all_eq, bind_Done_l by done.
  destruct (allocate_returns (driver dev) Hd) as [[d p] Ha]. rewrite Ha. cbn.
  destruct (allocate_leased _ _ _ Hd Ha) as (Hd1 & Hp & Hl1).
  destruct (create_dhcp_packet_correct p x (mac dev) (options ≫= option_bytes)) as (p' & u & Hc & Hp' & _);
    [done..|]. rewrite Hc. cbn.
  destruct (send_returns p' d Hd1 Hp') as [d' Hs]. rewrite Hs. cbn.
  destruct (send_leased _ _ _ Hd1 Hp' Hs) as [Hd2 Hl2].
  eexists. split; [done|]. split; [|done]. split; [done|]. split; [done|]. cbn. by rewrite Hl2, Hl1.
Qed.

(** One poll on a bound port. *)
Lemma bind_recv_step {S T} b (func : Packet → Udp → S → outcome (S * option T)) s dev :
  device_inv dev → port b ∈ dom (udp_binds dev) →
  (∀ p u, udp p = Done (Some u) → dst_port u = port b → returns (func p u s)) →
  ∃ dev' s' r, bind_recv b func s dev = Done (dev', s', r) ∧ device_inv dev' ∧
    dom (udp_binds dev') = dom (udp_binds dev) ∧ mac dev' = mac dev ∧
    (s' = s ∧ r = None ∨
     ∃ p u, udp p = Done (Some u) ∧ dst_port u = port b ∧ func p u s = Done (s', r)).
Proof.
  intros Hinv [q Hq]%elem_of_dom Hf. unfold bind_recv.
  assert (∀ dev' s' r, recv_udp (port b) func s dev = Done (dev', s', r) → mac dev' = mac dev) as Hmac.
  { intros dev' s' r Hr. unfold recv_udp in Hr. clear -Hr.
    repeat (outcome_step || case_match); simplify_eq; done. }
  destruct q as [|p q].
  - destruct (recv_udp_empty (port b) func s dev Hinv Hq (recv_returns _ (proj1 Hinv)) Hf)
      as (dev' & s' & r & H1 & H2 & H3 & H4).
    exists dev', s', r. split_and!; [done..|by apply (Hmac _ s' r)|]. naive_solver.
  - destruct (recv_udp_queued (port b) func s dev p q Hinv Hq (λ u, Hf p u))
      as (dev' & s' & r & u & H1 & H2 & H3 & H4).
    exists dev', s', r. split_and!; [done..| |by apply (Hmac _ s' r)|].
    + rewrite H3. apply dom_insert_lookup_L. by eexists.
    + right. exists p, u. naive_solver.
Qed.

(** The polling loop: it goes on, or ends with what the closure accepted. *)
Lemma wait_for_correct {S} fuel : ∀ b (func : Packet → Udp → S → outcome (S * option unit)) s dev
    (accepted : S → Prop),
  device_inv dev → port b ∈ dom (udp_binds dev) →
  (∀ p u s, dst_port u = port b →
     func p u s = Done (s, None) ∨ ∃ s', func p u s = Done (s', Some tt) ∧ accepted s') →
  wait_for fuel b func s dev = OutOfFuel ∨
  ∃ dev' s', wait_for fuel b func s dev = Done (dev', s') ∧ device_inv dev' ∧
    dom (udp_binds dev') = dom (udp_binds dev) ∧ mac dev' = mac dev ∧ accepted s'.
Proof.
  induction fuel as [|fuel IH]; intros b func s dev accepted Hinv Hb Hf; [by left|].
  destruct (bind_recv_step b func s dev Hinv Hb) as (dev' & s' & r & Hr & Hinv' & Hdom & Hmac & Hres).
  { intros p u _ Hd. destruct (Hf p u s Hd) as [->|(? & -> & _)]; by eexists. }
  cbn [wait_for]. rewrite Hr, bind_Done_l. destruct r as [[]|].
  - right. exists dev', s'. split_and!; try done.
    destruct Hres as [[_ ?]|(p & u & _ & Hd & E)]; [done|].
    destruct (Hf p u s Hd) as [E'|(s2 & E' & Ha)]; rewrite E in E'; by simplify_eq.
  - rewrite <- Hdom in Hb.
    destruct (IH b func s' dev' accepted Hinv' Hb Hf) as [|(dev2 & s2 & H1 & H2 & H3 & H4 & H5)]; [by left|].
    right. exists dev2, s2. split_and!; try done; congruence.
Qed.

(** What a finished exchange means. *)
Definition lease_spec (x : Z) (mac : list Z) (r : option Lease) : Prop :=
  ∃ u h os, dhcp_reply x mac Offer u h os ∧
  match r with
  | None => find_map as_server_ip os = None
  | Some l =>
      client_ip l = swap_bytes 4 (yiaddr h) ∧ find_map as_server_ip os = Some (server_ip l) ∧
      ∃ u' h' os', dhcp_reply x mac Ack u' h' os' ∧
        broadcast_ip l = find_map as_broadcast_ip os' ∧
        subnet_mask l = find_map as_subnet_mask os'
  end.

Lemma wait_offer fuel x b m dev :
  device_inv dev → port b = 68 → 68 ∈ dom (udp_binds dev) →
  wait_for fuel b (on_offer x m) (None, None) dev = OutOfFuel ∨
  ∃ dev' u h os, wait_for fuel b (on_offer x m) (None, None) dev =
      Done (dev', (Some (swap_bytes 4 (yiaddr h)), find_map as_server_ip os)) ∧
    device_inv dev' ∧ dom (udp_binds dev') = dom (udp_binds dev) ∧ mac dev' = mac dev ∧
    dhcp_reply x m Offer u h os.
Proof.
  intros Hinv Hb Hd. destruct (wait_for_correct fuel b (on_offer x m) (None, None) dev
    (λ s, ∃ u h os, dhcp_reply x m Offer u h os ∧
       s = (Some (swap_bytes 4 (yiaddr h)), find_map as_server_ip os)))
    as [|(dev' & s' & H1 & H2 & H3 & H4 & u & h & os & H5 & ->)]; [done|by rewrite Hb| |by left|].
  - intros p u s Hu. rewrite Hb in Hu.
    destruct (on_offer_spec x m p u s Hu) as [(h & os & Hr & E)|E]; [right|by left].
    eexists. split; [done|]. by exists u, h, os.
  - right. by exists dev', u, h, os.
Qed.

Lemma wait_ack fuel x b m dev :
  device_inv dev → port b = 68 → 68 ∈ dom (udp_binds dev) →
  wait_for fuel b (on_ack x m) (None, None) dev = OutOfFuel ∨
  ∃ dev' u h os, wait_for fuel b (on_ack x m) (None, None) dev =
      Done (dev', (find_map as_broadcast_ip os, find_map as_subnet_mask os)) ∧
    device_inv dev' ∧ dom (udp_binds dev') = dom (udp_binds dev) ∧ mac dev' = mac dev ∧
    dhcp_reply x m Ack u h os.
Proof.
  intros Hinv Hb Hd. destruct (wait_for_correct fuel b (on_ack x m) (None, None) dev
    (λ s, ∃ u h os, dhcp_reply x m Ack u h os ∧
       s = (find_map as_broadcast_ip os, find_map as_subnet_mask os)))
    as [|(dev' & s' & H1 & H2 & H3 & H4 & u & h & os & H5 & ->)]; [done|by rewrite Hb| |by left|].
  - intros p u s Hu. rewrite Hb in Hu.
    destruct (on_ack_spec x m p u s Hu) as [(h & os & Hr & E)|E]; [right|by left].
    eexists. split; [done|]. by exists u, h, os.
  - right. by exists dev', u, h, os.
Qed.

(** Dropping the bind of the exchange frees port 68 again. *)
Lemma drop_dhcp_bind dev dev' :
  udp_binds dev !! 68 = None → dom (udp_binds dev') = {[68]} ∪ dom (udp_binds dev) →
  device_inv dev' →
  ∃ dev'', bind_drop (mkUDPBind 68) dev' = Done dev'' ∧ device_inv dev'' ∧
    dom (udp_binds dev'') = dom (udp_binds dev) ∧ mac dev'' = mac dev'.
Proof.
  intros Hfree%not_elem_of_dom Hd Hi.
  assert (68 ∈ dom (udp_binds dev')) as [q Hq]%elem_of_dom by (rewrite Hd; set_solver).
  destruct (unbind_udp_correct 68 dev' q Hi Hq) as (dev'' & H1 & H2 & H3 & H4).
  exists dev''. split_and!; try done. rewrite H3, dom_delete_L, Hd. set_solver.
Qed.

Lemma get_lease_correct fuel tsc dev :
  device_inv dev → mac_ok (mac dev) → udp_binds dev !! 68 = None →
  get_lease fuel tsc dev = OutOfFuel ∨
  ∃ dev' r, get_lease fuel tsc dev = Done (dev', r) ∧ device_inv dev' ∧
    dom (udp_binds dev') = dom (udp_binds dev) ∧ mac dev' = mac dev ∧
    lease_spec (wrap 32 tsc) (mac dev) r.
Proof.
  intros Hinv Hm Hfree. set (x := wrap 32 tsc).
  assert (is_uint 32 x) as Hx by by apply wrap_uint.
  pose proof (bind_udp_inv 68 dev) as Hbind. unfold get_lease, bind_udp in *. rewrite Hfree in *.
  fold x. cbn [expect]. rewrite bind_Done_l.
  set (dev1 := mkNetDevice _ _ _) in *. specialize (Hbind dev1 _ Hinv eq_refl).
  destruct (send_dhcp_correct x discover_options dev1) as (dev2 & Hs & Hinv2 & Hb2 & Hm2);
    [done|done|done|repeat constructor; cbn; lia|rewrite discover_bytes; by_decide|by rewrite discover_bytes|].
  rewrite Hs, bind_Done_l.
  assert (68 ∈ dom (udp_binds dev2)) as Hin by (rewrite Hb2; cbn; set_solver).
  change (mac dev1) with (mac dev) in Hm2.
  assert (dom (udp_binds dev2) = {[68]} ∪ dom (udp_binds dev)) as Hd2
    by (rewrite Hb2; apply dom_insert_L).
  destruct (wait_offer fuel x (mkUDPBind 68) (mac dev2) dev2) as [->|(dev3 & u & h & os & -> & Hinv3 & Hd3 & Hm3 & Hof)];
    [done..|by left|]. rewrite bind_Done_l. rewrite Hm2 in Hof.
  destruct (find_map as_server_ip os) as [sip|] eqn:Es.
  2:{ right. destruct (drop_dhcp_bind dev dev3) as (dev4 & -> & H4 & H5 & H6); [done|congruence|done|].
      rewrite bind_Done_l. exists dev4, None. split_and!; try done; [congruence|]. by exists u, h, os. }
  destruct (send_dhcp_correct x (request_options (swap_bytes 4 (yiaddr h)) sip) dev3)
    as (dev4 & Hs4 & Hinv4 & Hb4 & Hm4);
    [done|by rewrite Hm3, Hm2|done|repeat constructor; cbn; lia| | |].
  { rewrite request_bytes. repeat apply Forall_app_2; try apply to_be_bytes_ok; by_decide. }
  { rewrite request_bytes, !length_app, !length_to_be_bytes. done. }
  rewrite Hs4, bind_Done_l.
  destruct (wait_ack fuel x (mkUDPBind 68) (mac dev4) dev4) as [->|(dev5 & u' & h' & os' & -> & Hinv5 & Hd5 & Hm5 & Hack)];
    [done|done|by rewrite Hb4, Hd3|by left|]. rewrite bind_Done_l.
  destruct (drop_dhcp_bind dev dev5) as (dev6 & -> & H6 & H7 & H8); [done|congruence|done|].
  rewrite bind_Done_l. right.
  eexists dev6, (Some _). split_and!; [done..|congruence|].
  exists u, h, os. split; [done|]. cbn. split_and!; try done. exists u', h', os'.
  by rewrite Hm4, Hm3, Hm2 in Hack.
Qed.
End client_proofs.

(** ** Completion, on the driver over a list of frames *)

Lemma release_one p rest out :
  drv_release_packet p (mkListDriver rest [p] out) = mkListDriver rest [] out.
Proof. cbn. by rewrite decide_True. Qed.

Definition listening (inbox out : list Packet) (m : list Z) : NetDevice ListDriver :=
  mkNetDevice (mkListDriver inbox [] out) m {[ 68 := [] ]}.

Definition ignored_by {S} (func : Packet → Udp → S → outcome (S * option unit)) (q : Packet) : Prop :=
  packet_ok q ∧ ∀ u s, udp q = Done (Some u) → dst_port u = 68 → func q u s = Done (s, None).

Lemma bind_recv_list {S} (func : Packet → Udp → S → outcome (S * option unit)) s p rest out m :
  packet_ok p →
  bind_recv (mkUDPBind 68) func s (listening (p :: rest) out m) =
  (u ← udp p;
   match u with
   | Some u => if dst_port u =? 68
               then '(s, r) ← func p u s; Done (listening rest out m, s, r)
               else Done (listening rest out m, s, None)
   | None => Done (listening rest out m, s, None)
   end).
Proof.
  intros Hp. unfold bind_recv, recv_udp, listening. cbn [udp_binds port].
  rewrite lookup_singleton_eq. cbn. rewrite decide_True by done. cbn.
  destruct (udp_returns p Hp) as [u E]. rewrite E, !bind_Done_l.
  destruct u as [u|]; rewrite ?decide_True by done; [|done].
  destruct (Z.eqb_spec (dst_port u) 68) as [Hd|Hd]; [done|].
  by rewrite lookup_singleton_ne by congruence.
Qed.

Lemma wait_for_list {S} (func : Packet → Udp → S → outcome (S * option unit)) s s' p u rest out m
    junk : ∀ fuel,
  Forall (ignored_by func) junk → packet_ok p → udp p = Done (Some u) → dst_port u = 68 →
  func p u s = Done (s', Some tt) → (length junk < fuel)%nat →
  wait_for fuel (mkUDPBind 68) func s (listening (junk ++ p :: rest) out m)
  = Done (listening rest out m, s').
Proof.
  induction junk as [|q junk IH]; intros fuel Hj Hp Hu Hd Hf Hlen;
    (destruct fuel as [|fuel]; [cbn in Hlen; lia|]); cbn [app wait_for].
  - rewrite bind_recv_list, Hu, bind_Done_l by done. rewrite (proj2 (Z.eqb_eq _ _) Hd), Hf. done.
  - apply Forall_cons in Hj as [[Hq Hign] Hj]. rewrite bind_recv_list by done.
    destruct (udp_returns q Hq) as [[uq|] Eq]; rewrite Eq, bind_Done_l.
    + destruct (Z.eqb_spec (dst_port uq) 68) as [Hdq|_].
      * rewrite (Hign uq s Eq Hdq). cbn in *. apply IH; try done; lia.
      * rewrite bind_Done_l. cbn in Hlen. apply IH; try done; lia.
    + rewrite bind_Done_l. cbn in Hlen. apply IH; try done; lia.
Qed.

(** The frame the client sends for [options]. *)
Definition sent_request (x : Z) (m : list Z) (options : list DhcpOption) (p : Packet) : Prop :=
  packet_ok p ∧ ∃ u, udp p = Done (Some u) ∧ src_port u = 68 ∧ dst_port u = 67 ∧
    udp_payload u = request_message x m (options ≫= option_bytes).

Lemma send_dhcp_list x options inbox out m :
  is_uint 32 x → mac_ok m → Forall option_fits options →
  bytes_ok (options ≫= option_bytes) → Z.of_nat (length (options ≫= option_bytes)) ≤ 1232 →
  ∃ p, send_dhcp x options (listening inbox out m) = Done (listening inbox (out ++ [p]) m) ∧
    sent_request x m options p.
Proof.
  intros Hx [Hmb Hml] Hf Hb Hlen. unfold send_dhcp.
  rewrite serialize_all_eq, bind_Done_l by done. cbn.
  destruct (create_dhcp_packet_correct (packet_new 8192) x m (options ≫= option_bytes))
    as (p & u & Hc & Hp & Hu & Hpl & Hs & Hd & _); [by_decide|done..|].
  rewrite Hc. cbn. exists p. split; [done|]. split; [done|]. by exists u.
Qed.

Lemma get_lease_list fuel tsc m junk offer uo ho oo sip junk' ack ua ha oa rest :
  let x := wrap 32 tsc in
  mac_ok m →
  Forall (ignored_by (on_offer x m)) junk → Forall (ignored_by (on_ack x m)) junk' →
  packet_ok offer → udp offer = Done (Some uo) → dhcp_reply x m Offer uo ho oo →
  find_map as_server_ip oo = Some sip →
  packet_ok ack → udp ack = Done (Some ua) → dhcp_reply x m Ack ua ha oa →
  (length junk < fuel)%nat → (length junk' < fuel)%nat →
  ∃ p1 p2,
    get_lease fuel tsc
      (mkNetDevice (mkListDriver (junk ++ offer :: junk' ++ ack :: rest) [] []) m ∅) =
    Done (mkNetDevice (mkListDriver rest [] [p1; p2]) m ∅,
          Some (mkLease (swap_bytes 4 (yiaddr ho)) sip
                  (find_map as_broadcast_ip oa) (find_map as_subnet_mask oa))) ∧
    sent_request x m discover_options p1 ∧
    sent_request x m (request_options (swap_bytes 4 (yiaddr ho)) sip) p2.
Proof.
  intros x Hm Hj Hj' Hpo Huo (Hdo & Hmo & Hro & Hto) Hsip Hpa Hua (Hda & Hma & Hra & Hta) Hf Hf'.
  assert (is_uint 32 x) as Hx by by apply wrap_uint.
  destruct (send_dhcp_list x discover_options (junk ++ offer :: junk' ++ ack :: rest) [] m)
    as (p1 & Hs1 & Hp1);
    [done|done|repeat constructor; cbn; lia|rewrite discover_bytes; by_decide|by rewrite discover_bytes|].
  destruct (send_dhcp_list x (request_options (swap_bytes 4 (yiaddr ho)) sip) (junk' ++ ack :: rest) [p1] m)
    as (p2 & Hs2 & Hp2); [done|done|repeat constructor; cbn; lia| | |].
  { rewrite request_bytes. repeat apply Forall_app_2; try apply to_be_bytes_ok; by_decide. }
  { rewrite request_bytes, !length_app, !length_to_be_bytes. done. }
  assert (on_offer x m offer uo (None, None) =
    Done ((Some (swap_bytes 4 (yiaddr ho)), find_map as_server_ip oo), Some tt)) as Ho.
  { unfold on_offer. rewrite decide_False by tauto. rewrite Hro, bind_Done_l. by rewrite decide_True. }
  assert (on_ack x m ack ua (None, None) =
    Done ((find_map as_broadcast_ip oa, find_map as_subnet_mask oa), Some tt)) as Ha.
  { unfold on_ack. rewrite decide_False by tauto. rewrite Hra, bind_Done_l. by rewrite decide_True. }
  exists p1, p2. split; [|done]. unfold get_lease, bind_udp. cbn [udp_binds driver mac].
  rewrite lookup_empty, insert_empty. cbn [expect]. rewrite bind_Done_l. fold x.
  change (mkNetDevice _ m {[68 := []]}) with (listening (junk ++ offer :: junk' ++ ack :: rest) [] m).
  rewrite Hs1, bind_Done_l. cbn [mac listening].
  rewrite (wait_for_list (on_offer x m) (None, None)
    (Some (swap_bytes 4 (yiaddr ho)), find_map as_server_ip oo) offer uo (junk' ++ ack :: rest) [p1] m junk) by done.
  rewrite bind_Done_l, Hsip, Hs2, bind_Done_l. cbn [mac listening].
  rewrite (wait_for_list (on_ack x m) (None, None)
    (find_map as_broadcast_ip oa, find_map as_subnet_mask oa) ack ua rest [p1; p2] m junk') by done.
  rewrite bind_Done_l. unfold bind_drop, unbind_udp. cbn [udp_binds listening port].
  rewrite lookup_singleton_eq. cbn [unwrap expect]. rewrite bind_Done_l.
  by rewrite delete_singleton_eq.
Qed.

(** ** Properties *)

(** Options round trip: serializing a list of representable options and
    the closing [End] succeeds, and the parsing loop of [parse_dhcp_packet]
    reads the same list back, for any fuel the loop is given by its caller. *)
Theorem dhcp_options_roundtrip os :
  Forall option_ok os →
  ∃ bytes, serialize_all (os ++ [EndOpt]) [] = Done bytes ∧
    parse_options (length bytes) bytes [] = Done os.
Proof.
  intros Hos. eexists. split.
  - apply serialize_all_eq, Forall_app_2; [|by repeat constructor].
    eapply Forall_impl; [exact Hos|apply option_ok_fits].
  - rewrite bind_app. cbn [app mbind list_bind option_bytes].
    apply parse_options_serialized; [done|]. rewrite length_app. cbn [length]. lia.
Qed.

Lemma dhcp_options_roundtrip_witness : ∃ bytes,
  serialize_all [MessageTypeOpt Offer; ServerIp 0x0a000001; Unknown 12 [104; 105]; EndOpt] [] = Done bytes ∧
  parse_options (length bytes) bytes [] =
    Done [MessageTypeOpt Offer; ServerIp 0x0a000001; Unknown 12 [104; 105]].
Proof.
  apply (dhcp_options_roundtrip [MessageTypeOpt Offer; ServerIp 0x0a000001; Unknown 12 [104; 105]]).
  by_decide.
Defined.

(** [End] alone does not parse: [parse] wants a length byte [serialize] does
    not write. *)
Lemma end_not_parsed : serialize EndOpt [] = Done [255] ∧ parse [255] = Done None.
Proof. done. Qed.

(** Parsing a DHCP message from the network never panics and terminates,
    whatever the bytes; an accepted message has the cookie, the transaction id
    and the reply fields that are checked. *)
Theorem parse_dhcp_packet_total x u :
  ∃ r, parse_dhcp_packet x u = Done r ∧
    match r with
    | None => True
    | Some (h, os) =>
        (size_of_Header ≤ length (udp_payload u))%nat ∧
        h = header_of_bytes (take size_of_Header (udp_payload u)) ∧
        xid h = x ∧ op h = 2 ∧ htype h = 1 ∧ hlen h = 6 ∧
        cookie h = swap_bytes 4 DHCP_COOKIE
    end.
Proof.
  destruct (parse_dhcp_packet_returns x u) as [r Hr]. exists r. split; [done|].
  destruct r as [[h os]|]; [|done]. unfold parse_dhcp_packet in Hr.
  destruct (get _ _ _) as [hd|] eqn:E; cbn [or_return] in Hr; [|done].
  apply get_Some in E as [[_ Hlen] ->]. rewrite drop_0, Nat.sub_0_r in Hr.
  destruct (negb _) eqn:E1 in Hr; [done|]. destruct (_ || _) eqn:E2 in Hr; [done|].
  rewrite !orb_false_iff, !negb_false_iff, !Z.eqb_eq in E2. rewrite negb_false_iff, Z.eqb_eq in E1.
  outcome_inv. naive_solver.
Qed.

(** What the client puts on the wire: for any MAC address, transaction id
    and options of up to 1232 bytes, [create_dhcp_packet] builds a broadcast UDP
    datagram from port 68 to port 67 whose message is the packed request header
    (which reads back field by field) followed by the options. *)
Theorem create_dhcp_packet_spec p x mac options :
  packet_ok p → is_uint 32 x → bytes_ok mac → length mac = 6%nat →
  bytes_ok options → Z.of_nat (length options) ≤ 1232 →
  ∃ p' u, create_dhcp_packet p x mac options = Done p' ∧ packet_ok p' ∧
    udp p' = Done (Some u) ∧ src_port u = 68 ∧ dst_port u = 67 ∧
    dst_ip (udp_ip u) = 0xffffffff ∧ dst_mac (ip_eth (udp_ip u)) = replicate 6 0xff ∧
    src_mac (ip_eth (udp_ip u)) = mac ∧
    let h := header_of_bytes (take size_of_Header (udp_payload u)) in
    drop size_of_Header (udp_payload u) = options ∧
    xid h = x ∧ op h = 1 ∧ htype h = 1 ∧ hlen h = 6 ∧
    take 6 (chaddr h) = mac ∧ cookie h = swap_bytes 4 DHCP_COOKIE.
Proof.
  intros Hp Hx Hmb Hm Hob Ho.
  destruct (create_dhcp_packet_correct p x mac options) as
    (p' & u & H1 & H2 & H3 & Hpl & H4 & H5 & H6 & H7 & H8 & H9); [done..|].
  pose proof (the_request_header_ok x mac Hx Hm) as Hh.
  exists p', u. do 8 (split; [done|]). rewrite Hpl. unfold request_message.
  rewrite take_app_length', drop_app_length', header_roundtrip;
    [|done|by rewrite length_header_to_bytes ..].
  cbn. by rewrite take_app_length'.
Qed.

Lemma create_dhcp_packet_spec_witness : ∃ p' u,
  create_dhcp_packet (packet_new 0x1000) 0x1234 [7; 8; 9; 10; 11; 12] [53; 1; 1; 255] = Done p' ∧
  udp p' = Done (Some u).
Proof.
  destruct (create_dhcp_packet_spec (packet_new 0x1000) 0x1234 [7; 8; 9; 10; 11; 12] [53; 1; 1; 255])
    as (p' & u & H1 & _ & H2 & _);
    [by_decide|by_decide|by_decide|reflexivity|by_decide|discriminate|].
  exists p', u. split; [exact H1|exact H2].
Defined.


(** A server's reply, for the witnesses. *)
Definition demo_mac : list Z := [7; 8; 9; 10; 11; 12].
Definition demo_reply (x yip : Z) (os : list DhcpOption) : Packet :=
  let h := mkHeader 2 1 6 0 x 0 0 0 (swap_bytes 4 yip) 0 0 (demo_mac ++ replicate 10 0)
             (replicate 64 0) (replicate 128 0) (swap_bytes 4 DHCP_COOKIE) in
  let msg := header_to_bytes h ++ (os ≫= option_bytes) ++ [255] in
  match
    ('(p, i) ← create_udp_raw (packet_new 0x3000) [1; 1; 1; 1; 1; 1] demo_mac
       0x0a000001 0x0a000009 67 68 (Z.of_nat (length msg));
     raw_mut_write p i (i + length msg) msg)
  with Done p => p | _ => packet_new 0 end.

Definition demo_offer : Packet :=
  demo_reply 0x1234 0x0a000009 [MessageTypeOpt Offer; ServerIp 0x0a000001].
Definition demo_ack : Packet :=
  demo_reply 0x1234 0x0a000009 [MessageTypeOpt Ack; SubnetMask 0xffffff00].


(** Completion: if among the frames the network delivers there is, after
    any number of frames the client ignores, an OFFER that names a server and,
    later, an ACK, then [get_lease] returns the lease they describe; it has sent
    exactly a DISCOVER and a REQUEST for the offered address. *)
Theorem get_lease_completes fuel tsc m junk offer uo ho oo sip junk' ack ua ha oa rest :
  let x := wrap 32 tsc in
  mac_ok m →
  Forall (ignored_by (on_offer x m)) junk → Forall (ignored_by (on_ack x m)) junk' →
  packet_ok offer → udp offer = Done (Some uo) → dhcp_reply x m Offer uo ho oo →
  find_map as_server_ip oo = Some sip →
  packet_ok ack → udp ack = Done (Some ua) → dhcp_reply x m Ack ua ha oa →
  (length junk < fuel)%nat → (length junk' < fuel)%nat →
  ∃ p1 p2,
    get_lease fuel tsc
      (mkNetDevice (mkListDriver (junk ++ offer :: junk' ++ ack :: rest) [] []) m ∅) =
    Done (mkNetDevice (mkListDriver rest [] [p1; p2]) m ∅,
          Some (mkLease (swap_bytes 4 (yiaddr ho)) sip
                  (find_map as_broadcast_ip oa) (find_map as_subnet_mask oa))) ∧
    sent_request x m discover_options p1 ∧
    sent_request x m (request_options (swap_bytes 4 (yiaddr ho)) sip) p2.
Proof. apply get_lease_list. Qed.

Definition demo_udp (p : Packet) : Udp :=
  match udp p with Done (Some u) => u | _ => mkUdp (demo_ip p) 0 0 [] end.

Lemma demo_packet_ignored : ignored_by (on_offer 0x1234 demo_mac) demo_packet.
Proof.
  split; [by_decide|]. intros u s E Hd. exfalso. vm_compute in E. injection E as <-. discriminate Hd.
Qed.

Definition demo_parse (p : Packet) : Header * list DhcpOption :=
  match parse_dhcp_packet 0x1234 (demo_udp p) with
  | Done (Some r) => r
  | _ => (header_default, [])
  end.

Lemma get_lease_completes_witness : ∃ p1 p2,
  get_lease 2 0x1234
    (mkNetDevice (mkListDriver [demo_packet; demo_offer; demo_ack] [] []) demo_mac ∅) =
  Done (mkNetDevice (mkListDriver [] [] [p1; p2]) demo_mac ∅,
        Some (mkLease 0x0a000009 0x0a000001 None (Some 0xffffff00))).
Proof.
  destruct (get_lease_completes 2 0x1234 demo_mac [demo_packet] demo_offer (demo_udp demo_offer)
    (demo_parse demo_offer).1 (demo_parse demo_offer).2 0x0a000001 [] demo_ack (demo_udp demo_ack)
    (demo_parse demo_ack).1 (demo_parse demo_ack).2 []) as (p1 & p2 & H & _).
  - split; [by_decide|reflexivity].
  - apply Forall_singleton, demo_packet_ignored.
  - constructor.
  - by_decide.
  - vm_compute. reflexivity.
  - split_and!; [by_decide|by_decide|vm_compute; reflexivity|by_decide].
  - vm_compute. reflexivity.
  - by_decide.
  - vm_compute. reflexivity.
  - split_and!; [by_decide|by_decide|vm_compute; reflexivity|by_decide].
  - cbn. lia.
  - cbn. lia.
  - exists p1, p2. etrans; [exact H|]. do 4 f_equal; vm_compute; reflexivity.
Defined.
