(* ===== verification/Pci.v ===== *)
(** * PCI enumeration (kernel/src/pci.rs)

    The configuration space read through the two I/O ports, the walk over every
    bus, device and function, and the registration of the devices a driver's
    [probe] takes.  The ports and the rest of the system are the interface
    [PciPorts]. *)

From stdpp Require Import base tactics option list numbers strings.
From Stdlib Require Import ZArith Lia.
From S2P Require Import Prelude MachineInt Bytes.

Local Open Scope Z_scope.

Inductive BarType := Bits32 | Bits64.

(** [BarType::from] *)
Definition bar_type_from (val : Z) : outcome BarType :=
  if val =? 0 then Done Bits32
  else if val =? 2 then Done Bits64
  else Panic "Invalid BAR type".

Definition PCI_CONFIG_ADDRESS : Z := 0xcf8.
Definition PCI_CONFIG_DATA : Z := 0xcfc.
Definition PCI_ADDRESS_ENABLE : Z := Z.shiftl 1 31.

Record PciHeader := mkPciHeader {
  vendor_id : Z; device_id : Z; command : Z; status : Z; revision : Z; prog_if : Z; subclass : Z; class : Z;
  cache_line_size : Z; latency_timer : Z; header_type : Z; bist : Z;
}.

Record PciDevice := mkPciDevice {
  header : PciHeader;
  bar0 : Z; bar1 : Z; bar2 : Z; bar3 : Z; bar4 : Z; bar5 : Z;
  cardbus_cis_pointer : Z; subsystem_vendor_id : Z; subsystem_device_id : Z;
  expansion_rom_address : Z; capabilities : Z; reserved : list Z;
  interrupt_line : Z; interrupt_pin : Z; min_grant : Z; max_latency : Z;
}.

(** The bytes of an array of [u32] *)
Definition dword_bytes (l : list Z) : list Z := l ≫= to_le_bytes 4.

(** [read_unaligned(ptr as *const PciHeader)] and [.. PciDevice)]: the fields at
    their offsets in the [repr(C)] structure. *)
Definition header_of_bytes (b : list Z) : PciHeader :=
  let field off n := from_le_bytes (take n (drop off b)) in
  mkPciHeader (field 0 2)%nat (field 2 2)%nat (field 4 2)%nat (field 6 2)%nat
    (field 8 1)%nat (field 9 1)%nat (field 10 1)%nat (field 11 1)%nat
    (field 12 1)%nat (field 13 1)%nat (field 14 1)%nat (field 15 1)%nat.

Definition device_of_bytes (b : list Z) : PciDevice :=
  let field off n := from_le_bytes (take n (drop off b)) in
  mkPciDevice (header_of_bytes b)
    (field 16 4)%nat (field 20 4)%nat (field 24 4)%nat (field 28 4)%nat (field 32 4)%nat (field 36 4)%nat
    (field 40 4)%nat (field 44 2)%nat (field 46 2)%nat (field 48 4)%nat (field 52 1)%nat (take 7 (drop 53 b))
    (field 60 1)%nat (field 61 1)%nat (field 62 1)%nat (field 63 1)%nat.

(** [cpu::out32] and [cpu::in32] on the system's state. *)
Class PciPorts (W : Type) := {
  out32 : Z → Z → W → W;
  in32 : Z → W → W * Z;
}.

Section pci.
Context `{PciPorts W} {Dev : Type}.

(** [DRIVERS]: a probe may set its device up, so it acts on the system. *)
Context (drivers : list (PciDevice → W → outcome (W * option Dev))).

(** One read of the configuration space. *)
Definition config_read (addr : Z) (w : W) : W * Z := in32 PCI_CONFIG_DATA (out32 PCI_CONFIG_ADDRESS addr w).

(** The loops over the registers [rid..rid+n]. *)
Fixpoint read_registers (addr : Z) (rid n : nat) (w : W) : W * list Z :=
  match n with
  | O => (w, [])
  | S n =>
      let '(w, r) := config_read (Z.lor addr (Z.of_nat rid * 4)) w in
      let '(w, rs) := read_registers addr (S rid) n w in
      (w, r :: rs)
  end.

(** The loop over [DRIVERS]. *)
Fixpoint try_drivers (ps : list (PciDevice → W → outcome (W * option Dev))) (device : PciDevice) (w : W)
    : outcome (W * option Dev) :=
  match ps with
  | [] => Done (w, None)
  | probe :: ps =>
      '(w, r) ← probe device w;
      match r with Some d => Done (w, Some d) | None => try_drivers ps device w end
  end.

Definition bdf_addr (bus device function : Z) : Z :=
  Z.lor (Z.lor (Z.lor PCI_ADDRESS_ENABLE (shl 32 bus 16)) (shl 32 device 11)) (shl 32 function 8).

(** The body of the innermost loop; [devices] is [DEVICES]. *)
Definition visit (addr : Z) (w : W) (devices : list Dev) : outcome (W * list Dev) :=
  let '(w, did_vid) := config_read addr w in
  let vendor := wrap 16 (Z.shiftr did_vid 0) in
  let device := wrap 16 (Z.shiftr did_vid 16) in
  if (vendor =? 0xffff) && (device =? 0xffff) then Done (w, devices) else
  let '(w, hdr) := read_registers addr 0 4 w in
  if negb (header_type (header_of_bytes (dword_bytes hdr)) =? 0) then Done (w, devices) else
  let '(w, dev) := read_registers addr 0 16 w in
  '(w, driver) ← try_drivers drivers (device_of_bytes (dword_bytes dev)) w;
  match driver with
  | Some driver => Done (w, devices ++ [driver])
  | None => Done (w, devices)
  end.

Fixpoint visit_all (addrs : list Z) (w : W) (devices : list Dev) : outcome (W * list Dev) :=
  match addrs with
  | [] => Done (w, devices)
  | a :: addrs => '(w, devices) ← visit a w devices; visit_all addrs w devices
  end.

(** The three nested loops, in their order. *)
Definition all_addrs : list Z :=
  bus ← Z.of_nat <$> seq 0 256; device ← Z.of_nat <$> seq 0 32; function ← Z.of_nat <$> seq 0 8;
  [bdf_addr bus device function].

Definition init (w : W) (devices : list Dev) : outcome (W * list Dev) := visit_all all_addrs w devices.

(** [destroy_devices] *)
Fixpoint destroy_devices (purge : Dev → W → outcome W) (devices : list Dev) (w : W) : outcome W :=
  match devices with
  | [] => Done w
  | d :: devices => w ← purge d w; destroy_devices purge devices w
  end.

End pci.

(** ** The enumeration *)

(** Configuration mechanism 1: the address port selects a register of the
    configuration space [cfg], the data port reads it. *)
Class PciLaws (W : Type) `{PciPorts W} := {
  cfg : W → Z → Z;
  cfg_read a w w' v : config_read a w = (w', v) → v = cfg w a ∧ (∀ x, cfg w' x = cfg w x);
  cfg_u32 w a : is_uint 32 (cfg w a);
}.

Section enumeration.
Context `{PciLaws W} {Dev : Type}.
Context (drivers : list (PciDevice → W → outcome (W * option Dev))) (verdict : PciDevice → option Dev).

(** The configuration a walk reads at a function. *)
Definition config (c : Z → Z) (addr : Z) (n : nat) : list Z :=
  (λ rid, c (Z.lor addr (Z.of_nat rid * 4))) <$> seq 0 n.

(** What is there: a function that answers and has a plain device header. *)
Definition found (c : Z → Z) (addr : Z) : option PciDevice :=
  if (wrap 16 (c addr) =? 0xffff) && (wrap 16 (Z.shiftr (c addr) 16) =? 0xffff) then None
  else if header_type (header_of_bytes (dword_bytes (config c addr 4))) =? 0
  then Some (device_of_bytes (dword_bytes (config c addr 16))) else None.

Lemma found_ext c c' addr : (∀ x, c x = c' x) → found c addr = found c' addr.
Proof.
  intros Hc. assert (∀ n, config c addr n = config c' addr n) as E
    by (intros n; apply list_fmap_ext; intros i x _; apply Hc).
  unfold found. by rewrite !E, Hc.
Qed.

Lemma read_registers_spec addr n : ∀ rid w,
  ∃ w', read_registers addr rid n w = (w', (λ i, cfg w (Z.lor addr (Z.of_nat i * 4))) <$> seq rid n) ∧
    ∀ x, cfg w' x = cfg w x.
Proof.
  induction n as [|n IH]; intros rid w; cbn [read_registers seq fmap list_fmap]; [by exists w|].
  destruct (config_read _ w) as [w1 r] eqn:Er. destruct (cfg_read _ _ _ _ Er) as [-> Hc].
  destruct (IH (S rid) w1) as (w2 & -> & Hc2). exists w2. split.
  - do 2 f_equal. apply list_fmap_ext. intros i x _. apply Hc.
  - intros x. by rewrite Hc2.
Qed.

(** A probe decides by the device alone and leaves the configuration space as
    it is. *)
Context (probes_ok : ∀ dev w, ∃ w', try_drivers drivers dev w = Done (w', verdict dev) ∧ ∀ x, cfg w' x = cfg w x).

Lemma visit_spec addr w devices : ∃ w',
  visit drivers addr w devices = Done (w', devices ++ option_list (found (cfg w) addr ≫= verdict)) ∧
  ∀ x, cfg w' x = cfg w x.
Proof.
  unfold visit, found. destruct (config_read addr w) as [w1 v] eqn:Er.
  destruct (cfg_read _ _ _ _ Er) as [-> Hc1]. rewrite Z.shiftr_0_r.
  destruct (_ && _); [exists w1; cbn; by rewrite app_nil_r|].
  destruct (read_registers_spec addr 4 0 w1) as (w2 & -> & Hc2).
  assert (((λ i, cfg w1 (Z.lor addr (Z.of_nat i * 4))) <$> seq 0 4) = config (cfg w) addr 4) as ->
    by (apply list_fmap_ext; intros i x _; apply Hc1).
  assert (∀ x, cfg w2 x = cfg w x) as Hc by (intros x; by rewrite Hc2).
  destruct (_ =? 0); cbn [negb]; [|exists w2; cbn; by rewrite app_nil_r].
  destruct (read_registers_spec addr 16 0 w2) as (w3 & -> & Hc3).
  assert (((λ i, cfg w2 (Z.lor addr (Z.of_nat i * 4))) <$> seq 0 16) = config (cfg w) addr 16) as ->
    by (apply list_fmap_ext; intros i x _; apply Hc).
  destruct (probes_ok (device_of_bytes (dword_bytes (config (cfg w) addr 16))) w3) as (w4 & -> & Hc4).
  cbn [mbind outcome_bind option_bind]. exists w4. split.
  - destruct (verdict _); cbn; [done|by rewrite app_nil_r].
  - intros x. by rewrite Hc4, Hc3.
Qed.

Lemma visit_all_spec addrs : ∀ w devices, ∃ w',
  visit_all drivers addrs w devices =
    Done (w', devices ++ omap (λ a, found (cfg w) a ≫= verdict) addrs) ∧
  ∀ x, cfg w' x = cfg w x.
Proof.
  induction addrs as [|a addrs IH]; intros w devices; cbn [visit_all omap list_omap].
  { exists w. by rewrite app_nil_r. }
  destruct (visit_spec a w devices) as (w1 & -> & Hc). cbn [mbind outcome_bind].
  destruct (IH w1 (devices ++ option_list (found (cfg w) a ≫= verdict))) as (w2 & -> & Hc2).
  exists w2. split; [|intros x; by rewrite Hc2].
  assert (omap (λ a0, found (cfg w1) a0 ≫= verdict) addrs = omap (λ a0, found (cfg w) a0 ≫= verdict) addrs) as ->.
  { clear -Hc. induction addrs as [|x l IH]; [done|]. cbn [omap list_omap].
    by rewrite IH, (found_ext (cfg w1) (cfg w)). }
  rewrite <- app_assoc. do 3 f_equal. by destruct (found (cfg w) a ≫= verdict).
Qed.

End enumeration.
