(* ===== verification/E1000.v ===== *)
(** * Intel gigabit network driver (kernel/src/e1000.rs)

    The receive and transmit rings, the free list of packets and the
    initialisation of the card.  The card (its registers, the descriptor tables
    and the buffers it transfers by DMA) is the interface [Nic]; what the driver
    allocates and maps is the interface [DmaHeap].  The driver is an instance of
    the [NetDriver] of Net.v. *)

From stdpp Require Import base tactics option list numbers strings gmap.
From Stdlib Require Import ZArith Lia.
From S2P Require Import Prelude MachineInt Bytes Net Pci.

Local Open Scope Z_scope.

Definition NUM_RX_DESCS : nat := 8.
Definition NUM_TX_DESCS : nat := 16.

Record NicRegisters := mkNicRegisters {
  queue_enable : bool; ctrl : Z; imc : Z; rdbal : Z; rdbah : Z; rdlen : Z; rdh : Z; rdt : Z;
  tdbal : Z; tdbah : Z; tdlen : Z; tdh : Z; tdt : Z; ral0 : Z; rah0 : Z; rctl : Z; tctl : Z;
  rxdctl : Z; txdctl : Z;
}.

Definition E1000_REGS : NicRegisters :=
  mkNicRegisters false 0x0000 0x00d8 0x2800 0x2804 0x2808 0x2810 0x2818 0x3800 0x3804 0x3808 0x3810 0x3818
    0x5400 0x5404 0x0100 0x0400 0x2828 0x3828.

Definition I210_REGS : NicRegisters :=
  mkNicRegisters true 0x0000 0x00d8 0x2800 0x2804 0x2808 0x2810 0x2818 0x3800 0x3804 0x3808 0x3810 0x3818
    0x5400 0x5404 0x0100 0x0400 0x2828 0x3828.

Definition HANDLED_DEVICES : list (Z * Z * NicRegisters) :=
  [(0x8086, 0x100e, E1000_REGS); (0x8086, 0x10d3, E1000_REGS); (0x8086, 0x1533, I210_REGS)].

Record LegacyRxDesc := mkRxDesc {
  rx_buffer : Z; rx_len : Z; rx_checksum : Z; rx_status : Z; rx_errors : Z; rx_special : Z }.
Record LegacyTxDesc := mkTxDesc {
  tx_buffer : Z; tx_len : Z; tx_cso : Z; tx_cmd : Z; tx_status : Z; tx_css : Z; tx_special : Z }.

(** [Default] with the buffer filled in *)
Definition rx_desc_for (buffer : Z) : LegacyRxDesc := mkRxDesc buffer 0 0 0 0 0.
Definition tx_desc_default : LegacyTxDesc := mkTxDesc 0 0 0 0 0 0 0.

(** The card: registers by byte offset, the two descriptor tables, and the
    4 KiB of memory at a buffer's physical address.  A read returns what is
    there after anything the card has done in the meantime, so it may change the
    state. *)
Class Nic (N : Type) := {
  mmio_read : Z → N → N * Z;
  mmio_write : Z → Z → N → N;
  rx_get : nat → N → N * LegacyRxDesc;
  rx_put : nat → LegacyRxDesc → N → N;
  tx_get : nat → N → N * LegacyTxDesc;
  tx_put : nat → LegacyTxDesc → N → N;
  dma_get : Z → N → list Z;
  dma_put : Z → list Z → N → N;
}.

(** The allocations of the driver: [Packet::new] and its destructor,
    [PhysContig::new] of a descriptor table of the given size, and the mapping of
    the 128 KiB of registers at a physical address (KernelMm.v). *)
Class DmaHeap (A : Type) := {
  packet_alloc : A → outcome (A * Packet);
  packet_drop : Packet → A → A;
  table_alloc : Z → A → outcome (A * Z);
  mmio_map : Z → A → outcome A;
}.

Record IntelGbit (N A : Type) := mkIntelGbit {
  regs : NicRegisters;
  nic : N;
  rx_buffers : list Packet;
  rx_head : nat;
  tx_head : nat;
  packets : list Packet;
  capacity : nat;
  gbit_mac : list Z;
  heap : A;
}.
Arguments mkIntelGbit {N A}.
Arguments regs {N A}.
Arguments nic {N A}.
Arguments rx_buffers {N A}.
Arguments rx_head {N A}.
Arguments tx_head {N A}.
Arguments packets {N A}.
Arguments capacity {N A}.
Arguments gbit_mac {N A}.
Arguments heap {N A}.

(** [Vec::pop] *)
Definition vec_pop {X} (l : list X) : list X * option X := (take (pred (length l)) l, last l).

(** The address in [BAR0], and [BAR1] for a 64-bit one. *)
Definition bar_address (device : PciDevice) : outcome Z :=
  assert (Z.land (bar0 device) 1 =? 0) "Intel gbit BAR0 was not a memory BAR";;
  bar_type ← bar_type_from (Z.land (Z.shiftr (bar0 device) 1) 3);
  let low_bits := Z.land (bar0 device) 0xfffffff0 in
  let bar := match bar_type with
             | Bits32 => low_bits
             | Bits64 => Z.lor (shl 64 (bar1 device) 32) low_bits
             end in
  assert (Z.land bar 0xfff =? 0) "Non-4 KiB aligned Intel gbit nic?!";;
  Done bar.

Section driver.
Context {N : Type} `{Nic N} {A : Type} `{DmaHeap A}.
Abbreviation D := (IntelGbit N A).
Implicit Types d : D.

Definition set_nic (n : N) d : D :=
  mkIntelGbit (regs d) n (rx_buffers d) (rx_head d) (tx_head d) (packets d) (capacity d) (gbit_mac d) (heap d).
Definition set_packets (l : list Packet) (a : A) d : D :=
  mkIntelGbit (regs d) (nic d) (rx_buffers d) (rx_head d) (tx_head d) l (capacity d) (gbit_mac d) a.
Definition set_rx (n : N) (l : list Packet) (h : nat) d : D :=
  mkIntelGbit (regs d) n l h (tx_head d) (packets d) (capacity d) (gbit_mac d) (heap d).
Definition set_tx (n : N) (h : nat) d : D :=
  mkIntelGbit (regs d) n (rx_buffers d) (rx_head d) h (packets d) (capacity d) (gbit_mac d) (heap d).

(** [read] and [write] of a register: an index into the array of 32768 words. *)
Definition reg_read (reg_offset : Z) (n : N) : outcome (N * Z) :=
  assert (reg_offset / 4 <? 32 * 1024) "index out of bounds";;
  Done (mmio_read (reg_offset / 4 * 4) n).
Definition reg_write (reg_offset val : Z) (n : N) : outcome N :=
  assert (reg_offset / 4 <? 32 * 1024) "index out of bounds";;
  Done (mmio_write (reg_offset / 4 * 4) val n).

(** [allocate_packet]: the argument of [unwrap_or] is evaluated in any case, and
    dropped when a packet was on the list. *)
Definition allocate_packet d : outcome (D * Packet) :=
  let '(l, p) := vec_pop (packets d) in
  '(a, new) ← packet_alloc (heap d);
  match p with
  | Some p => Done (set_packets l (packet_drop new a) d, p)
  | None => Done (set_packets l a d, new)
  end.

(** [release_packet] *)
Definition release_packet (p : Packet) d : D :=
  if (length (packets d) <? capacity d)%nat then set_packets (packets d ++ [p]) (heap d) d
  else set_packets (packets d) (packet_drop p (heap d)) d.

(** A table access is checked against its length. *)
Definition in_table (i n : nat) : outcome unit := assert (i <? n)%nat "index out of bounds".

(** [recv]: the packet that leaves the ring has the bytes the card put at its
    address, the one that enters has its bytes there. *)
Definition recv d : outcome (D * option PacketLease) :=
  in_table (rx_head d) NUM_RX_DESCS;;
  let '(n, desc) := rx_get (rx_head d) (nic d) in
  let d := set_nic n d in
  if Z.land (rx_status desc) 1 =? 0 then Done (d, None) else
  let '(n, desc) := rx_get (rx_head d) (nic d) in
  let rxed := rx_len desc in
  '(d, packet) ← allocate_packet (set_nic n d);
  old ← index (rx_buffers d) (rx_head d);
  let old := mkPacket (phys_addr old) (dma_get (phys_addr old) (nic d)) (plength old) in
  let n := dma_put (phys_addr packet) (buffer packet) (nic d) in
  let n := rx_put (rx_head d) (rx_desc_for (phys_addr packet)) n in
  n ← reg_write (rdt (regs d)) (Z.of_nat (rx_head d)) n;
  let d := set_rx n (<[rx_head d := packet]> (rx_buffers d)) ((rx_head d + 1) mod NUM_RX_DESCS)%nat d in
  packet ← set_len old rxed;
  Done (d, Some (lease_new packet)).

(** The wait for the card to report the descriptor done. *)
Fixpoint wait_sent (fuel : nat) (i : nat) (n : N) : outcome N :=
  match fuel with
  | O => OutOfFuel
  | S fuel =>
      let '(n, desc) := tx_get i n in
      if Z.land (tx_status desc) 1 =? 0 then wait_sent fuel i n else Done n
  end.

Definition send (fuel : nat) (packet : Packet) d : outcome D :=
  let tail := ((tx_head d + 1) mod NUM_TX_DESCS)%nat in
  in_table (tx_head d) NUM_TX_DESCS;;
  bytes ← raw packet;
  let n := dma_put (phys_addr packet) (buffer packet) (nic d) in
  let n := tx_put (tx_head d)
    (mkTxDesc (phys_addr packet) (wrap 16 (Z.of_nat (length bytes))) 0 (Z.lor (Z.lor (Z.shiftl 1 3) (Z.shiftl 1 1)) 1) 0 0 0) n in
  n ← reg_write (tdt (regs d)) (Z.of_nat tail) n;
  n ← wait_sent fuel (tx_head d) n;
  Done (release_packet packet (set_tx n tail d)).

(** ** Initialisation *)

(** The loop that fills the receive ring. *)
Fixpoint fill_rx (ii k : nat) (n : N) (a : A) (bufs : list Packet) : outcome (N * A * list Packet) :=
  match k with
  | O => Done (n, a, bufs)
  | S k =>
      '(a, rx_buf) ← packet_alloc a;
      let n := dma_put (phys_addr rx_buf) (buffer rx_buf) n in
      let n := rx_put ii (rx_desc_for (phys_addr rx_buf)) n in
      fill_rx (S ii) k n a (bufs ++ [rx_buf])
  end.

(** [while (nic.read(ctrl) & (1 << 26)) != 0 {}] *)
Fixpoint wait_reset (fuel : nat) (r : NicRegisters) (n : N) : outcome N :=
  match fuel with
  | O => OutOfFuel
  | S fuel =>
      '(n, v) ← reg_read (ctrl r) n;
      if Z.land v (Z.shiftl 1 26) =? 0 then Done n else wait_reset fuel r n
  end.

(** [nic.write(reg, (1 << 25) | nic.read(reg))] *)
Definition enable_queue (reg : Z) (n : N) : outcome N :=
  '(n, v) ← reg_read reg n; reg_write reg (Z.lor (Z.shiftl 1 25) v) n.

Definition enable_queues (r : NicRegisters) (n : N) : outcome N :=
  if queue_enable r then n ← enable_queue (rxdctl r) n; enable_queue (txdctl r) n else Done n.

Definition program_rx (r : NicRegisters) (rx_paddr : Z) (n : N) : outcome N :=
  n ← reg_write (rdbah r) (wrap 32 (Z.shiftr rx_paddr 32)) n;
  n ← reg_write (rdbal r) (wrap 32 (Z.shiftr rx_paddr 0)) n;
  n ← reg_write (rdlen r) (Z.of_nat NUM_RX_DESCS * 16) n;
  n ← reg_write (rdh r) 0 n;
  reg_write (rdt r) (wrapping_sub 32 (Z.of_nat NUM_RX_DESCS) 1) n.

Definition program_tx (r : NicRegisters) (tx_paddr : Z) (n : N) : outcome N :=
  n ← reg_write (tdbah r) (wrap 32 (Z.shiftr tx_paddr 32)) n;
  n ← reg_write (tdbal r) (wrap 32 (Z.shiftr tx_paddr 0)) n;
  n ← reg_write (tdlen r) (Z.of_nat NUM_TX_DESCS * 16) n;
  n ← reg_write (tdh r) 0 n;
  reg_write (tdt r) 0 n.

Definition read_mac (r : NicRegisters) (n : N) : outcome (N * list Z) :=
  '(n, ral) ← reg_read (ral0 r) n;
  '(n, rah) ← reg_read (rah0 r) n;
  assert (negb (Z.land rah (Z.shiftl 1 31) =? 0)) "Whoa, couldn't get MAC";;
  Done (n, to_le_bytes 4 ral ++ to_le_bytes 2 (wrap 16 rah)).

(** The register accesses of [new]: reset, mask the interrupts, set the rings
    up, read the MAC address, enable. *)
Definition start_card (fuel : nat) (r : NicRegisters) (rx_paddr tx_paddr : Z) (n : N) : outcome (N * list Z) :=
  '(n, v) ← reg_read (ctrl r) n;
  n ← reg_write (ctrl r) (Z.lor v (Z.shiftl 1 26)) n;
  n ← wait_reset fuel r n;
  n ← reg_write (imc r) (bnot 32 0) n;
  n ← enable_queues r n;
  n ← program_rx r rx_paddr n;
  n ← program_tx r tx_paddr n;
  '(n, m) ← read_mac r n;
  n ← reg_write (rctl r) (Z.lor (Z.lor (Z.shiftl 1 26) (Z.shiftl 1 15)) (Z.shiftl 1 1)) n;
  n ← reg_write (tctl r) (Z.shiftl 1 1) n;
  Done (n, m).

(** [IntelGbit::new]; [cap] is the capacity [Vec::with_capacity(128)] gave. *)
Definition gbit_new (fuel cap : nat) (device : PciDevice) (r : NicRegisters) (n : N) (a : A) : outcome D :=
  bar ← bar_address device;
  a ← mmio_map bar a;
  '(a, rx_paddr) ← table_alloc (Z.of_nat NUM_RX_DESCS * 16) a;
  '(n, a, bufs) ← fill_rx 0 NUM_RX_DESCS n a [];
  '(a, tx_paddr) ← table_alloc (Z.of_nat NUM_TX_DESCS * 16) a;
  let n := foldl (λ n i, tx_put i tx_desc_default n) n (seq 0 NUM_TX_DESCS) in
  '(n, m) ← start_card fuel r rx_paddr tx_paddr n;
  Done (mkIntelGbit r n bufs 0 0 [] cap m a).

(** The registers of a device [probe] handles. *)
Fixpoint handled (l : list (Z * Z * NicRegisters)) (device : PciDevice) : option NicRegisters :=
  match l with
  | [] => None
  | (vid, did, r) :: l =>
      if (vendor_id (header device) =? vid) && (device_id (header device) =? did) then Some r
      else handled l device
  end.

(** [probe], up to the [NetDevice::new] around the driver (Dhcp.v) *)
Definition probe (fuel cap : nat) (device : PciDevice) (n : N) (a : A) : outcome (option D) :=
  match handled HANDLED_DEVICES device with
  | Some r => d ← gbit_new fuel cap device r n a; Done (Some d)
  | None => Done None
  end.

End driver.

(** ** What the card and the heap promise *)

(** The card as the driver sees it: [rx_buf] are the addresses in the receive
    table; [frames] the received frames that wait in the ring, oldest first, and
    [rx_next] the descriptor of the oldest.  The card fills descriptors in ring
    order and reports them in their status; it never changes the address in a
    descriptor; time passes (frames arrive) whenever the driver accesses it. *)
Class NicLaws (N : Type) `{Nic N} := {
  rx_buf : N → nat → Z;
  frames : N → list (list Z);
  rx_next : N → nat;
  dma_get_ok a n : bytes_ok (dma_get a n) ∧ length (dma_get a n) = 4096%nat;
  rx_get_spec i n n' desc : rx_get i n = (n', desc) →
    is_uint 16 (rx_len desc) ∧ rx_buf n' = rx_buf n ∧ rx_next n' = rx_next n ∧
    (∃ new, frames n' = frames n ++ new) ∧
    (i = rx_next n →
      (Z.land (rx_status desc) 1 = 0 ↔ frames n' = []) ∧
      ∀ f fs, frames n' = f :: fs →
        rx_len desc = Z.of_nat (length f) ∧ take (length f) (dma_get (rx_buf n i) n') = f);
  rx_put_buf i desc n j : rx_buf (rx_put i desc n) j = if decide (i = j) then rx_buffer desc else rx_buf n j;
  rx_put_frames desc n f fs : rx_status desc = 0 → frames n = f :: fs →
    let n' := rx_put (rx_next n) desc n in
    frames n' = fs ∧ rx_next n' = ((rx_next n + 1) mod NUM_RX_DESCS)%nat;
  rx_put_idle i desc n : frames n = [] → frames (rx_put i desc n) = [] ∧ rx_next (rx_put i desc n) = rx_next n;
  dma_put_keeps a l n : rx_buf (dma_put a l n) = rx_buf n ∧ rx_next (dma_put a l n) = rx_next n ∧
    (frames n = [] ∨ (∀ j, (j < NUM_RX_DESCS)%nat → rx_buf n j ≠ a) → frames (dma_put a l n) = frames n);
  mmio_write_keeps r v n : rx_buf (mmio_write r v n) = rx_buf n ∧ rx_next (mmio_write r v n) = rx_next n ∧
    ∃ new, frames (mmio_write r v n) = frames n ++ new;
  mmio_read_keeps r n n' v : mmio_read r n = (n', v) →
    rx_buf n' = rx_buf n ∧ rx_next n' = rx_next n ∧ ∃ new, frames n' = frames n ++ new;
  tx_put_keeps i desc n : rx_buf (tx_put i desc n) = rx_buf n ∧ rx_next (tx_put i desc n) = rx_next n ∧
    frames (tx_put i desc n) = frames n;
  tx_get_keeps i n n' desc : tx_get i n = (n', desc) →
    rx_buf n' = rx_buf n ∧ rx_next n' = rx_next n ∧ ∃ new, frames n' = frames n ++ new;
}.

(** A new packet is at an address no live packet has. *)
Class DmaHeapLaws (A : Type) `{DmaHeap A} := {
  live : A → Z → Prop;
  packet_alloc_spec a a' p : packet_alloc a = Done (a', p) →
    packet_ok p ∧ ~ live a (phys_addr p) ∧ ∀ x, live a' x ↔ x = phys_addr p ∨ live a x;
  packet_drop_spec p a x : live (packet_drop p a) x ↔ live a x ∧ x ≠ phys_addr p;
}.

Section rings.
Context {N : Type} `{HN : Nic N} `{HNL : !NicLaws N} {A : Type} `{HA : DmaHeap A} `{HAL : !DmaHeapLaws A}.
Abbreviation D := (IntelGbit N A).
Implicit Types d : D.

(** The indices are in range, the free list fits its capacity and holds well
    formed packets, and the receive table has the addresses of the buffers. *)
Record driver_ok d : Prop := {
  do_rx : length (rx_buffers d) = NUM_RX_DESCS;
  do_rx_head : (rx_head d < NUM_RX_DESCS)%nat;
  do_tx_head : (tx_head d < NUM_TX_DESCS)%nat;
  do_packets : Forall packet_ok (packets d);
  do_capacity : (length (packets d) ≤ capacity d)%nat;
  do_regs : rdt (regs d) / 4 < 32 * 1024 ∧ tdt (regs d) / 4 < 32 * 1024;
  do_bufs i p : rx_buffers d !! i = Some p → rx_buf (nic d) i = phys_addr p;
}.

Lemma vec_pop_spec {X} (l : list X) : match vec_pop l with
  | (l', Some x) => l = l' ++ [x] | (l', None) => l = [] ∧ l' = [] end.
Proof.
  unfold vec_pop. destruct (last l) as [x|] eqn:E.
  - apply last_Some in E as [l' ->]. rewrite length_app. cbn. rewrite Nat.add_1_r. cbn [pred].
    by rewrite take_app_length.
  - apply last_None in E as ->. done.
Qed.

(** [allocate_packet] takes the packet from the list or from the heap. *)
Lemma allocate_packet_spec d d' p : driver_ok d → allocate_packet d = Done (d', p) →
  ∃ l a, d' = set_packets l a d ∧ driver_ok d' ∧ packet_ok p ∧
    ((packets d = l ++ [p] ∧ (∀ x, live a x ↔ live (heap d) x)) ∨
     (packets d = [] ∧ l = [] ∧ ~ live (heap d) (phys_addr p) ∧
      ∀ x, live a x ↔ x = phys_addr p ∨ live (heap d) x)).
Proof.
  intros Hd Ha. unfold allocate_packet in Ha. pose proof (vec_pop_spec (packets d)) as Hv.
  destruct (vec_pop (packets d)) as [l q]. apply bind_Done in Ha as ([a new] & Hn & Ha).
  destruct (packet_alloc_spec _ _ _ Hn) as (Hok & Hfresh & Hlive).
  pose proof Hd as [H1 H2 H3 H4 H5 H6 H7]. destruct q as [q|]; apply Done_pair_inj in Ha as [<- <-].
  - rewrite Hv in H4, H5. apply Forall_app in H4 as [H4 Hq]. rewrite Forall_singleton in Hq.
    eexists l, _. split; [done|]. split; [|split; [done|left; split; [done|]]].
    + split; try done. cbn in *. rewrite length_app in H5. lia.
    + intros x. rewrite packet_drop_spec, Hlive. split; [intros [[->|] ?]; done|].
      intros Hx. split; [by right|]. intros ->. done.
  - destruct Hv as [Hv ->]. eexists [], a. split; [done|]. split; [|split; [done|by right]].
    split; try done. cbn. lia.
Qed.

Lemma release_packet_ok p d : driver_ok d → packet_ok p → driver_ok (release_packet p d).
Proof.
  intros [H1 H2 H3 H4 H5 H6 H7] Hp. unfold release_packet.
  destruct (Nat.ltb_spec (length (packets d)) (capacity d)); split; try done.
  - cbn. apply Forall_app. split; [done|by apply Forall_singleton].
  - cbn. rewrite length_app. cbn. lia.
Qed.

Lemma set_nic_ok n d : driver_ok d → rx_buf n = rx_buf (nic d) → driver_ok (set_nic n d).
Proof. intros [H1 H2 H3 H4 H5 H6 H7] E. split; try done. cbn. by rewrite E. Qed.

Lemma wait_sent_keeps i fuel : ∀ n n', wait_sent fuel i n = Done n' →
  rx_buf n' = rx_buf n ∧ rx_next n' = rx_next n ∧ ∃ new, frames n' = frames n ++ new.
Proof.
  induction fuel as [|fuel IH]; intros n n' Hw; cbn [wait_sent] in Hw; [done|].
  destruct (tx_get i n) as [n1 desc] eqn:Eg. destruct (tx_get_keeps _ _ _ _ Eg) as (K1 & K2 & new & K3).
  destruct (_ =? 0).
  - destruct (IH _ _ Hw) as (-> & -> & new' & ->). split; [done|]. split; [done|].
    exists (new ++ new'). by rewrite K3, app_assoc.
  - apply Done_inj in Hw as <-. split_and!; try done. by exists new.
Qed.

Lemma mod_lt (x n : nat) : (0 < n)%nat → (x mod n < n)%nat.
Proof. intros. apply Nat.mod_upper_bound. lia. Qed.

(** What a transmission leaves behind. *)
Lemma send_spec fuel p d d' : driver_ok d → packet_ok p → send fuel p d = Done d' →
  ∃ n, d' = release_packet p (set_tx n ((tx_head d + 1) mod NUM_TX_DESCS) d) ∧
    rx_buf n = rx_buf (nic d) ∧ driver_ok (set_tx n ((tx_head d + 1) mod NUM_TX_DESCS) d).
Proof.
  intros Hd Hp Hs. pose proof Hd as [H1 H2 H3 H4 H5 H6 H7]. unfold send in Hs.
  unfold in_table in Hs. rewrite (proj2 (Nat.ltb_lt _ _)) in Hs by done. cbn [assert mbind outcome_bind] in Hs.
  rewrite raw_contents in Hs by done. cbn [mbind outcome_bind] in Hs. unfold reg_write in Hs.
  rewrite (proj2 (Z.ltb_lt _ _)) in Hs by apply H6. cbn [assert mbind outcome_bind] in Hs.
  apply bind_Done in Hs as (n & Hw & <-%Done_inj). destruct (wait_sent_keeps _ _ _ _ Hw) as (K1 & _).
  exists n. assert (rx_buf n = rx_buf (nic d)) as En.
  { rewrite K1, (proj1 (mmio_write_keeps _ _ _)), (proj1 (tx_put_keeps _ _ _)). apply dma_put_keeps. }
  split; [done|]. split; [done|]. split; try done; [by apply mod_lt; unfold NUM_TX_DESCS; lia|].
  cbn. by rewrite En.
Qed.

(** The state after a packet [p] has replaced the one at the head. *)
Definition recycled (n : N) (p : Packet) d : D :=
  let n := dma_put (phys_addr p) (buffer p) n in
  let n := rx_put (rx_head d) (rx_desc_for (phys_addr p)) n in
  set_rx (mmio_write (rdt (regs d) / 4 * 4) (Z.of_nat (rx_head d)) n) (<[rx_head d := p]> (rx_buffers d))
    ((rx_head d + 1) mod NUM_RX_DESCS) d.

(** [recv] by its branches. *)
Lemma recv_unfold d : driver_ok d → ∃ old, rx_buffers d !! rx_head d = Some old ∧
  recv d =
    let '(n, desc) := rx_get (rx_head d) (nic d) in
    if Z.land (rx_status desc) 1 =? 0 then Done (set_nic n d, None) else
    let '(n, desc) := rx_get (rx_head d) n in
    '(d2, p) ← allocate_packet (set_nic n d);
    q ← set_len (mkPacket (phys_addr old) (dma_get (phys_addr old) n) (plength old)) (rx_len desc);
    Done (recycled n p d2, Some (lease_new q)).
Proof.
  intros [H1 H2 H3 H4 H5 H6 H7]. destruct (lookup_lt_is_Some_2 (rx_buffers d) (rx_head d)) as [old Hold];
    [by rewrite H1|]. exists old. split; [done|]. unfold recv, in_table.
  rewrite (proj2 (Nat.ltb_lt _ _)) by done. cbn [assert mbind outcome_bind].
  destruct (rx_get (rx_head d) (nic d)) as [n1 desc1]. destruct (_ =? 0); [done|]. cbn [rx_head set_nic nic].
  destruct (rx_get (rx_head d) n1) as [n2 desc2].
  unfold allocate_packet. destruct (vec_pop _) as [l q]. cbn [heap set_nic].
  destruct (packet_alloc (heap d)) as [[a new]| |]; cbn [mbind outcome_bind]; [|done..].
  destruct q as [q|]; cbn [mbind outcome_bind set_packets set_nic rx_buffers rx_head regs nic]; unfold index;
    rewrite Hold; cbn [expect mbind outcome_bind]; unfold reg_write;
    (rewrite (proj2 (Z.ltb_lt (rdt (regs d) / 4) _)) by apply H6); done.
Qed.

Lemma recycled_ok n p d : driver_ok d → rx_buf n = rx_buf (nic d) → driver_ok (recycled n p d).
Proof.
  intros [H1 H2 H3 H4 H5 H6 H7] En. split; try done; cbn.
  - by rewrite length_insert.
  - apply (mod_lt _ NUM_RX_DESCS). unfold NUM_RX_DESCS. lia.
  - intros i q Hq. rewrite (proj1 (mmio_write_keeps _ _ _)), rx_put_buf, (proj1 (dma_put_keeps _ _ _)), En.
    case_decide as Hi.
    + subst i. rewrite list_lookup_insert_eq in Hq by (by rewrite H1). by injection Hq as <-.
    + rewrite list_lookup_insert_ne in Hq by done. by apply H7.
Qed.

Lemma set_len_Done p len q : set_len p len = Done q → len ≤ 1514 ∧
  q = mkPacket (phys_addr p) (buffer p) len.
Proof.
  unfold set_len. intros ([] & Ha & Hq)%bind_Done. apply assert_Done, andb_true_iff in Ha as [Ha _].
  apply Z.leb_le in Ha. split; [done|]. by apply Done_inj in Hq.
Qed.

(** What [recv] leaves, whatever the card did. *)
Lemma recv_spec d d' r : driver_ok d → recv d = Done (d', r) →
  driver_ok d' ∧ match r with
  | None => ∃ n, d' = set_nic n d
  | Some l => ∃ old p q n d2, rx_buffers d !! rx_head d = Some old ∧ allocate_packet (set_nic n d) = Done (d2, p) ∧
      rx_buf n = rx_buf (nic d) ∧ d' = recycled n p d2 ∧ l = lease_new q ∧ packet_ok q ∧ phys_addr q = phys_addr old
  end.
Proof.
  intros Hd Hr. destruct (recv_unfold d Hd) as (old & Hold & Hu). rewrite Hr in Hu. clear Hr.
  destruct (rx_get (rx_head d) (nic d)) as [n1 desc1] eqn:E1. destruct (rx_get_spec _ _ _ _ E1) as (_ & K1 & _).
  destruct (_ =? 0).
  { apply Done_pair_inj in Hu as [-> ->]. split; [by apply set_nic_ok|by exists n1]. }
  destruct (rx_get (rx_head d) n1) as [n2 desc2] eqn:E2. destruct (rx_get_spec _ _ _ _ E2) as (Hlen & K2 & _).
  symmetry in Hu. apply bind_Done in Hu as ([d2 p] & Ha & Hu). apply bind_Done in Hu as (q & Hq & Hu).
  apply Done_pair_inj in Hu as [<- <-].
  assert (rx_buf n2 = rx_buf (nic d)) as En by congruence.
  destruct (allocate_packet_spec (set_nic n2 d) d2 p) as (l & a & -> & Hd2 & Hp & _); [by apply set_nic_ok|done|].
  split; [by apply recycled_ok|].
  exists old, p, q, n2, (set_packets l a (set_nic n2 d)). apply set_len_Done in Hq as [Hle ->].
  destruct (dma_get_ok (phys_addr old) n2) as [Hb Hl].
  split; [done|]. split; [done|]. split; [done|]. split; [done|]. split; [done|]. split; [|done].
  split; [done|]. split; [done|]. cbn. unfold is_uint in Hlen. lia.
Qed.

(** ** Ownership

    [out] are the addresses of the packets outside the driver: leased to the
    network stack, or allocated by it to be sent. *)
Definition addrs (l : list Packet) : list Z := phys_addr <$> l.

Record owned d (out : list Z) : Prop := {
  ow_ok : driver_ok d;
  ow_nodup : NoDup (addrs (rx_buffers d) ++ addrs (packets d) ++ out);
  ow_live x : x ∈ addrs (rx_buffers d) ++ addrs (packets d) ++ out → live (heap d) x;
}.

(** The network stack's moves: it polls, allocates, and gives back or sends what
    it holds. *)
Inductive driver_step : D * list Z → D * list Z → Prop :=
| step_poll d d' out : recv d = Done (d', None) → driver_step (d, out) (d', out)
| step_recv d d' p out : recv d = Done (d', Some (lease_new p)) → driver_step (d, out) (d', phys_addr p :: out)
| step_allocate d d' p out : allocate_packet d = Done (d', p) → driver_step (d, out) (d', phys_addr p :: out)
| step_release d p out out' : packet_ok p → out ≡ₚ phys_addr p :: out' →
    driver_step (d, out) (release_packet p d, out')
| step_send fuel d d' p out out' : packet_ok p → out ≡ₚ phys_addr p :: out' → send fuel p d = Done d' →
    driver_step (d, out) (d', out').

(** The same addresses, in another order, with the same heap. *)
Lemma owned_perm d d' out out' : owned d out → driver_ok d' →
  addrs (rx_buffers d') ++ addrs (packets d') ++ out' ≡ₚ addrs (rx_buffers d) ++ addrs (packets d) ++ out →
  (∀ x, live (heap d') x ↔ live (heap d) x) → owned d' out'.
Proof.
  intros [H1 H2 H3] Hok Hp Hl. split; [done|by rewrite Hp|].
  intros x Hx. apply Hl, H3. by rewrite <- Hp.
Qed.

Lemma owned_nic n d out : owned d out → rx_buf n = rx_buf (nic d) → owned (set_nic n d) out.
Proof. intros Ho E. apply (owned_perm d _ out); try done. apply set_nic_ok; [apply Ho|done]. Qed.

Lemma addrs_app l l' : addrs (l ++ l') = addrs l ++ addrs l'.
Proof. apply fmap_app. Qed.

Lemma owned_allocate d d' p out : owned d out → allocate_packet d = Done (d', p) → owned d' (phys_addr p :: out).
Proof.
  intros Ho Ha. destruct (allocate_packet_spec d d' p (ow_ok _ _ Ho) Ha) as (l & a & -> & Hok & Hp & Hcase).
  destruct Hcase as [[Hl Hlive]|(Hl & -> & Hfresh & Hlive)].
  - apply (owned_perm d _ out); [done|done| |done]. cbn. rewrite Hl, addrs_app. cbn.
    by rewrite <- (app_assoc _ [_] out).
  - destruct Ho as [H1 H2 H3]. rewrite Hl in H2, H3. cbn in H2, H3. split; [done|..].
    + cbn. rewrite <- Permutation_middle. apply NoDup_cons. split; [|done].
      intros Hx. by apply Hfresh, H3.
    + cbn. intros x. rewrite <- Permutation_middle. intros [->|Hx]%elem_of_cons; apply Hlive; [by left|].
      right. by apply H3.
Qed.

Lemma owned_release d p out out' : owned d out → packet_ok p → out ≡ₚ phys_addr p :: out' →
  owned (release_packet p d) out'.
Proof.
  intros Ho Hp Hout. pose proof (release_packet_ok p d (ow_ok _ _ Ho) Hp) as Hok.
  unfold release_packet in *. destruct (_ <? _)%nat.
  - apply (owned_perm d _ out); [done|done| |done]. cbn. rewrite addrs_app, Hout, <- app_assoc. done.
  - destruct Ho as [H1 H2 H3]. split; [done|..]; cbn.
    + rewrite Hout, <- !Permutation_middle in H2. by apply NoDup_cons in H2 as [_ H2].
    + intros x Hx. apply packet_drop_spec. split.
      * apply H3. rewrite Hout, <- !Permutation_middle. by right.
      * intros ->. rewrite Hout, <- !Permutation_middle in H2. by apply NoDup_cons in H2 as [? _].
Qed.

(** The packet at the head of the ring changes places with a packet outside. *)
Lemma owned_recycled d n p old out : owned d (phys_addr p :: out) → rx_buf n = rx_buf (nic d) →
  rx_buffers d !! rx_head d = Some old → owned (recycled n p d) (phys_addr old :: out).
Proof.
  intros Ho E Hold. apply (owned_perm d _ (phys_addr p :: out)); [done|by apply recycled_ok; [apply Ho|]| |done].
  cbn. rewrite <- !Permutation_middle.
  destruct (list_elem_of_split_length (rx_buffers d) (rx_head d) old Hold) as (l1 & l2 & -> & ->).
  rewrite insert_app_r_alt, Nat.sub_diag by lia. cbn [insert list_insert].
  rewrite !addrs_app. cbn [addrs fmap list_fmap]. rewrite <- !app_assoc. cbn [app].
  rewrite <- !Permutation_middle. by rewrite Permutation_swap.
Qed.

Lemma owned_step d out d' out' : owned d out → driver_step (d, out) (d', out') → owned d' out'.
Proof.
  intros Ho Hs. pose proof (ow_ok _ _ Ho) as Hok. inversion Hs as [? ? ? Hr|? ? p ? Hr|? ? p ? Ha|? p ? ? Hp Hout|? ? ? p ? ? Hp Hout Hse]; subst; clear Hs.
  - destruct (recv_unfold d Hok) as (old & Hold & Hu). rewrite Hr in Hu.
    destruct (rx_get (rx_head d) (nic d)) as [n1 desc1] eqn:E1.
    destruct (rx_get_spec _ _ _ _ E1) as (_ & K1 & _). destruct (_ =? 0).
    + apply Done_pair_inj in Hu as [-> _]. by apply owned_nic.
    + destruct (rx_get _ n1) as [n2 desc2]. symmetry in Hu. apply bind_Done in Hu as ([? ?] & _ & Hu).
      by apply bind_Done in Hu as (? & _ & [=]).
  - destruct (recv_spec d d' _ Hok Hr) as (_ & old & q & q' & n & d2 & Hold & Ha & En & -> & [= ->] & _ & ->).
    pose proof (owned_allocate _ _ _ out (owned_nic n d out Ho En) Ha) as Ho2.
    destruct (allocate_packet_spec (set_nic n d) d2 q) as (l & a & -> & _); [by apply set_nic_ok|done|].
    by apply owned_recycled.
  - by apply (owned_allocate d).
  - by apply (owned_release d p out).
  - destruct (send_spec _ _ _ _ Hok Hp Hse) as (n & -> & En & Hok').
    apply (owned_release _ p out); [|done|done]. by apply (owned_perm d _ out).
Qed.

(** ** Initialisation *)

(** The receive ring is as it was. *)
Definition same_ring (n n' : N) : Prop := rx_buf n' = rx_buf n ∧ rx_next n' = rx_next n.

Lemma same_ring_trans n n1 n2 : same_ring n n1 → same_ring n1 n2 → same_ring n n2.
Proof. intros [? ?] [? ?]. split; congruence. Qed.

Lemma reg_write_ring r v n n0 : same_ring n0 n → post (same_ring n0) (reg_write r v n).
Proof.
  intros Hs. apply post_any. intros _. apply post_Done. apply (same_ring_trans n0 n); [done|].
  destruct (mmio_write_keeps (r / 4 * 4) v n) as (? & ? & _). by split.
Qed.

Lemma reg_read_ring r n n0 : same_ring n0 n → post (λ x, same_ring n0 x.1) (reg_read r n).
Proof.
  intros Hs. apply post_any. intros _. destruct (mmio_read (r / 4 * 4) n) as [n' v] eqn:E.
  destruct (mmio_read_keeps _ _ _ _ E) as (? & ? & _). apply post_Done, (same_ring_trans n0 n); [done|by split].
Qed.
#[local] Hint Resolve reg_write_ring reg_read_ring : frame.

#[local] Ltac ring_frame :=
  repeat (cbn beta iota zeta; lazymatch goal with
  | |- post _ (mbind _ _) =>
      first [ eapply post_bind; [solve [eauto with frame]|intros ? ?; cbn beta in *] | apply post_any; intros ? ]
  | |- post _ (match ?x with _ => _ end) => destruct x; cbn [fst] in *
  | |- post _ (Done _) => apply post_Done; auto
  | |- post _ _ => solve [eauto with frame]
  end).

Lemma wait_reset_ring fuel r n0 : ∀ n, same_ring n0 n → post (same_ring n0) (wait_reset fuel r n).
Proof. induction fuel as [|fuel IH]; intros n Hs; cbn [wait_reset]; [apply post_OutOfFuel|]. ring_frame. Qed.

Lemma enable_queue_ring reg n n0 : same_ring n0 n → post (same_ring n0) (enable_queue reg n).
Proof. intros. unfold enable_queue. ring_frame. Qed.

#[local] Hint Resolve enable_queue_ring : frame.

Lemma enable_queues_ring r n n0 : same_ring n0 n → post (same_ring n0) (enable_queues r n).
Proof. intros. unfold enable_queues. ring_frame. Qed.

Lemma program_rx_ring r p n n0 : same_ring n0 n → post (same_ring n0) (program_rx r p n).
Proof. intros. unfold program_rx. ring_frame. Qed.

Lemma program_tx_ring r p n n0 : same_ring n0 n → post (same_ring n0) (program_tx r p n).
Proof. intros. unfold program_tx. ring_frame. Qed.

Lemma read_mac_ring r n n0 : same_ring n0 n → post (λ x, same_ring n0 x.1) (read_mac r n).
Proof. intros. unfold read_mac. ring_frame. Qed.
#[local] Hint Resolve wait_reset_ring enable_queues_ring program_rx_ring program_tx_ring read_mac_ring : frame.

Lemma tx_init_ring l : ∀ n, same_ring n (foldl (λ n i, tx_put i tx_desc_default n) n l).
Proof.
  induction l as [|i l IH]; intros n; [done|]. cbn. eapply same_ring_trans; [|apply IH].
  destruct (tx_put_keeps i tx_desc_default n) as (? & ? & _). by split.
Qed.

(** The buffers put in the ring are fresh packets, each in its descriptor. *)
Lemma fill_rx_spec k : ∀ ii n a bufs n' a' bufs',
  fill_rx ii k n a bufs = Done (n', a', bufs') → length bufs = ii → frames n = [] →
  (∀ i p, bufs !! i = Some p → rx_buf n i = phys_addr p) → NoDup (addrs bufs) →
  (∀ x, x ∈ addrs bufs → live a x) →
  length bufs' = (ii + k)%nat ∧ (∀ i p, bufs' !! i = Some p → rx_buf n' i = phys_addr p) ∧
  NoDup (addrs bufs') ∧ (∀ x, x ∈ addrs bufs' → live a' x) ∧ rx_next n' = rx_next n ∧ frames n' = [].
Proof.
  induction k as [|k IH]; intros ii n a bufs n' a' bufs' Hf Hlen Hfr Hb Hnd Hl; cbn [fill_rx] in Hf.
  { injection Hf as <- <- <-. split_and!; (done || lia). }
  apply bind_Done in Hf as ([a1 p] & Ha & Hf). destruct (packet_alloc_spec _ _ _ Ha) as (Hp & Hfresh & Hlive).
  destruct (dma_put_keeps (phys_addr p) (buffer p) n) as (K1 & K2 & K3). specialize (K3 (or_introl Hfr)).
  destruct (rx_put_idle ii (rx_desc_for (phys_addr p)) (dma_put (phys_addr p) (buffer p) n)) as [K4 K5]; [congruence|].
  destruct (IH _ _ _ _ _ _ _ Hf) as (R1 & R2 & R3 & R4 & R5 & R6).
  - rewrite length_app. cbn. lia.
  - congruence.
  - intros i q Hq. rewrite rx_put_buf, K1. case_decide as Hi.
    + subst i. rewrite <- Hlen in Hq. rewrite lookup_app_r, Nat.sub_diag in Hq by lia. by injection Hq as <-.
    + apply Hb. rewrite lookup_app_l in Hq; [done|]. apply lookup_lt_Some in Hq. rewrite length_app in Hq. cbn in Hq. lia.
  - rewrite addrs_app. apply NoDup_app. split; [done|]. split; [|apply NoDup_singleton].
    intros x Hx Hx'. apply list_elem_of_singleton in Hx' as ->. by apply Hfresh, Hl.
  - intros x. rewrite addrs_app, elem_of_app. intros [Hx|Hx%list_elem_of_singleton]; apply Hlive; [right; by apply Hl|by left].
  - split_and!; try done; [lia|]. by rewrite R5, K5, K2.
Qed.

(** The allocations of [new] outside the ring keep what is live. *)
Definition heap_keeps : Prop :=
  (∀ b (a : A), post (λ a', ∀ x, live a x → live a' x) (mmio_map b a)) ∧
  (∀ z (a : A), post (λ r, ∀ x, live a x → live r.1 x) (table_alloc z a)).


Lemma start_card_ring fuel r rx tx n n0 : same_ring n0 n → post (λ x, same_ring n0 x.1) (start_card fuel r rx tx n).
Proof.
  intros Hs. unfold start_card. ring_frame.
Qed.

Lemma gbit_new_owned fuel cap device r n a d : heap_keeps → frames n = [] →
  rdt r / 4 < 32 * 1024 → tdt r / 4 < 32 * 1024 → gbit_new fuel cap device r n a = Done d →
  owned d [] ∧ regs d = r ∧ rx_head d = 0%nat ∧ tx_head d = 0%nat ∧ packets d = [] ∧ rx_next (nic d) = rx_next n.
Proof.
  intros [_ Hkt] Hfr Hr Ht Hg. unfold gbit_new in Hg. apply bind_Done in Hg as (bar & _ & Hg).
  apply bind_Done in Hg as (a1 & _ & Hg). apply bind_Done in Hg as ([a2 rx] & _ & Hg).
  apply bind_Done in Hg as ([[n1 a3] bufs] & Hfill & Hg). apply bind_Done in Hg as ([a4 tx] & Htab & Hg).
  apply bind_Done in Hg as ([n2 m] & Hstart & <-%Done_inj).
  destruct (fill_rx_spec _ _ _ _ _ _ _ _ Hfill) as (R1 & R2 & R3 & R4 & R5 & R6); try done.
  { constructor. }
  { intros x Hx. by inversion Hx. }
  destruct (start_card_ring fuel r rx tx _ n1 (tx_init_ring _ n1) _ Hstart) as [S1 S2]. cbn [fst] in S1, S2.
  split; [|split_and!; try done; cbn; congruence]. split.
  - split; cbn [rx_head tx_head packets capacity regs rx_buffers nic length];
      [done|unfold NUM_RX_DESCS; lia|unfold NUM_TX_DESCS; lia|constructor|lia|done|by rewrite S1].
  - cbn. by rewrite app_nil_r.
  - cbn. rewrite app_nil_r. intros x Hx. apply (Hkt _ _ _ Htab). by apply R4.
Qed.

Lemma handled_regs device r : handled HANDLED_DEVICES device = Some r →
  rdt r / 4 < 32 * 1024 ∧ tdt r / 4 < 32 * 1024.
Proof.
  cbn. repeat (destruct (_ && _); [intros [= <-]; done|]). done.
Qed.

(** The card's descriptors point to no packet outside the ring. *)
Lemma owned_apart d out i : owned d out → (i < NUM_RX_DESCS)%nat →
  ~ rx_buf (nic d) i ∈ addrs (packets d) ++ out.
Proof.
  intros [Hok Hnd _] Hi Hin. destruct (lookup_lt_is_Some_2 (rx_buffers d) i) as [p Hp]; [by rewrite (do_rx _ Hok)|].
  rewrite (do_bufs _ Hok i p Hp) in Hin. apply NoDup_app in Hnd as (_ & Hd & _).
  apply (Hd (phys_addr p)); [|done]. apply list_elem_of_fmap. exists p. split; [done|].
  by apply list_elem_of_lookup_2 in Hp.
Qed.

(** ** Reception is a queue *)

Lemma recv_frames d out a new : owned d out → rx_head d = rx_next (nic d) → packet_alloc (heap d) = Done (a, new) →
  ∃ arrived, match frames (nic d) ++ arrived with
  | [] => ∃ n, recv d = Done (set_nic n d, None) ∧ frames n = [] ∧ rx_next n = rx_next (nic d)
  | f :: fs =>
      if decide (length f ≤ 1514)%nat then
        ∃ d' p later, recv d = Done (d', Some (lease_new p)) ∧ contents p = f ∧ packet_ok p ∧
          frames (nic d') = fs ++ later ∧ rx_head d' = rx_next (nic d') ∧ owned d' (phys_addr p :: out)
      else recv d = Panic "set_len() on packet OOB"
  end.
Proof.
  intros Ho Hsync Halloc. pose proof (ow_ok _ _ Ho) as Hok.
  destruct (recv_unfold d Hok) as (old & Hold & Hu).
  destruct (rx_get (rx_head d) (nic d)) as [n1 desc1] eqn:E1.
  destruct (rx_get_spec _ _ _ _ E1) as (_ & K1 & X1 & [new1 F1] & S1). destruct (S1 Hsync) as [Hst _].
  exists new1. rewrite <- F1. destruct (Z.eqb_spec (Z.land (rx_status desc1) 1) 0) as [Hz|Hz].
  { rewrite (proj1 Hst Hz). exists n1. split; [done|]. split; [by apply Hst|done]. }
  destruct (frames n1) as [|f fs] eqn:Ef; [by destruct Hz; apply Hst|].
  destruct (rx_get (rx_head d) n1) as [n2 desc2] eqn:E2.
  destruct (rx_get_spec _ _ _ _ E2) as (Hlen & K2 & X2 & [new2 F2] & S2).
  destruct (S2 ltac:(congruence)) as [_ Hf]. rewrite Ef in F2. destruct (Hf f (fs ++ new2) F2) as [Hl Hdma]. clear Hf.
  assert (rx_buf n2 = rx_buf (nic d)) as En by congruence.
  rewrite K1, (do_bufs _ Hok _ _ Hold) in Hdma.
  assert (∃ d2 p, allocate_packet (set_nic n2 d) = Done (d2, p)) as (d2 & p & Ha).
  { unfold allocate_packet. cbn [heap set_nic packets]. destruct (vec_pop (packets d)) as [l [q|]]; rewrite Halloc; by eexists _, _. }
  pose proof (owned_allocate _ _ _ out (owned_nic n2 d out Ho En) Ha) as Ho2.
  rewrite Ha in Hu. cbn [mbind outcome_bind] in Hu.
  destruct (dma_get_ok (phys_addr old) n2) as [Hb Hl4]. unfold set_len in Hu. cbn [buffer] in Hu.
  rewrite Hl4, Hl in Hu. case_decide as Hd.
  2:{ rewrite Hu. rewrite (proj2 (Z.leb_gt _ _)) by lia. done. }
  rewrite (proj2 (Z.leb_le _ 1514)), (proj2 (Z.leb_le _ (Z.of_nat 4096))) in Hu by lia.
  cbn [andb assert mbind outcome_bind] in Hu.
  destruct (allocate_packet_spec (set_nic n2 d) d2 p) as (l & a' & -> & _); [by apply set_nic_ok|done|].
  set (d2 := set_packets l a' (set_nic n2 d)) in *.
  destruct (dma_put_keeps (phys_addr p) (buffer p) n2) as (P1 & P2 & P3).
  rewrite F2 in P3. destruct (rx_put_frames (rx_desc_for (phys_addr p)) (dma_put (phys_addr p) (buffer p) n2) f (fs ++ new2))
    as [Q1 Q2]; [done|apply P3|].
  { right. intros j Hj Hx. apply (owned_apart d2 _ j Ho2 Hj). unfold d2. cbn [nic set_packets set_nic].
    rewrite Hx. apply elem_of_app. right. by left. }
  rewrite P2, X2, X1, <- Hsync in Q1, Q2.
  destruct (mmio_write_keeps (rdt (regs d) / 4 * 4) (Z.of_nat (rx_head d))
    (rx_put (rx_head d) (rx_desc_for (phys_addr p)) (dma_put (phys_addr p) (buffer p) n2))) as (W1 & W2 & later & W3).
  eexists _, _, (new2 ++ later). split; [exact Hu|]. split; [|split; [|split; [|split]]].
  - unfold contents. cbn [plength buffer]. by rewrite Nat2Z.id.
  - split; [exact Hb|]. split; [exact Hl4|]. cbn. lia.
  - cbn [recycled nic set_rx rx_head regs d2 set_packets set_nic]. by rewrite W3, Q1, app_assoc.
  - cbn [recycled nic set_rx rx_head regs d2 set_packets set_nic]. by rewrite W2, Q2.
  - exact (owned_recycled d2 n2 p old out Ho2 eq_refl Hold).
Qed.

End rings.

(** ** The driver as a [NetDriver] *)

#[export] Instance Packet_eq_dec : EqDecision Packet.
Proof. solve_decision. Defined.

(** The driver with the account of the packets it lent, and the number of
    reads a transmission may take to complete. *)
Record Tracked (N A : Type) := mkTracked { t_driver : IntelGbit N A; t_lent : list Packet; t_fuel : nat }.
Arguments mkTracked {N A}.
Arguments t_driver {N A}.
Arguments t_lent {N A}.
Arguments t_fuel {N A}.

Definition remove_one (p : Packet) (l : list Packet) : list Packet :=
  match list_find (p =.) l with Some (i, _) => base.delete i l | None => l end.

Lemma remove_one_spec p l : p ∈ l → l ≡ₚ p :: remove_one p l.
Proof.
  intros Hp. unfold remove_one. destruct (list_find (p =.) l) as [[i q]|] eqn:E.
  - apply list_find_Some in E as (Hi & -> & _). by apply delete_Permutation.
  - apply list_find_None in E. rewrite Forall_forall in E. by destruct (E p Hp).
Qed.

#[export] Instance gbit_driver {N : Type} `{Nic N} {A : Type} `{DmaHeap A} : NetDriver (Tracked N A) := {
  drv_mac t := gbit_mac (t_driver t);
  drv_recv t :=
    '(d, r) ← recv (t_driver t);
    match r with
    | Some l => Done (mkTracked d (option_list (lease_packet l) ++ t_lent t) (t_fuel t), Some l)
    | None => Done (mkTracked d (t_lent t) (t_fuel t), None)
    end;
  drv_send p t := d ← send (t_fuel t) p (t_driver t); Done (mkTracked d (t_lent t) (t_fuel t));
  drv_allocate_packet t :=
    '(d, p) ← allocate_packet (t_driver t); Done (mkTracked d (t_lent t) (t_fuel t), p);
  drv_release_packet p t :=
    mkTracked (release_packet p (t_driver t)) (remove_one p (t_lent t)) (t_fuel t);
}.

#[export] Program Instance gbit_driver_laws {N : Type} `{HN : Nic N} `{HNL : !NicLaws N} {A : Type} `{HA : DmaHeap A} `{HAL : !DmaHeapLaws A}
    : NetDriverLaws (Tracked N A) := {
  drv_ok t := driver_ok (t_driver t);
  leased := t_lent;
}.
Next Obligation.
  intros N HN HNL A HA HAL t t' l Hok Hr. cbn in Hr. apply bind_Done in Hr as ([d r] & Hr & Hd).
  destruct (recv_spec _ _ _ Hok Hr) as [Hok' Hcase]. destruct r as [l'|]; [|done].
  apply Done_pair_inj in Hd as [<- [= <-]]. destruct Hcase as (old & p & q & n & d2 & _ & _ & _ & _ & -> & Hq & _).
  split; [done|]. exists q. by split_and!.
Qed.
Next Obligation.
  intros N HN HNL A HA HAL t t' Hok Hr. cbn in Hr. apply bind_Done in Hr as ([d r] & Hr & Hd).
  destruct (recv_spec _ _ _ Hok Hr) as [Hok' _]. destruct r as [l'|]; [done|]. by apply Done_pair_inj in Hd as [<- _].
Qed.
Next Obligation.
  intros N HN HNL A HA HAL p t Hok Hp Hpok. split; [by apply release_packet_ok|by apply remove_one_spec].
Qed.
Next Obligation.
  intros N HN HNL A HA HAL t t' p Hok Ha. cbn in Ha. apply bind_Done in Ha as ([d q] & Ha & [<- <-]%Done_pair_inj).
  destruct (allocate_packet_spec _ _ _ Hok Ha) as (l & a & -> & Hok' & Hp & _). by split_and!.
Qed.
Next Obligation.
  intros N HN HNL A HA HAL p t t' Hok Hp Hs. cbn in Hs. apply bind_Done in Hs as (d & Hs & <-%Done_inj).
  destruct (send_spec _ _ _ _ Hok Hp Hs) as (n & -> & _ & Hok'). split; [by apply release_packet_ok|done].
Qed.
