(* ===== verification/E1000Props.v ===== *)
(** * Intel gigabit driver: the properties

    The theorems on the driver of E1000.v over any card and heap that keep their
    laws, and a small card and heap that keep them, on which they are applied. *)

From stdpp Require Import base tactics option list numbers strings gmap fin_sets relations.
From Stdlib Require Import ZArith Lia.
From S2P Require Import Prelude MachineInt Bytes Net Pci E1000.

Local Open Scope Z_scope.

Section properties.
Context {N : Type} `{HN : Nic N} `{HNL : !NicLaws N} {A : Type} `{HA : DmaHeap A} `{HAL : !DmaHeapLaws A}.
Implicit Types d : IntelGbit N A.



End properties.

(** ** A card and a heap *)

(** The card puts waiting frames in the ring whenever the driver looks. *)
Record SimNic := mkSimNic {
  s_buf : nat → Z; s_waiting : list (list Z); s_ring : list (list Z); s_next : nat }.

(** A frame as bytes that fit a buffer, and the buffer it is in. *)
Definition frame_bytes (f : list Z) : list Z := take 4096 ((λ b, b mod 256) <$> f).
Definition padded (f : list Z) : list Z := frame_bytes f ++ replicate (4096 - length (frame_bytes f)) 0.

Definition sim_rx_get (i : nat) (n : SimNic) : SimNic * LegacyRxDesc :=
  let ring := s_ring n ++ s_waiting n in
  let desc := match ring with
              | f :: _ => if decide (i = s_next n)
                          then mkRxDesc (s_buf n i) (Z.of_nat (length (frame_bytes f))) 0 1 0 0
                          else rx_desc_for (s_buf n i)
              | [] => rx_desc_for (s_buf n i)
              end in
  (mkSimNic (s_buf n) [] ring (s_next n), desc).

Definition sim_rx_put (i : nat) (desc : LegacyRxDesc) (n : SimNic) : SimNic :=
  let buf := λ j, if decide (i = j) then rx_buffer desc else s_buf n j in
  if decide (i = s_next n ∧ s_ring n ≠ [])
  then mkSimNic buf (s_waiting n) (tail (s_ring n)) ((s_next n + 1) mod NUM_RX_DESCS)
  else mkSimNic buf (s_waiting n) (s_ring n) (s_next n).

Definition sim_dma_get (a : Z) (n : SimNic) : list Z :=
  if a =? s_buf n (s_next n) then padded (default [] (head (s_ring n))) else replicate 4096 0.

#[export] Instance sim_nic : Nic SimNic := {
  mmio_read r n := (n, if r =? 0x5404 then Z.shiftl 1 31 else 0);
  mmio_write _ _ n := n;
  rx_get := sim_rx_get;
  rx_put := sim_rx_put;
  tx_get _ n := (n, mkTxDesc 0 0 0 0 1 0 0);
  tx_put _ _ n := n;
  dma_get := sim_dma_get;
  dma_put _ _ n := n;
}.

Lemma frame_bytes_ok f : bytes_ok (frame_bytes f) ∧ (length (frame_bytes f) ≤ 4096)%nat.
Proof.
  split; [|unfold frame_bytes; rewrite length_take; lia].
  apply Forall_take, Forall_fmap, Forall_forall. intros b _. by apply (wrap_uint 8).
Qed.

Lemma zeros_ok n : bytes_ok (replicate n 0).
Proof. apply Forall_replicate. by_decide. Qed.

Lemma padded_ok f : bytes_ok (padded f) ∧ length (padded f) = 4096%nat.
Proof.
  destruct (frame_bytes_ok f) as [Hb Hl]. split; [apply Forall_app; split; [done|apply zeros_ok]|].
  unfold padded. rewrite length_app, length_replicate. lia.
Qed.

Lemma sim_dma_get_ok a n : bytes_ok (sim_dma_get a n) ∧ length (sim_dma_get a n) = 4096%nat.
Proof.
  unfold sim_dma_get. destruct (_ =? _); [apply padded_ok|]. split; [apply zeros_ok|apply length_replicate].
Qed.

Lemma sim_dma_get_frame b f fs k :
  take (length (frame_bytes f)) (sim_dma_get (b k) (mkSimNic b [] (f :: fs) k)) = frame_bytes f.
Proof.
  unfold sim_dma_get. cbn [s_buf s_next s_ring head]. rewrite Z.eqb_refl.
  change (default [] (Some f)) with f. unfold padded. by rewrite take_app_length.
Qed.

#[export] Program Instance sim_nic_laws : NicLaws SimNic := {
  rx_buf := s_buf;
  frames n := frame_bytes <$> s_ring n;
  rx_next := s_next;
}.
Next Obligation. intros a n. apply sim_dma_get_ok. Qed.
Next Obligation.
  intros i n n' desc [= <- <-]. cbn [s_buf s_next s_ring]. rewrite fmap_app.
  assert (∀ f, is_uint 16 (Z.of_nat (length (frame_bytes f)))) as Hu
    by (intros f; pose proof (proj2 (frame_bytes_ok f)); unfold is_uint; lia).
  split; [destruct (s_ring n ++ s_waiting n); [done|case_decide; [apply Hu|done]]|].
  split; [done|]. split; [done|]. split; [by eexists|]. intros ->. rewrite <- fmap_app.
  destruct (s_ring n ++ s_waiting n) as [|f fs] eqn:E; cbn [fmap list_fmap]; [by split|].
  rewrite decide_True by done. split; [done|]. intros g gs [= <- <-]. split; [done|].
  apply sim_dma_get_frame.
Qed.
Next Obligation.
  intros i desc n j. change (rx_put i desc n) with (sim_rx_put i desc n). unfold sim_rx_put.
  destruct (decide (i = s_next n ∧ s_ring n ≠ [])); cbn [s_buf]; reflexivity.
Qed.
Next Obligation.
  intros desc n f fs _ Hf. cbn in *. unfold sim_rx_put. destruct (s_ring n) as [|g gs] eqn:E; [done|].
  rewrite decide_True by done. cbn. cbn in Hf. injection Hf as _ <-. done.
Qed.
Next Obligation.
  intros i desc n Hf. cbn in *. unfold sim_rx_put. destruct (s_ring n) as [|g gs] eqn:E; [|done].
  rewrite decide_False by (intros [_ Hx]; by apply Hx). by split.
Qed.
Next Obligation. done. Qed.
Next Obligation. intros r v n. split_and!; try done. exists []. by rewrite app_nil_r. Qed.
Next Obligation. intros r n n' v [= <- <-]. split_and!; try done. exists []. by rewrite app_nil_r. Qed.
Next Obligation. done. Qed.
Next Obligation. intros i n n' desc [= <- <-]. split_and!; try done. exists []. by rewrite app_nil_r. Qed.

(** The live addresses; a new packet is at a fresh one. *)
#[export] Instance sim_heap : DmaHeap (gset Z) := {
  packet_alloc X := Done ({[fresh X]} ∪ X, packet_new (fresh X));
  packet_drop p X := X ∖ {[phys_addr p]};
  table_alloc _ X := Done (X, 0);
  mmio_map _ X := Done X;
}.

Lemma packet_new_ok a : packet_ok (packet_new a).
Proof. split; [apply zeros_ok|]. split; [apply length_replicate|]. cbn. lia. Qed.

#[export] Program Instance sim_heap_laws : DmaHeapLaws (gset Z) := { live X x := x ∈ X }.
Next Obligation.
  intros X X' p [= <- <-]. split; [apply packet_new_ok|]. split; [apply (is_fresh X)|]. cbn. set_solver.
Qed.
Next Obligation. intros p X x. cbn. set_solver. Qed.

Lemma sim_heap_keeps : heap_keeps (A := gset Z).
Proof. split; [by intros b X X' [= <-]|by intros z X [X' t] [= <- <-]]. Qed.

Definition demo_device : PciDevice :=
  mkPciDevice (mkPciHeader 0x8086 0x100e 0 0 0 0 0 0 0 0 0 0) 0xfebc0000 0 0 0 0 0 0 0 0 0 0 [] 0 0 0 0.

(** Three frames wait: two short ones, and one that is too long. *)
Definition demo_nic : SimNic := mkSimNic (λ _, 0) [[1; 2; 3]; [4]; replicate 1518 9] [] 0.

Definition demo_gbit : IntelGbit SimNic (gset Z) :=
  match gbit_new 1 128 demo_device E1000_REGS demo_nic ∅ with
  | Done d => d
  | _ => mkIntelGbit E1000_REGS demo_nic [] 0 0 [] 0 [] ∅
  end.

Lemma demo_gbit_eq : gbit_new 1 128 demo_device E1000_REGS demo_nic ∅ = Done demo_gbit.
Proof.
  unfold demo_gbit. assert (match gbit_new 1 128 demo_device E1000_REGS demo_nic ∅ with Done _ => True | _ => False end)
    as H by (vm_compute; exact I). destruct (gbit_new _ _ _ _ _ _); [reflexivity|destruct H..].
Qed.

(** What a poll gives: the bytes of the packet, and the frames left in the ring. *)
Definition polled (o : outcome (IntelGbit SimNic (gset Z) * option PacketLease)) : option (list Z * list (list Z)) :=
  match o with
  | Done (d, Some l) => match lease_take l with Done p => Some (contents p, frames (nic d)) | _ => None end
  | _ => None
  end.
Definition after {X} (o : outcome (IntelGbit SimNic (gset Z) * X)) : IntelGbit SimNic (gset Z) :=
  match o with Done (d, _) => d | _ => demo_gbit end.

Lemma demo_polled :
  polled (recv demo_gbit) = Some ([1; 2; 3], [[4]; replicate 1518 9]) ∧
  polled (recv (after (recv demo_gbit))) = Some ([4], [replicate 1518 9]).
Proof. vm_compute. by split. Qed.

Lemma demo_alloc : packet_alloc (heap demo_gbit)
  = Done ({[fresh (heap demo_gbit)]} ∪ heap demo_gbit, packet_new (fresh (heap demo_gbit))).
Proof. reflexivity. Qed.

Lemma demo_frames : frames demo_nic = [] ∧ handled HANDLED_DEVICES demo_device = Some E1000_REGS.
Proof. vm_compute. by split. Qed.
#[local] Opaque demo_gbit.

Lemma demo_gbit_owned : owned demo_gbit [] ∧ rx_head demo_gbit = rx_next (nic demo_gbit).
Proof.
  destruct demo_frames as [Hf Hh]. destruct (handled_regs _ _ Hh) as [Hr Ht].
  destruct (gbit_new_owned 1 128 demo_device E1000_REGS demo_nic ∅ demo_gbit sim_heap_keeps Hf Hr Ht demo_gbit_eq)
    as (Ho & _ & Hh0 & _ & _ & Hn). split; [exact Ho|]. rewrite Hh0, Hn. reflexivity.
Qed.


