(* ===== verification/Cpu.v ===== *)
(** * CPU routines (shared/cpu)

    What the crate computes around its instructions: canonical addresses, the
    64-bit values [rdmsr], [wrmsr] and [rdtsc] join and split, and the feature
    bits read from [cpuid].  The instructions themselves are arguments. *)

From stdpp Require Import base tactics option list numbers.
From Stdlib Require Import ZArith Lia.
From S2P Require Import Prelude MachineInt.

Local Open Scope Z_scope.

(** [a as i64] *)
Definition to_signed (w a : Z) : Z := if a <? 2 ^ (w - 1) then a else a - 2 ^ w.

(** [canonicalize_address] *)
Definition canonicalize_address (addr : Z) : Z :=
  wrap 64 (Z.shiftr (to_signed 64 (shl 64 addr 16)) 16).

Definition IA32_GS_BASE : Z := 0xc0000101.

(** [rdmsr] and [rdtsc] join the halves [edx] and [eax]; [wrmsr] splits. *)
Definition join_edx_eax (val_hi val_lo : Z) : Z := Z.lor (shl 64 val_hi 32) val_lo.
Definition split_edx_eax (val : Z) : Z * Z := (wrap 32 (Z.shiftr val 32), wrap 32 (Z.shiftr val 0)).

(** The machine's MSRs, as pairs of halves. *)
Definition msrs : Type := Z → Z * Z.

Definition rdmsr (m : msrs) (msr : Z) : Z := let '(hi, lo) := m msr in join_edx_eax hi lo.
Definition wrmsr (msr val : Z) (m : msrs) : msrs :=
  λ r, if r =? msr then split_edx_eax val else m r.
Definition rdtsc (counter : Z * Z) : Z := let '(hi, lo) := counter in join_edx_eax hi lo.
Definition gs_base (m : msrs) : Z := rdmsr m IA32_GS_BASE.
Definition set_gs_base (base : Z) (m : msrs) : msrs := wrmsr IA32_GS_BASE base m.

Record CPUFeatures := mkCPUFeatures {
  max_cpuid : Z; max_extended_cpuid : Z;
  fpu : bool; vme : bool; de : bool; pse : bool; tsc : bool; mmx : bool; fxsr : bool;
  sse : bool; sse2 : bool; htt : bool; sse3 : bool; ssse3 : bool; sse4_1 : bool;
  sse4_2 : bool; x2apic : bool; xsave : bool; avx : bool; apic : bool;
  vmx : bool;
  lahf : bool; lzcnt : bool; prefetchw : bool;
  syscall : bool; xd : bool; gbyte_pages : bool; rdtscp : bool; bits64 : bool;
  avx512f : bool;
}.

(** [((r >> i) & 1) == 1] *)
Definition feature_bit (r i : Z) : bool := Z.land (Z.shiftr r i) 1 =? 1.

(** [get_cpu_features]; [cpuid leaf subleaf] is the instruction, a tuple of
    eax, ebx, ecx and edx.  Bits of a leaf above the reported maximum keep
    their default, false. *)
Definition get_cpu_features (cpuid : Z → Z → Z * Z * Z * Z) : CPUFeatures :=
  let '(max_cpuid, _, _, _) := cpuid 0 0 in
  let '(max_extended_cpuid, _, _, _) := cpuid 0x80000000 0 in
  let leaf available n :=
    if available : bool then cpuid n 0 else (0, 0, 0, 0) in
  let '(_, _, c1, d1) := leaf (1 <=? max_cpuid) 1 in
  let '(_, b7, _, _) := leaf (7 <=? max_cpuid) 7 in
  let '(_, _, ce, de) := leaf (0x80000001 <=? max_extended_cpuid) 0x80000001 in
  {| max_cpuid := max_cpuid; max_extended_cpuid := max_extended_cpuid;
     fpu := feature_bit d1 0; vme := feature_bit d1 1; Cpu.de := feature_bit d1 2;
     pse := feature_bit d1 3; tsc := feature_bit d1 4; apic := feature_bit d1 9;
     mmx := feature_bit d1 23; fxsr := feature_bit d1 24; sse := feature_bit d1 25;
     sse2 := feature_bit d1 26; htt := feature_bit d1 28;
     sse3 := feature_bit c1 0; vmx := feature_bit c1 5; ssse3 := feature_bit c1 9;
     sse4_1 := feature_bit c1 19; sse4_2 := feature_bit c1 20; x2apic := feature_bit c1 21;
     xsave := feature_bit c1 26; avx := feature_bit c1 28;
     avx512f := feature_bit b7 16;
     lahf := feature_bit ce 0; lzcnt := feature_bit ce 5; prefetchw := feature_bit ce 8;
     syscall := feature_bit de 11; xd := feature_bit de 20; gbyte_pages := feature_bit de 26;
     rdtscp := feature_bit de 27; bits64 := feature_bit de 29 |}.

(** ** Canonical addresses *)

(** Bits 48 to 63 of the result repeat bit 47; the others are the address's. *)
Lemma canonicalize_eq a : is_uint 64 a →
  canonicalize_address a =
    (if a mod 2 ^ 48 <? 2 ^ 47 then a mod 2 ^ 48 else a mod 2 ^ 48 + (2 ^ 64 - 2 ^ 48)).
Proof.
  intros Ha. unfold canonicalize_address, shl, to_signed, wrap.
  rewrite Z.shiftl_mul_pow2 by lia. change (2 ^ 64) with (2 ^ 48 * 2 ^ 16).
  rewrite Z.mul_mod_distr_r by lia. set (b := a mod 2 ^ 48).
  assert (0 ≤ b < 2 ^ 48) as Hb by (apply Z.mod_pos_bound; lia).
  change (2 ^ 48 * 2 ^ 16) with (2 ^ 64) in *.
  change (64 - 1) with 63. change (2 ^ 63) with (2 ^ 47 * 2 ^ 16).
  destruct (Z.ltb_spec (b * 2 ^ 16) (2 ^ 47 * 2 ^ 16)), (Z.ltb_spec b (2 ^ 47)); try lia.
  - rewrite Z.shiftr_div_pow2, Z.div_mul by lia. apply Z.mod_small. lia.
  - replace (b * 2 ^ 16 - 2 ^ 64) with ((b - 2 ^ 48) * 2 ^ 16) by lia.
    rewrite Z.shiftr_div_pow2, Z.div_mul by lia.
    replace (b - 2 ^ 48) with (b + (2 ^ 64 - 2 ^ 48) + (-1) * 2 ^ 64) by lia.
    rewrite Z.mod_add by lia. apply Z.mod_small. lia.
Qed.

(** The canonical addresses are the lower and the upper half. *)
Definition canonical (a : Z) : Prop :=
  is_uint 64 a ∧ (a < 2 ^ 47 ∨ 2 ^ 64 - 2 ^ 47 ≤ a).

Lemma canonicalize_id a : is_uint 64 a → canonicalize_address a = a ↔ canonical a.
Proof.
  intros Ha. rewrite canonicalize_eq by done. unfold canonical, is_uint in *.
  pose proof (Z.div_mod a (2 ^ 48)). pose proof (Z.mod_pos_bound a (2 ^ 48)).
  assert (0 ≤ a / 2 ^ 48 < 2 ^ 16).
  { split; [apply Z.div_pos; lia|]. apply Z.div_lt_upper_bound; lia. }
  destruct (Z.ltb_spec (a mod 2 ^ 48) (2 ^ 47)); nia.
Qed.

Lemma join_split val : is_uint 64 val →
  let '(hi, lo) := split_edx_eax val in join_edx_eax hi lo = val.
Proof.
  intros Hv. unfold split_edx_eax, join_edx_eax, shl, wrap.
  rewrite Z.shiftr_0_r, Z.shiftr_div_pow2, Z.shiftl_mul_pow2 by lia.
  unfold is_uint in Hv. change (2 ^ 64) with (2 ^ 32 * 2 ^ 32) in *.
  rewrite (Z.mod_small (val / 2 ^ 32)).
  2:{ split; [apply Z.div_pos; lia|]. apply Z.div_lt_upper_bound; lia. }
  rewrite (Z.mod_small (val / 2 ^ 32 * 2 ^ 32)).
  2:{ pose proof (Z.div_mod val (2 ^ 32)). pose proof (Z.mod_pos_bound val (2 ^ 32)).
      assert (0 ≤ val / 2 ^ 32) by (apply Z.div_pos; lia). lia. }
  rewrite <- Z.shiftl_mul_pow2 by lia. rewrite <- (Z.land_ones val 32) by lia.
  rewrite <- Z.shiftr_div_pow2 by lia.
  apply Z.bits_inj'. intros i Hi. rewrite Z.lor_spec, Z.land_spec.
  destruct (Z.lt_ge_cases i 32).
  - rewrite Z.shiftl_spec_low, Z.ones_spec_low by lia. by rewrite andb_true_r.
  - rewrite Z.shiftl_spec, Z.shiftr_spec, Z.ones_spec_high by lia.
    rewrite andb_false_r, orb_false_r. f_equal. lia.
Qed.
