(* ===== verification/PhysMem.v ===== *)
(** * Physical memory

    The bytes of physical memory, 64-bit loads and stores, and the [PhysMem]
    trait of shared/page_table as a typeclass: a state with memory, a check of
    the window through which physical memory is reachable ([translate]), an
    allocator and a [free_phys].  [PhysMemLaws] is what the page table code
    relies on. *)

From stdpp Require Import base tactics option list numbers strings gmap.
From Stdlib Require Import ZArith Lia.
From S2P Require Import Prelude MachineInt Bytes.

Local Open Scope Z_scope.

(** Unwritten memory reads as zero. *)
Abbreviation mem := (gmap Z Z).

Definition mem_byte (m : mem) (a : Z) : Z := default 0 (m !! a).

(** [n] bytes from [a] *)
Fixpoint read_bytes (m : mem) (a : Z) (n : nat) : list Z :=
  match n with O => [] | S n => mem_byte m a :: read_bytes m (a + 1) n end.

Fixpoint write_bytes (m : mem) (a : Z) (l : list Z) : mem :=
  match l with [] => m | b :: l => write_bytes (<[a := b]> m) (a + 1) l end.

(** [core::ptr::read(p as *const u64)] and [core::ptr::write(p as *mut u64, v)] *)
Definition read_u64 (m : mem) (a : Z) : Z := from_le_bytes (read_bytes m a 8).
Definition write_u64 (m : mem) (a v : Z) : mem := write_bytes m a (to_le_bytes 8 v).

(** The trait.  A pointer [translate] returns is used for accesses at the
    physical address it was asked for: [pm_translate] is the check, the bytes
    are those of [pm_mem]. *)
Class PhysMem (P : Type) := {
  pm_mem : P → mem;
  pm_set_mem : mem → P → P;
  pm_translate : Z → Z → P → outcome P;
  pm_alloc_phys : Z → Z → P → outcome (P * Z);
  pm_free_phys : Z → Z → P → outcome P;
}.

Section trait.
Context `{PhysMem P}.

(** [alloc_phys_zeroed], the trait's default method *)
Definition alloc_phys_zeroed (size align : Z) (s : P) : outcome (P * Z) :=
  '(s, alc) ← pm_alloc_phys size align s;
  s ← pm_translate alc size s;
  Done (pm_set_mem (write_bytes (pm_mem s) alc (replicate (Z.to_nat size) 0)) s, alc).

(** Loads and stores of an entry through a translated pointer. *)
Definition load_u64 (a : Z) (s : P) : outcome (P * Z) :=
  s ← pm_translate a 8 s;
  Done (s, read_u64 (pm_mem s) a).

Definition store_u64 (a v : Z) (s : P) : outcome P :=
  s ← pm_translate a 8 s;
  Done (pm_set_mem (write_u64 (pm_mem s) a v) s).

End trait.

(** [a] is one of the [n] addresses from [base]. *)
Definition in_block (base n a : Z) : Prop := base ≤ a < base + n.

(** Memory holds bytes. *)
Definition mem_ok (m : mem) : Prop := ∀ x, is_uint 8 (mem_byte m x).

(** What the page table code relies on.  [pm_free] is the memory the allocator
    may hand out: it may keep its own data there and nowhere else, and an
    allocation may take more than it hands out (padding).  [pm_window] is the
    physical memory that can be reached, [pm_ok] the allocator's own invariant.
    Memory is asked for in aligned powers of two, from one page up, and what is
    given back must be in use. *)
Class PhysMemLaws (P : Type) `{PhysMem P} := {
  pm_free : P → Z → Prop;
  pm_window : P → Z → Prop;
  pm_ok : P → Prop;
  ok_mem s : pm_ok s → mem_ok (pm_mem s);
  set_mem_ok m s : pm_ok s → mem_ok m →
    (∀ x, pm_free s x → mem_byte m x = mem_byte (pm_mem s) x) → pm_ok (pm_set_mem m s);
  set_mem_mem m s : pm_mem (pm_set_mem m s) = m;
  set_mem_free m s : pm_free (pm_set_mem m s) = pm_free s;
  set_mem_window m s : pm_window (pm_set_mem m s) = pm_window s;
  translate_returns a n s : 0 < n → (∀ x, in_block a n x → pm_window s x) →
    pm_translate a n s = Done s;
  alloc_spec k s s' a : pm_ok s → 12 ≤ k < 32 → pm_alloc_phys (2 ^ k) (2 ^ k) s = Done (s', a) →
    0 < a ∧ a + 2 ^ k ≤ 2 ^ 52 ∧ a mod 2 ^ k = 0 ∧
    (∀ x, in_block a (2 ^ k) x → pm_free s x ∧ pm_window s' x) ∧
    (∀ x, pm_free s' x → pm_free s x ∧ ~ in_block a (2 ^ k) x) ∧
    (∀ x, pm_window s' x ↔ pm_window s x) ∧
    (∀ x, ~ pm_free s x → mem_byte (pm_mem s') x = mem_byte (pm_mem s) x) ∧
    pm_ok s';
  free_spec a k s s' : pm_ok s → 12 ≤ k < 32 → 0 < a → a mod 2 ^ k = 0 →
    (∀ x, in_block a (2 ^ k) x → ~ pm_free s x ∧ pm_window s x) →
    pm_free_phys a (2 ^ k) s = Done s' →
    (∀ x, pm_free s' x ↔ pm_free s x ∨ in_block a (2 ^ k) x) ∧
    (∀ x, pm_window s' x ↔ pm_window s x) ∧
    (∀ x, ~ pm_free s' x → mem_byte (pm_mem s') x = mem_byte (pm_mem s) x) ∧
    pm_ok s';
}.

(** ** Loads and stores *)

Lemma length_read_bytes m a n : length (read_bytes m a n) = n.
Proof. revert a. induction n; intros; cbn; congruence. Qed.

Lemma lookup_write_bytes m a l x :
  mem_byte (write_bytes m a l) x =
  if decide (in_block a (Z.of_nat (length l)) x) then nth (Z.to_nat (x - a)) l 0 else mem_byte m x.
Proof.
  revert m a. induction l as [|b l IH]; intros m a; cbn [write_bytes length].
  { rewrite decide_False; [done|]. unfold in_block. lia. }
  rewrite IH. unfold in_block. destruct (decide (x = a)) as [->|Hne].
  - rewrite decide_False, decide_True by lia. rewrite Z.sub_diag.
    unfold mem_byte. by rewrite lookup_insert_eq.
  - destruct (decide (a + 1 ≤ x < a + 1 + Z.of_nat (length l))).
    + rewrite decide_True by lia.
      replace (Z.to_nat (x - a)) with (S (Z.to_nat (x - (a + 1)))) by lia. done.
    + rewrite decide_False by lia. unfold mem_byte. by rewrite lookup_insert_ne by congruence.
Qed.

Lemma read_bytes_split m a n k : read_bytes m a (n + k) = read_bytes m a n ++ read_bytes m (a + Z.of_nat n) k.
Proof.
  revert a. induction n as [|n IH]; intros a; cbn [read_bytes Nat.add app]; [by rewrite Z.add_0_r|].
  rewrite IH. do 3 f_equal. lia.
Qed.

Lemma read_bytes_ok m a n : mem_ok m → bytes_ok (read_bytes m a n).
Proof. intros Hm. revert a. induction n as [|n IH]; intros a; constructor; [apply Hm|apply IH]. Qed.

Lemma read_bytes_ext m m' a n :
  (∀ x, in_block a (Z.of_nat n) x → mem_byte m x = mem_byte m' x) →
  read_bytes m a n = read_bytes m' a n.
Proof.
  revert a. induction n as [|n IH]; intros a Hx; cbn; [done|]. f_equal.
  - apply Hx. unfold in_block. lia.
  - apply IH. intros x. unfold in_block in *. intros. apply Hx. lia.
Qed.

Lemma read_write_bytes m a l : read_bytes (write_bytes m a l) a (length l) = l.
Proof.
  revert m a. induction l as [|b l IH]; intros m a; cbn [length read_bytes write_bytes]; [done|].
  f_equal; [|apply IH]. rewrite lookup_write_bytes, decide_False by (unfold in_block; lia).
  unfold mem_byte. by rewrite lookup_insert_eq.
Qed.

Lemma read_u64_ext m m' a :
  (∀ x, in_block a 8 x → mem_byte m x = mem_byte m' x) → read_u64 m a = read_u64 m' a.
Proof. intros. unfold read_u64. f_equal. by apply read_bytes_ext. Qed.

Lemma read_write_u64_same m a v : is_uint 64 v → read_u64 (write_u64 m a v) a = v.
Proof.
  intros Hv. unfold read_u64, write_u64.
  pose proof (read_write_bytes m a (to_le_bytes 8 v)) as Hr.
  rewrite length_to_le_bytes in Hr. rewrite Hr. by apply from_to_le_bytes.
Qed.

Lemma mem_byte_write_u64 m a v x : ~ in_block a 8 x →
  mem_byte (write_u64 m a v) x = mem_byte m x.
Proof.
  intros Hx. unfold write_u64. rewrite lookup_write_bytes, length_to_le_bytes.
  by rewrite decide_False.
Qed.

Lemma read_write_u64_other m a b v : b + 8 ≤ a ∨ a + 8 ≤ b →
  read_u64 (write_u64 m a v) b = read_u64 m b.
Proof.
  intros Hd. apply read_u64_ext. intros x Hx. apply mem_byte_write_u64.
  unfold in_block in *. lia.
Qed.

Lemma read_zeroed m a n b : a ≤ b → b + 8 ≤ a + Z.of_nat n →
  read_u64 (write_bytes m a (replicate n 0)) b = 0.
Proof.
  intros H1 H2. rewrite (read_u64_ext _ ∅).
  - done.
  - intros x Hx. rewrite lookup_write_bytes, length_replicate.
    unfold in_block in *. rewrite decide_True by lia.
    rewrite nth_lookup, lookup_replicate_2 by lia. done.
Qed.

Lemma write_bytes_ok m a l : mem_ok m → bytes_ok l → mem_ok (write_bytes m a l).
Proof.
  intros Hm Hl x. rewrite lookup_write_bytes. case_decide as Hd; [|done]. unfold in_block in Hd.
  apply (Forall_lookup_1 _ _ (Z.to_nat (x - a)) _ Hl). rewrite nth_lookup.
  destruct (l !! Z.to_nat (x - a)) eqn:E; [done|]. apply lookup_ge_None in E. lia.
Qed.

Lemma write_u64_ok m a v : mem_ok m → mem_ok (write_u64 m a v).
Proof. intros. apply write_bytes_ok; [done|apply to_le_bytes_ok]. Qed.

Lemma read_u64_uint m a : mem_ok m → is_uint 64 (read_u64 m a).
Proof.
  intros Hm. unfold read_u64. apply (from_le_bytes_uint (read_bytes m a 8)).
  unfold bytes_ok. repeat (apply Forall_cons; split; [apply Hm|]). constructor.
Qed.
