(* ===== verification/PageTable.v ===== *)
(** * 4-level x86_64 page tables (shared/page_table)

    [translate], [map_raw], [map_init], [map] and [free] over a [PhysMem], with
    every load, store, allocation and reference count as the code makes them.
    The state is the [PhysMem]; a page table is the physical address of its
    root.  PageTableInv.v has the invariant and the theorems. *)

From stdpp Require Import base tactics option list numbers strings gmap.
From Stdlib Require Import ZArith Lia.
From S2P Require Import Prelude MachineInt Bytes Cpu PhysMem.

Local Open Scope Z_scope.

Definition PAGE_PRESENT : Z := 1.
Definition PAGE_WRITE : Z := 2.
Definition PAGE_USER : Z := 4.
Definition PAGE_CACHE_DISABLE : Z := 16.
Definition PAGE_SIZE : Z := 128.
Definition PAGE_NX : Z := 0x8000000000000000.

(** The state of a translation: the entry address at every level reached, and
    the page with the offset into it. *)
Record Mapping := mkMapping {
  pml4e : option Z;
  pdpe : option Z;
  pde : option Z;
  pte : option Z;
  page : option (Z * Z);
}.

Inductive PageType := Page4K | Page2M | Page1G.

#[export] Instance PageType_eq_dec : EqDecision PageType.
Proof. solve_decision. Defined.

(** [page_type as u64] *)
Definition page_size (t : PageType) : Z :=
  match t with Page4K => 4096 | Page2M => 2 * 1024 * 1024 | Page1G => 1 * 1024 * 1024 * 1024 end.

(** [Mapping::virt_base] *)
Definition virt_base (m : Mapping) : option Z :=
  match page m with
  | None => None
  | Some _ =>
      let part e sh := shl 64 (Z.land (default 0 e) 0xfff / 8) sh in
      Some (canonicalize_address
        (Z.lor (Z.lor (Z.lor (part (pml4e m) 39) (part (pdpe m) 30))
                  (part (pde m) 21)) (part (pte m) 12)))
  end.

(** [Mapping::size] *)
Definition mapping_size (m : Mapping) : option PageType :=
  match page m with
  | None => None
  | Some _ =>
      match pde m, pte m with
      | None, _ => Some Page1G
      | Some _, None => Some Page2M
      | Some _, Some _ => Some Page4K
      end
  end.

Definition indicies (vaddr : Z) : list Z :=
  [Z.land (Z.shiftr vaddr 39) 0x1ff; Z.land (Z.shiftr vaddr 30) 0x1ff;
   Z.land (Z.shiftr vaddr 21) 0x1ff; Z.land (Z.shiftr vaddr 12) 0x1ff].

Definition empty_mapping : Mapping := mkMapping None None None None None.

(** [match depth { 0 => ret.pml4e = Some(ptp), .. }] *)
Definition set_entry (depth : nat) (ptp : Z) (m : Mapping) : outcome Mapping :=
  match depth with
  | 0%nat => Done (mkMapping (Some ptp) (pdpe m) (pde m) (pte m) (page m))
  | 1%nat => Done (mkMapping (pml4e m) (Some ptp) (pde m) (pte m) (page m))
  | 2%nat => Done (mkMapping (pml4e m) (pdpe m) (Some ptp) (pte m) (page m))
  | 3%nat => Done (mkMapping (pml4e m) (pdpe m) (pde m) (Some ptp) (page m))
  | _ => Panic "internal error: entered unreachable code"
  end.

Definition depth_page_mask (depth : nat) : outcome Z :=
  match depth with
  | 1%nat => Done (page_size Page1G - 1)
  | 2%nat => Done (page_size Page2M - 1)
  | 3%nat => Done (page_size Page4K - 1)
  | _ => Panic "internal error: entered unreachable code"
  end.

(** The reference count kept in bits 52 to 61 of a table's entry. *)
Definition in_use (nent : Z) : Z := Z.land (Z.shiftr nent 52) 0x3ff.
Definition set_in_use (nent n : Z) : Z :=
  Z.lor (Z.land nent (bnot 64 0x3ff0000000000000)) (shl 64 n 52).

Section page_table.
Context `{PhysMem P}.

(** [PageTable::new]: the physical address of the root. *)
Definition new (s : P) : outcome (P * Z) := alloc_phys_zeroed 4096 4096 s.

(** The loop of [translate] from [depth] on. *)
Fixpoint translate_loop (vaddr : Z) (depth : nat) (idxs : list Z) (table : Z)
    (ret : Mapping) (s : P) : outcome (P * Mapping) :=
  match idxs with
  | [] => Done (s, ret)
  | index :: idxs =>
      let ptp := wrapping_add 64 table (wrapping_mul 64 index 8) in
      ret ← set_entry depth ptp ret;
      '(s, ent) ← load_u64 ptp s;
      if Z.land ent PAGE_PRESENT =? 0 then Done (s, ret) else
      let table := Z.land ent 0xffffffffff000 in
      if (depth =? 3)%nat || negb (Z.land ent PAGE_SIZE =? 0) then
        if (depth =? 0)%nat then Done (s, ret) else
        page_mask ← depth_page_mask depth;
        let page_paddr := Z.land table (bnot 64 page_mask) in
        let page_off := Z.land vaddr page_mask in
        Done (s, mkMapping (pml4e ret) (pdpe ret) (pde ret) (pte ret)
                   (Some (page_paddr, page_off)))
      else translate_loop vaddr (S depth) idxs table ret s
  end.

(** [PageTable::translate] *)
Definition translate (table vaddr : Z) (s : P) : outcome (P * option Mapping) :=
  if negb (canonicalize_address vaddr =? vaddr) then Done (s, None) else
  '(s, ret) ← translate_loop vaddr 0 (indicies vaddr) table empty_mapping s;
  Done (s, Some ret).

(** [in_use + 1] in the entry at [ptr] *)
Definition bump_in_use (ptr : Z) (s : P) : outcome P :=
  '(s, nent) ← load_u64 ptr s;
  Done (pm_set_mem (write_u64 (pm_mem s) ptr
          (set_in_use nent (wrapping_add 64 (in_use nent) 1))) s).

(** The loop of [map_raw] that creates the missing tables. *)
Fixpoint map_tables (iis : list nat) (idxs : list Z) (entries : list (option Z)) (s : P)
    : outcome (P * list (option Z)) :=
  match iis with
  | [] => Done (s, entries)
  | ii :: iis =>
      entry ← index entries ii;
      match entry with
      | Some _ => map_tables iis idxs entries s
      | None =>
          '(s, table) ← alloc_phys_zeroed 4096 4096 s;
          prev ← index entries (ii - 1);
          ptr ← unwrap prev;
          s ← pm_translate ptr 8 s;
          s ← (if (2 <=? ii)%nat then
                 prev ← index entries (ii - 2);
                 prev ← unwrap prev;
                 bump_in_use prev s
               else Done s);
          let s := pm_set_mem (write_u64 (pm_mem s) ptr
                     (Z.lor (Z.lor (Z.lor table PAGE_USER) PAGE_WRITE) PAGE_PRESENT)) s in
          idx ← index idxs ii;
          entries ← index_set entries ii (Some (wrapping_add 64 table (wrapping_mul 64 idx 8)));
          map_tables iis idxs entries s
      end
  end.

Definition type_depth (t : PageType) : nat :=
  match t with Page1G => 2 | Page2M => 3 | Page4K => 4 end.

(** [PageTable::map_raw] *)
Definition map_raw (root vaddr : Z) (page_type : PageType) (raw : Z) (s : P)
    : outcome (P * option unit) :=
  if (Z.land raw PAGE_PRESENT =? 0) ||
     (bool_decide (page_type ≠ Page4K) && (Z.land raw PAGE_SIZE =? 0))
  then Done (s, None) else
  '(s, mapping) ← translate root vaddr s;
  match mapping with
  | None => Done (s, None)
  | Some mapping =>
      match page mapping with
      | Some _ => Done (s, None)
      | None =>
          let entries := [pml4e mapping; pdpe mapping; pde mapping; pte mapping] in
          let depth := type_depth page_type in
          match entries !! depth with
          | Some (Some _) => Done (s, None)
          | _ =>
              assert (bool_decide (is_Some (pml4e mapping))) "Whoa, how is there no PML4E";;
              '(s, entries) ← map_tables (seq 1 (depth - 1)) (indicies vaddr) entries s;
              e ← index entries (depth - 2);
              e ← unwrap e;
              s ← bump_in_use e s;
              e ← index entries (depth - 1);
              e ← unwrap e;
              s ← store_u64 e raw s;
              Done (s, Some tt)
          end
      end
  end.

(** The ['next_level] loop of [free], over the entries from the last level up. *)
Fixpoint free_levels (entries : list Z) (s : P) : outcome P :=
  match entries with
  | [] => Done s
  | entry :: above =>
      s ← store_u64 entry 0 s;
      match above with
      | [] => Done s
      | next_entry :: _ =>
          '(s, nent) ← load_u64 next_entry s;
          if in_use nent =? 1 then
            s ← pm_free_phys (Z.land entry (bnot 64 0xfff)) 4096 s;
            free_levels above s
          else
            assert ((0 <? in_use nent) && (in_use nent <=? 512))
              "Whoa, ref counts broken on page";;
            Done (pm_set_mem (write_u64 (pm_mem s) next_entry
                    (set_in_use nent (wrapping_sub 64 (in_use nent) 1))) s)
      end
  end.

(** The entries of the page, top level first. *)
Definition table_entries (m : Mapping) (t : PageType) : outcome (list Z) :=
  e0 ← unwrap (pml4e m);
  e1 ← unwrap (pdpe m);
  match t with
  | Page4K => e2 ← unwrap (pde m); e3 ← unwrap (pte m); Done [e0; e1; e2; e3]
  | Page2M => e2 ← unwrap (pde m); Done [e0; e1; e2]
  | Page1G => Done [e0; e1]
  end.

(** One iteration: unlink the page, free the tables that became empty, free
    the page. *)
Definition free_page (cur_page : Mapping) (size : PageType) (s : P) : outcome P :=
  entries ← table_entries cur_page size;
  s ← free_levels (rev entries) s;
  p ← unwrap (page cur_page);
  pm_free_phys p.1 (page_size size) s.

(** The [loop] of [free]; [freed] counts bytes. *)
Fixpoint free_loop (fuel : nat) (root stop : Z) (cur_page : Mapping) (freed : Z) (s : P)
    : outcome (P * Z) :=
  match fuel with
  | O => OutOfFuel
  | S fuel =>
      page_vaddr ← unwrap (virt_base cur_page);
      size ← unwrap (mapping_size cur_page);
      s ← free_page cur_page size s;
      let freed := wrapping_add 64 freed (page_size size) in
      match checked_add 64 page_vaddr (page_size size) with
      | None => Done (s, freed)
      | Some next_page =>
          if stop <? next_page then Done (s, freed) else
          '(s, cur_page) ← translate root next_page s;
          cur_page ← expect cur_page "Failed to translate virtual address during free";
          free_loop fuel root stop cur_page freed s
      end
  end.

(** [PageTable::free].  A page is at least 4096 bytes, which bounds the number
    of iterations; the boolean says whether [cr3] was rewritten, which drops
    the stale translations of an active table. *)
Definition free (root cr3 vaddr size : Z) (s : P) : outcome (P * bool) :=
  n ← expect (checked_sub size 1) "Virtual free of zero bytes";
  stop ← expect (checked_add 64 vaddr n) "Integer overflow on virtual free range";
  '(s, cur_page) ← translate root vaddr s;
  cur_page ← unwrap cur_page;
  '(s, freed) ← free_loop (Z.to_nat (size / 4096 + 2)) root stop cur_page 0 s;
  assert (freed =? size) "Virtual free request freed more bytes than requested";;
  Done (s, Z.land cr3 (bnot 64 0xfff) =? root).

(** The entry [map_init] creates for the page at [paddr]. *)
Definition page_entry (paddr : Z) (page_type : PageType) (write exec : bool) : Z :=
  Z.lor (Z.lor (Z.lor (Z.lor paddr PAGE_PRESENT)
    (if write then PAGE_WRITE else 0)) (if exec then 0 else PAGE_NX))
    (if decide (page_type ≠ Page4K) then PAGE_SIZE else 0).

(** The loop of [map_init] over the [n] pages from [vaddr] on. *)
Fixpoint map_init_loop (n : nat) (root cr3 orig_vaddr vaddr : Z) (page_type : PageType)
    (write exec : bool) (init : option (Z → Z)) (s : P) : outcome (P * option unit) :=
  match n with
  | O => Done (s, Some tt)
  | S n =>
      '(s, page) ← pm_alloc_phys (page_size page_type) (page_size page_type) s;
      let ent := page_entry page page_type write exec in
      s ← match init with
          | Some init =>
              s ← pm_translate page (page_size page_type) s;
              Done (pm_set_mem (write_bytes (pm_mem s) page
                ((λ off, init (wrapping_add 64 (wrapping_sub 64 vaddr orig_vaddr) (Z.of_nat off)))
                   <$> seq 0 (Z.to_nat (page_size page_type)))) s)
          | None => Done s
          end;
      '(s, r) ← map_raw root vaddr page_type ent s;
      match r with
      | Some _ => map_init_loop n root cr3 orig_vaddr (vaddr + page_size page_type)
                    page_type write exec init s
      | None =>
          let mapped := wrapping_sub 64 vaddr orig_vaddr in
          s ← (if 0 <? mapped then '(s, _) ← free root cr3 orig_vaddr mapped s; Done s
               else Done s);
          Done (s, None)
      end
  end.

(** [PageTable::map_init] *)
Definition map_init (root cr3 vaddr : Z) (page_type : PageType) (size : Z)
    (write exec : bool) (init : option (Z → Z)) (s : P) : outcome (P * option unit) :=
  if (size <=? 0) || negb (Z.land vaddr (page_size page_type - 1) =? 0) then Done (s, None) else
  match checked_add 64 vaddr (size - 1) with
  | None => Done (s, None)
  | Some end_vaddr =>
      map_init_loop (Z.to_nat ((end_vaddr - vaddr) / page_size page_type + 1))
        root cr3 vaddr vaddr page_type write exec init s
  end.

(** [PageTable::map] *)
Definition map (root cr3 vaddr : Z) (page_type : PageType) (size : Z)
    (write exec : bool) (s : P) : outcome (P * option unit) :=
  map_init root cr3 vaddr page_type size write exec None s.

End page_table.
