(* ===== verification/PageTableGraph.v ===== *)
(** * Page tables as a graph

    The abstract view of a 4-level page table: a finite map [T] from the
    physical addresses of the tables to their levels (the root is level 0) and
    the entries [E t i] of each table.  [graph] is the invariant of the code:
    every table is reached by exactly one entry, and that entry counts the
    present entries of the table in its bits 52 to 61.  [gwalk] is the walk the
    MMU makes.  [graph_update] is the one step every operation is made of:
    change one entry, and correct the count that covers it. *)

From stdpp Require Import base tactics option list numbers strings gmap.
From Stdlib Require Import ZArith Lia.
From S2P Require Import Prelude MachineInt Bytes Cpu PhysMem PageTable.

Local Open Scope Z_scope.

(** ** Entries *)

Definition present (e : Z) : bool := Z.testbit e 0.
Definition large (e : Z) : bool := Z.testbit e 7.
Definition child (e : Z) : Z := Z.land e 0xffffffffff000.

(** At level [l] the entry leads to another table. *)
Definition points (l : nat) (e : Z) : bool := present e && (l <? 3)%nat && negb (large e).

(** The part of an entry the reference count is not in. *)
Definition shape (l : nat) (e : Z) : bool * bool * Z := (present e, points l e, child e).

Lemma present_eq e : (Z.land e PAGE_PRESENT =? 0) = negb (present e).
Proof. apply (land_pow2_testbit e 0). lia. Qed.

Lemma large_eq e : (Z.land e PAGE_SIZE =? 0) = negb (large e).
Proof. apply (land_pow2_testbit e 7). lia. Qed.

(** The masks of the code, bit by bit. *)
Lemma child_mask_bit i : 0 ≤ i →
  Z.testbit 0xffffffffff000 i = (12 <=? i) && (i <? 52).
Proof.
  intros Hi. change 0xffffffffff000 with (Z.shiftl (Z.ones 40) 12).
  destruct (Z.leb_spec 12 i).
  - rewrite Z.shiftl_spec by lia. destruct (Z.ltb_spec i 52); cbn.
    + apply Z.ones_spec_low. lia.
    + apply Z.ones_spec_high. lia.
  - by apply Z.shiftl_spec_low.
Qed.

Lemma count_mask_bit i : 0 ≤ i →
  Z.testbit 0x3ff0000000000000 i = (52 <=? i) && (i <? 62).
Proof.
  intros Hi. change 0x3ff0000000000000 with (Z.shiftl (Z.ones 10) 52).
  destruct (Z.leb_spec 52 i).
  - rewrite Z.shiftl_spec by lia. destruct (Z.ltb_spec i 62); cbn.
    + apply Z.ones_spec_low. lia.
    + apply Z.ones_spec_high. lia.
  - by apply Z.shiftl_spec_low.
Qed.

Lemma set_in_use_bit e n i : is_uint 64 e → is_uint 10 n → 0 ≤ i →
  Z.testbit (set_in_use e n) i =
  if (52 <=? i) && (i <? 62) then Z.testbit n (i - 52) else Z.testbit e i.
Proof.
  intros He Hn Hi. unfold set_in_use. rewrite land_bnot_ldiff by (done || lia).
  assert (shl 64 n 52 = Z.shiftl n 52) as ->.
  { apply wrap_small. rewrite Z.shiftl_mul_pow2 by lia. unfold is_uint in *.
    change (2 ^ 64) with (2 ^ 12 * 2 ^ 52). change (2 ^ 10) with 1024 in Hn.
    change (2 ^ 12) with 4096. nia. }
  rewrite Z.lor_spec, Z.ldiff_spec, count_mask_bit by done.
  destruct (Z.leb_spec 52 i); cbn [andb].
  - rewrite Z.shiftl_spec by lia. destruct (Z.ltb_spec i 62); cbn [negb andb].
    + by rewrite andb_false_r.
    + rewrite andb_true_r, (uint_testbit_high 10 n) by (done || lia). by rewrite orb_false_r.
  - rewrite Z.shiftl_spec_low by lia. by rewrite andb_true_r, orb_false_r.
Qed.

Lemma set_in_use_uint e n : is_uint 64 e → is_uint 10 n → is_uint 64 (set_in_use e n).
Proof.
  intros He Hn. apply uint_of_testbits; [|lia|].
  - unfold set_in_use, shl. apply Z.lor_nonneg. split.
    + apply Z.land_nonneg. left. apply He.
    + apply (wrap_uint 64). lia.
  - intros i Hi. rewrite set_in_use_bit by (done || lia).
    rewrite (proj2 (Z.ltb_ge i 62)), andb_false_r by lia. by apply (uint_testbit_high 64).
Qed.

Lemma in_use_bit e i : 0 ≤ i → Z.testbit (in_use e) i = Z.testbit e (i + 52) && (i <? 10).
Proof.
  intros Hi. unfold in_use. rewrite Z.land_spec, Z.shiftr_spec by done.
  change 0x3ff with (Z.ones 10). f_equal. destruct (Z.ltb_spec i 10).
  - apply Z.ones_spec_low. lia.
  - apply Z.ones_spec_high. lia.
Qed.

Lemma in_use_set e n : is_uint 64 e → is_uint 10 n → in_use (set_in_use e n) = n.
Proof.
  intros He Hn. apply Z.bits_inj'. intros i Hi.
  rewrite in_use_bit, set_in_use_bit by (done || lia).
  rewrite (proj2 (Z.leb_le 52 (i + 52))) by lia. cbn [andb].
  replace (i + 52 - 52) with i by lia. destruct (Z.ltb_spec i 10).
  - rewrite (proj2 (Z.ltb_lt (i + 52) 62)) by lia. by rewrite andb_true_r.
  - rewrite andb_false_r. by rewrite (uint_testbit_high 10 n).
Qed.

Lemma in_use_uint e : is_uint 10 (in_use e).
Proof.
  unfold in_use. change 0x3ff with (2 ^ 10 - 1). rewrite land_mask_mod by lia.
  apply Z.mod_pos_bound. lia.
Qed.

Lemma shape_set_in_use l e n : is_uint 64 e → is_uint 10 n →
  shape l (set_in_use e n) = shape l e.
Proof.
  intros He Hn.
  assert (∀ i, 0 ≤ i < 52 → Z.testbit (set_in_use e n) i = Z.testbit e i) as Hlow.
  { intros i Hi. rewrite set_in_use_bit by (done || lia). by rewrite (proj2 (Z.leb_gt 52 i)) by lia. }
  assert (child (set_in_use e n) = child e) as Hc.
  { apply Z.bits_inj'. intros i Hi. unfold child. rewrite !Z.land_spec, child_mask_bit by done.
    destruct (Z.ltb_spec i 52); [by rewrite Hlow by lia|]. by rewrite !andb_false_r. }
  unfold shape, points, present, large. by rewrite Hc, !Hlow by lia.
Qed.

(** The entry of a freshly linked table. *)
Definition table_entry (c : Z) : Z := Z.lor (Z.lor (Z.lor c PAGE_USER) PAGE_WRITE) PAGE_PRESENT.

Lemma aligned_bits c i : c mod 4096 = 0 → 0 ≤ i < 12 → Z.testbit c i = false.
Proof.
  intros Hc Hi. apply Z.mod_divide in Hc as [q ->]; [|lia].
  change 4096 with (2 ^ 12). rewrite <- Z.shiftl_mul_pow2 by lia.
  apply Z.shiftl_spec_low. lia.
Qed.

Lemma table_entry_bit c i : c mod 4096 = 0 → 0 ≤ i →
  Z.testbit (table_entry c) i = Z.testbit c i || (i <? 3).
Proof.
  intros Hc Hi. unfold table_entry, PAGE_USER, PAGE_WRITE, PAGE_PRESENT.
  rewrite !Z.lor_spec, <- !orb_assoc. f_equal.
  rewrite <- !Z.lor_spec. change (Z.lor 4 (Z.lor 2 1)) with (Z.ones 3).
  destruct (Z.ltb_spec i 3).
  - apply Z.ones_spec_low. lia.
  - apply Z.ones_spec_high. lia.
Qed.

Lemma table_entry_spec c l : c mod 4096 = 0 → is_uint 52 c → (l < 3)%nat →
  is_uint 64 (table_entry c) ∧ points l (table_entry c) = true ∧
  child (table_entry c) = c ∧ in_use (table_entry c) = 0.
Proof.
  intros Hc Hb Hl. split_and!.
  - apply uint_of_testbits; [|lia|].
    + unfold table_entry. rewrite !Z.lor_nonneg. destruct Hb. done.
    + intros i Hi. rewrite table_entry_bit by (done || lia).
      rewrite (uint_testbit_high 52 c) by (done || lia). apply Z.ltb_ge. lia.
  - unfold points, present, large. rewrite !table_entry_bit, !(aligned_bits c) by (done || lia).
    apply Nat.ltb_lt in Hl. by rewrite Hl.
  - apply Z.bits_inj'. intros i Hi. unfold child.
    rewrite Z.land_spec, child_mask_bit, table_entry_bit by done.
    destruct (Z.leb_spec 12 i); cbn [andb].
    + rewrite (proj2 (Z.ltb_ge i 3)) by lia. rewrite orb_false_r.
      destruct (Z.ltb_spec i 52); [by rewrite andb_true_r|].
      by rewrite andb_false_r, (uint_testbit_high 52 c).
    + rewrite andb_false_r. symmetry. apply aligned_bits; [done|lia].
  - apply Z.bits_inj'. intros i Hi. rewrite in_use_bit, table_entry_bit, Z.bits_0 by (done || lia).
    rewrite (uint_testbit_high 52 c), (proj2 (Z.ltb_ge (i + 52) 3)) by (done || lia). done.
Qed.

Lemma child_aligned e : 0 ≤ e → child e mod 4096 = 0.
Proof.
  intros He. change 4096 with (2 ^ 12). rewrite <- land_mask_mod by lia. unfold child.
  rewrite <- Z.land_assoc. change (Z.land 0xffffffffff000 (2 ^ 12 - 1)) with 0. apply Z.land_0_r.
Qed.

(** ** The graph *)

Abbreviation tables := (gmap Z nat).
Abbreviation entries := (Z → Z → Z).

Definition slot_range (i : Z) : Prop := 0 ≤ i < 512.

(** The number of present entries of a table. *)
Definition count (E : entries) (t : Z) : nat :=
  length (filter (λ i, present (E t i) = true) (seqZ 0 512)).

Record graph (root : Z) (T : tables) (E : entries) : Prop := {
  g_root : T !! root = Some 0%nat;
  g_root_only t : T !! t = Some 0%nat → t = root;
  g_level t l : T !! t = Some l → (l ≤ 3)%nat;
  g_child t l i : T !! t = Some l → slot_range i → points l (E t i) = true →
    T !! child (E t i) = Some (S l);
  g_unique t l i t' l' i' : T !! t = Some l → T !! t' = Some l' →
    slot_range i → slot_range i' → points l (E t i) = true → points l' (E t' i') = true →
    child (E t i) = child (E t' i') → t = t' ∧ i = i';
  g_parent t l : T !! t = Some (S l) →
    ∃ t' i, T !! t' = Some l ∧ slot_range i ∧ points l (E t' i) = true ∧ child (E t' i) = t;
  g_count t l i : T !! t = Some l → slot_range i → points l (E t i) = true →
    in_use (E t i) = Z.of_nat (count E (child (E t i)));
}.

(** [E'] is [E] with the entry [i] of table [t] changed, and the count of the
    entry that leads to [t] brought up to date. *)
Record slot_update (T : tables) (E E' : entries) (t : Z) (l : nat) (i : Z) : Prop := {
  su_table : T !! t = Some l;
  su_index : slot_range i;
  su_shape t' l' i' : T !! t' = Some l' → slot_range i' → (t', i') ≠ (t, i) →
    shape l' (E' t' i') = shape l' (E t' i');
  su_same t' l' i' : T !! t' = Some l' → slot_range i' → (t', i') ≠ (t, i) →
    ~ (points l' (E t' i') = true ∧ child (E t' i') = t) → E' t' i' = E t' i';
  su_count t' l' i' : T !! t' = Some l' → slot_range i' → points l' (E t' i') = true →
    child (E t' i') = t → in_use (E' t' i') = Z.of_nat (count E' t);
}.

(** The tables after the update: the one the old entry led to is gone, the one
    the new entry leads to is there. *)
Definition update_tables (T : tables) (l : nat) (old new : Z) : tables :=
  let T1 := if points l old then delete (child old) T else T in
  if points l new then <[child new := S l]> T1 else T1.

Lemma filter_ext_in {A} (f g : A → bool) (l : list A) :
  (∀ x, x ∈ l → f x = g x) →
  filter (λ x, f x = true) l = filter (λ x, g x = true) l.
Proof.
  induction l as [|x l IH]; intros Hx; [done|]. rewrite !filter_cons.
  rewrite (Hx x) by apply list_elem_of_here. rewrite IH; [done|].
  intros y Hy. apply Hx. by apply list_elem_of_further.
Qed.

Lemma count_ext E E' t :
  (∀ i, slot_range i → present (E' t i) = present (E t i)) → count E' t = count E t.
Proof.
  intros Hp. unfold count. f_equal. apply (filter_ext_in (λ i, present (E' t i))).
  intros i Hi%elem_of_seqZ. apply Hp. unfold slot_range. lia.
Qed.

Lemma count_zero E t : (∀ i, slot_range i → present (E t i) = false) → count E t = 0%nat.
Proof.
  intros Hp. rewrite (count_ext (λ _ _, 0) E t); [reflexivity|].
  intros i Hi. by rewrite Hp.
Qed.

Lemma not_points_zero l : points l 0 = false.
Proof. done. Qed.

Section update.
Context (root : Z) (T : tables) (E E' : entries) (t : Z) (l : nat) (i : Z).
Context (Hg : graph root T E) (Hu : slot_update T E E' t l i).
Context (Hold : points l (E t i) = true →
  ∀ j, slot_range j → points (S l) (E (child (E t i)) j) = false).
Context (Hnew : points l (E' t i) = true →
  T !! child (E' t i) = None ∧ (∀ j, slot_range j → E' (child (E' t i)) j = 0) ∧
  in_use (E' t i) = 0).

Let T' := update_tables T l (E t i) (E' t i).

Lemma update_old x k :
  T' !! x = Some k →
  (points l (E' t i) = true ∧ x = child (E' t i) ∧ k = S l) ∨
  (T !! x = Some k ∧ (points l (E t i) = true → x ≠ child (E t i))).
Proof.
  unfold T', update_tables. destruct (points l (E' t i)) eqn:Hn, (points l (E t i)) eqn:Ho.
  - intros [[<- <-]|[? [? ?]%lookup_delete_Some]]%lookup_insert_Some; [by left|by right].
  - intros [[<- <-]|[? ?]]%lookup_insert_Some; [by left|by right].
  - intros [? ?]%lookup_delete_Some. by right.
  - by right.
Qed.

Lemma update_new : points l (E' t i) = true → T' !! child (E' t i) = Some (S l).
Proof. unfold T', update_tables. intros ->. apply lookup_insert_eq. Qed.

Lemma update_keep x k :
  T !! x = Some k → (points l (E t i) = true → x ≠ child (E t i)) → T' !! x = Some k.
Proof.
  intros Hx Hne. unfold T', update_tables.
  assert ((if points l (E t i) then delete (child (E t i)) T else T) !! x = Some k) as H1.
  { destruct (points l (E t i)); [|done]. rewrite lookup_delete_ne; [done|]. naive_solver. }
  destruct (points l (E' t i)) eqn:Hn; [|done]. rewrite lookup_insert_ne; [done|].
  intros <-. destruct (Hnew eq_refl) as [Hno _]. congruence.
Qed.

(** What an entry of an old table is in [E']. *)
Lemma update_entry x k j :
  T !! x = Some k → slot_range j → points k (E' x j) = true →
  (x, j) = (t, i) ∨
  ((x, j) ≠ (t, i) ∧ points k (E x j) = true ∧ child (E' x j) = child (E x j)).
Proof.
  intros Hx Hj Hp. destruct (decide ((x, j) = (t, i))) as [|Hne]; [by left|right].
  pose proof (su_shape _ _ _ _ _ _ Hu x k j Hx Hj Hne) as Hs. unfold shape in Hs.
  injection Hs as _ Hs1 Hs2. by rewrite <- Hs1, Hs2.
Qed.

Lemma slot_kept : T' !! t = Some l.
Proof.
  apply update_keep; [apply (su_table _ _ _ _ _ _ Hu)|].
  intros Hp Heq. pose proof (g_child _ _ _ Hg t l i (su_table _ _ _ _ _ _ Hu) (su_index _ _ _ _ _ _ Hu) Hp) as Hc.
  rewrite <- Heq, (su_table _ _ _ _ _ _ Hu) in Hc. injection Hc as Hc. lia.
Qed.

(** A table other than the changed slot's leads to a table that stays. *)
Lemma child_kept x k j :
  T !! x = Some k → slot_range j → (x, j) ≠ (t, i) → points k (E x j) = true →
  T' !! child (E x j) = Some (S k).
Proof.
  intros Hx Hj Hne Hp. apply update_keep; [by apply (g_child _ _ _ Hg)|].
  intros Ho Heq. apply Hne.
  destruct (g_unique _ _ _ Hg x k j t l i) as [-> ->]; try done;
    [apply (su_table _ _ _ _ _ _ Hu)|apply (su_index _ _ _ _ _ _ Hu)].
Qed.

Lemma count_kept x k : T !! x = Some k → x ≠ t → count E' x = count E x.
Proof.
  intros Hx Hne. apply count_ext. intros j Hj.
  pose proof (su_shape _ _ _ _ _ _ Hu x k j Hx Hj) as Hs. unfold shape in Hs.
  assert ((x, j) ≠ (t, i)) as Hxj by congruence. by injection (Hs Hxj).
Qed.

Lemma update_child x k j :
  T' !! x = Some k → slot_range j → points k (E' x j) = true →
  T' !! child (E' x j) = Some (S k).
Proof.
  intros Hx Hj Hp. destruct (update_old x k Hx) as [(Hn & -> & ->)|[Hx' _]].
  - destruct (Hnew Hn) as (_ & Hz & _). by rewrite (Hz j Hj) in Hp.
  - destruct (update_entry x k j Hx' Hj Hp) as [[= -> ->]|(Hne & Hp' & ->)].
    + rewrite slot_kept in Hx. injection Hx as <-. by apply update_new.
    + by apply child_kept.
Qed.

Lemma update_unique x k j x' k' j' :
  T' !! x = Some k → T' !! x' = Some k' → slot_range j → slot_range j' →
  points k (E' x j) = true → points k' (E' x' j') = true →
  child (E' x j) = child (E' x' j') → x = x' ∧ j = j'.
Proof.
  intros Hx Hx' Hj Hj' Hp Hp' Heq.
  destruct (update_old x k Hx) as [(Hn & -> & ->)|[Hxo _]].
  { destruct (Hnew Hn) as (_ & Hz & _). by rewrite (Hz j Hj) in Hp. }
  destruct (update_old x' k' Hx') as [(Hn & -> & ->)|[Hxo' _]].
  { destruct (Hnew Hn) as (_ & Hz & _). by rewrite (Hz j' Hj') in Hp'. }
  assert (∀ y m n, T !! y = Some m → slot_range n → points m (E y n) = true →
    points l (E' t i) = true → child (E y n) ≠ child (E' t i)) as Hfresh.
  { intros y m n Hy Hn Hpn Hpt Hc. destruct (Hnew Hpt) as (Hno & _).
    pose proof (g_child _ _ _ Hg y m n Hy Hn Hpn) as Hin. congruence. }
  destruct (update_entry x k j Hxo Hj Hp) as [[= -> ->]|(Hne & Hq & Hc)],
    (update_entry x' k' j' Hxo' Hj' Hp') as [[= -> ->]|(Hne' & Hq' & Hc')]; [done|..].
  - rewrite slot_kept in Hx. injection Hx as <-. rewrite Hc' in Heq. exfalso.
    by apply (Hfresh x' k' j').
  - rewrite slot_kept in Hx'. injection Hx' as <-. rewrite Hc in Heq. exfalso.
    by apply (Hfresh x k j).
  - apply (g_unique _ _ _ Hg x k j x' k' j'); try done. congruence.
Qed.

Lemma update_parent x k : T' !! x = Some (S k) →
  ∃ x' j, T' !! x' = Some k ∧ slot_range j ∧ points k (E' x' j) = true ∧ child (E' x' j) = x.
Proof.
  intros Hx. destruct (update_old x (S k) Hx) as [(Hn & -> & [= ->])|[Hxo Hd]].
  { exists t, i. split_and!; try done; [apply slot_kept|apply (su_index _ _ _ _ _ _ Hu)]. }
  destruct (g_parent _ _ _ Hg x k Hxo) as (x' & j & Hx' & Hj & Hp & Hc).
  assert ((x', j) ≠ (t, i)) as Hne.
  { intros [= -> ->]. rewrite (su_table _ _ _ _ _ _ Hu) in Hx'. injection Hx' as <-.
    by apply (Hd Hp). }
  pose proof (su_shape _ _ _ _ _ _ Hu x' k j Hx' Hj Hne) as Hs. injection Hs as _ Hs1 Hs2.
  exists x', j. split_and!; [|done|congruence|congruence].
  apply update_keep; [done|]. intros Ho ->.
  pose proof (g_child _ _ _ Hg t l i (su_table _ _ _ _ _ _ Hu) (su_index _ _ _ _ _ _ Hu) Ho) as Hl.
  rewrite Hl in Hx'. injection Hx' as <-. by rewrite (Hold Ho j Hj) in Hp.
Qed.

Lemma update_count x k j : T' !! x = Some k → slot_range j → points k (E' x j) = true →
  in_use (E' x j) = Z.of_nat (count E' (child (E' x j))).
Proof.
  intros Hx Hj Hp. destruct (update_old x k Hx) as [(Hn & -> & ->)|[Hxo _]].
  { destruct (Hnew Hn) as (_ & Hz & _). by rewrite (Hz j Hj) in Hp. }
  destruct (update_entry x k j Hxo Hj Hp) as [[= -> ->]|(Hne & Hq & Hc)].
  - rewrite slot_kept in Hx. injection Hx as <-. destruct (Hnew Hp) as (_ & Hz & ->).
    rewrite count_zero; [done|]. intros j' Hj'. by rewrite (Hz j' Hj').
  - rewrite Hc. destruct (decide (child (E x j) = t)) as [Ht|Ht].
    + rewrite Ht. by apply (su_count _ _ _ _ _ _ Hu x k).
    + rewrite (su_same _ _ _ _ _ _ Hu x k j) by (done || naive_solver).
      rewrite (g_count _ _ _ Hg x k j) by done.
      by rewrite (count_kept _ (S k)) by (done || by apply (g_child _ _ _ Hg)).
Qed.

(** The step keeps the invariant. *)
Lemma graph_update : graph root T' E'.
Proof.
  split.
  - apply update_keep; [apply (g_root _ _ _ Hg)|]. intros Hp Heq.
    pose proof (g_child _ _ _ Hg t l i (su_table _ _ _ _ _ _ Hu) (su_index _ _ _ _ _ _ Hu) Hp) as Hc.
    rewrite <- Heq, (g_root _ _ _ Hg) in Hc. discriminate.
  - intros x Hx. destruct (update_old x _ Hx) as [(_ & _ & ?)|[Hx' _]]; [done|].
    by apply (g_root_only _ _ _ Hg).
  - intros x k Hx. destruct (update_old x k Hx) as [(Hn & _ & ->)|[Hx' _]].
    + unfold points in Hn. rewrite !andb_true_iff, Nat.ltb_lt in Hn. lia.
    + by apply (g_level _ _ _ Hg x).
  - intros. by apply update_child.
  - intros. by eapply update_unique.
  - intros. by apply update_parent.
  - intros. by apply (update_count _ l0).
Qed.

End update.

(** Changing one entry changes the count by at most one. *)
Lemma count_change E E' t i : slot_range i →
  (∀ j, slot_range j → j ≠ i → present (E' t j) = present (E t j)) →
  (count E' t + Nat.b2n (present (E t i)) = count E t + Nat.b2n (present (E' t i)))%nat.
Proof.
  intros Hi Hp. unfold count.
  assert (i ∈ seqZ 0 512) as Hin by (apply elem_of_seqZ; unfold slot_range in Hi; lia).
  destruct (list_elem_of_split _ _ Hin) as (l1 & l2 & El).
  pose proof (NoDup_seqZ 0 512) as Hnd. rewrite El in Hnd |- *.
  apply NoDup_app in Hnd as (_ & Hd1 & [Hd2 _]%NoDup_cons).
  assert (∀ j, j ∈ l1 ++ l2 → present (E' t j) = present (E t j)) as Hj.
  { intros j Hj. apply Hp.
    - assert (j ∈ seqZ 0 512) as Hjs%elem_of_seqZ; [|unfold slot_range; lia].
      rewrite El. rewrite elem_of_app in Hj |- *. rewrite elem_of_cons. tauto.
    - intros ->. apply elem_of_app in Hj as [Hj|Hj]; [|done]. apply (Hd1 i Hj), elem_of_cons. by left. }
  rewrite !filter_app, !filter_cons, !length_app.
  rewrite (filter_ext_in (λ j, present (E' t j)) (λ j, present (E t j)) l1)
    by (intros j Hj1; apply Hj, elem_of_app; by left).
  rewrite (filter_ext_in (λ j, present (E' t j)) (λ j, present (E t j)) l2)
    by (intros j Hj2; apply Hj, elem_of_app; by right).
  destruct (present (E t i)), (present (E' t i)); repeat case_decide; try congruence; cbn [length Nat.b2n]; lia.
Qed.

Lemma count_le E t : (count E t ≤ 512)%nat.
Proof.
  unfold count. etrans; [apply length_filter|]. by rewrite length_seqZ.
Qed.

Lemma count_pos E t i : slot_range i → present (E t i) = true → (1 ≤ count E t)%nat.
Proof.
  intros Hi Hp. unfold count. destruct (filter _ _) as [|x l] eqn:Ef; [|cbn; lia].
  exfalso. apply (filter_nil_not_elem_of _ _ i Ef Hp), elem_of_seqZ. unfold slot_range in Hi. lia.
Qed.

(** ** The walk of the MMU *)

(** Bits 39-47, 30-38, 21-29 and 12-20 of the address. *)
Definition vidx (l : nat) (v : Z) : Z := Z.land (Z.shiftr v (39 - 9 * Z.of_nat l)) 0x1ff.

Lemma vidx_range l v : slot_range (vidx l v).
Proof.
  unfold vidx, slot_range. change 0x1ff with (2 ^ 9 - 1). rewrite land_mask_mod by lia.
  apply Z.mod_pos_bound. lia.
Qed.

(** From table [t] at level [l], with [n] levels to go: the level and the value
    of the entry that maps the page. *)
Fixpoint gwalk (n : nat) (E : entries) (l : nat) (t v : Z) : option (nat * Z) :=
  match n with
  | O => None
  | S n =>
      let e := E t (vidx l v) in
      if negb (present e) then None
      else if points l e then gwalk n E (S l) (child e) v
      else if (l =? 0)%nat then None else Some (l, e)
  end.

Definition mmu_walk (E : entries) (root v : Z) : option (nat * Z) := gwalk 4 E 0 root v.

(** The walk of [v] gets to table [t] at level [l]. *)
Inductive reach (E : entries) (root v : Z) : nat → Z → Prop :=
| reach_root : reach E root v 0 root
| reach_step l t : reach E root v l t → points l (E t (vidx l v)) = true →
    reach E root v (S l) (child (E t (vidx l v))).

Lemma reach_table root T E v l t : graph root T E → reach E root v l t → T !! t = Some l.
Proof.
  intros Hg. induction 1 as [|l t Hr IH Hp]; [apply (g_root _ _ _ Hg)|].
  apply (g_child _ _ _ Hg); [done|apply vidx_range|done].
Qed.

Lemma points_level l e : points l e = true → (l < 3)%nat.
Proof. unfold points. rewrite !andb_true_iff, Nat.ltb_lt. tauto. Qed.

Lemma points_present l e : points l e = true → present e = true.
Proof. unfold points. rewrite !andb_true_iff. tauto. Qed.

Lemma gwalk_reach E root v l t : reach E root v l t →
  mmu_walk E root v = gwalk (4 - l) E l t v.
Proof.
  induction 1 as [|l t Hr IH Hp]; [done|]. rewrite IH.
  pose proof (points_level _ _ Hp) as Hl. replace (4 - l)%nat with (S (4 - S l)) by lia.
  cbn [gwalk]. by rewrite (points_present _ _ Hp), Hp.
Qed.

(** Two addresses get to the same table only through the same entries. *)
Definition agree_below (l : nat) (v v' : Z) : Prop := ∀ k, (k < l)%nat → vidx k v = vidx k v'.

Lemma reach_agree root T E v v' l t : graph root T E →
  reach E root v l t → reach E root v' l t ↔ agree_below l v v'.
Proof.
  intros Hg Hr. split.
  - intros Hr'. revert v' Hr'. induction Hr as [|l t Hr IH Hp]; intros v' Hr'; [intros k Hk; lia|].
    inversion Hr' as [|l2 t2 Hr2 Hp2 E1 E2]; subst l2.
    assert (t = t2 ∧ vidx l v = vidx l v') as [<- Hi].
    { pose proof (reach_table root T E v l t Hg Hr) as H1.
      pose proof (reach_table root T E v' l t2 Hg Hr2) as H2.
      apply (g_unique _ _ _ Hg t l _ t2 l _); try done; apply vidx_range. }
    intros k Hk. destruct (decide (k = l)) as [->|]; [done|]. apply IH; [done|lia].
  - intros Ha. induction Hr as [|l t Hr IH Hp]; [constructor|].
    rewrite (Ha l) by lia. constructor; [apply IH|by rewrite <- (Ha l) by lia].
    intros k Hk. apply Ha. lia.
Qed.

(** Only the entries of the tables matter. *)
Lemma graph_ext root T E E' :
  (∀ x k j, T !! x = Some k → slot_range j → E' x j = E x j) → graph root T E → graph root T E'.
Proof.
  intros He Hg. split.
  - apply (g_root _ _ _ Hg).
  - apply (g_root_only _ _ _ Hg).
  - apply (g_level _ _ _ Hg).
  - intros t l i Ht Hi Hp. rewrite (He t l i) in * by done. by apply (g_child _ _ _ Hg).
  - intros t l i t' l' i' Ht Ht' Hi Hi' Hp Hp' Hc.
    rewrite (He t l i), (He t' l' i') in * by done. by apply (g_unique _ _ _ Hg t l i t' l' i').
  - intros t l Ht. destruct (g_parent _ _ _ Hg t l Ht) as (t' & i & Ht' & Hi & Hp & Hc).
    exists t', i. by rewrite (He t' l i).
  - intros t l i Ht Hi Hp. rewrite (He t l i) in * by done.
    rewrite (g_count _ _ _ Hg t l i) by done. f_equal. symmetry. apply count_ext.
    intros j Hj. by rewrite (He _ (S l) j) by (done || by apply (g_child _ _ _ Hg)).
Qed.

Lemma walk_ext root T E E' v : graph root T E →
  (∀ x k j, T !! x = Some k → slot_range j → E' x j = E x j) →
  mmu_walk E' root v = mmu_walk E root v.
Proof.
  intros Hg He. unfold mmu_walk.
  assert (∀ n l t, T !! t = Some l → gwalk n E' l t v = gwalk n E l t v) as Hw;
    [|apply Hw, (g_root _ _ _ Hg)].
  induction n as [|n IH]; intros l t Ht; [done|]. cbn [gwalk].
  rewrite (He t l) by (done || apply vidx_range).
  destruct (points l (E t (vidx l v))) eqn:Hp; [|done].
  rewrite IH; [done|]. apply (g_child _ _ _ Hg); [done|apply vidx_range|done].
Qed.

Section walk_update.
Context (root : Z) (T : tables) (E E' : entries) (t : Z) (l : nat) (i : Z).
Context (Hg : graph root T E) (Hu : slot_update T E E' t l i).

(** The path to the changed entry is not affected. *)
Lemma reach_update v l' t' : reach E root v l' t' → (l' ≤ l)%nat → reach E' root v l' t'.
Proof.
  induction 1 as [|l' t' Hr IH Hp]; intros Hle; [constructor|].
  pose proof (reach_table root T E v l' t' Hg Hr) as Ht.
  assert (shape l' (E' t' (vidx l' v)) = shape l' (E t' (vidx l' v))) as [= _ Hs1 Hs2].
  { apply (su_shape _ _ _ _ _ _ Hu t' l'); [done|apply vidx_range|].
    intros [= -> _]. pose proof (su_table _ _ _ _ _ _ Hu) as Ht'. rewrite Ht in Ht'.
    injection Ht' as ->. lia. }
  rewrite <- Hs2. constructor; [apply IH; lia|congruence].
Qed.

(** A table reached after the update was reached before, or is behind the entry. *)
Lemma reach_update_back v l' t' : reach E' root v l' t' →
  reach E root v l' t' ∨ ((l < l')%nat ∧ reach E root v l t ∧ vidx l v = i).
Proof.
  induction 1 as [|l' t' Hr [IH|IH] Hp]; [left; constructor| |right; split; [lia|tauto]].
  pose proof (reach_table root T E v l' t' Hg IH) as Ht.
  destruct (decide ((t', vidx l' v) = (t, i))) as [[= -> Hi]|Hne].
  - right. pose proof (su_table _ _ _ _ _ _ Hu) as Ht'. rewrite Ht in Ht'. injection Ht' as ->.
    split; [lia|done].
  - left. pose proof (su_shape _ _ _ _ _ _ Hu t' l' _ Ht (vidx_range l' v) Hne) as [= _ Hs1 Hs2].
    rewrite Hs2. constructor; [done|congruence].
Qed.

(** An update of an entry that led nowhere hides no table. *)
Lemma reach_update_keep v l' t' : points l (E t i) = false →
  reach E root v l' t' → reach E' root v l' t'.
Proof.
  intros Hnp. induction 1 as [|l' t' Hr IH Hp]; [constructor|].
  pose proof (reach_table root T E v l' t' Hg Hr) as Ht.
  assert ((t', vidx l' v) ≠ (t, i)) as Hne.
  { intros [= -> Hi]. pose proof (su_table _ _ _ _ _ _ Hu) as Ht'. rewrite Ht in Ht'.
    injection Ht' as ->. congruence. }
  pose proof (su_shape _ _ _ _ _ _ Hu t' l' _ Ht (vidx_range l' v) Hne) as [= _ Hs1 Hs2].
  rewrite <- Hs2. constructor; [done|congruence].
Qed.

(** An address that does not use the entry is mapped as before. *)
Lemma walk_update_other v : ~ (reach E root v l t ∧ vidx l v = i) →
  mmu_walk E' root v = mmu_walk E root v.
Proof.
  intros Hno. unfold mmu_walk.
  assert (∀ n l' t', reach E root v l' t' → n = (4 - l')%nat →
    gwalk n E' l' t' v = gwalk n E l' t' v) as Hw; [|by apply Hw; [constructor|]].
  induction n as [|n IH]; intros l' t' Hr Hn; [done|]. cbn [gwalk].
  pose proof (reach_table root T E v l' t' Hg Hr) as Ht.
  assert ((t', vidx l' v) ≠ (t, i)) as Hne.
  { intros [= -> Hi]. pose proof (su_table _ _ _ _ _ _ Hu) as Ht'. rewrite Ht in Ht'.
    injection Ht' as ->. by apply Hno. }
  assert (shape l' (E' t' (vidx l' v)) = shape l' (E t' (vidx l' v))) as [= Hs0 Hs1 Hs2]
    by (apply (su_shape _ _ _ _ _ _ Hu t' l'); [done|apply vidx_range|done]).
  rewrite Hs0, Hs1, Hs2. destruct (present (E t' (vidx l' v))) eqn:Hpr; cbn [negb]; [|done].
  destruct (points l' (E t' (vidx l' v))) eqn:Hp.
  - apply IH; [by constructor|lia].
  - rewrite (su_same _ _ _ _ _ _ Hu t' l'); [done|done|apply vidx_range|done|].
    intros [? _]. congruence.
Qed.

(** One that uses it is decided by the new entry. *)
Lemma walk_update_same v : reach E root v l t → mmu_walk E' root v = gwalk (4 - l) E' l t v.
Proof. intros Hr. apply gwalk_reach. by apply reach_update. Qed.

End walk_update.

Lemma points_not_large l e : points l e = true → large e = false.
Proof. unfold points. rewrite !andb_true_iff, negb_true_iff. tauto. Qed.

Lemma leaf_entry l e : (l < 4)%nat → present e = true → points l e = false →
  (l =? 3)%nat || large e = true.
Proof.
  unfold points. intros Hl -> Hp. destruct (Nat.ltb_spec l 3); cbn [andb] in Hp.
  - apply negb_false_iff in Hp. by rewrite Hp, orb_true_r.
  - by assert (l = 3)%nat as -> by lia.
Qed.

Lemma not_present_not_points l e : present e = false → points l e = false.
Proof. unfold points. by intros ->. Qed.

(** ** Removing a table *)

(** A present entry that leads nowhere. *)
Definition hole_entry : Z := 129.

Lemma hole_entry_spec l : present hole_entry = true ∧ points l hole_entry = false.
Proof. unfold points. split; [done|]. by rewrite andb_false_r. Qed.

Definition set_slot (E : entries) (t i e : Z) : entries :=
  λ x j, if decide ((x, j) = (t, i)) then e else E x j.

Lemma set_slot_here E t i e : set_slot E t i e t i = e.
Proof. unfold set_slot. by rewrite decide_True. Qed.

Lemma set_slot_other E t i e x j : (x, j) ≠ (t, i) → set_slot E t i e x j = E x j.
Proof. intros. unfold set_slot. by rewrite decide_False. Qed.

(** Replacing a present entry by another keeps the counts. *)
Lemma slot_update_present root T E t l i e :
  graph root T E → T !! t = Some l → slot_range i → present (E t i) = true → present e = true →
  slot_update T E (set_slot E t i e) t l i.
Proof.
  intros Hg Ht Hi Hp He. split; [done|done|..].
  - intros x k j Hx Hj Hne. by rewrite set_slot_other.
  - intros x k j Hx Hj Hne _. by rewrite set_slot_other.
  - intros x k j Hx Hj Hpx Hc.
    rewrite set_slot_other.
    + rewrite (g_count _ _ _ Hg x k j Hx Hj Hpx), Hc. f_equal. symmetry. apply count_ext.
      intros j' Hj'. unfold set_slot. case_decide as Hd; [|done]. injection Hd as ->. congruence.
    + intros [= -> ->]. pose proof (g_child _ _ _ Hg t k i Hx Hj Hpx) as Hl.
      rewrite Hc, Hx in Hl. injection Hl as Hl. lia.
Qed.

(** Where the walk of [v'] uses the entry of [v] at level [l]. *)
Lemma uses_slot root T E v v' l t :
  graph root T E → reach E root v l t →
  (reach E root v' l t ∧ vidx l v' = vidx l v) ↔ agree_below (S l) v v'.
Proof.
  intros Hg Hr. rewrite (reach_agree root T E v v' l t Hg Hr). split.
  - intros [Ha Hi] k Hk. destruct (decide (k = l)) as [->|]; [done|]. apply Ha. lia.
  - intros Ha. split; [intros k Hk; apply Ha; lia|]. symmetry. apply Ha. lia.
Qed.

(** A table with a single present entry, which leads nowhere, is cut off at the
    entry above it. *)
Lemma cut_table root T E v l t tp :
  graph root T E → reach E root v l tp → points l (E tp (vidx l v)) = true →
  t = child (E tp (vidx l v)) → count E t = 1%nat →
  present (E t (vidx (S l) v)) = true → points (S l) (E t (vidx (S l) v)) = false →
  let E' := set_slot E tp (vidx l v) hole_entry in
  graph root (delete t T) E' ∧ reach E' root v l tp ∧
  (∀ v', ~ agree_below (S l) v v' → mmu_walk E' root v' = mmu_walk E root v') ∧
  (∀ v', agree_below (S l) v v' → ~ agree_below (S (S l)) v v' → mmu_walk E root v' = None).
Proof.
  intros Hg Hr Hp -> Hcount Hpr Hnp E'. set (t := child (E tp (vidx l v))) in *.
  pose proof (reach_table _ _ _ _ _ _ Hg Hr) as Htp. pose proof (vidx_range l v) as Hi.
  destruct (hole_entry_spec l) as [Hhp Hhn].
  pose proof (slot_update_present root T E tp l (vidx l v) hole_entry Hg Htp Hi
    (points_present _ _ Hp) Hhp) as Hsu. fold E' in Hsu.
  assert (∀ j, slot_range j → j ≠ vidx (S l) v → present (E t j) = false) as Hothers.
  { intros j Hj Hne. destruct (present (E t j)) eqn:Hpj; [exfalso|done].
    assert (1 + 0 = count (set_slot E t (vidx (S l) v) 0) t + 1)%nat as Hcc.
    { pose proof (count_change (set_slot E t (vidx (S l) v) 0) E t (vidx (S l) v) (vidx_range _ _)) as Hcc.
      rewrite set_slot_here, Hpr, Hcount in Hcc. apply Hcc.
      intros j' Hj' Hne'. by rewrite set_slot_other by congruence. }
    assert (1 ≤ count (set_slot E t (vidx (S l) v) 0) t)%nat as Hpos; [|lia].
    apply (count_pos _ _ j Hj). rewrite set_slot_other; [done|congruence]. }
  assert (reach E root v (S l) t) as Hrt by by constructor.
  split_and!.
  - pose proof (graph_update root T E E' tp l (vidx l v) Hg Hsu) as Hgu.
    assert (E' tp (vidx l v) = hole_entry) as HE' by apply set_slot_here.
    unfold update_tables in Hgu. rewrite !HE', Hhn, Hp in Hgu.
    fold t in Hgu. apply Hgu; [|done]. intros _ j Hj.
    destruct (decide (j = vidx (S l) v)) as [->|]; [done|].
    by apply not_present_not_points, Hothers.
  - by apply (reach_update root T E E' tp l (vidx l v) Hg Hsu).
  - intros v' Hno. apply (walk_update_other root T E E' tp l (vidx l v) Hg Hsu).
    by rewrite (uses_slot root T E v v' l tp Hg Hr).
  - intros v' Hag Hno. assert (reach E root v' (S l) t) as Hrt'
      by by apply (reach_agree root T E v v' (S l) t Hg Hrt).
    rewrite (gwalk_reach _ _ _ _ _ Hrt'). pose proof (points_level _ _ Hp) as Hl.
    replace (4 - S l)%nat with (S (4 - S (S l))) by lia. cbn [gwalk].
    rewrite Hothers; [done|apply vidx_range|]. intros Heq. apply Hno.
    by apply (uses_slot root T E v v' (S l) t Hg Hrt).
Qed.
