(* ===== verification/PageTableInv.v ===== *)
(** * The page table code implements the graph

    [pt_inv] relates the bytes of physical memory to the graph of
    PageTableGraph.v.  Under it [translate] is the MMU's walk, [map_raw] adds
    exactly one page, and [free] removes pages and the tables that become
    empty. *)

From stdpp Require Import base tactics option list numbers strings gmap.
From Stdlib Require Import ZArith Lia.
From S2P Require Import Prelude MachineInt Bytes Cpu PhysMem PageTable PageTableGraph.

Local Open Scope Z_scope.

(** The entries as they are in memory. *)
Definition ent (m : mem) : entries := λ t i, read_u64 m (t + 8 * i).

(** The mask and the result of the walk at the level it ended. *)
Definition level_mask (l : nat) : Z :=
  match l with
  | 1%nat => page_size Page1G - 1
  | 2%nat => page_size Page2M - 1
  | _ => page_size Page4K - 1
  end.

Definition walk_page (v : Z) (w : option (nat * Z)) : option (Z * Z) :=
  match w with
  | Some (l, e) => Some (Z.land (child e) (bnot 64 (level_mask l)), Z.land v (level_mask l))
  | None => None
  end.

(** The entry address a [Mapping] has for a level. *)
Definition entry_at (k : nat) (m : Mapping) : option Z :=
  match k with
  | 0%nat => pml4e m | 1%nat => pdpe m | 2%nat => pde m | 3%nat => pte m | _ => None
  end.

Definition entry_list (m : Mapping) : list (option Z) := [pml4e m; pdpe m; pde m; pte m].

(** ** Page base and size of a mapping *)

(** The number of offset bits of a page mapped at level [l]. *)
Definition offset_bits (l : nat) : Z := 39 - 9 * Z.of_nat l.

Definition level_type (l : nat) : PageType :=
  match l with 1%nat => Page1G | 2%nat => Page2M | _ => Page4K end.

Lemma level_mask_eq l : (1 ≤ l ≤ 3)%nat → level_mask l = 2 ^ offset_bits l - 1.
Proof. intros Hl. do 4 (destruct l as [|l]; [done || lia|]). lia. Qed.

Lemma page_size_eq l : (1 ≤ l ≤ 3)%nat → page_size (level_type l) = 2 ^ offset_bits l.
Proof. intros Hl. do 4 (destruct l as [|l]; [done || lia|]). lia. Qed.

Lemma index_part_bit v k i : (k ≤ 3)%nat → 0 ≤ i →
  Z.testbit (shl 64 (vidx k v) (offset_bits k)) i =
  Z.testbit v i && (offset_bits k <=? i) && (i <? offset_bits k + 9).
Proof.
  intros Hk Hi. unfold shl, offset_bits in *. set (sh := 39 - 9 * Z.of_nat k) in *.
  assert (12 ≤ sh ≤ 39) as Hsh by (unfold sh; lia).
  pose proof (vidx_range k v) as Hr. unfold slot_range in Hr. rewrite wrap_small.
  2:{ rewrite Z.shiftl_mul_pow2 by lia. assert (2 ^ sh ≤ 2 ^ 39) by (apply Z.pow_le_mono_r; lia).
      assert (0 < 2 ^ sh) by (apply Z.pow_pos_nonneg; lia).
      unfold is_uint. change (2 ^ 64) with (33554432 * 2 ^ 39). nia. }
  rewrite Z.shiftl_spec by done. destruct (Z.leb_spec sh i).
  - unfold vidx. fold sh. rewrite Z.land_spec, Z.shiftr_spec by lia.
    replace (i - sh + sh) with i by lia. rewrite andb_true_r. f_equal.
    change 0x1ff with (Z.ones 9). destruct (Z.ltb_spec i (sh + 9)).
    + apply Z.ones_spec_low. lia.
    + apply Z.ones_spec_high. lia.
  - rewrite Z.testbit_neg_r by lia. by rewrite andb_false_r.
Qed.

Lemma slot_index t i : 0 ≤ t → t mod 4096 = 0 → slot_range i → Z.land (t + 8 * i) 0xfff / 8 = i.
Proof.
  intros H1 H3 Hi. unfold slot_range in Hi. change 0xfff with (2 ^ 12 - 1).
  rewrite land_mask_mod by lia. change (2 ^ 12) with 4096.
  rewrite <- Z.add_mod_idemp_l, H3, Z.add_0_l, Z.mod_small by lia.
  rewrite Z.mul_comm. by apply Z.div_mul.
Qed.

(** Putting the indices of a canonical address together gives the base. *)
Lemma base_bits v l X : canonical v → (1 ≤ l ≤ 3)%nat → 0 ≤ X →
  (∀ i, 0 ≤ i → Z.testbit X i = Z.testbit v i && (offset_bits l <=? i) && (i <? 48)) →
  canonicalize_address X = v - v mod 2 ^ offset_bits l.
Proof.
  intros [Hu Hv] Hl HX Hbits. set (b := offset_bits l) in *.
  assert (12 ≤ b ≤ 30) as Hb by (unfold b, offset_bits; lia).
  assert (X = Z.ldiff (v mod 2 ^ 48) (2 ^ b - 1)) as EX.
  { apply Z.bits_inj'. intros i Hi. rewrite Hbits, Z.ldiff_spec by done.
    rewrite <- Z.land_ones, Z.land_spec by lia.
    replace (2 ^ b - 1) with (Z.ones b) by (rewrite Z.ones_equiv; lia).
    rewrite <- !andb_assoc. f_equal. rewrite andb_comm. f_equal.
    - destruct (Z.ltb_spec i 48); [by rewrite Z.ones_spec_low by lia|by rewrite Z.ones_spec_high by lia].
    - destruct (Z.leb_spec b i); [by rewrite Z.ones_spec_high by lia|by rewrite Z.ones_spec_low by lia]. }
  rewrite ldiff_mask in EX by lia.
  assert ((v mod 2 ^ 48) mod 2 ^ b = v mod 2 ^ b) as Em.
  { replace (2 ^ 48) with (2 ^ b * 2 ^ (48 - b)) by (rewrite <- Z.pow_add_r by lia; f_equal; lia).
    apply Z.mod_mod_divide. by exists (2 ^ (48 - b)); lia. }
  rewrite Em in EX. rewrite canonicalize_eq.
  2:{ split; [done|]. rewrite EX. pose proof (Z.mod_pos_bound v (2 ^ 48)).
      pose proof (Z.mod_pos_bound v (2 ^ b) ltac:(apply Z.pow_pos_nonneg; lia)). lia. }
  assert (v mod 2 ^ b < 2 ^ b) as Hlt by (apply Z.mod_pos_bound, Z.pow_pos_nonneg; lia).
  assert (0 ≤ v mod 2 ^ b) as Hge by (apply Z.mod_pos_bound, Z.pow_pos_nonneg; lia).
  assert (∃ q, v mod 2 ^ 48 - v mod 2 ^ b = q * 2 ^ b) as [q Hq].
  { exists (v mod 2 ^ 48 / 2 ^ b). pose proof (Z.div_mod (v mod 2 ^ 48) (2 ^ b) ltac:(apply Z.pow_nonzero; lia)). lia. }
  assert (∃ r, 2 ^ 47 = r * 2 ^ b) as [r Hr].
  { exists (2 ^ (47 - b)). rewrite <- Z.pow_add_r by lia. f_equal. lia. }
  assert (0 < 2 ^ b) by (apply Z.pow_pos_nonneg; lia).
  unfold is_uint in Hu. rewrite (Z.mod_small X) by (pose proof (Z.mod_pos_bound v (2 ^ 48)); lia).
  destruct Hv as [Hv|Hv].
  - rewrite (Z.mod_small v (2 ^ 48)) in * by lia. rewrite (proj2 (Z.ltb_lt _ _)) by lia. lia.
  - assert (v mod 2 ^ 48 = v - (2 ^ 64 - 2 ^ 48)) as Ev.
    { symmetry. apply (Z.mod_unique_pos v (2 ^ 48) (2 ^ 16 - 1)); lia. }
    rewrite Ev in *. rewrite (proj2 (Z.ltb_ge _ _)); [lia|]. rewrite EX, Hq, Hr.
    apply Z.mul_le_mono_nonneg_r; [lia|]. destruct (Z.le_gt_cases r q); [done|exfalso]. nia.
Qed.

(** Two canonical addresses use the same entries down to level [l] exactly when
    they are in the same page of that level. *)
Definition page_base (l : nat) (v : Z) : Z := v - v mod 2 ^ offset_bits l.

Lemma vidx_bit k v i : (k ≤ 3)%nat → 0 ≤ i →
  Z.testbit (vidx k v) i = Z.testbit v (i + offset_bits k) && (i <? 9).
Proof.
  intros Hk Hi. unfold vidx. change (39 - 9 * Z.of_nat k) with (offset_bits k).
  rewrite Z.land_spec, Z.shiftr_spec by done. f_equal. change 0x1ff with (Z.ones 9).
  destruct (Z.ltb_spec i 9); [apply Z.ones_spec_low; lia|apply Z.ones_spec_high; lia].
Qed.

Lemma agree_bits l v v' : (l ≤ 3)%nat →
  agree_below (S l) v v' ↔ ∀ i, offset_bits l ≤ i < 48 → Z.testbit v i = Z.testbit v' i.
Proof.
  intros Hl. unfold offset_bits. split.
  - intros Ha i Hi. set (k := Z.to_nat (4 - (i - 12) / 9 - 1)).
    assert (0 ≤ (i - 12) / 9 ≤ 3) as Hq by (split; [apply Z.div_pos; lia|apply Z.lt_succ_r, Z.div_lt_upper_bound; lia]).
    pose proof (Z.div_mod (i - 12) 9 ltac:(lia)). pose proof (Z.mod_pos_bound (i - 12) 9 ltac:(lia)).
    assert (k < S l)%nat as Hk by (unfold k; lia).
    assert (offset_bits k ≤ i < offset_bits k + 9) as Hr by (unfold offset_bits, k; lia).
    pose proof (vidx_bit k v (i - offset_bits k) ltac:(lia) ltac:(lia)) as B1.
    pose proof (vidx_bit k v' (i - offset_bits k) ltac:(lia) ltac:(lia)) as B2.
    rewrite (proj2 (Z.ltb_lt _ _)), andb_true_r in B1, B2 by lia.
    replace (i - offset_bits k + offset_bits k) with i in B1, B2 by lia.
    by rewrite <- B1, <- B2, (Ha k Hk).
  - intros Hb k Hk. apply Z.bits_inj'. intros i Hi. rewrite !vidx_bit by lia.
    destruct (Z.ltb_spec i 9); [|by rewrite !andb_false_r]. f_equal. apply Hb. unfold offset_bits. lia.
Qed.

Lemma page_base_agree l v v' : (1 ≤ l ≤ 3)%nat → canonical v → canonical v' →
  agree_below (S l) v v' ↔ page_base l v = page_base l v'.
Proof.
  intros Hl Hv Hv'. rewrite agree_bits by lia. unfold page_base. split.
  - intros Hb. set (X := Z.ldiff (v mod 2 ^ 48) (2 ^ offset_bits l - 1)).
    assert (∀ w, (∀ i, offset_bits l ≤ i < 48 → Z.testbit v i = Z.testbit w i) → ∀ i, 0 ≤ i →
      Z.testbit X i = Z.testbit w i && (offset_bits l <=? i) && (i <? 48)) as HX.
    { intros w Hw i Hi. unfold X. replace (2 ^ offset_bits l - 1) with (Z.ones (offset_bits l))
        by (rewrite Z.ones_equiv; lia).
      rewrite Z.ldiff_spec, <- Z.land_ones, Z.land_spec by lia.
      assert (0 ≤ offset_bits l) by (unfold offset_bits; lia).
      destruct (Z.leb_spec (offset_bits l) i), (Z.ltb_spec i 48).
      - by rewrite Z.ones_spec_low, Z.ones_spec_high, Hw by lia.
      - rewrite (Z.ones_spec_high 48) by lia. by rewrite !andb_false_r.
      - rewrite (Z.ones_spec_low (offset_bits l)) by lia. by rewrite !andb_false_r.
      - rewrite (Z.ones_spec_low (offset_bits l)) by lia. by rewrite !andb_false_r. }
    assert (0 ≤ X) as HX0.
    { unfold X. apply Z.ldiff_nonneg. left. apply Z.mod_pos_bound. lia. }
    rewrite <- (base_bits v l X Hv Hl HX0 (HX v (λ _ _, eq_refl))).
    by rewrite <- (base_bits v' l X Hv' Hl HX0 (HX v' Hb)).
  - intros E i Hi. assert (0 ≤ offset_bits l) as Hol by (unfold offset_bits; lia).
    rewrite <- !ldiff_mask in E by done. apply (f_equal (λ z, Z.testbit z i)) in E.
    replace (2 ^ offset_bits l - 1) with (Z.ones (offset_bits l)) in E by (rewrite Z.ones_equiv; lia).
    rewrite !Z.ldiff_spec, Z.ones_spec_high in E by lia. cbn [negb] in E. by rewrite !andb_true_r in E.
Qed.

Section inv.
Context `{HPM : PhysMem P} `{HPL : !PhysMemLaws P}.
Implicit Types s : P.

(** A table occupies an aligned page that is neither free nor out of reach. *)
Definition table_page (s : P) (t : Z) : Prop :=
  0 < t ∧ t + 4096 ≤ 2 ^ 52 ∧ t mod 4096 = 0 ∧
  ∀ x, in_block t 4096 x → ~ pm_free s x ∧ pm_window s x.

(** The bit for large pages is reserved in the root. *)
Definition no_large_root (root : Z) (E : entries) : Prop :=
  ∀ i, slot_range i → present (E root i) = true → large (E root i) = false.

Record pt_inv (root : Z) (T : tables) (s : P) : Prop := {
  pt_graph : graph root T (ent (pm_mem s));
  pt_root : no_large_root root (ent (pm_mem s));
  pt_page t l : T !! t = Some l → table_page s t;
  pt_bytes : pm_ok s;
}.

(** ** Loads and stores of entries *)

Lemma slot_addr t i : 0 < t → t + 4096 ≤ 2 ^ 52 → slot_range i →
  wrapping_add 64 t (wrapping_mul 64 i 8) = t + 8 * i.
Proof.
  intros H1 H2 Hi. unfold slot_range in Hi. unfold wrapping_mul, wrapping_add.
  rewrite (wrap_small 64 (i * 8)) by (unfold is_uint; lia).
  rewrite wrap_small by (unfold is_uint; lia). lia.
Qed.

Lemma load_slot s t i : table_page s t → slot_range i →
  load_u64 (t + 8 * i) s = Done (s, ent (pm_mem s) t i).
Proof.
  intros (_ & _ & _ & Hp) Hi. unfold load_u64, slot_range in *.
  rewrite translate_returns; [done|lia|]. intros x Hx. apply Hp. unfold in_block in *. lia.
Qed.

Lemma translate_slot s t i : table_page s t → slot_range i → pm_translate (t + 8 * i) 8 s = Done s.
Proof.
  intros (_ & _ & _ & Hp) Hi. unfold slot_range in *. apply translate_returns; [lia|].
  intros x Hx. apply Hp. unfold in_block in *. lia.
Qed.

(** Entries of different slots do not overlap. *)
Lemma slots_apart s t i t' i' : table_page s t → table_page s t' →
  slot_range i → slot_range i' → (t', i') ≠ (t, i) →
  t' + 8 * i' + 8 ≤ t + 8 * i ∨ t + 8 * i + 8 ≤ t' + 8 * i'.
Proof.
  intros (_ & _ & Ht & _) (_ & _ & Ht' & _) Hi Hi' Hne. unfold slot_range in *.
  destruct (decide (t = t')) as [->|].
  - assert (i ≠ i') by congruence. lia.
  - apply Z.mod_divide in Ht as [q ->]; [|lia]. apply Z.mod_divide in Ht' as [q' ->]; [|lia].
    assert (q ≠ q') by congruence. lia.
Qed.

Lemma ent_write_same m t i v : is_uint 64 v → ent (write_u64 m (t + 8 * i) v) t i = v.
Proof. apply read_write_u64_same. Qed.

Lemma ent_write_other s m t i t' i' v : table_page s t → table_page s t' →
  slot_range i → slot_range i' → (t', i') ≠ (t, i) →
  ent (write_u64 m (t + 8 * i) v) t' i' = ent m t' i'.
Proof. intros. apply read_write_u64_other. by eapply (slots_apart s). Qed.

Lemma store_ok s t i v : pm_ok s → table_page s t → slot_range i →
  pm_ok (pm_set_mem (write_u64 (pm_mem s) (t + 8 * i) v) s).
Proof.
  intros Hok (_ & _ & _ & Hp) Hi. apply set_mem_ok; [done|by apply write_u64_ok, ok_mem|].
  intros x Hx. apply mem_byte_write_u64. intros Hb. apply (Hp x); [|done].
  unfold in_block, slot_range in *. lia.
Qed.

Lemma ent_uint m t i : mem_ok m → is_uint 64 (ent m t i).
Proof. intros. by apply read_u64_uint. Qed.

(** ** translate *)

Lemma reach_det E root v l t : reach E root v l t → ∀ t', reach E root v l t' → t = t'.
Proof.
  induction 1 as [|l t Hr IH Hp]; intros t' Hr'; inversion Hr' as [|l2 t2 Hr2 Hp2 E1 E2]; subst; [done|].
  by rewrite (IH t2 Hr2).
Qed.

#[local] Instance agree_below_dec l v v' : Decision (agree_below l v v').
Proof.
  refine (cast_if (decide (Forall (λ k, vidx k v = vidx k v') (seq 0 l)))); unfold agree_below.
  - intros k Hk. by apply (proj1 (Forall_seq _ _ _) f); lia.
  - intros Ha. apply n. apply Forall_seq. intros k Hk. apply Ha. lia.
Defined.

Lemma reach_above E root v k t' : reach E root v k t' → ∀ l t, (l < k)%nat → reach E root v l t →
  points l (E t (vidx l v)) = true.
Proof.
  induction 1 as [|k t' Hr IH Hp]; intros l t Hl Ht; [lia|].
  destruct (decide (l = k)) as [->|]; [|apply IH; [lia|done]].
  by rewrite (reach_det _ _ _ _ _ Ht t' Hr).
Qed.

(** The entry addresses of a mapping are those of the tables reached. *)
Definition entries_match (E : entries) (root v : Z) (es : list (option Z)) : Prop :=
  length es = 4%nat ∧
  (∀ k t, (k < 4)%nat → reach E root v k t → es !! k = Some (Some (t + 8 * vidx k v))) ∧
  (∀ k, (k < 4)%nat → (∀ t, ~ reach E root v k t) → es !! k = Some None).

Lemma indicies_drop v l : (l < 4)%nat → drop l (indicies v) = vidx l v :: drop (S l) (indicies v).
Proof. intros Hl. do 4 (destruct l as [|l]; [done|]). lia. Qed.

Lemma set_entry_spec l a m : (l < 4)%nat →
  ∃ m', set_entry l a m = Done m' ∧ page m' = page m ∧ entry_at l m' = Some a ∧
    ∀ k, k ≠ l → entry_at k m' = entry_at k m.
Proof.
  intros Hl. do 4 (destruct l as [|l]; [eexists; split; [done|]; split; [done|]; split; [done|];
    intros k Hk; do 4 (destruct k as [|k]; [done|]); done|]). lia.
Qed.

Lemma depth_page_mask_eq l : (1 ≤ l < 4)%nat → depth_page_mask l = Done (level_mask l).
Proof. intros Hl. do 4 (destruct l as [|l]; [done || lia|]). lia. Qed.

Lemma translate_loop_spec root T s v n : pt_inv root T s → ∀ l t ret,
  reach (ent (pm_mem s)) root v l t → (l < 4)%nat → n = (4 - l)%nat →
  (∀ k, (l ≤ k)%nat → entry_at k ret = None) → page ret = None →
  let E := ent (pm_mem s) in
  ∃ ret', translate_loop v l (drop l (indicies v)) t ret s = Done (s, ret') ∧
    page ret' = walk_page v (gwalk n E l t v) ∧
    (∀ k, (k < l)%nat → entry_at k ret' = entry_at k ret) ∧
    (∀ k t', (l ≤ k < 4)%nat → reach E root v k t' → entry_at k ret' = Some (t' + 8 * vidx k v)) ∧
    (∀ k, (l ≤ k < 4)%nat → (∀ t', ~ reach E root v k t') → entry_at k ret' = None).
Proof.
  intros Hinv. set (E := ent (pm_mem s)).
  induction n as [|n IH]; intros l t ret Hr Hl Hn Hret Hpage; [lia|]. cbn zeta.
  pose proof (reach_table root T E v l t (pt_graph _ _ _ Hinv) Hr) as Ht.
  pose proof (pt_page _ _ _ Hinv t l Ht) as Hpg. pose proof (vidx_range l v) as Hi.
  rewrite indicies_drop by done. cbn [translate_loop].
  rewrite slot_addr by (done || apply Hpg).
  destruct (set_entry_spec l (t + 8 * vidx l v) ret Hl) as (ret1 & -> & Hp1 & He1 & Ho1).
  rewrite bind_Done_l, load_slot, bind_Done_l by done. fold E.
  rewrite present_eq. cbn [gwalk].
  assert (∀ k t', (l ≤ k < 4)%nat → reach E root v k t' →
    (k = l ∧ t' = t) ∨ points l (E t (vidx l v)) = true) as Hstop.
  { intros k t' Hk Hr'. destruct (decide (k = l)) as [->|].
    - left. split; [done|]. by rewrite (reach_det _ _ _ _ _ Hr t' Hr').
    - right. apply (reach_above _ _ _ _ _ Hr' l t); [lia|done]. }
  (* the walk ends here: the mapping found so far is right *)
  assert (points l (E t (vidx l v)) = false → ∀ ret2 : Mapping,
    (∀ k, entry_at k ret2 = entry_at k ret1) →
    (∀ k, (k < l)%nat → entry_at k ret2 = entry_at k ret) ∧
    (∀ k t', (l ≤ k < 4)%nat → reach E root v k t' → entry_at k ret2 = Some (t' + 8 * vidx k v)) ∧
    (∀ k, (l ≤ k < 4)%nat → (∀ t', ~ reach E root v k t') → entry_at k ret2 = None)) as Hend.
  { intros Hnp ret2 H2. split_and!.
    - intros k Hk. rewrite H2, Ho1; [done|lia].
    - intros k t' Hk Hr'. destruct (Hstop k t' Hk Hr') as [[-> ->]|]; [by rewrite H2|congruence].
    - intros k Hk Hno. rewrite H2. destruct (decide (k = l)) as [->|]; [by destruct (Hno t)|].
      rewrite Ho1 by done. apply Hret. lia. }
  destruct (present (E t (vidx l v))) eqn:Hpr; cbn [negb].
  2:{ exists ret1. split; [done|]. split; [by rewrite Hp1|]. apply Hend; [|done].
      by apply not_present_not_points. }
  rewrite large_eq, negb_involutive.
  destruct (points l (E t (vidx l v))) eqn:Hpt.
  - pose proof (points_level _ _ Hpt) as Hl3.
    rewrite (points_not_large _ _ Hpt).
    rewrite (proj2 (Nat.eqb_neq l 3)) by lia. cbn [orb].
    destruct (IH (S l) (child (E t (vidx l v))) ret1) as (ret' & Ht' & Hpage' & Hk1 & Hk2 & Hk3);
      [by constructor|lia|lia|intros k Hk; rewrite Ho1 by lia; apply Hret; lia|by rewrite Hp1|].
    exists ret'. split; [done|]. split; [done|]. split_and!.
    + intros k Hk. rewrite Hk1, Ho1 by lia. done.
    + intros k t' Hk Hr'. destruct (decide (k = l)) as [->|].
      * rewrite Hk1, He1 by lia. by rewrite (reach_det _ _ _ _ _ Hr t' Hr').
      * apply Hk2; [lia|done].
    + intros k Hk Hno. destruct (decide (k = l)) as [->|]; [by destruct (Hno t)|].
      apply Hk3; [lia|done].
  - rewrite (leaf_entry _ _ Hl Hpr Hpt).
    destruct (Nat.eqb_spec l 0) as [->|Hl0].
    { exfalso. inversion Hr; subst t. pose proof (leaf_entry _ _ Hl Hpr Hpt) as Hlarge.
      pose proof (pt_root _ _ _ Hinv _ Hi Hpr) as Hroot. fold E in Hroot. by rewrite Hroot in Hlarge. }
    rewrite depth_page_mask_eq, bind_Done_l by lia.
    eexists. split; [done|]. split; [done|]. apply Hend; [done|].
    intros k. by do 4 (destruct k as [|k]; [done|]).
Qed.

Lemma entry_list_at m k : (k < 4)%nat → entry_list m !! k = Some (entry_at k m).
Proof. intros Hk. do 4 (destruct k as [|k]; [done|]). lia. Qed.

Lemma translate_correct root T s v : pt_inv root T s → canonical v →
  ∃ mp, translate root v s = Done (s, Some mp) ∧
    page mp = walk_page v (mmu_walk (ent (pm_mem s)) root v) ∧
    entries_match (ent (pm_mem s)) root v (entry_list mp).
Proof.
  intros Hinv Hv. unfold translate.
  rewrite (proj2 (Z.eqb_eq _ _) (proj2 (canonicalize_id v (proj1 Hv)) Hv)). cbn [negb].
  destruct (translate_loop_spec root T s v 4 Hinv 0 root empty_mapping)
    as (mp & Ht & Hp & _ & Hk1 & Hk2); [constructor|lia|done|..|done|].
  { intros k _. by do 4 (destruct k as [|k]; [done|]). }
  rewrite drop_0 in Ht. rewrite Ht, bind_Done_l. exists mp. split; [done|]. split; [done|].
  split; [done|]. split.
  - intros k t Hk Hr. rewrite entry_list_at by done. f_equal. apply Hk1; [lia|done].
  - intros k Hk Hno. rewrite entry_list_at by done. f_equal. apply Hk2; [lia|done].
Qed.

Lemma translate_noncanonical root s v : is_uint 64 v → ~ canonical v →
  translate root v s = Done (s, None).
Proof.
  intros Hv Hn. unfold translate. destruct (Z.eqb_spec (canonicalize_address v) v) as [E|]; [|done].
  by apply canonicalize_id in E.
Qed.

(** ** One step: change an entry and its count *)

(** [E'] differs from [E] in the entry [i] of [t], and in the count of the
    entry [ip] of [tp], which leads to [t]. *)
Lemma slot_update_counted root T E E' t l i tp ip n :
  graph root T E → (∀ x j, is_uint 64 (E x j)) →
  T !! t = Some (S l) → slot_range i → T !! tp = Some l → slot_range ip →
  points l (E tp ip) = true → child (E tp ip) = t →
  is_uint 10 n → n = Z.of_nat (count E' t) →
  E' tp ip = set_in_use (E tp ip) n →
  (∀ x k j, T !! x = Some k → slot_range j → (x, j) ≠ (t, i) → (x, j) ≠ (tp, ip) → E' x j = E x j) →
  slot_update T E E' t (S l) i.
Proof.
  intros Hg Hu64 Ht Hi Htp Hip Hp Hc Hn Hcount Hparent Hother.
  assert (∀ x k j, T !! x = Some k → slot_range j → points k (E x j) = true → child (E x j) = t →
    (x, j) = (tp, ip)) as Huniq.
  { intros x k j Hx Hj Hpx Hcx. destruct (g_unique _ _ _ Hg x k j tp l ip) as [-> ->]; try done. congruence. }
  split; [done|done|..].
  - intros x k j Hx Hj Hne. destruct (decide ((x, j) = (tp, ip))) as [[= -> ->]|Hne'].
    + rewrite Hparent. by apply shape_set_in_use.
    + by rewrite (Hother x k j).
  - intros x k j Hx Hj Hne Hnp. apply (Hother x k j); try done. intros [= -> ->].
    apply Hnp. rewrite Htp in Hx. by injection Hx as <-.
  - intros x k j Hx Hj Hpx Hcx. pose proof (Huniq x k j Hx Hj Hpx Hcx) as [= -> ->].
    by rewrite Hparent, in_use_set.
Qed.

(** The root has no entry that counts it. *)
Lemma slot_update_root root T E E' i :
  graph root T E → slot_range i →
  (∀ x k j, T !! x = Some k → slot_range j → (x, j) ≠ (root, i) → E' x j = E x j) →
  slot_update T E E' root 0 i.
Proof.
  intros Hg Hi Hother. split; [apply (g_root _ _ _ Hg)|done|..].
  - intros x k j Hx Hj Hne. by rewrite (Hother x k j).
  - intros x k j Hx Hj Hne _. by apply (Hother x k j).
  - intros x k j Hx Hj Hp Hc. pose proof (g_child _ _ _ Hg x k j Hx Hj Hp) as Hl.
    rewrite Hc, (g_root _ _ _ Hg) in Hl. discriminate.
Qed.

(** A table that keeps its page keeps its entries when memory changes only
    where the allocator may write. *)
Lemma ent_ext m m' t i : (∀ x, in_block t 4096 x → mem_byte m x = mem_byte m' x) → slot_range i →
  ent m t i = ent m' t i.
Proof.
  intros Hx Hi. apply read_u64_ext. intros x Hb. apply Hx. unfold in_block, slot_range in *. lia.
Qed.

Lemma reach_parent E root v l t : reach E root v (S l) t →
  ∃ tp, reach E root v l tp ∧ points l (E tp (vidx l v)) = true ∧ child (E tp (vidx l v)) = t.
Proof. intros Hr. inversion Hr as [|l2 tp Hr2 Hp]; subst. by exists tp. Qed.

(** The step, described by what is in the entries afterwards: the entry that
    leads to [t] counts one more or one less. *)
Lemma slot_update_of root T E E' v l t :
  graph root T E → (∀ x j, is_uint 64 (E x j)) → reach E root v l t →
  (∀ l' tp, l = S l' → reach E root v l' tp →
     E' tp (vidx l' v) = set_in_use (E tp (vidx l' v))
       (in_use (E tp (vidx l' v)) + Z.b2z (present (E' t (vidx l v))) - Z.b2z (present (E t (vidx l v))))) →
  (∀ x k j, T !! x = Some k → slot_range j → (x, j) ≠ (t, vidx l v) →
     (∀ l' tp, l = S l' → reach E root v l' tp → (x, j) ≠ (tp, vidx l' v)) → E' x j = E x j) →
  slot_update T E E' t l (vidx l v).
Proof.
  intros Hg Hu Hr Hparent Hother. pose proof (reach_table _ _ _ _ _ _ Hg Hr) as Ht.
  pose proof (vidx_range l v) as Hi. destruct l as [|l].
  - inversion Hr; subst t. apply slot_update_root; [done|done|].
    intros x k j Hx Hj Hne. by apply (Hother x k j).
  - destruct (reach_parent _ _ _ _ _ Hr) as (tp & Hrp & Hp & Hc).
    pose proof (reach_table _ _ _ _ _ _ Hg Hrp) as Htp.
    assert (tp ≠ t) as Hne by (intros ->; rewrite Ht in Htp; injection Htp as Htp; lia).
    assert (∀ x k j, T !! x = Some k → slot_range j → (x, j) ≠ (t, vidx (S l) v) →
      (x, j) ≠ (tp, vidx l v) → E' x j = E x j) as Hoth.
    { intros x k j Hx Hj H1 H2. apply (Hother x k j); try done. intros l' tp' [= <-] Hr'.
      by rewrite <- (reach_det _ _ _ _ _ Hrp tp' Hr'). }
    assert (count E' t + Nat.b2n (present (E t (vidx (S l) v))) =
      count E t + Nat.b2n (present (E' t (vidx (S l) v))))%nat as Hcount.
    { apply count_change; [done|]. intros j Hj Hji. rewrite (Hoth t (S l) j); try done; congruence. }
    pose proof (g_count _ _ _ Hg tp l (vidx l v) Htp (vidx_range l v) Hp) as Hcnt. rewrite Hc in Hcnt.
    pose proof (count_le E' t) as Hle.
    assert (in_use (E tp (vidx l v)) + Z.b2z (present (E' t (vidx (S l) v))) -
      Z.b2z (present (E t (vidx (S l) v))) = Z.of_nat (count E' t)) as Hn.
    { rewrite Hcnt. destruct (present (E t (vidx (S l) v))), (present (E' t (vidx (S l) v))); cbn in *; lia. }
    apply (slot_update_counted root T E E' t l (vidx (S l) v) tp (vidx l v) (Z.of_nat (count E' t)));
      try done; [apply vidx_range| |].
    + unfold is_uint. change (2 ^ 10) with 1024. lia.
    + rewrite <- Hn. by apply Hparent.
Qed.

(** ** Allocation and stores keep the tables *)

Definition keeps (T : tables) (s s' : P) : Prop :=
  ∀ t l, T !! t = Some l → table_page s' t ∧
    ∀ j, slot_range j → ent (pm_mem s') t j = ent (pm_mem s) t j.

(** Tables were added, in memory that was free, and nothing else changed but
    the tables and what was free. *)
Definition grown (T T' : tables) (s s' : P) : Prop :=
  T ⊆ T' ∧ (∀ x, pm_window s' x ↔ pm_window s x) ∧ (∀ x, pm_free s' x → pm_free s x) ∧
  (∀ t x, T !! t = None → is_Some (T' !! t) → in_block t 4096 x → pm_free s x) ∧
  (∀ x, ~ pm_free s x → (∀ t, is_Some (T !! t) → ~ in_block t 4096 x) →
     mem_byte (pm_mem s') x = mem_byte (pm_mem s) x).

Lemma grown_refl T s : grown T T s s.
Proof. split_and!; try done. intros t x Hn [l Hl]. congruence. Qed.

Lemma grown_trans T T1 T2 s s1 s2 : grown T T1 s s1 → grown T1 T2 s1 s2 → grown T T2 s s2.
Proof.
  intros (Hs1 & Hw1 & Hf1 & Ht1 & Hm1) (Hs2 & Hw2 & Hf2 & Ht2 & Hm2). split_and!.
  - by etrans.
  - intros x. by rewrite Hw2, Hw1.
  - intros x Hx. by apply Hf1, Hf2.
  - intros t x Hn Hy Hb. destruct (T1 !! t) as [l|] eqn:E1; [by apply (Ht1 t x Hn)|].
    apply Hf1. by apply (Ht2 t x E1).
  - intros x Hx Hno. rewrite Hm2, Hm1; [done..|intros Hf; by apply Hx, Hf1|].
    intros t Ht Hb. destruct (T !! t) as [l|] eqn:E1; [by apply (Hno t)|].
    by apply Hx, (Ht1 t x).
Qed.

Lemma grown_store T T' s s1 t l i v : grown T T' s s1 → T !! t = Some l → slot_range i →
  grown T T' s (pm_set_mem (write_u64 (pm_mem s1) (t + 8 * i) v) s1).
Proof.
  intros (Hs1 & Hw1 & Hf1 & Ht1 & Hm1) Ht Hi. split_and!; try done.
  - by rewrite set_mem_window.
  - by rewrite set_mem_free.
  - intros x Hx Hno. rewrite set_mem_mem, mem_byte_write_u64; [by apply Hm1|].
    intros Hb. apply (Hno t); [by eexists|]. unfold in_block, slot_range in *. lia.
Qed.

Lemma table_page_set_mem m s t : table_page (pm_set_mem m s) t ↔ table_page s t.
Proof. unfold table_page. by rewrite set_mem_free, set_mem_window. Qed.

Lemma alloc_zeroed_keeps root T s s' c :
  pt_inv root T s → alloc_phys_zeroed 4096 4096 s = Done (s', c) →
  keeps T s s' ∧ table_page s' c ∧ T !! c = None ∧ is_uint 52 c ∧
  (∀ j, slot_range j → ent (pm_mem s') c j = 0) ∧ pm_ok s' ∧ ∀ k, grown T (<[c := k]> T) s s'.
Proof.
  intros Hinv E. unfold alloc_phys_zeroed in E.
  apply bind_Done in E as ([s1 alc] & E0 & E).
  apply bind_Done in E as (s2 & Et & E). apply Done_pair_inj in E as [<- <-].
  destruct (alloc_spec 12 _ _ _ (pt_bytes _ _ _ Hinv) ltac:(lia) E0) as (H1 & H2 & H3 & H4 & H5 & H6 & H7 & H8).
  rewrite translate_returns in Et by (lia || (intros x Hx; by apply H4)). injection Et as <-.
  assert (∀ t l, T !! t = Some l → ∀ x, in_block t 4096 x → ~ in_block alc 4096 x) as Hapart.
  { intros t l Ht x Hx Hc. destruct (pt_page _ _ _ Hinv t l Ht) as (_ & _ & _ & Hp).
    apply (Hp x Hx). by apply H4. }
  split_and!.
  - intros t l Ht. pose proof (pt_page _ _ _ Hinv t l Ht) as (P1 & P2 & P3 & P4).
    rewrite table_page_set_mem, set_mem_mem. split.
    + do 3 (split; [done|]). intros x Hx. destruct (P4 x Hx) as [Hf Hw].
      split; [|by apply H6]. intros ?%H5. tauto.
    + intros j Hj. apply ent_ext; [|done]. intros x Hx. rewrite lookup_write_bytes, decide_False.
      * apply H7. by apply P4.
      * rewrite length_replicate. change (Z.of_nat (Z.to_nat 4096)) with 4096. by apply (Hapart t l).
  - rewrite table_page_set_mem. do 3 (split; [done|]). intros x Hx.
    split; [|by apply H4]. intros ?%H5. tauto.
  - destruct (T !! alc) as [l|] eqn:Et; [|done]. exfalso.
    assert (in_block alc 4096 alc) as Hx by (unfold in_block; lia). by apply (Hapart alc l Et alc Hx).
  - unfold is_uint. lia.
  - intros j Hj. rewrite set_mem_mem. unfold slot_range in Hj. apply read_zeroed; lia.
  - apply set_mem_ok; [done|apply write_bytes_ok; [by apply ok_mem|apply Forall_replicate; by_decide]|].
    intros x Hx. rewrite lookup_write_bytes, length_replicate, decide_False; [done|]. by apply H5.
  - intros k. split_and!.
    + apply insert_subseteq. destruct (T !! alc) as [l|] eqn:Et; [|done]. exfalso.
      assert (in_block alc 4096 alc) as Hx by (unfold in_block; lia). by apply (Hapart alc l Et alc Hx).
    + by rewrite set_mem_window.
    + rewrite set_mem_free. intros x Hx. by apply H5.
    + intros t x Hn [l Hl] Hx. apply lookup_insert_Some in Hl as [[<- _]|[_ Hl]]; [by apply H4|congruence].
    + intros x Hx _. rewrite set_mem_mem, lookup_write_bytes, decide_False; [by apply H7|].
      rewrite length_replicate. intros Hb. by apply Hx, H4.
Qed.

Lemma bump_in_use_eq s t i : table_page s t → slot_range i →
  bump_in_use (t + 8 * i) s =
  Done (pm_set_mem (write_u64 (pm_mem s) (t + 8 * i)
    (set_in_use (ent (pm_mem s) t i) (in_use (ent (pm_mem s) t i) + 1))) s).
Proof.
  intros Hp Hi. unfold bump_in_use. rewrite load_slot, bind_Done_l by done.
  pose proof (in_use_uint (ent (pm_mem s) t i)) as Hu. unfold is_uint in Hu.
  change (2 ^ 10) with 1024 in Hu.
  by rewrite wrapping_add_small by (unfold is_uint; lia).
Qed.

(** The code's way of filling an entry that is not present: bump the count
    above (there is none above the root), store the entry. *)
Definition bumped (root v : Z) (l : nat) (E : entries) (s1 s2 : P) : Prop :=
  match l with
  | O => s2 = s1
  | S l' => ∃ tp, reach E root v l' tp ∧ bump_in_use (tp + 8 * vidx l' v) s1 = Done s2
  end.

Lemma bumped_ent root T s s1 s2 v l t :
  pt_inv root T s → keeps T s s1 → pm_ok s1 →
  let E := ent (pm_mem s) in
  reach E root v l t → bumped root v l E s1 s2 →
  pm_ok s2 ∧ (∀ x, table_page s2 x ↔ table_page s1 x) ∧
  (∀ l' tp, l = S l' → reach E root v l' tp →
     ent (pm_mem s2) tp (vidx l' v) =
       set_in_use (E tp (vidx l' v)) (in_use (E tp (vidx l' v)) + 1)) ∧
  (∀ x j, table_page s1 x → slot_range j →
     (∀ l' tp, l = S l' → reach E root v l' tp → (x, j) ≠ (tp, vidx l' v)) →
     ent (pm_mem s2) x j = ent (pm_mem s1) x j).
Proof.
  intros Hinv Hk Hm1 E Hr Hb. destruct l as [|l]; cbn in Hb; [subst s2; by split_and!|].
  destruct Hb as (tp & Hrp & Hb). pose proof (reach_table _ _ _ _ _ _ (pt_graph _ _ _ Hinv) Hrp) as Htp.
  destruct (Hk tp l Htp) as [Hp1 He1]. pose proof (vidx_range l v) as Hi.
  rewrite bump_in_use_eq in Hb by done. apply Done_inj in Hb as <-.
  rewrite !set_mem_mem, (He1 _ Hi). fold E.
  assert (is_uint 10 (in_use (E tp (vidx l v)) + 1)) as Hcnt.
  { destruct (reach_parent _ _ _ _ _ Hr) as (tp' & Hrp' & Hp & _).
    rewrite <- (reach_det _ _ _ _ _ Hrp tp' Hrp') in Hp.
    pose proof (g_count _ _ _ (pt_graph _ _ _ Hinv) tp l (vidx l v) Htp Hi Hp) as Hc.
    pose proof (count_le E (child (E tp (vidx l v)))) as Hle. fold E in Hc. rewrite Hc.
    unfold is_uint. change (2 ^ 10) with 1024. lia. }
  split_and!.
  - by apply store_ok.
  - intros x. apply table_page_set_mem.
  - intros l' tp' [= <-] Hr'. rewrite <- (reach_det _ _ _ _ _ Hrp tp' Hr').
    apply ent_write_same, set_in_use_uint; [|done]. apply ent_uint, ok_mem, (pt_bytes _ _ _ Hinv).
  - intros x j Hx Hj Hno. apply (ent_write_other s1); try done. by apply (Hno l tp).
Qed.

Lemma bumped_grown root T T' s s1 s2 v l e' t :
  pt_inv root T s → keeps T s s1 → grown T T' s s1 →
  reach (ent (pm_mem s)) root v l t → bumped root v l (ent (pm_mem s)) s1 s2 →
  grown T T' s (pm_set_mem (write_u64 (pm_mem s2) (t + 8 * vidx l v) e') s2).
Proof.
  intros Hinv Hk Hgr Hr Hb. pose proof (pt_graph _ _ _ Hinv) as Hg.
  apply (grown_store _ _ _ _ t l); [|by apply (reach_table _ _ _ _ _ _ Hg Hr)|apply vidx_range].
  destruct l as [|l]; cbn in Hb; [by subst s2|]. destruct Hb as (tp & Hrp & Hb).
  pose proof (reach_table _ _ _ _ _ _ Hg Hrp) as Htp.
  rewrite bump_in_use_eq in Hb by (apply vidx_range || by apply (Hk tp l)). apply Done_inj in Hb as <-.
  by apply (grown_store _ _ _ _ tp l); [|..|apply vidx_range].
Qed.

Lemma install_spec root T s s1 s2 v l t e' :
  pt_inv root T s → keeps T s s1 → pm_ok s1 →
  let E := ent (pm_mem s) in
  reach E root v l t → present (E t (vidx l v)) = false → is_uint 64 e' → present e' = true →
  bumped root v l E s1 s2 →
  let s' := pm_set_mem (write_u64 (pm_mem s2) (t + 8 * vidx l v) e') s2 in
  slot_update T E (ent (pm_mem s')) t l (vidx l v) ∧ ent (pm_mem s') t (vidx l v) = e' ∧
  pm_ok s' ∧ (∀ x, table_page s' x ↔ table_page s1 x) ∧
  (∀ c j, table_page s1 c → T !! c = None → slot_range j →
     ent (pm_mem s') c j = ent (pm_mem s1) c j).
Proof.
  intros Hinv Hk Hm1 E Hr Hnp He' Hpe Hb s'.
  destruct (bumped_ent root T s s1 s2 v l t Hinv Hk Hm1 Hr Hb) as (Hm2 & Hpg & Hpar & Hoth).
  pose proof (pt_graph _ _ _ Hinv) as Hg. pose proof (reach_table _ _ _ _ _ _ Hg Hr) as Ht.
  destruct (Hk t l Ht) as [Htp Hte]. pose proof (vidx_range l v) as Hi.
  assert (∀ x j, table_page s1 x → slot_range j → (x, j) ≠ (t, vidx l v) →
    ent (pm_mem s') x j = ent (pm_mem s2) x j) as Hw.
  { intros x j Hx Hj Hne. unfold s'. rewrite set_mem_mem.
    apply (ent_write_other s2); [by apply Hpg|by apply Hpg|done..]. }
  assert (ent (pm_mem s') t (vidx l v) = e') as Hhere
    by (unfold s'; rewrite set_mem_mem; by apply ent_write_same).
  split_and!; [|done|apply store_ok; [done|by apply Hpg|done]|..].
  - apply (slot_update_of root); [done|intros; by apply ent_uint, ok_mem, (pt_bytes _ _ _ Hinv)|done|..].
    + intros l' tp -> Hrp. rewrite Hhere, Hpe, Hnp, Hw, (Hpar l' tp) by
        (done || apply vidx_range || by apply (Hk tp l'), (reach_table _ _ _ _ _ _ Hg Hrp) ||
         (intros [= -> _]; pose proof (reach_table _ _ _ _ _ _ Hg Hrp) as Hl; rewrite Ht in Hl;
          injection Hl as Hl; lia)).
      f_equal. cbn. lia.
    + intros x k j Hx Hj Hne Hno. destruct (Hk x k Hx) as [Hxp Hxe].
      rewrite Hw, Hoth by done. by apply Hxe.
  - intros x. unfold s'. rewrite table_page_set_mem. apply Hpg.
  - intros c j Hc Hno Hj. rewrite Hw, Hoth; try done.
    + intros l' tp -> Hrp [= -> _]. by rewrite (reach_table _ _ _ _ _ _ Hg Hrp) in Hno.
    + intros [= -> _]. congruence.
Qed.

(** A slot update at a level below the root leaves the root's entries' bits. *)
Lemma no_large_root_update root T E E' t l i :
  graph root T E → no_large_root root E → slot_update T E E' t l i →
  (l = O → present (E' t i) = true → large (E' t i) = false) → no_large_root root E'.
Proof.
  intros Hg Hr Hu Hl j Hj Hp. pose proof (g_root _ _ _ Hg) as Hr0.
  destruct (decide ((root, j) = (t, i))) as [[= <- <-]|Hne].
  - apply Hl; [|done]. pose proof (su_table _ _ _ _ _ _ Hu) as Ht. congruence.
  - pose proof (su_shape _ _ _ _ _ _ Hu root 0%nat j Hr0 Hj Hne) as [= Hs1 Hs2 _].
    assert (present (E root j) = true) as Hp0 by congruence.
    unfold points in Hs2. rewrite Hp, Hp0, (Hr j Hj Hp0) in Hs2.
    by destruct (large (E' root j)).
Qed.

Lemma link_table root T s s1 s2 v l t c :
  pt_inv root T s → alloc_phys_zeroed 4096 4096 s = Done (s1, c) →
  let E := ent (pm_mem s) in
  reach E root v l t → (l < 3)%nat → present (E t (vidx l v)) = false →
  bumped root v l E s1 s2 →
  let s' := pm_set_mem (write_u64 (pm_mem s2) (t + 8 * vidx l v) (table_entry c)) s2 in
  let E' := ent (pm_mem s') in
  pt_inv root (<[c := S l]> T) s' ∧
  (∀ v', mmu_walk E' root v' = mmu_walk E root v') ∧
  (∀ k t', (k ≤ l)%nat → reach E root v k t' → reach E' root v k t') ∧
  reach E' root v (S l) c ∧ (∀ k t', reach E' root v k t' → (k ≤ S l)%nat) ∧
  (∀ v' k t', (S l < k)%nat → reach E' root v' k t' → reach E root v' k t') ∧
  (∀ v' k t', reach E root v' k t' → reach E' root v' k t') ∧
  grown T (<[c := S l]> T) s s'.
Proof.
  intros Hinv Ha E Hr Hl Hnp Hb s' E'. pose proof (pt_graph _ _ _ Hinv) as Hg.
  destruct (alloc_zeroed_keeps _ _ _ _ _ Hinv Ha) as (Hk & Hcp & Hcn & Hc52 & Hcz & Hm1 & Hgr).
  assert (c mod 4096 = 0) as Hca by apply Hcp.
  destruct (table_entry_spec c l Hca Hc52 Hl) as (Hu64 & Hpt & Hch & Hiu).
  destruct (install_spec root T s s1 s2 v l t (table_entry c) Hinv Hk Hm1 Hr Hnp Hu64
    (points_present _ _ Hpt) Hb) as (Hsu & Hhere & Hm' & Hpg & Hcj).
  change (slot_update T E E' t l (vidx l v)) in Hsu. change (E' t (vidx l v) = table_entry c) in Hhere.
  assert (∀ j, slot_range j → E' c j = 0) as Hz by (intros j Hj; unfold E'; by rewrite Hcj, Hcz).
  assert (points l (E t (vidx l v)) = false) as Hop by by apply not_present_not_points.
  assert (graph root (<[c := S l]> T) E') as Hg'.
  { pose proof (graph_update root T E E' t l (vidx l v) Hg Hsu) as Hgu.
    unfold update_tables in Hgu. rewrite Hop, !Hhere, Hpt, Hch in Hgu. apply Hgu; [done|]. by intros _. }
  assert (∀ k t', (k ≤ l)%nat → reach E root v k t' → reach E' root v k t') as Hkeep
    by (intros; by apply (reach_update root T E E' t l (vidx l v) Hg Hsu)).
  assert (∀ v', reach E root v' l t → vidx l v' = vidx l v → reach E' root v' (S l) c) as Hrc'.
  { intros v' Hr' Hi'. rewrite <- Hch, <- Hhere, <- Hi'. apply reach_step.
    - by apply (reach_update root T E E' t l (vidx l v) Hg Hsu).
    - by rewrite Hi', Hhere. }
  pose proof (Hrc' v Hr eq_refl) as Hrc.
  assert (∀ v' k t', reach E' root v' (S l) c → reach E' root v' k t' → (k ≤ S l)%nat) as Hstop.
  { intros v' k t' Hc' Hr'. destruct (decide (k ≤ S l)%nat); [done|].
    pose proof (reach_above _ _ _ _ _ Hr' (S l) c) as Hp. rewrite Hz in Hp by apply vidx_range.
    rewrite not_points_zero in Hp. exfalso. assert (S l < k)%nat as Hlt by lia. by specialize (Hp Hlt Hc'). }
  split_and!; try done.
  - split; [done| |..|done].
    + apply (no_large_root_update root T E E' t l (vidx l v)); try done; [apply (pt_root _ _ _ Hinv)|].
      intros _ _. rewrite Hhere. by apply (points_not_large l).
    + intros x k [[<- <-]|[_ Hx]]%lookup_insert_Some; [by apply Hpg|].
      apply Hpg. by apply (Hk x k).
  - intros v'. destruct (decide (agree_below l v v' ∧ vidx l v' = vidx l v)) as [[Ha1 Ha2]|Hno].
    + apply (reach_agree root T E v v' l t Hg Hr) in Ha1.
      rewrite (walk_update_same root T E E' t l (vidx l v) Hg Hsu v' Ha1), (gwalk_reach E root v' l t Ha1).
      replace (4 - l)%nat with (S (S (4 - S (S l)))) by lia. cbn [gwalk]. rewrite Ha2, Hnp. cbn [negb].
      rewrite Hhere, (points_present _ _ Hpt), Hpt, Hch. cbn [negb].
      rewrite Hz by apply vidx_range. done.
    + apply (walk_update_other root T E E' t l (vidx l v) Hg Hsu). intros [Hr' Hi']. apply Hno.
      split; [by apply (reach_agree root T E v v' l t Hg Hr)|done].
  - intros k t' Hr'. by apply (Hstop v k t').
  - intros v' k t' Hlt Hr'.
    destruct (reach_update_back root T E E' t l (vidx l v) Hg Hsu v' k t' Hr') as [|(_ & Hr2 & Hi2)]; [done|].
    pose proof (Hstop v' k t' (Hrc' v' Hr2 Hi2) Hr'). lia.
  - intros v' k t'. by apply (reach_update_keep root T E E' t l (vidx l v) Hg Hsu).
  - by apply (bumped_grown root T _ s s1).
Qed.

Lemma keeps_refl root T s : pt_inv root T s → keeps T s s.
Proof. intros Hinv t l Ht. split; [by apply (pt_page _ _ _ Hinv t l)|done]. Qed.

Lemma install_leaf root T s s2 v l t raw :
  pt_inv root T s →
  let E := ent (pm_mem s) in
  reach E root v l t → (1 ≤ l ≤ 3)%nat → present (E t (vidx l v)) = false →
  is_uint 64 raw → present raw = true → points l raw = false → bumped root v l E s s2 →
  let s' := pm_set_mem (write_u64 (pm_mem s2) (t + 8 * vidx l v) raw) s2 in
  let E' := ent (pm_mem s') in
  pt_inv root T s' ∧
  (∀ v', agree_below (S l) v v' → mmu_walk E' root v' = Some (l, raw)) ∧
  (∀ v', ~ agree_below (S l) v v' → mmu_walk E' root v' = mmu_walk E root v') ∧
  (∀ v' k t', (l < k)%nat → reach E' root v' k t' → reach E root v' k t') ∧
  (∀ v' k t', reach E root v' k t' → reach E' root v' k t') ∧ grown T T s s'.
Proof.
  intros Hinv E Hr Hl Hnp Hu64 Hpr Hleaf Hb s' E'. pose proof (pt_graph _ _ _ Hinv) as Hg.
  destruct (install_spec root T s s s2 v l t raw Hinv (keeps_refl _ _ _ Hinv) (pt_bytes _ _ _ Hinv)
    Hr Hnp Hu64 Hpr Hb) as (Hsu & Hhere & Hm' & Hpg & _).
  change (slot_update T E E' t l (vidx l v)) in Hsu. change (E' t (vidx l v) = raw) in Hhere.
  assert (points l (E t (vidx l v)) = false) as Hop by by apply not_present_not_points.
  split_and!.
  - split; [| |..|done].
    + pose proof (graph_update root T E E' t l (vidx l v) Hg Hsu) as Hgu.
      unfold update_tables in Hgu. rewrite Hop, !Hhere, Hleaf in Hgu. by apply Hgu.
    + apply (no_large_root_update root T E E' t l (vidx l v)); try done; [apply (pt_root _ _ _ Hinv)|lia].
    + intros x k Hx. by apply Hpg, (pt_page _ _ _ Hinv x k).
  - intros v' Ha. assert (reach E root v' l t) as Hr'.
    { apply (reach_agree root T E v v' l t Hg Hr). intros k Hk. apply Ha. lia. }
    rewrite (walk_update_same root T E E' t l (vidx l v) Hg Hsu v' Hr').
    replace (4 - l)%nat with (S (4 - S l)) by lia. cbn [gwalk].
    rewrite <- (Ha l), Hhere, Hpr, Hleaf by lia. cbn [negb].
    by rewrite (proj2 (Nat.eqb_neq l 0)) by lia.
  - intros v' Hno. apply (walk_update_other root T E E' t l (vidx l v) Hg Hsu).
    intros [Hr' Hi']. apply Hno. intros k Hk. destruct (decide (k = l)) as [->|]; [done|].
    apply (reach_agree root T E v v' l t Hg Hr); [done|lia].
  - intros v' k t' Hlt Hr'.
    destruct (reach_update_back root T E E' t l (vidx l v) Hg Hsu v' k t' Hr') as [|(_ & Hr2 & Hi2)]; [done|].
    assert (reach E' root v' l t) as Hr3 by by apply (reach_update root T E E' t l (vidx l v) Hg Hsu).
    pose proof (reach_above _ _ _ _ _ Hr' l t Hlt Hr3) as Hp. rewrite Hi2, Hhere in Hp. congruence.
  - intros v' k t'. by apply (reach_update_keep root T E E' t l (vidx l v) Hg Hsu).
  - apply (bumped_grown root T T s s); try done; [by apply (keeps_refl root)|apply grown_refl].
Qed.

(** ** map_raw *)

(** An entry on the path of an unmapped address is not present or leads on. *)
Lemma unmapped_entry root T s v l t :
  pt_inv root T s → mmu_walk (ent (pm_mem s)) root v = None →
  reach (ent (pm_mem s)) root v l t → points l (ent (pm_mem s) t (vidx l v)) = false →
  present (ent (pm_mem s) t (vidx l v)) = false.
Proof.
  intros Hinv Hw Hr Hp. destruct (present (ent (pm_mem s) t (vidx l v))) eqn:Hpr; [exfalso|done].
  pose proof (reach_table _ _ _ _ _ _ (pt_graph _ _ _ Hinv) Hr) as Ht.
  pose proof (g_level _ _ _ (pt_graph _ _ _ Hinv) t l Ht) as Hl.
  rewrite (gwalk_reach _ _ _ _ _ Hr) in Hw. replace (4 - l)%nat with (S (4 - S l)) in Hw by lia.
  cbn [gwalk] in Hw. rewrite Hpr, Hp in Hw. cbn [negb] in Hw.
  destruct (Nat.eqb_spec l 0) as [->|]; [|done]. inversion Hr; subst t.
  assert ((0 =? 3)%nat || large (ent (pm_mem s) root (vidx 0 v)) = true) as Hlarge
    by (apply leaf_entry; [lia|done|done]).
  cbn [Nat.eqb orb] in Hlarge. rewrite (pt_root _ _ _ Hinv) in Hlarge; [done|apply vidx_range|done].
Qed.

(** The code panics (or diverges) only where an allocation or [free_phys] does. *)
Definition only_alloc_fails {A} (o : outcome A) : Prop :=
  match o with
  | Done _ => True
  | Panic msg => (∃ (s : P) size, pm_alloc_phys size size s = Panic msg) ∨
                 (∃ (s : P) a size, pm_free_phys a size s = Panic msg)
  | OutOfFuel => (∃ (s : P) size, pm_alloc_phys size size s = OutOfFuel) ∨
                 (∃ (s : P) a size, pm_free_phys a size s = OutOfFuel)
  end.

Lemma alloc_zeroed_cases root T s : pt_inv root T s →
  (∃ s' c, alloc_phys_zeroed 4096 4096 s = Done (s', c)) ∨
  (∀ A (f : P * Z → outcome A), only_alloc_fails (alloc_phys_zeroed 4096 4096 s ≫= f) ∧
     ∀ a, alloc_phys_zeroed 4096 4096 s ≫= f ≠ Done a).
Proof.
  intros Hinv. unfold alloc_phys_zeroed.
  destruct (pm_alloc_phys 4096 4096 s) as [[s1 c]|msg|] eqn:Ea; cbn [mbind outcome_bind].
  - left. destruct (alloc_spec 12 _ _ _ (pt_bytes _ _ _ Hinv) ltac:(lia) Ea) as (_ & _ & _ & Hb & _).
    rewrite translate_returns by (lia || (intros x Hx; by apply Hb)). by eexists _, _.
  - right. intros A f. split; [left; by exists s, 4096|done].
  - right. intros A f. split; [left; by exists s, 4096|done].
Qed.

(** The entry list after a table was linked below level [l]. *)
Lemma entries_match_link E E' root v es l c :
  entries_match E root v es → (l < 3)%nat →
  (∃ t, reach E root v l t) →
  (∀ k t, (k ≤ l)%nat → reach E root v k t → reach E' root v k t) →
  reach E' root v (S l) c → (∀ k t, reach E' root v k t → (k ≤ S l)%nat) →
  (∀ t, ~ reach E root v (S l) t) →
  entries_match E' root v (<[S l := Some (c + 8 * vidx (S l) v)]> es).
Proof.
  intros (Hlen & Hyes & Hno) Hl [t Hr] Hkeep Hc Hbound Hnone. split; [by rewrite length_insert|]. split.
  - intros k t' Hk Hr'. destruct (decide (k = S l)) as [->|Hne].
    + rewrite list_lookup_insert_eq by lia. by rewrite (reach_det _ _ _ _ _ Hc t' Hr').
    + rewrite list_lookup_insert_ne by done. pose proof (Hbound k t' Hr') as Hb.
      assert (∃ t2, reach E root v k t2) as [t2 Hr2].
      { clear -Hr Hb Hne. assert (k ≤ l)%nat as Hle by lia. clear Hb Hne.
        revert k Hle. induction Hr as [|l t Hr IH Hp]; intros k Hle.
        - assert (k = 0)%nat as -> by lia. eexists. constructor.
        - destruct (decide (k = S l)) as [->|]; [eexists; by constructor|]. apply IH. lia. }
      rewrite (reach_det _ _ _ _ _ Hr' t2); [by apply Hyes|]. apply Hkeep; [lia|done].
  - intros k Hk Hno'. destruct (decide (k = S l)) as [->|Hne]; [by destruct (Hno' c)|].
    rewrite list_lookup_insert_ne by done. apply Hno; [done|]. intros t' Hr'.
    destruct (decide (k ≤ l)%nat); [by apply (Hno' t'), Hkeep|].
    pose proof (reach_above _ _ _ _ _ Hr' l t) as Hp.
    apply (Hnone (child (E t (vidx l v)))). constructor; [done|]. apply Hp; [lia|done].
Qed.

(** The code of one iteration that links a table. *)
Lemma map_tables_link root T s v es l t s1 c iis :
  pt_inv root T s → let E := ent (pm_mem s) in
  entries_match E root v es → reach E root v l t → (l < 3)%nat →
  (∀ t', ~ reach E root v (S l) t') →
  alloc_phys_zeroed 4096 4096 s = Done (s1, c) →
  ∃ s2, bumped root v l E s1 s2 ∧
  map_tables (S l :: iis) (indicies v) es s =
  map_tables iis (indicies v) (<[S l := Some (c + 8 * vidx (S l) v)]> es)
    (pm_set_mem (write_u64 (pm_mem s2) (t + 8 * vidx l v) (table_entry c)) s2).
Proof.
  intros Hinv E Hes Hr Hl Hnone Ha. destruct Hes as (Hlen & Hyes & Hno).
  pose proof (pt_graph _ _ _ Hinv) as Hg.
  destruct (alloc_zeroed_keeps _ _ _ _ _ Hinv Ha) as (Hk & Hcp & _).
  destruct (Hk t l (reach_table _ _ _ _ _ _ Hg Hr)) as [Htp _].
  cbn [map_tables]. rewrite (index_eq es (S l) None) by (apply Hno; (done || lia)).
  rewrite bind_Done_l, Ha, bind_Done_l. replace (S l - 1)%nat with l by lia.
  rewrite (index_eq es l (Some (t + 8 * vidx l v))) by (apply Hyes; (done || lia)).
  rewrite bind_Done_l. cbn [unwrap expect]. rewrite bind_Done_l.
  rewrite translate_slot, bind_Done_l by (done || apply vidx_range).
  assert (∃ s2, bumped root v l E s1 s2 ∧
    (if (2 <=? S l)%nat then
       prev ← index es (S l - 2);
       prev ← unwrap prev; bump_in_use prev s1
     else Done s1) = Done s2) as (s2 & Hb & ->).
  { destruct l as [|l]; [by exists s1|].
    destruct (reach_parent _ _ _ _ _ Hr) as (tp & Hrp & _).
    destruct (Hk tp l (reach_table _ _ _ _ _ _ Hg Hrp)) as [Htpp _].
    cbn [Nat.leb]. replace (S (S l) - 2)%nat with l by lia.
    rewrite (index_eq es l (Some (tp + 8 * vidx l v))) by (apply Hyes; (done || lia)).
    rewrite bind_Done_l. cbn [unwrap expect]. rewrite bind_Done_l.
    pose proof (bump_in_use_eq s1 tp (vidx l v) Htpp (vidx_range l v)) as Hbe.
    eexists. split; [|exact Hbe]. by exists tp. }
  exists s2. split; [done|]. rewrite bind_Done_l.
  rewrite (index_eq (indicies v) (S l) (vidx (S l) v))
    by (clear -Hl; do 3 (destruct l as [|l]; [done|]); lia).
  rewrite bind_Done_l, index_set_eq, bind_Done_l by lia.
  rewrite slot_addr by (apply vidx_range || apply Hcp). done.
Qed.

Lemma map_tables_spec root v d n : ∀ ii T s es,
  pt_inv root T s → let E := ent (pm_mem s) in
  (1 ≤ ii)%nat → (ii + n = d)%nat → (d ≤ 4)%nat →
  entries_match E root v es → mmu_walk E root v = None →
  (∃ t, reach E root v (ii - 1) t) → (∀ k t, reach E root v k t → (k < d)%nat) →
  let o := map_tables (seq ii n) (indicies v) es s in
  (only_alloc_fails o ∧ ∀ a, o ≠ Done a) ∨
  ∃ s' T' es' t, o = Done (s', es') ∧ pt_inv root T' s' ∧
    let E' := ent (pm_mem s') in
    entries_match E' root v es' ∧ (∀ v', mmu_walk E' root v' = mmu_walk E root v') ∧
    reach E' root v (d - 1) t ∧ (∀ k t, reach E' root v k t → (k < d)%nat) ∧
    (∀ v' k t', (d ≤ k)%nat → reach E' root v' k t' → reach E root v' k t') ∧
    (∀ v' k t', reach E root v' k t' → reach E' root v' k t') ∧ grown T T' s s'.
Proof.
  induction n as [|n IH]; intros ii T s es Hinv E Hii Hd Hd4 Hes Hw [t Hr] Hb.
  { right. exists s, T, es, t. replace (d - 1)%nat with (ii - 1)%nat by lia.
    cbn zeta. split_and!; try done. apply grown_refl. }
  cbn [seq]. cbn zeta. destruct ii as [|l]; [lia|]. replace (S l - 1)%nat with l in Hr by lia.
  destruct (points l (E t (vidx l v))) eqn:Hp.
  - (* the table is there *)
    assert (reach E root v (S l) (child (E t (vidx l v)))) as Hr' by by constructor.
    cbn [map_tables]. rewrite (index_eq es (S l) (Some (child (E t (vidx l v)) + 8 * vidx (S l) v)))
      by (apply Hes; (done || lia)).
    rewrite bind_Done_l. apply (IH (S (S l)) T s es Hinv); try done; try lia.
    by eexists.
  - assert (∀ t', ~ reach E root v (S l) t') as Hnone.
    { intros t' Hr'. assert (l < S l)%nat as Hlt by lia.
      pose proof (reach_above _ _ _ _ _ Hr' l t Hlt Hr). congruence. }
    pose proof (unmapped_entry root T s v l t Hinv Hw Hr Hp) as Hnp.
    assert (l < 3)%nat as Hl3 by lia.
    destruct (alloc_zeroed_cases root T s Hinv) as [(s1 & c & Ha)|Hfail].
    + destruct (map_tables_link root T s v es l t s1 c (seq (S (S l)) n) Hinv Hes Hr Hl3 Hnone Ha)
        as (s2 & Hbump & ->).
      destruct (link_table root T s s1 s2 v l t c Hinv Ha Hr Hl3 Hnp Hbump)
        as (Hinv' & Hw' & Hkeep & Hrc & Hbound & Hback & Hfwd & Hgr).
      set (s' := pm_set_mem _ _) in *.
      destruct (IH (S (S l)) _ s' (<[S l := Some (c + 8 * vidx (S l) v)]> es) Hinv') as [Hf|Hok];
        try done; try lia; [..|by left|].
      * apply (entries_match_link E _ root v es l c); try done. by exists t.
      * by rewrite Hw'.
      * by exists c.
      * intros k t' Hr'. specialize (Hbound k t' Hr'). lia.
      * right. destruct Hok as (s3 & T3 & es3 & t3 & Ho & Hi3 & He3 & Hw3 & Hr3 & Hb3 & Hk3 & Hf3 & Hg3).
        exists s3, T3, es3, t3. cbn zeta. split_and!; try done.
        -- intros v'. by rewrite Hw3.
        -- intros v' k t' Hk Hr'. apply (Hback v' k t'); [lia|]. by apply Hk3.
        -- intros v' k t' Hr'. by apply Hf3, Hfwd.
        -- by apply (grown_trans _ (<[c := S l]> T) _ _ s').
    + left. cbn [map_tables]. rewrite (index_eq es (S l) None) by (apply Hes; (done || lia)).
      rewrite bind_Done_l. apply Hfail.
Qed.

Definition type_level (ty : PageType) : nat := (type_depth ty - 1)%nat.

Lemma type_level_range ty : (1 ≤ type_level ty ≤ 3)%nat.
Proof. destruct ty; cbn; lia. Qed.

(** What [map_raw] requires: a valid entry, a canonical address, nothing
    mapped there, and no table where a large page is to go. *)
Definition mappable (E : entries) (root v : Z) (ty : PageType) (raw : Z) : Prop :=
  present raw = true ∧ (ty ≠ Page4K → large raw = true) ∧ canonical v ∧
  mmu_walk E root v = None ∧ ∀ t, ~ reach E root v (S (type_level ty)) t.

Lemma leaf_raw ty raw : (ty ≠ Page4K → large raw = true) → points (type_level ty) raw = false.
Proof.
  intros Hl. unfold points. destruct ty; cbn [type_level type_depth Nat.sub].
  - by rewrite andb_false_r.
  - rewrite Hl by done. by rewrite andb_false_r.
  - rewrite Hl by done. by rewrite andb_false_r.
Qed.

Lemma reach_below_4 E root v k t : reach E root v k t → (k < 4)%nat.
Proof. intros Hr. inversion Hr as [|l t' Hr' Hp]; [lia|]. apply points_level in Hp. lia. Qed.

Lemma raw_guard ty raw :
  (Z.land raw PAGE_PRESENT =? 0) ||
    (bool_decide (ty ≠ Page4K) && (Z.land raw PAGE_SIZE =? 0)) = false ↔
  present raw = true ∧ (ty ≠ Page4K → large raw = true).
Proof.
  rewrite present_eq, large_eq, orb_false_iff, andb_false_iff, !negb_false_iff, bool_decide_eq_false.
  destruct (decide (ty = Page4K)); naive_solver.
Qed.

Lemma walk_page_None v w : walk_page v w = None ↔ w = None.
Proof. destruct w as [[l e]|]; naive_solver. Qed.

Lemma map_raw_refuses root T s v ty raw :
  pt_inv root T s → is_uint 64 v → ~ mappable (ent (pm_mem s)) root v ty raw →
  map_raw root v ty raw s = Done (s, None).
Proof.
  intros Hinv Hv Hno. unfold map_raw.
  destruct (_ || _) eqn:Hg; [done|]. apply raw_guard in Hg as [Hp Hl].
  destruct (decide (canonicalize_address v = v)) as [Hc|Hc].
  2:{ rewrite translate_noncanonical; [done|done|]. by rewrite <- canonicalize_id. }
  apply canonicalize_id in Hc; [|done].
  destruct (translate_correct root T s v Hinv Hc) as (mp & -> & Hpage & Hes).
  rewrite bind_Done_l. destruct (page mp) as [pg|]; [done|]. symmetry in Hpage.
  apply walk_page_None in Hpage.
  change [pml4e mp; pdpe mp; pde mp; pte mp] with (entry_list mp).
  assert (type_depth ty = S (type_level ty)) as -> by by destruct ty.
  destruct (entry_list mp !! S (type_level ty)) as [[a|]|] eqn:He; [done|exfalso; apply Hno..];
    split_and!; try done; intros t Hr; destruct Hes as (_ & Hyes & _);
    by rewrite (Hyes _ _ (reach_below_4 _ _ _ _ _ Hr) Hr) in He.
Qed.

Lemma map_raw_maps root T s v ty raw :
  pt_inv root T s → is_uint 64 raw → mappable (ent (pm_mem s)) root v ty raw →
  let E := ent (pm_mem s) in let l := type_level ty in
  let o := map_raw root v ty raw s in
  (only_alloc_fails o ∧ ∀ a, o ≠ Done a) ∨
  ∃ s' T', o = Done (s', Some tt) ∧ pt_inv root T' s' ∧
    let E' := ent (pm_mem s') in
    (∀ v', agree_below (S l) v v' → mmu_walk E' root v' = Some (l, raw)) ∧
    (∀ v', ~ agree_below (S l) v v' → mmu_walk E' root v' = mmu_walk E root v') ∧
    (∀ v' k t', (l < k)%nat → reach E' root v' k t' → reach E root v' k t') ∧
    (∀ v' k t', reach E root v' k t' → reach E' root v' k t') ∧ grown T T' s s'.
Proof.
  intros Hinv Hu (Hp & Hl & Hc & Hw & Hnone) E l. cbn zeta. unfold map_raw.
  pose proof (type_level_range ty) as Hlr. pose proof (leaf_raw ty raw Hl) as Hleaf.
  assert (type_depth ty = S l) as Hd by (by destruct ty).
  rewrite (proj2 (raw_guard ty raw) (conj Hp Hl)), Hd.
  fold l in Hlr, Hleaf, Hnone. clearbody l.
  destruct (translate_correct root T s v Hinv Hc) as (mp & -> & Hpage & Hes).
  fold E in Hes, Hpage, Hw, Hnone. rewrite bind_Done_l, Hpage, Hw. cbn [walk_page].
  change [pml4e mp; pdpe mp; pde mp; pte mp] with (entry_list mp).
  replace (S l - 1)%nat with l by lia. replace (S l - 2)%nat with (l - 1)%nat by lia.
  assert (∀ a, entry_list mp !! S l ≠ Some (Some a)) as Hnt.
  { intros a Ha. destruct Hes as (Hlen & Hyes & Hno). apply lookup_lt_Some in Ha as Hlt.
    rewrite (Hno (S l)) in Ha by (done || lia). done. }
  assert (pml4e mp = Some (root + 8 * vidx 0 v)) as Hp4.
  { destruct Hes as (_ & Hyes & _). specialize (Hyes 0%nat root ltac:(lia) (reach_root _ _ _)).
    by injection Hyes. }
  destruct (map_tables_spec root v (S l) l 1 T s (entry_list mp) Hinv) as [Hf|Hok];
    try done; try lia; [by exists root; constructor| |..].
  { intros k t Hr. destruct (decide (k < S l)%nat); [done|exfalso].
    assert (∃ t', reach E root v (S l) t') as [t' Hr']; [|by apply (Hnone t')].
    clear -Hr n. revert n. induction Hr as [|k t Hr IH Hpt]; intros n; [lia|].
    destruct (decide (k = l)) as [->|]; [eexists; by constructor|]. apply IH. lia. }
  - (* an allocation failed *)
    left. destruct (entry_list mp !! S l) as [[a|]|] eqn:He; [by destruct (Hnt a)|..];
      rewrite Hp4, bool_decide_true by (by eexists); cbn [assert]; rewrite bind_Done_l;
      destruct Hf as [Hf1 Hf2]; destruct (map_tables _ _ _ s) as [x| |]; try done; by destruct (Hf2 x).
  - right. destruct Hok as (s1 & T1 & es1 & t & Ho & Hinv1 & Hes1 & Hw1 & Hr1 & Hb1 & Hk1 & Hf1 & Hg1).
    replace (S l - 1)%nat with l in Hr1 by lia. set (E1 := ent (pm_mem s1)) in *.
    assert (points l (E1 t (vidx l v)) = false) as Hnpt.
    { destruct (points l (E1 t (vidx l v))) eqn:Hpt; [exfalso|done].
      assert (reach E1 root v (S l) (child (E1 t (vidx l v)))) as Hr2 by by constructor.
      specialize (Hb1 _ _ Hr2). lia. }
    pose proof (unmapped_entry root T1 s1 v l t Hinv1 ltac:(by rewrite Hw1) Hr1 Hnpt) as Hnp.
    destruct l as [|l']; [lia|].
    destruct (reach_parent _ _ _ _ _ Hr1) as (tp & Hrp & _).
    pose proof (pt_page _ _ _ Hinv1 tp l' (reach_table _ _ _ _ _ _ (pt_graph _ _ _ Hinv1) Hrp)) as Htp.
    pose proof (pt_page _ _ _ Hinv1 t (S l') (reach_table _ _ _ _ _ _ (pt_graph _ _ _ Hinv1) Hr1)) as Htt.
    pose proof (bump_in_use_eq s1 tp (vidx l' v) Htp (vidx_range l' v)) as Hbump.
    set (s2 := pm_set_mem _ s1) in Hbump.
    destruct (install_leaf root T1 s1 s2 v (S l') t raw Hinv1 Hr1 Hlr Hnp Hu Hp)
      as (Hinv2 & Hsame & Hother & Hback & Hfwd & Hg2); [done|by exists tp|].
    eexists _, T1. split; [|split; [exact Hinv2|split; [exact Hsame|split_and!]]].
    2:{ intros v' Hv'. by rewrite Hother, Hw1. }
    2:{ intros v' k t' Hk Hr'. apply Hk1; [lia|]. by apply Hback. }
    2:{ intros v' k t' Hr'. by apply Hfwd, Hf1. }
    2:{ by apply (grown_trans _ T1 _ _ s1). }
    destruct (entry_list mp !! S (S l')) as [[a|]|] eqn:He; [by destruct (Hnt a)|..];
      rewrite Hp4, bool_decide_true by (by eexists); cbn [assert]; rewrite bind_Done_l, Ho, bind_Done_l; replace (S l' - 1)%nat with l' by lia.
    all: rewrite (index_eq es1 l' (Some (tp + 8 * vidx l' v))) by (apply Hes1; (done || lia)).
    all: rewrite bind_Done_l; cbn [unwrap expect]; rewrite bind_Done_l, Hbump, bind_Done_l.
    all: rewrite (index_eq es1 (S l') (Some (t + 8 * vidx (S l') v))) by (apply Hes1; (done || lia)).
    all: rewrite bind_Done_l; cbn [unwrap expect]; rewrite bind_Done_l; unfold store_u64.
    all: rewrite translate_slot by (apply vidx_range || by apply table_page_set_mem).
    all: done.
Qed.

(** ** free *)

(** Clearing an entry that leads nowhere, and one less in the count above. *)
Lemma clear_entry root T E E' v l t :
  graph root T E → (∀ x j, is_uint 64 (E x j)) → reach E root v l t →
  present (E t (vidx l v)) = true → points l (E t (vidx l v)) = false → E' t (vidx l v) = 0 →
  (∀ l' tp, l = S l' → reach E root v l' tp →
     E' tp (vidx l' v) = set_in_use (E tp (vidx l' v)) (in_use (E tp (vidx l' v)) - 1)) →
  (∀ x k j, T !! x = Some k → slot_range j → (x, j) ≠ (t, vidx l v) →
     (∀ l' tp, l = S l' → reach E root v l' tp → (x, j) ≠ (tp, vidx l' v)) → E' x j = E x j) →
  graph root T E' ∧ slot_update T E E' t l (vidx l v) ∧
  (∀ v', agree_below (S l) v v' → mmu_walk E' root v' = None) ∧
  (∀ v', ~ agree_below (S l) v v' → mmu_walk E' root v' = mmu_walk E root v').
Proof.
  intros Hg Hu Hr Hp Hnp Hhere Hpar Hoth.
  assert (slot_update T E E' t l (vidx l v)) as Hsu.
  { apply (slot_update_of root); try done. intros l' tp Hl Hrp. rewrite (Hpar l' tp Hl Hrp), Hhere, Hp.
    f_equal. cbn. lia. }
  split_and!; [|done|..].
  - pose proof (graph_update root T E E' t l (vidx l v) Hg Hsu) as Hgu.
    unfold update_tables in Hgu. rewrite Hhere, Hnp, not_points_zero in Hgu. by apply Hgu.
  - intros v' Ha. apply (uses_slot root T E v v' l t Hg Hr) in Ha as [Hr' Hi'].
    rewrite (walk_update_same root T E E' t l (vidx l v) Hg Hsu v' Hr').
    pose proof (reach_below_4 _ _ _ _ _ Hr) as Hl. replace (4 - l)%nat with (S (4 - S l)) by lia.
    cbn [gwalk]. by rewrite Hi', Hhere.
  - intros v' Hno. apply (walk_update_other root T E E' t l (vidx l v) Hg Hsu).
    by rewrite (uses_slot root T E v v' l t Hg Hr).
Qed.

(** In the middle of [free]: the entry of [v] at level [l] is about to be
    cleared, the table it led to is already gone.  [E] is the graph to come,
    with a placeholder in that entry. *)
Record hole_inv (root : Z) (T : tables) (E : entries) (v : Z) (l : nat) (t : Z) (s : P) : Prop := {
  hi_graph : graph root T E;
  hi_reach : reach E root v l t;
  hi_present : present (E t (vidx l v)) = true;
  hi_leaf : points l (E t (vidx l v)) = false;
  hi_root i : slot_range i → (root, i) ≠ (t, vidx l v) → present (E root i) = true →
    large (E root i) = false;
  hi_page x k : T !! x = Some k → table_page s x;
  hi_ent x k j : T !! x = Some k → slot_range j → (x, j) ≠ (t, vidx l v) →
    ent (pm_mem s) x j = E x j;
  hi_u64 x j : is_uint 64 (E x j);
  hi_bytes : pm_ok s;
}.

(** The entries from level [l] up to the root. *)
Definition path_entries (E : entries) (root v : Z) (l : nat) (es : list Z) : Prop :=
  length es = S l ∧
  ∀ k t, (k ≤ l)%nat → reach E root v k t → es !! (l - k)%nat = Some (t + 8 * vidx k v).

Lemma store_slot s t i v : table_page s t → slot_range i →
  store_u64 (t + 8 * i) v s = Done (pm_set_mem (write_u64 (pm_mem s) (t + 8 * i) v) s).
Proof. intros. unfold store_u64. by rewrite translate_slot. Qed.

Lemma slot_table_addr t i : 0 < t → t + 4096 ≤ 2 ^ 52 → t mod 4096 = 0 → slot_range i →
  Z.land (t + 8 * i) (bnot 64 0xfff) = t.
Proof.
  intros H1 H2 H3 Hi. unfold slot_range in Hi. change 0xfff with (2 ^ 12 - 1).
  rewrite align_down by (unfold is_uint; lia). change (2 ^ 12) with 4096.
  rewrite <- Z.add_mod_idemp_l, H3, Z.add_0_l by lia. rewrite Z.mod_small by lia. lia.
Qed.

(** Freed memory is no table's: the other tables are as they were. *)
Lemma free_keeps s s' a k T :
  pm_ok s → 12 ≤ k < 32 → 0 < a → a mod 2 ^ k = 0 →
  (∀ x, in_block a (2 ^ k) x → ~ pm_free s x ∧ pm_window s x) → pm_free_phys a (2 ^ k) s = Done s' →
  (∀ t l, T !! t = Some l → table_page s t ∧ ∀ x, in_block t 4096 x → ~ in_block a (2 ^ k) x) →
  keeps T s s' ∧ pm_ok s'.
Proof.
  intros Hok Hk Ha Hal Huse Hf HT. destruct (free_spec _ _ _ _ Hok Hk Ha Hal Huse Hf) as (Hfr & Hw & Hm & Hb). split; [|done].
  intros t l Ht. destruct (HT t l Ht) as [(P1 & P2 & P3 & P4) Hno]. split.
  - do 3 (split; [done|]). intros x Hx. destruct (P4 x Hx). split; [|by apply Hw].
    rewrite Hfr. intros [|]; [done|]. by apply (Hno x Hx).
  - intros j Hj. apply ent_ext; [|done]. intros x Hx. apply Hm. rewrite Hfr.
    intros [|]; [by apply (P4 x Hx)|by apply (Hno x Hx)].
Qed.

(** The memory that is free after tables were removed. *)
Definition freed_tables (T T' : tables) (s s' : P) : Prop :=
  T' ⊆ T ∧ (∀ x, pm_window s' x ↔ pm_window s x) ∧
  ∀ x, pm_free s' x ↔ pm_free s x ∨ ∃ t l, T !! t = Some l ∧ T' !! t = None ∧ in_block t 4096 x.

(** The state after the entry was cleared. *)
Definition cleared (t i : Z) (s : P) : P :=
  pm_set_mem (write_u64 (pm_mem s) (t + 8 * i) 0) s.

Lemma cleared_ent root T E v l t s : hole_inv root T E v l t s →
  let s1 := cleared t (vidx l v) s in
  ent (pm_mem s1) t (vidx l v) = 0 ∧ pm_ok s1 ∧
  (∀ x, table_page s1 x ↔ table_page s x) ∧
  (∀ x k j, T !! x = Some k → slot_range j → (x, j) ≠ (t, vidx l v) → ent (pm_mem s1) x j = E x j).
Proof.
  intros Hi s1. pose proof (reach_table _ _ _ _ _ _ (hi_graph _ _ _ _ _ _ _ Hi) (hi_reach _ _ _ _ _ _ _ Hi)) as Ht.
  pose proof (hi_page _ _ _ _ _ _ _ Hi t l Ht) as Hp. unfold s1, cleared. rewrite set_mem_mem. split_and!.
  - by apply ent_write_same.
  - apply store_ok; [apply (hi_bytes _ _ _ _ _ _ _ Hi)|done|apply vidx_range].
  - intros x. apply table_page_set_mem.
  - intros x k j Hx Hj Hne. rewrite (ent_write_other s).
    + by apply (hi_ent _ _ _ _ _ _ _ Hi x k j).
    + done.
    + by apply (hi_page _ _ _ _ _ _ _ Hi x k).
    + apply vidx_range.
    + done.
    + done.
Qed.

(** Clearing ends: the memory is a page table again. *)
Lemma hole_closed root T E v l t s s' :
  hole_inv root T E v l t s → pm_ok s' → (∀ x, table_page s' x ↔ table_page s x) →
  let E' := ent (pm_mem s') in
  E' t (vidx l v) = 0 →
  (∀ l' tp, l = S l' → reach E root v l' tp →
     E' tp (vidx l' v) = set_in_use (E tp (vidx l' v)) (in_use (E tp (vidx l' v)) - 1)) →
  (∀ x k j, T !! x = Some k → slot_range j → (x, j) ≠ (t, vidx l v) →
     (∀ l' tp, l = S l' → reach E root v l' tp → (x, j) ≠ (tp, vidx l' v)) → E' x j = E x j) →
  pt_inv root T s' ∧
  (∀ v', agree_below (S l) v v' → mmu_walk E' root v' = None) ∧
  (∀ v', ~ agree_below (S l) v v' → mmu_walk E' root v' = mmu_walk E root v').
Proof.
  intros Hi Hm Hpg E' Hhere Hpar Hoth. pose proof (hi_graph _ _ _ _ _ _ _ Hi) as Hg.
  destruct (clear_entry root T E E' v l t Hg (hi_u64 _ _ _ _ _ _ _ Hi) (hi_reach _ _ _ _ _ _ _ Hi)
    (hi_present _ _ _ _ _ _ _ Hi) (hi_leaf _ _ _ _ _ _ _ Hi) Hhere Hpar Hoth) as (Hg' & Hsu & Hw1 & Hw2).
  split; [|done]. split; [done| |intros x k Hx; by apply Hpg, (hi_page _ _ _ _ _ _ _ Hi x k)|done].
  intros j Hj Hp. fold E' in Hp |- *. destruct (decide ((root, j) = (t, vidx l v))) as [[= -> ->]|Hne].
  { by rewrite Hhere in Hp. }
  pose proof (su_shape _ _ _ _ _ _ Hsu root 0%nat j (g_root _ _ _ Hg) Hj Hne) as [= Hs1 Hs2 _].
  assert (present (E root j) = true) as Hp0 by congruence.
  unfold points in Hs2. rewrite Hp, Hp0, (hi_root _ _ _ _ _ _ _ Hi j Hj Hne Hp0) in Hs2.
  by destruct (large (E' root j)).
Qed.

Lemma freed_tables_refl T s s' :
  (∀ x, pm_free s' x ↔ pm_free s x) → (∀ x, pm_window s' x ↔ pm_window s x) → freed_tables T T s s'.
Proof.
  intros Hf Hw. split; [done|]. split; [done|]. intros x. rewrite Hf. split; [by left|].
  intros [|(t & l & Ht & Hn & _)]; [done|congruence].
Qed.

Lemma freed_tables_cut T T' t l s s2 s' :
  T !! t = Some l → freed_tables (delete t T) T' s2 s' →
  (∀ x, pm_free s2 x ↔ pm_free s x ∨ in_block t 4096 x) → (∀ x, pm_window s2 x ↔ pm_window s x) →
  freed_tables T T' s s'.
Proof.
  intros Ht (Hsub & Hw' & Hf') Hf Hw. split; [|split].
  - etrans; [exact Hsub|]. apply delete_subseteq.
  - intros x. by rewrite Hw', Hw.
  - intros x. rewrite Hf', Hf. split.
    + intros [[|Hb]|(t' & l' & [Hne Ht']%lookup_delete_Some & Hn & Hb)]; [by left|..].
      * right. exists t, l. split_and!; try done. apply eq_None_not_Some. intros [k Hk].
        apply (lookup_weaken _ _ _ _ Hk) in Hsub. by rewrite lookup_delete_eq in Hsub.
      * right. by exists t', l'.
    + intros [|(t' & l' & Ht' & Hn & Hb)]; [by left; left|].
      destruct (decide (t' = t)) as [->|]; [by left; right|].
      right. exists t', l'. by rewrite lookup_delete_ne.
Qed.

Lemma table_blocks_apart s t t' x : table_page s t → table_page s t' → t ≠ t' →
  in_block t 4096 x → ~ in_block t' 4096 x.
Proof.
  intros (_ & _ & Ht & _) (_ & _ & Ht' & _) Hne Hx Hx'. unfold in_block in *.
  apply Z.mod_divide in Ht as [q ->]; [|lia]. apply Z.mod_divide in Ht' as [q' ->]; [|lia].
  assert (q ≠ q') by congruence. lia.
Qed.

(** The table below the entry is freed: the hole moves one level up. *)
Lemma hole_up root T E v l t tp s s2 :
  hole_inv root T E v (S l) t s → reach E root v l tp → count E t = 1%nat →
  pm_free_phys t 4096 (cleared t (vidx (S l) v) s) = Done s2 →
  let E' := set_slot E tp (vidx l v) hole_entry in
  hole_inv root (delete t T) E' v l tp s2 ∧
  (∀ v', ~ agree_below (S l) v v' → mmu_walk E' root v' = mmu_walk E root v') ∧
  (∀ v', agree_below (S l) v v' → ~ agree_below (S (S l)) v v' → mmu_walk E root v' = None) ∧
  (∀ x, pm_free s2 x ↔ pm_free s x ∨ in_block t 4096 x) ∧ (∀ x, pm_window s2 x ↔ pm_window s x).
Proof.
  intros Hi Hrp Hcount Hf E'. pose proof (hi_graph _ _ _ _ _ _ _ Hi) as Hg.
  pose proof (hi_reach _ _ _ _ _ _ _ Hi) as Hr.
  destruct (reach_parent _ _ _ _ _ Hr) as (tp' & Hrp' & Hp & Hc).
  rewrite <- (reach_det _ _ _ _ _ Hrp tp' Hrp') in Hp, Hc. clear tp' Hrp'.
  destruct (cut_table root T E v l t tp Hg Hrp Hp (eq_sym Hc) Hcount (hi_present _ _ _ _ _ _ _ Hi)
    (hi_leaf _ _ _ _ _ _ _ Hi)) as (Hg' & Hr' & Hw1 & Hw2).
  destruct (cleared_ent root T E v (S l) t s Hi) as (_ & Hm1 & Hpg1 & He1).
  pose proof (reach_table _ _ _ _ _ _ Hg Hr) as Ht.
  set (s1 := cleared t (vidx (S l) v) s) in *.
  destruct (proj2 (Hpg1 t) (hi_page _ _ _ _ _ _ _ Hi t _ Ht)) as (Htpos & _ & Htal & Htuse).
  change 4096 with (2 ^ 12) in Hf, Htal, Htuse.
  destruct (free_keeps s1 s2 t 12 (delete t T) Hm1 ltac:(lia) Htpos Htal Htuse Hf) as [Hk Hm2].
  { intros x k [Hne Hx]%lookup_delete_Some. pose proof (hi_page _ _ _ _ _ _ _ Hi x k Hx) as Hxp.
    split; [by apply Hpg1|]. intros y Hy. apply (table_blocks_apart s x t); try done.
    by apply (hi_page _ _ _ _ _ _ _ Hi t (S l)). }
  destruct (free_spec t 12 _ _ Hm1 ltac:(lia) Htpos Htal Htuse Hf) as (Hfr & Hwin & _).
  destruct (hole_entry_spec l) as [Hhp Hhn].
  split_and!; [|done|done| |].
  - split; [done|done|by unfold E'; rewrite set_slot_here|by unfold E'; rewrite set_slot_here|..].
    + intros i Hir Hne Hpr. unfold E' in *. rewrite set_slot_other in * by done.
      apply (hi_root _ _ _ _ _ _ _ Hi i Hir); [|done].
      intros [= Heq _]. rewrite <- Heq, (g_root _ _ _ Hg) in Ht. discriminate.
    + intros x k Hx. by apply (Hk x k).
    + intros x k j Hx Hj Hne. rewrite (proj2 (Hk x k Hx) j Hj). unfold E'. rewrite set_slot_other by done.
      apply lookup_delete_Some in Hx as [Hxt Hx]. apply (He1 x k j); try done. congruence.
    + intros x j. unfold E', set_slot. case_decide; [by_decide|apply (hi_u64 _ _ _ _ _ _ _ Hi)].
    + done.
  - intros x. rewrite Hfr. unfold s1, cleared. by rewrite set_mem_free.
  - intros x. rewrite Hwin. unfold s1, cleared. by rewrite set_mem_window.
Qed.

Lemma path_entries_up root T E E' v l es e t :
  graph root T E → path_entries E root v (S l) (e :: es) → reach E root v (S l) t →
  (∀ k x, (k ≤ l)%nat → reach E root v k x → reach E' root v k x) → path_entries E' root v l es.
Proof.
  intros Hg [Hlen Hes] Hr Hkeep. split; [cbn in Hlen; lia|]. intros k x Hk Hx.
  assert (∃ y, reach E root v k y) as [y Hy].
  { clear -Hr Hk. assert (k ≤ S l)%nat as Hle by lia. clear Hk. revert k Hle.
    induction Hr as [|m y Hy IH Hp]; intros k Hle.
    - assert (k = 0)%nat as -> by lia. eexists. constructor.
    - destruct (decide (k = S m)) as [->|]; [eexists; by constructor|]. apply IH. lia. }
  rewrite (reach_det _ _ _ _ _ Hx y) by by apply Hkeep.
  specialize (Hes k y ltac:(lia) Hy). replace (S l - k)%nat with (S (l - k)) in Hes by lia. done.
Qed.

Lemma free_levels_cons2 e0 e1 es s :
  free_levels (e0 :: e1 :: es) s =
  (s ← store_u64 e0 0 s;
   '(s, nent) ← load_u64 e1 s;
   if in_use nent =? 1 then
     s ← pm_free_phys (Z.land e0 (bnot 64 0xfff)) 4096 s; free_levels (e1 :: es) s
   else
     assert ((0 <? in_use nent) && (in_use nent <=? 512)) "Whoa, ref counts broken on page";;
     Done (pm_set_mem (write_u64 (pm_mem s) e1
             (set_in_use nent (wrapping_sub 64 (in_use nent) 1))) s)).
Proof. done. Qed.

Lemma free_levels_spec root v L (W : Z → option (nat * Z)) : ∀ l T E t s es,
  hole_inv root T E v l t s → path_entries E root v l es → (l ≤ L)%nat →
  (∀ v', ~ agree_below (S l) v v' → mmu_walk E root v' = W v') →
  (∀ v', agree_below (S l) v v' → ~ agree_below (S L) v v' → W v' = None) →
  let o := free_levels es s in
  (only_alloc_fails o ∧ ∀ a, o ≠ Done a) ∨
  ∃ s' T', o = Done s' ∧ pt_inv root T' s' ∧ freed_tables T T' s s' ∧
    (∀ v', agree_below (S L) v v' → mmu_walk (ent (pm_mem s')) root v' = None) ∧
    (∀ v', ~ agree_below (S L) v v' → mmu_walk (ent (pm_mem s')) root v' = W v').
Proof.
  assert (∀ l v', (l ≤ L)%nat → agree_below (S L) v v' → agree_below (S l) v v') as Hmono.
  { intros l v' Hl Ha k Hk. apply Ha. lia. }
  induction l as [|l IH]; intros T E t s es Hi Hes HlL Hw Hw0; cbn zeta;
    pose proof (hi_graph _ _ _ _ _ _ _ Hi) as Hg; pose proof (hi_reach _ _ _ _ _ _ _ Hi) as Hr;
    pose proof (reach_table _ _ _ _ _ _ Hg Hr) as Ht;
    pose proof (hi_page _ _ _ _ _ _ _ Hi t _ Ht) as Htp;
    destruct (cleared_ent _ _ _ _ _ _ _ Hi) as (Hz & Hm1 & Hpg1 & He1).
  - destruct Hes as [Hlen Hes]. destruct es as [|e0 [|? ?]]; try discriminate Hlen.
    specialize (Hes 0%nat t ltac:(lia) Hr). injection Hes as ->.
    right. exists (cleared t (vidx 0 v) s), T. cbn [free_levels].
    rewrite store_slot by (done || apply vidx_range). split; [done|].
    destruct (hole_closed root T E v 0 t s (cleared t (vidx 0 v) s) Hi Hm1 Hpg1 Hz)
      as (Hinv & Hc1 & Hc2); [done|intros x k j Hx Hj Hne _; by apply (He1 x k j)|].
    split; [done|]. split.
    { apply freed_tables_refl; intros x; unfold cleared; [by rewrite set_mem_free|by rewrite set_mem_window]. }
    split; [intros v' Ha; by apply Hc1, (Hmono 0%nat)|].
    intros v' Hno. destruct (decide (agree_below 1 v v')) as [Ha|Ha].
    + rewrite Hc1 by done. symmetry. by apply Hw0.
    + rewrite Hc2 by done. by apply Hw.
  - destruct (reach_parent _ _ _ _ _ Hr) as (tp & Hrp & Hp & Hc).
    pose proof (reach_table _ _ _ _ _ _ Hg Hrp) as Htpl.
    pose proof (hi_page _ _ _ _ _ _ _ Hi tp l Htpl) as Htpp. pose proof Hes as [Hlen Hes'].
    destruct es as [|e0 [|e1 es]]; try discriminate Hlen.
    pose proof (Hes' (S l) t ltac:(lia) Hr) as E0. rewrite Nat.sub_diag in E0. injection E0 as ->.
    pose proof (Hes' l tp ltac:(lia) Hrp) as E1. replace (S l - l)%nat with 1%nat in E1 by lia. injection E1 as ->.
    assert ((tp, vidx l v) ≠ (t, vidx (S l) v)) as Hne.
    { intros [= -> _]. rewrite Ht in Htpl. injection Htpl as Htpl. lia. }
    rewrite free_levels_cons2, store_slot, bind_Done_l by (done || apply vidx_range).
    change (pm_set_mem (write_u64 (pm_mem s) (t + 8 * vidx (S l) v) 0) s) with (cleared t (vidx (S l) v) s).
    set (s1 := cleared t (vidx (S l) v) s) in *.
    rewrite load_slot, bind_Done_l by (apply vidx_range || by apply Hpg1).
    rewrite (He1 tp l _ Htpl (vidx_range l v) Hne).
    pose proof (g_count _ _ _ Hg tp l _ Htpl (vidx_range l v) Hp) as Hcnt. rewrite Hc in Hcnt.
    pose proof (count_le E t) as Hle.
    pose proof (count_pos E t _ (vidx_range (S l) v) (hi_present _ _ _ _ _ _ _ Hi)) as Hpos.
    rewrite Hcnt. destruct (Z.eqb_spec (Z.of_nat (count E t)) 1) as [H1|H1].
    + rewrite slot_table_addr by (apply vidx_range || apply Htp).
      destruct (pm_free_phys t 4096 s1) as [s2|msg|] eqn:Hf; cbn [mbind outcome_bind].
      2:{ left. split; [right; by exists s1, t, 4096|done]. }
      2:{ left. split; [right; by exists s1, t, 4096|done]. }
      assert (count E t = 1%nat) as Hc1 by lia.
      destruct (hole_up root T E v l t tp s s2 Hi Hrp Hc1 Hf) as (Hi' & Hw1 & Hw2 & Hfr & Hwin).
      destruct (IH (delete t T) _ tp s2 ((tp + 8 * vidx l v) :: es) Hi') as [Hfail|(s' & T' & Ho & Hinv & Hft & Hc2 & Hc3)].
      * apply (path_entries_up root T E _ v l _ _ t Hg Hes Hr). intros k x Hk Hx.
        apply (reach_update root T E _ tp l (vidx l v) Hg); [|done|done].
        apply (slot_update_present root); try done; [apply vidx_range|by apply (points_present l)].
      * lia.
      * intros v' Hno. rewrite Hw1 by done. apply Hw. intros Ha. apply Hno. intros k Hk. apply Ha. lia.
      * intros v' Ha Hno. destruct (decide (agree_below (S (S l)) v v')); [by apply Hw0|].
        rewrite <- Hw by done. by apply Hw2.
      * by left.
      * right. exists s', T'. split; [done|]. split; [done|]. split; [|done].
        by apply (freed_tables_cut T T' t (S l) s s2 s').
    + assert ((0 <? Z.of_nat (count E t)) && (Z.of_nat (count E t) <=? 512) = true) as ->
        by (apply andb_true_iff; split; [apply Z.ltb_lt|apply Z.leb_le]; lia).
      cbn [assert]. rewrite bind_Done_l, wrapping_sub_small by (unfold is_uint; lia).
      set (s' := pm_set_mem _ s1). right. exists s', T. split; [done|].
      assert (is_uint 10 (Z.of_nat (count E t) - 1)) as Hu10 by (unfold is_uint; change (2 ^ 10) with 1024; lia).
      assert (∀ x j, table_page s x → slot_range j → (x, j) ≠ (tp, vidx l v) →
        ent (pm_mem s') x j = ent (pm_mem s1) x j) as Hw'.
      { intros x j Hx Hj Hxne. unfold s'. rewrite set_mem_mem.
        apply (ent_write_other s1); [by apply Hpg1|by apply Hpg1|apply vidx_range|done|done]. }
      destruct (hole_closed root T E v (S l) t s s') as (Hinv & Hc1 & Hc2); try done.
      * apply store_ok; [done|by apply Hpg1|apply vidx_range].
      * intros x. unfold s'. rewrite table_page_set_mem. apply Hpg1.
      * rewrite Hw' by (done || apply vidx_range). done.
      * intros l' tp' [= <-] Hrp'. rewrite <- (reach_det _ _ _ _ _ Hrp tp' Hrp'), Hcnt.
        unfold s'. rewrite set_mem_mem. apply ent_write_same, set_in_use_uint; [apply (hi_u64 _ _ _ _ _ _ _ Hi)|done].
      * intros x k j Hx Hj Hxne Hxno. rewrite Hw'; [by apply (He1 x k j)| |done|by apply (Hxno l tp)].
        by apply (hi_page _ _ _ _ _ _ _ Hi x k).
      * split; [done|]. split.
        { apply freed_tables_refl; intros x; unfold s', s1, cleared;
            [by rewrite !set_mem_free|by rewrite !set_mem_window]. }
        split; [intros v' Ha; by apply Hc1, (Hmono (S l))|].
        intros v' Hno. destruct (decide (agree_below (S (S l)) v v')) as [Ha|Ha].
        -- rewrite Hc1 by done. symmetry. by apply Hw0.
        -- rewrite Hc2 by done. by apply Hw.
Qed.

(** ** Freeing mapped pages *)

Lemma gwalk_Some E root v n : ∀ l t l' e, reach E root v l t → gwalk n E l t v = Some (l', e) →
  ∃ t', reach E root v l' t' ∧ E t' (vidx l' v) = e ∧ present e = true ∧ points l' e = false ∧
    (1 ≤ l' ≤ 3)%nat.
Proof.
  induction n as [|n IH]; intros l t l' e Hr Hw; [done|]. cbn [gwalk] in Hw.
  destruct (present (E t (vidx l v))) eqn:Hp; cbn [negb] in Hw; [|done].
  destruct (points l (E t (vidx l v))) eqn:Hpt.
  - apply (IH _ _ _ _ (reach_step _ _ _ _ _ Hr Hpt) Hw).
  - destruct (Nat.eqb_spec l 0); [done|]. injection Hw as <- <-. exists t. split_and!; try done; [lia|].
    pose proof (reach_below_4 _ _ _ _ _ Hr). lia.
Qed.

Lemma reach_prefix E root v l t k : reach E root v l t → (k ≤ l)%nat → ∃ x, reach E root v k x.
Proof.
  intros Hr. revert k. induction Hr as [|m y Hy IH Hp]; intros k Hle.
  - assert (k = 0)%nat as -> by lia. eexists. constructor.
  - destruct (decide (k = S m)) as [->|]; [eexists; by constructor|]. apply IH. lia.
Qed.

(** The entries of a mapped address: those up to its level. *)
Lemma mapped_entries root T s v l t mp : pt_inv root T s →
  reach (ent (pm_mem s)) root v l t → points l (ent (pm_mem s) t (vidx l v)) = false →
  entries_match (ent (pm_mem s)) root v (entry_list mp) →
  (∀ k, (k ≤ l)%nat → ∃ x, reach (ent (pm_mem s)) root v k x ∧ table_page s x ∧
     entry_at k mp = Some (x + 8 * vidx k v)) ∧
  (∀ k, (l < k < 4)%nat → entry_at k mp = None).
Proof.
  intros Hinv Hr Hp (_ & Hyes & Hno). pose proof (reach_below_4 _ _ _ _ _ Hr) as Hl. split.
  - intros k Hk. destruct (reach_prefix _ _ _ _ _ k Hr Hk) as [x Hx]. exists x. split; [done|].
    split; [by apply (pt_page _ _ _ Hinv x k), (reach_table _ _ _ _ _ _ (pt_graph _ _ _ Hinv) Hx)|].
    specialize (Hyes k x ltac:(lia) Hx). rewrite entry_list_at in Hyes by lia. by injection Hyes.
  - intros k Hk. specialize (Hno k ltac:(lia)). rewrite entry_list_at in Hno by lia.
    assert (Some (entry_at k mp) = Some None) as [= ->]; [|done]. apply Hno. intros x Hx.
    pose proof (reach_above _ _ _ _ _ Hx l t ltac:(lia) Hr). congruence.
Qed.

Lemma mapped_base root T s v l t mp pg : pt_inv root T s → canonical v → (1 ≤ l ≤ 3)%nat →
  reach (ent (pm_mem s)) root v l t → points l (ent (pm_mem s) t (vidx l v)) = false →
  entries_match (ent (pm_mem s)) root v (entry_list mp) → page mp = Some pg →
  mapping_size mp = Some (level_type l) ∧ virt_base mp = Some (v - v mod 2 ^ offset_bits l).
Proof.
  intros Hinv Hv Hl Hr Hp Hes Hpg.
  destruct (mapped_entries root T s v l t mp Hinv Hr Hp Hes) as [Hyes Hno].
  assert (∀ k, (k ≤ 3)%nat → shl 64 (Z.land (default 0 (entry_at k mp)) 0xfff / 8) (offset_bits k) =
    if (k <=? l)%nat then shl 64 (vidx k v) (offset_bits k) else 0) as Hpart.
  { intros k Hk. destruct (Nat.leb_spec k l).
    - destruct (Hyes k ltac:(lia)) as (x & _ & (P1 & _ & P3 & _) & ->). cbn [from_option id].
      by rewrite slot_index by (lia || done || apply vidx_range).
    - rewrite Hno by lia. cbn [from_option id]. rewrite Z.land_0_l. cbn. unfold shl. by rewrite Z.shiftl_0_l. }
  split.
  - unfold mapping_size. rewrite Hpg.
    assert (l = 1 ∨ l = 2 ∨ l = 3)%nat as [->|[->| ->]] by lia.
    + by rewrite (Hno 2%nat ltac:(lia) : pde mp = None).
    + destruct (Hyes 2%nat ltac:(lia)) as (x & _ & _ & E2). cbn [entry_at] in E2. rewrite E2.
      by rewrite (Hno 3%nat ltac:(lia) : pte mp = None).
    + destruct (Hyes 2%nat ltac:(lia)) as (x & _ & _ & E2). cbn [entry_at] in E2. rewrite E2.
      destruct (Hyes 3%nat ltac:(lia)) as (y & _ & _ & E3). cbn [entry_at] in E3. by rewrite E3.
  - unfold virt_base. rewrite Hpg. f_equal.
    pose proof (Hpart 0%nat ltac:(lia)) as Q0. pose proof (Hpart 1%nat ltac:(lia)) as Q1.
    pose proof (Hpart 2%nat ltac:(lia)) as Q2. pose proof (Hpart 3%nat ltac:(lia)) as Q3.
    change (entry_at 0 mp) with (pml4e mp) in Q0. change (entry_at 1 mp) with (pdpe mp) in Q1.
    change (entry_at 2 mp) with (pde mp) in Q2. change (entry_at 3 mp) with (pte mp) in Q3.
    change (offset_bits 0) with 39 in Q0. change (offset_bits 1) with 30 in Q1.
    change (offset_bits 2) with 21 in Q2. change (offset_bits 3) with 12 in Q3.
    rewrite Q0, Q1, Q2, Q3. apply (base_bits v l); [done|done|..].
    + assert (∀ (b : bool) k sh, 0 ≤ (if b then shl 64 (vidx k v) sh else 0)) as Hnn
        by (intros [] k sh; [apply (wrap_uint 64)|]; lia).
      by repeat (apply Z.lor_nonneg; split).
    + intros i Hi. rewrite !Z.lor_spec.
      pose proof (index_part_bit v 0 i ltac:(lia) Hi) as B0. pose proof (index_part_bit v 1 i ltac:(lia) Hi) as B1.
      pose proof (index_part_bit v 2 i ltac:(lia) Hi) as B2. pose proof (index_part_bit v 3 i ltac:(lia) Hi) as B3.
      change (offset_bits 0) with 39 in B0. change (offset_bits 1) with 30 in B1.
      change (offset_bits 2) with 21 in B2. change (offset_bits 3) with 12 in B3.
      assert (l = 1 ∨ l = 2 ∨ l = 3)%nat as [->|[->| ->]] by lia; cbn [Nat.leb];
        rewrite ?B0, ?B1, ?B2, ?B3, ?Z.bits_0; unfold offset_bits; cbn [Z.of_nat Pos.of_succ_nat Pos.succ Z.mul Pos.mul Pos.add];
        destruct (Z.testbit v i); cbn [andb orb]; try done;
        repeat match goal with |- context [?a <=? ?b] => destruct (Z.leb_spec a b); cbn [andb orb] end;
        repeat match goal with |- context [?a <? ?b] => destruct (Z.ltb_spec a b); cbn [andb orb] end;
        try done; lia.
Qed.

Definition page_addr (l : nat) (e : Z) : Z := Z.land (child e) (bnot 64 (level_mask l)).

Lemma page_bytes_range l : (1 ≤ l ≤ 3)%nat → 0 < 2 ^ offset_bits l < 2 ^ 32.
Proof. intros. do 4 (destruct l as [|l]; [try lia; done|]). lia. Qed.

Lemma page_addr_aligned l e : (1 ≤ l ≤ 3)%nat → page_addr l e mod 2 ^ offset_bits l = 0.
Proof.
  intros Hl. unfold page_addr. rewrite level_mask_eq by done.
  assert (0 ≤ offset_bits l) as Hob by (unfold offset_bits; lia).
  rewrite <- land_mask_mod, <- Z.land_assoc by done.
  assert (Z.land (bnot 64 (2 ^ offset_bits l - 1)) (2 ^ offset_bits l - 1) = 0) as ->; [|apply Z.land_0_r].
  apply Z.bits_inj'. intros i Hi. rewrite Z.land_spec, bnot_testbit, Z.bits_0 by lia.
  replace (2 ^ offset_bits l - 1) with (Z.ones (offset_bits l)) by (rewrite Z.ones_equiv; lia).
  destruct (Z.ltb_spec i (offset_bits l)).
  - rewrite Z.ones_spec_low by lia. by rewrite (proj2 (Z.ltb_lt i 64)) by (unfold offset_bits in *; lia).
  - by rewrite Z.ones_spec_high, andb_false_r by lia.
Qed.

(** The page is memory in use that holds none of the tables. *)
Definition page_owned (T : tables) (s : P) (l : nat) (e : Z) : Prop :=
  0 < page_addr l e ∧ ∀ x, in_block (page_addr l e) (2 ^ offset_bits l) x →
    ~ pm_free s x ∧ pm_window s x ∧ ∀ t, is_Some (T !! t) → ~ in_block t 4096 x.

(** What is free afterwards: also the page, and the tables that are gone. *)
Definition freed_page (T T' : tables) (s s' : P) (block : Z → Prop) : Prop :=
  T' ⊆ T ∧ (∀ x, pm_window s' x ↔ pm_window s x) ∧
  ∀ x, pm_free s' x ↔ pm_free s x ∨
    (∃ t l, T !! t = Some l ∧ T' !! t = None ∧ in_block t 4096 x) ∨ block x.

Lemma mapped_path root T s v l t mp : pt_inv root T s → (1 ≤ l ≤ 3)%nat →
  reach (ent (pm_mem s)) root v l t → points l (ent (pm_mem s) t (vidx l v)) = false →
  entries_match (ent (pm_mem s)) root v (entry_list mp) →
  ∃ es, table_entries mp (level_type l) = Done es ∧
    path_entries (ent (pm_mem s)) root v l (rev es).
Proof.
  intros Hinv Hl Hr Hp Hes.
  destruct (mapped_entries root T s v l t mp Hinv Hr Hp Hes) as [Hyes _].
  assert (∀ k (es : list Z), (k ≤ l)%nat → es !! (l - k)%nat = Some (default 0 (entry_at k mp)) →
    ∀ x, reach (ent (pm_mem s)) root v k x → es !! (l - k)%nat = Some (x + 8 * vidx k v)) as Hk.
  { intros k es Hk E x Hx. destruct (Hyes k Hk) as (y & Hy & _ & Ek). rewrite E, Ek.
    by rewrite (reach_det _ _ _ _ _ Hx y Hy). }
  destruct (Hyes 0%nat ltac:(lia)) as (x0 & _ & _ & E0). cbn [entry_at] in E0.
  destruct (Hyes 1%nat ltac:(lia)) as (x1 & _ & _ & E1). cbn [entry_at] in E1.
  unfold table_entries. rewrite E0, E1. cbn [unwrap expect]. rewrite !bind_Done_l.
  assert (l = 1 ∨ l = 2 ∨ l = 3)%nat as [->|[->| ->]] by lia; cbn [level_type].
  - eexists. split; [done|]. split; [done|]. intros k x Hkl Hx. apply (Hk k); [done| |done].
    do 2 (destruct k as [|k]; [cbn [entry_at]; by rewrite ?E0, ?E1|]). lia.
  - destruct (Hyes 2%nat ltac:(lia)) as (x2 & _ & _ & E2). cbn [entry_at] in E2.
    rewrite E2. cbn [unwrap expect]. rewrite bind_Done_l.
    eexists. split; [done|]. split; [done|]. intros k x Hkl Hx. apply (Hk k); [done| |done].
    do 3 (destruct k as [|k]; [cbn [entry_at]; by rewrite ?E0, ?E1, ?E2|]). lia.
  - destruct (Hyes 2%nat ltac:(lia)) as (x2 & _ & _ & E2). cbn [entry_at] in E2.
    destruct (Hyes 3%nat ltac:(lia)) as (x3 & _ & _ & E3). cbn [entry_at] in E3.
    rewrite E2, E3. cbn [unwrap expect]. rewrite !bind_Done_l.
    eexists. split; [done|]. split; [done|]. intros k x Hkl Hx. apply (Hk k); [done| |done].
    do 4 (destruct k as [|k]; [cbn [entry_at]; by rewrite ?E0, ?E1, ?E2, ?E3|]). lia.
Qed.

Lemma pt_inv_hole root T s v l t : pt_inv root T s →
  reach (ent (pm_mem s)) root v l t → present (ent (pm_mem s) t (vidx l v)) = true →
  points l (ent (pm_mem s) t (vidx l v)) = false →
  hole_inv root T (ent (pm_mem s)) v l t s.
Proof.
  intros Hinv Hr Hp Hn. split; try done; [apply (pt_graph _ _ _ Hinv)|..].
  - intros i Hi _ Hpr. by apply (pt_root _ _ _ Hinv).
  - apply (pt_page _ _ _ Hinv).
  - intros x j. apply ent_uint, ok_mem, (pt_bytes _ _ _ Hinv).
  - apply (pt_bytes _ _ _ Hinv).
Qed.

Lemma free_one root T s v l e mp :
  pt_inv root T s → let E := ent (pm_mem s) in
  mmu_walk E root v = Some (l, e) → entries_match E root v (entry_list mp) →
  page mp = walk_page v (Some (l, e)) → page_owned T s l e →
  let o := free_page mp (level_type l) s in
  (only_alloc_fails o ∧ ∀ a, o ≠ Done a) ∨
  ∃ s' T', o = Done s' ∧ pt_inv root T' s' ∧
    freed_page T T' s s' (in_block (page_addr l e) (2 ^ offset_bits l)) ∧
    (∀ v', agree_below (S l) v v' → mmu_walk (ent (pm_mem s')) root v' = None) ∧
    (∀ v', ~ agree_below (S l) v v' → mmu_walk (ent (pm_mem s')) root v' = mmu_walk E root v').
Proof.
  intros Hinv E Hw Hes Hpg Hap. cbn zeta.
  destruct (gwalk_Some E root v 4 0 root l e (reach_root _ _ _) Hw) as (t & Hr & He & Hpr & Hpt & Hl).
  rewrite <- He in Hpr, Hpt.
  destruct (mapped_path root T s v l t mp Hinv Hl Hr Hpt Hes) as (es & Hte & Hpath).
  unfold free_page. rewrite Hte, bind_Done_l.
  destruct (free_levels_spec root v l (mmu_walk E root) l T E t s (rev es)
    (pt_inv_hole root T s v l t Hinv Hr Hpr Hpt) Hpath) as [[Hf1 Hf2]|(s1 & T1 & Ho & Hinv1 & Hft & Hw1 & Hw2)];
    [lia|done|done|..].
  { left. destruct (free_levels (rev es) s) as [x| |]; [by destruct (Hf2 x)|done..]. }
  rewrite Ho, bind_Done_l, Hpg. cbn [walk_page unwrap expect]. rewrite bind_Done_l. cbn [fst].
  fold (page_addr l e). rewrite page_size_eq by done.
  destruct (pm_free_phys (page_addr l e) (2 ^ offset_bits l) s1) as [s2|msg|] eqn:Hf.
  2:{ left. split; [right; by exists s1, (page_addr l e), (2 ^ offset_bits l)|done]. }
  2:{ left. split; [right; by exists s1, (page_addr l e), (2 ^ offset_bits l)|done]. }
  destruct Hft as (Hsub & Hwin & Hfree).
  destruct Hap as [Hpos Hown]. assert (12 ≤ offset_bits l < 32) as Hob by (unfold offset_bits; lia).
  assert (∀ x, in_block (page_addr l e) (2 ^ offset_bits l) x → ~ pm_free s1 x ∧ pm_window s1 x) as Huse.
  { intros x Hx. destruct (Hown x Hx) as (Hn & Hwi & Hno). split; [|by apply Hwin].
    rewrite Hfree. intros [|(y & k & Hy & _ & Hb)]; [done|]. by apply (Hno y); [eexists|]. }
  pose proof (page_addr_aligned l e Hl) as Hal.
  destruct (free_keeps s1 s2 (page_addr l e) (offset_bits l) T1 (pt_bytes _ _ _ Hinv1) Hob Hpos Hal Huse Hf) as [Hk Hm2].
  { intros x k Hx. split; [by apply (pt_page _ _ _ Hinv1 x k)|]. intros y Hy Hb.
    apply (Hown y Hb) with x; [|done]. exists k. by apply (lookup_weaken _ _ _ _ Hx). }
  destruct (free_spec _ _ _ _ (pt_bytes _ _ _ Hinv1) Hob Hpos Hal Huse Hf) as (Hfr & Hwin2 & _).
  assert (∀ x k j, T1 !! x = Some k → slot_range j → ent (pm_mem s2) x j = ent (pm_mem s1) x j) as Hent.
  { intros x k j Hx Hj. by apply (Hk x k). }
  right. exists s2, T1. split; [done|]. split.
  { split; [by apply (graph_ext root T1 (ent (pm_mem s1))), (pt_graph _ _ _ Hinv1)| |..].
    - intros i Hi Hp. pose proof (g_root _ _ _ (pt_graph _ _ _ Hinv1)) as Hr0.
      rewrite (Hent root 0%nat) in * by done. by apply (pt_root _ _ _ Hinv1).
    - intros x k Hx. by apply (Hk x k).
    - done. }
  split.
  { split; [done|]. split; [intros x; by rewrite Hwin2, Hwin|]. intros x. rewrite Hfr, Hfree. tauto. }
  assert (∀ v', mmu_walk (ent (pm_mem s2)) root v' = mmu_walk (ent (pm_mem s1)) root v') as Hw'
    by (intros v'; by apply (walk_ext root T1 _ _ v' (pt_graph _ _ _ Hinv1))).
  split; intros v' Ha; rewrite Hw'; [by apply Hw1|by apply Hw2].
Qed.

Lemma page_base_aligned l v : v mod 2 ^ offset_bits l = 0 → page_base l v = v.
Proof. unfold page_base. lia. Qed.

Lemma same_page_iff l v v' : (1 ≤ l ≤ 3)%nat → canonical v → canonical v' →
  v mod 2 ^ offset_bits l = 0 →
  agree_below (S l) v v' ↔ v ≤ v' < v + 2 ^ offset_bits l.
Proof.
  intros Hl Hv Hv' Ha. rewrite page_base_agree, (page_base_aligned l v Ha) by done. unfold page_base.
  assert (0 < 2 ^ offset_bits l) as Hps by (apply Z.pow_pos_nonneg; unfold offset_bits; lia).
  set (ps := 2 ^ offset_bits l) in *.
  pose proof (Z.div_mod v' ps ltac:(lia)). pose proof (Z.mod_pos_bound v' ps Hps).
  apply Z.mod_divide in Ha as [q ->]; [|lia]. split; [lia|]. intros Hr.
  assert (v' / ps = q) by nia. nia.
Qed.

Lemma freed_page_trans T T1 T2 s s1 s2 (B1 B2 B : Z → Prop) :
  freed_page T T1 s s1 B1 → freed_page T1 T2 s1 s2 B2 → (∀ x, B x ↔ B1 x ∨ B2 x) →
  freed_page T T2 s s2 B.
Proof.
  intros (Hs1 & Hw1 & Hf1) (Hs2 & Hw2 & Hf2) HB. split; [by etrans|].
  split; [intros x; by rewrite Hw2, Hw1|]. intros x. rewrite Hf2, Hf1, HB. split.
  - intros [[|[(t & l & Ht & Hn & Hb)|]]|[(t & l & Ht & Hn & Hb)|]]; try tauto.
    + right. left. exists t, l. split_and!; try done. apply eq_None_not_Some. intros [k Hk].
      apply (lookup_weaken _ _ _ _ Hk) in Hs2. congruence.
    + right. left. exists t, l. split_and!; try done. by apply (lookup_weaken _ _ _ _ Ht).
  - intros [|[(t & l & Ht & Hn & Hb)|[|]]]; try tauto.
    destruct (T1 !! t) as [k|] eqn:E1; [|left; right; left; by exists t, l].
    right. left. exists t, k. done.
Qed.

Lemma free_loop_spec root l n : (1 ≤ l ≤ 3)%nat → ∀ (e : nat → Z) fuel T s v freed mp,
  let ps := 2 ^ offset_bits l in
  pt_inv root T s → let E := ent (pm_mem s) in
  (n < fuel)%nat → v mod ps = 0 →
  (∀ k, (k ≤ n)%nat → canonical (v + Z.of_nat k * ps)) →
  (∀ k, (k ≤ n)%nat → mmu_walk E root (v + Z.of_nat k * ps) = Some (l, e k)) →
  (∀ k, (k ≤ n)%nat → page_owned T s l (e k)) →
  (∀ j k x, (j < k ≤ n)%nat → in_block (page_addr l (e j)) ps x → ~ in_block (page_addr l (e k)) ps x) →
  entries_match E root v (entry_list mp) → page mp = walk_page v (Some (l, e 0%nat)) →
  0 ≤ freed → freed + (Z.of_nat n + 1) * ps < 2 ^ 64 →
  let o := free_loop fuel root (v + (Z.of_nat n + 1) * ps - 1) mp freed s in
  (only_alloc_fails o ∧ ∀ a, o ≠ Done a) ∨
  ∃ s' T', o = Done (s', freed + (Z.of_nat n + 1) * ps) ∧ pt_inv root T' s' ∧
    freed_page T T' s s' (λ x, ∃ k, (k ≤ n)%nat ∧ in_block (page_addr l (e k)) ps x) ∧
    ∀ v', canonical v' →
      mmu_walk (ent (pm_mem s')) root v' =
        if decide (v ≤ v' < v + (Z.of_nat n + 1) * ps) then None else mmu_walk E root v'.
Proof.
  intros Hl. induction n as [|n IH]; intros e fuel T s v freed mp ps Hinv E Hfuel Hal Hcan Hw Hap Hdis Hes Hpg Hf0 Hfr;
    (destruct fuel as [|fuel]; [lia|]); cbn zeta; cbn [free_loop];
    assert (0 < ps) as Hps by (apply Z.pow_pos_nonneg; unfold offset_bits; lia);
    pose proof (Hcan 0%nat ltac:(lia)) as Hv; pose proof (Hw 0%nat ltac:(lia)) as Hw0;
    rewrite Z.add_0_r in Hv, Hw0;
    (destruct (gwalk_Some E root v 4 0 root l _ (reach_root _ _ _) Hw0) as (t & Hr & He & Hpr & Hpt & _));
    rewrite <- He in Hpt;
    (destruct (mapped_base root T s v l t mp _ Hinv Hv Hl Hr Hpt Hes Hpg) as [-> Hvb]);
    rewrite (Hvb : virt_base mp = Some (page_base l v)), (page_base_aligned l v Hal);
    cbn [unwrap expect]; rewrite !bind_Done_l;
    (destruct (free_one root T s v l (e 0%nat) mp Hinv Hw0 Hes Hpg (Hap 0%nat ltac:(lia)))
      as [[Hf1 Hf2]|(s1 & T1 & Ho & Hinv1 & Hfp & Hw1 & Hw2)];
     [left; destruct (free_page mp (level_type l) s) as [x| |]; [by destruct (Hf2 x)|done..]|]);
    rewrite Ho, bind_Done_l, page_size_eq by done; fold ps;
    fold ps in Hfp;
    assert (∀ v', canonical v' → mmu_walk (ent (pm_mem s1)) root v' =
      if decide (v ≤ v' < v + ps) then None else mmu_walk E root v') as Hwalk1
      by (intros v' Hv'; pose proof (same_page_iff l v v' Hl Hv Hv' Hal) as Hiff; fold ps in Hiff;
          case_decide; [apply Hw1; tauto|apply Hw2; tauto]).
  - right. exists s1, T1. rewrite wrapping_add_small by (unfold is_uint; lia).
    replace (freed + (Z.of_nat 0 + 1) * ps) with (freed + ps) by lia. split.
    { destruct (checked_add 64 v ps) as [nx|] eqn:Hc; [|done]. apply checked_add_Some in Hc as [-> _].
      by rewrite (proj2 (Z.ltb_lt _ _)) by lia. }
    split; [done|]. split.
    { destruct Hfp as (Hs & Hwin & Hfree). split; [done|]. split; [done|]. intros x. rewrite Hfree.
      split; (intros [|[|]]; [tauto|tauto|right; right]).
      - by exists 0%nat.
      - destruct H as (k & Hk & Hb). by replace k with 0%nat in Hb by lia. }
    intros v' Hv'. rewrite Hwalk1 by done. by replace ((Z.of_nat 0 + 1) * ps) with ps by lia.
  - pose proof (Hcan 1%nat ltac:(lia)) as Hv1. pose proof (Hw 1%nat ltac:(lia)) as Hw1'.
    replace (v + Z.of_nat 1 * ps) with (v + ps) in Hv1, Hw1' by lia.
    destruct Hv1 as [Hu1 Hcan1]. unfold is_uint in Hu1.
    unfold checked_add. rewrite (proj2 (Z.ltb_lt _ _)) by lia. rewrite (proj2 (Z.ltb_ge _ _)) by nia.
    destruct (translate_correct root T1 s1 (v + ps) Hinv1 (conj Hu1 Hcan1)) as (mp1 & -> & Hpg1 & Hes1).
    rewrite bind_Done_l. cbn [expect]. rewrite bind_Done_l, wrapping_add_small by (unfold is_uint; lia).
    assert (∀ k, (k ≤ n)%nat → mmu_walk (ent (pm_mem s1)) root (v + ps + Z.of_nat k * ps) = Some (l, e (S k))) as Hwn.
    { intros k Hk. replace (v + ps + Z.of_nat k * ps) with (v + Z.of_nat (S k) * ps) by lia.
      rewrite Hwalk1 by (apply Hcan; lia). rewrite decide_False by nia. apply Hw. lia. }
    destruct (IH (λ k, e (S k)) fuel T1 s1 (v + ps) (freed + ps) mp1 Hinv1) as [Hfail|(s2 & T2 & Ho2 & Hinv2 & Hfp2 & Hwalk2)].
    + lia.
    + fold ps. rewrite Z.add_mod, Hal, Z.mod_same by lia. done.
    + intros k Hk. fold ps. replace (v + ps + Z.of_nat k * ps) with (v + Z.of_nat (S k) * ps) by lia. apply Hcan. lia.
    + done.
    + intros k Hk. destruct (Hap (S k) ltac:(lia)) as [Hpos Hown]. destruct Hfp as (Hsub & Hwin & Hfree).
      split; [done|]. intros x Hx. destruct (Hown x Hx) as (Hn & Hwi & Hno). split_and!.
      * rewrite Hfree. intros [|[(y & k' & Hy & _ & Hb)|Hb]]; [done|by apply (Hno y); [eexists|]|].
        by apply (Hdis 0%nat (S k) x ltac:(lia) Hb).
      * by apply Hwin.
      * intros t' [k' Ht']. apply Hno. exists k'. by apply (lookup_weaken _ _ _ _ Ht').
    + intros j k x Hjk. apply (Hdis (S j) (S k) x). lia.
    + done.
    + rewrite Hpg1. pose proof (Hwn 0%nat ltac:(lia)) as Hwn0.
      replace (v + ps + Z.of_nat 0 * ps) with (v + ps) in Hwn0 by lia. by rewrite Hwn0.
    + lia.
    + fold ps. lia.
    + left. fold ps in Hfail. by replace (v + (Z.of_nat (S n) + 1) * ps - 1) with (v + ps + (Z.of_nat n + 1) * ps - 1) by lia.
    + right. fold ps in Ho2, Hfp2, Hwalk2. exists s2, T2.
      replace (v + (Z.of_nat (S n) + 1) * ps - 1) with (v + ps + (Z.of_nat n + 1) * ps - 1) by lia.
      replace (freed + (Z.of_nat (S n) + 1) * ps) with (freed + ps + (Z.of_nat n + 1) * ps) by lia.
      split; [done|]. split; [done|]. split.
      * apply (freed_page_trans T T1 T2 s s1 s2 _ _ _ Hfp Hfp2). intros x. split.
        -- intros ([|k] & Hk & Hb); [by left|right]. exists k. split; [lia|done].
        -- intros [Hb|(k & Hk & Hb)]; [exists 0%nat; split; [lia|done]|]. exists (S k). split; [lia|done].
      * intros v' Hv'. rewrite Hwalk2, Hwalk1 by done. repeat case_decide; try done; nia.
Qed.

End inv.
