(* ===== verification/PageTableMap.v ===== *)
(** * Page tables: whole operations

    [new], [free] and [map_init] of shared/page_table from the lemmas on single
    pages in PageTableInv.v: what a run of pages maps to afterwards, what
    memory is free, and what [map_init] undoes when it meets a page that cannot
    be mapped. *)

From stdpp Require Import base tactics option list numbers strings gmap.
From Stdlib Require Import ZArith Lia.
From S2P Require Import Prelude MachineInt Bytes Cpu PhysMem PageTable PageTableGraph PageTableInv.

Local Open Scope Z_scope.

(** ** The entry of a data page *)

Lemma type_level_type ty : level_type (type_level ty) = ty.
Proof. by destruct ty. Qed.

Lemma type_size ty : page_size ty = 2 ^ offset_bits (type_level ty).
Proof. by destruct ty. Qed.

(** The flags are a constant, apart from the bits of the address. *)
Definition page_flags (ty : PageType) (write exec : bool) : Z := page_entry 0 ty write exec.

Lemma page_entry_lor a ty w x : page_entry a ty w x = Z.lor a (page_flags ty w x).
Proof.
  unfold page_flags, page_entry. by rewrite !Z.lor_assoc, Z.lor_0_r.
Qed.

Lemma page_flags_facts ty w x :
  is_uint 64 (page_flags ty w x) ∧ child (page_flags ty w x) = 0 ∧
  present (page_flags ty w x) = true ∧ large (page_flags ty w x) = bool_decide (ty ≠ Page4K).
Proof. by destruct ty, w, x. Qed.

Lemma page_entry_facts a ty w x : is_uint 52 a → a mod page_size ty = 0 →
  let e := page_entry a ty w x in
  is_uint 64 e ∧ present e = true ∧ (ty ≠ Page4K → large e = true) ∧
  page_addr (type_level ty) e = a.
Proof.
  intros Ha Hal e. destruct (page_flags_facts ty w x) as (Hu & Hc & Hp & Hl).
  unfold e. rewrite page_entry_lor. assert (is_uint 64 a) as Ha64 by (unfold is_uint in *; lia).
  split; [by apply lor_uint|]. unfold present, large in *. rewrite !Z.lor_spec, Hp, Hl, orb_true_r.
  split; [done|]. split; [intros; by rewrite bool_decide_true, orb_true_r by done|].
  unfold page_addr, child in *. rewrite Z.land_lor_distr_l, Hc, Z.lor_0_r.
  assert (a mod 4096 = 0) as H4.
  { apply Z.mod_divide in Hal as [q ->]; [|by destruct ty].
    destruct ty; cbn; apply Z.mod_divide; try done; [|exists (q * 512)|exists (q * 262144)]; try lia. by exists q. }
  replace (Z.land a 0xffffffffff000) with a.
  - rewrite level_mask_eq by apply type_level_range. rewrite align_down; [|unfold offset_bits; pose proof (type_level_range ty); lia..|done].
    rewrite <- type_size, Hal. lia.
  - apply Z.bits_inj'. intros i Hi. rewrite Z.land_spec, child_mask_bit by done.
    destruct (Z.leb_spec 12 i); cbn [andb].
    + destruct (Z.ltb_spec i 52); [by rewrite andb_true_r|].
      by rewrite andb_false_r, (uint_testbit_high 52 a).
    + rewrite andb_false_r. apply aligned_bits; [done|lia].
Qed.

Section ops.
Context `{HPM : PhysMem P} `{HPL : !PhysMemLaws P}.
Implicit Types s : P.

(** ** new *)

Lemma graph_empty root E : (∀ i, slot_range i → E root i = 0) → graph root {[root := 0%nat]} E.
Proof.
  intros Hz. split.
  - by rewrite lookup_singleton_eq.
  - intros t [-> _]%lookup_singleton_Some. done.
  - intros t l [_ <-]%lookup_singleton_Some. lia.
  - intros t l i [<- _]%lookup_singleton_Some Hi Hp. by rewrite Hz, not_points_zero in Hp.
  - intros t l i t' l' i' [<- _]%lookup_singleton_Some _ Hi _ Hp. by rewrite Hz, not_points_zero in Hp.
  - intros t l [_ [=]]%lookup_singleton_Some.
  - intros t l i [<- _]%lookup_singleton_Some Hi Hp. by rewrite Hz, not_points_zero in Hp.
Qed.

Lemma new_correct s : pm_ok s →
  (∃ msg, new s = Panic msg ∧ pm_alloc_phys 4096 4096 s = Panic msg) ∨
  (new s = OutOfFuel ∧ pm_alloc_phys 4096 4096 s = OutOfFuel) ∨
  ∃ s' root, new s = Done (s', root) ∧ pt_inv root {[root := 0%nat]} s' ∧
    (∀ x, in_block root 4096 x → pm_free s x) ∧
    ∀ v, mmu_walk (ent (pm_mem s')) root v = None.
Proof.
  intros Hok. unfold new, alloc_phys_zeroed.
  destruct (pm_alloc_phys 4096 4096 s) as [[s1 root]|msg|] eqn:Ha; cbn [mbind outcome_bind].
  2:{ left. by exists msg. }
  2:{ right. by left. }
  right. right. destruct (alloc_spec 12 _ _ _ Hok ltac:(lia) Ha) as (H1 & H2 & H3 & H4 & H5 & H6 & H7 & H8).
  rewrite translate_returns by (lia || (intros x Hx; by apply H4)). cbn [mbind outcome_bind].
  set (s' := pm_set_mem _ s1). exists s', root.
  assert (∀ i, slot_range i → ent (pm_mem s') root i = 0) as Hz.
  { intros i Hi. unfold s'. rewrite set_mem_mem. unfold slot_range in Hi. apply read_zeroed; lia. }
  split; [done|]. split.
  - split; [by apply graph_empty|intros i Hi; by rewrite Hz|..].
    + intros t l [<- _]%lookup_singleton_Some. unfold s'. rewrite table_page_set_mem.
      do 3 (split; [done|]). intros x Hx. split; [|by apply H4]. intros ?%H5. tauto.
    + apply set_mem_ok; [done|..].
      * apply write_bytes_ok; [by apply ok_mem|]. apply Forall_replicate. by_decide.
      * intros x [_ Hx]%H5. by rewrite lookup_write_bytes, length_replicate, decide_False.
  - split; [intros x Hx; by apply H4|]. intros v. unfold mmu_walk. cbn [gwalk].
    by rewrite Hz by apply vidx_range.
Qed.

(** ** free *)

(** [n + 1] pages of one size from [v] on are mapped, each to memory of its own
    that is in use and holds no table. *)
Definition run_mapped (root : Z) (T : tables) (s : P) (l n : nat) (v : Z) (e : nat → Z) : Prop :=
  v mod 2 ^ offset_bits l = 0 ∧
  ∀ k, (k ≤ n)%nat → canonical (v + Z.of_nat k * 2 ^ offset_bits l) ∧
    mmu_walk (ent (pm_mem s)) root (v + Z.of_nat k * 2 ^ offset_bits l) = Some (l, e k) ∧
    page_owned T s l (e k) ∧
    ∀ j x, (j < k)%nat → in_block (page_addr l (e j)) (2 ^ offset_bits l) x →
      ~ in_block (page_addr l (e k)) (2 ^ offset_bits l) x.

Lemma free_correct root T s l n v e cr3 :
  (1 ≤ l ≤ 3)%nat → pt_inv root T s → run_mapped root T s l n v e →
  let size := (Z.of_nat n + 1) * 2 ^ offset_bits l in is_uint 64 size →
  let o := free root cr3 v size s in
  (only_alloc_fails o ∧ ∀ a, o ≠ Done a) ∨
  ∃ s' T', o = Done (s', Z.land cr3 (bnot 64 0xfff) =? root) ∧ pt_inv root T' s' ∧
    freed_page T T' s s' (λ x, ∃ k, (k ≤ n)%nat ∧ in_block (page_addr l (e k)) (2 ^ offset_bits l) x) ∧
    ∀ v', canonical v' → mmu_walk (ent (pm_mem s')) root v' =
      if decide (v ≤ v' < v + size) then None else mmu_walk (ent (pm_mem s)) root v'.
Proof.
  intros Hl Hinv [Hal Hrun] size Hsz. cbn zeta. pose proof (page_bytes_range l Hl) as Hps.
  assert (4096 ≤ 2 ^ offset_bits l) as Hps4 by (apply (Z.pow_le_mono_r 2 12); unfold offset_bits; lia).
  destruct (Hrun 0%nat ltac:(lia)) as (Hv & Hw & _). rewrite Z.add_0_r in Hv, Hw.
  destruct (Hrun n ltac:(lia)) as ([Hun _] & _). set (ps := 2 ^ offset_bits l) in *.
  assert (v + size ≤ 2 ^ 64) as Htop.
  { apply Z.mod_divide in Hal as [q ->]; [|lia]. unfold is_uint in Hun.
    assert (2 ^ 64 = 2 ^ (64 - offset_bits l) * ps) as E64.
    { unfold ps. rewrite <- Z.pow_add_r by (unfold offset_bits; lia).
      by replace (64 - offset_bits l + offset_bits l) with 64 by lia. }
    rewrite E64 in *. unfold size.
    assert (q + Z.of_nat n < 2 ^ (64 - offset_bits l)) by (apply (Z.mul_lt_mono_pos_r ps); lia).
    rewrite <- Z.mul_add_distr_r. apply Z.mul_le_mono_nonneg_r; lia. }
  unfold free, checked_sub. unfold is_uint in Hsz, Hv. unfold canonical, is_uint in Hv.
  rewrite (proj2 (Z.leb_le 1 size)) by nia. cbn [expect]. rewrite bind_Done_l.
  unfold checked_add. rewrite (proj2 (Z.ltb_lt (v + (size - 1)) _)) by lia. cbn [expect]. rewrite bind_Done_l.
  destruct (translate_correct root T s v Hinv Hv) as (mp & -> & Hpg & Hes).
  rewrite bind_Done_l. cbn [unwrap expect]. rewrite bind_Done_l. rewrite Hw in Hpg.
  assert (n < Z.to_nat (size / 4096 + 2))%nat as Hfuel.
  { assert (Z.of_nat n + 1 ≤ size / 4096) by (apply Z.div_le_lower_bound; nia). lia. }
  destruct (free_loop_spec root l n Hl e (Z.to_nat (size / 4096 + 2)) T s v 0 mp Hinv Hfuel Hal) as [Hf|Hok];
    try (done || lia); try (intros k Hk; by apply Hrun).
  { intros j k x Hjk. apply Hrun; lia. }
  - left. fold ps size in Hf. replace (v + (size - 1)) with (v + size - 1) by lia.
    destruct Hf as [Hf1 Hf2]. destruct (free_loop _ _ _ _ _ _) as [x| |]; [by destruct (Hf2 x)|done..].
  - right. destruct Hok as (s' & T' & Ho & Hinv' & Hfp & Hwalk). fold ps size in Ho, Hwalk. exists s', T'.
    replace (v + (size - 1)) with (v + size - 1) by lia.
    rewrite Ho, bind_Done_l, Z.add_0_l, Z.eqb_refl. by split_and!.
Qed.

(** ** map_init *)

(** A change outside the tables changes no mapping. *)
Lemma pt_inv_frame root T s s1 : pt_inv root T s → pm_ok s1 → (∀ x, pm_window s1 x ↔ pm_window s x) →
  (∀ t l x, T !! t = Some l → in_block t 4096 x → mem_byte (pm_mem s1) x = mem_byte (pm_mem s) x) →
  (∀ t l x, T !! t = Some l → in_block t 4096 x → ~ pm_free s1 x) →
  pt_inv root T s1 ∧
  (∀ v, mmu_walk (ent (pm_mem s1)) root v = mmu_walk (ent (pm_mem s)) root v) ∧
  (∀ v k t, reach (ent (pm_mem s1)) root v k t ↔ reach (ent (pm_mem s)) root v k t).
Proof.
  intros Hinv Hok Hwin Hsame Hnf. pose proof (pt_graph _ _ _ Hinv) as Hg.
  assert (∀ t l j, T !! t = Some l → slot_range j → ent (pm_mem s1) t j = ent (pm_mem s) t j) as He.
  { intros t l j Ht Hj. apply ent_ext; [|done]. intros x. by apply (Hsame t l). }
  split_and!.
  - split; [by apply (graph_ext root T (ent (pm_mem s)))| |..|done].
    + intros i Hi Hp. pose proof (g_root _ _ _ Hg) as Hr0. rewrite (He root 0%nat) in * by done.
      by apply (pt_root _ _ _ Hinv).
    + intros t l Ht. destruct (pt_page _ _ _ Hinv t l Ht) as (H1 & H2 & H3 & H4).
      do 3 (split; [done|]). intros x Hx. split; [by apply (Hnf t l)|]. by apply Hwin, H4.
  - intros v. by apply (walk_ext root T).
  - intros v k t. split; induction 1 as [|k t Hr IH Hp]; try constructor.
    + pose proof (reach_table _ _ _ _ _ _ Hg IH) as Ht.
      rewrite (He t k) in * by (done || apply vidx_range). by constructor.
    + pose proof (reach_table _ _ _ _ _ _ Hg Hr) as Ht.
      rewrite <- (He t k) in * by (done || apply vidx_range). by constructor.
Qed.

(** The pages of the size allocated for an entry. *)
Definition init_bytes (init : Z → Z) (base : Z) (ty : PageType) : list Z :=
  (λ off, init (wrapping_add 64 base (Z.of_nat off))) <$> seq 0 (Z.to_nat (page_size ty)).

Lemma page_size_range ty : 4096 ≤ page_size ty < 2 ^ 32.
Proof. by destruct ty. Qed.

Lemma length_init_bytes init base ty : Z.of_nat (length (init_bytes init base ty)) = page_size ty.
Proof. unfold init_bytes. rewrite length_fmap, length_seq. pose proof (page_size_range ty). lia. Qed.

Lemma init_bytes_nth init base ty off : 0 ≤ off < page_size ty →
  nth (Z.to_nat off) (init_bytes init base ty) 0 = init (wrapping_add 64 base off).
Proof.
  intros Ho. rewrite nth_lookup. unfold init_bytes.
  rewrite list_lookup_fmap, lookup_seq_lt by lia. cbn. do 2 f_equal. lia.
Qed.

(** A page of memory that was free and no longer is, apart from the tables,
    with its initial contents. *)
Record fresh_page (T' : tables) (s s' : P) (ty : PageType) (init : option (Z → Z)) (base a : Z) : Prop := {
  fp_addr : is_uint 52 a;
  fp_pos : 0 < a;
  fp_align : a mod page_size ty = 0;
  fp_block x : in_block a (page_size ty) x → pm_free s x ∧ ~ pm_free s' x ∧ pm_window s' x ∧
    ∀ t, is_Some (T' !! t) → ~ in_block t 4096 x;
  fp_init f off : init = Some f → 0 ≤ off < page_size ty →
    mem_byte (pm_mem s') (a + off) = f (wrapping_add 64 base off);
}.

Lemma fresh_page_grown T T' s s1 s2 ty init base a :
  fresh_page T s s1 ty init base a → grown T T' s1 s2 → fresh_page T' s s2 ty init base a.
Proof.
  intros [H1 H0 H2 H3 H4] (_ & Hwin & Hfree & Hnew & Hmem). split; [done|done|done|..].
  - intros x Hx. destruct (H3 x Hx) as (A & B & C & D). split_and!; [done| |by apply Hwin|].
    + intros Hf. by apply B, Hfree.
    + intros t Ht Hb. destruct (T !! t) as [l|] eqn:E; [by apply (D t)|].
      by apply B, (Hnew t x).
  - intros f off Hf Ho. rewrite <- (H4 f off Hf Ho).
    assert (in_block a (page_size ty) (a + off)) as Hb by (unfold in_block; lia).
    destruct (H3 _ Hb) as (_ & B & _ & D). by apply Hmem.
Qed.

Lemma alloc_page root T s s1 a ty (init : option (Z → Z)) base :
  pt_inv root T s → pm_alloc_phys (page_size ty) (page_size ty) s = Done (s1, a) →
  (∀ f z, init = Some f → is_uint 8 (f z)) →
  ∃ s2, match init with
        | Some init =>
            s ← pm_translate a (page_size ty) s1;
            Done (pm_set_mem (write_bytes (pm_mem s) a (init_bytes init base ty)) s)
        | None => Done s1
        end = Done s2 ∧
    pt_inv root T s2 ∧ (∀ v, mmu_walk (ent (pm_mem s2)) root v = mmu_walk (ent (pm_mem s)) root v) ∧
    (∀ v k t, reach (ent (pm_mem s2)) root v k t ↔ reach (ent (pm_mem s)) root v k t) ∧
    grown T T s s2 ∧ fresh_page T s s2 ty init base a.
Proof.
  intros Hinv Ha Hf. pose proof (page_size_range ty) as Hps.
  assert (12 ≤ offset_bits (type_level ty) < 32) as Hk
    by (unfold offset_bits; pose proof (type_level_range ty); lia).
  rewrite type_size in Ha.
  destruct (alloc_spec _ _ _ _ (pt_bytes _ _ _ Hinv) Hk Ha) as (H1 & H2 & H3 & H4 & H5 & H6 & H7 & H8).
  rewrite <- type_size in H2, H3, H4, H5.
  set (m2 := match init with Some f => write_bytes (pm_mem s1) a (init_bytes f base ty) | None => pm_mem s1 end).
  set (s2 := match init with Some _ => pm_set_mem m2 s1 | None => s1 end).
  assert (pm_mem s2 = m2 ∧ pm_free s2 = pm_free s1 ∧ pm_window s2 = pm_window s1) as (Em & Ef & Ew).
  { unfold s2, m2. destruct init; [by rewrite set_mem_mem, set_mem_free, set_mem_window|done]. }
  assert (∀ x, ~ in_block a (page_size ty) x → mem_byte m2 x = mem_byte (pm_mem s1) x) as Hout.
  { intros x Hx. unfold m2. destruct init as [f|]; [|done].
    by rewrite lookup_write_bytes, length_init_bytes, decide_False. }
  assert (grown T T s s2) as Hgr.
  { split_and!; [done|by rewrite Ew|intros x; rewrite Ef; apply H5|intros t x Hn [l Hl]; congruence|].
    intros x Hx _. rewrite Em, Hout; [by apply H7|]. intros Hb. by apply Hx, H4. }
  assert (pm_ok s2) as Hok2.
  { unfold s2, m2 in *. destruct init as [f|]; [|done]. apply set_mem_ok; [done|..].
    - apply write_bytes_ok; [by apply ok_mem|]. apply Forall_fmap, Forall_forall. intros o _. by apply Hf.
    - intros x [_ Hx]%H5. by apply Hout. }
  assert (∀ t l x, T !! t = Some l → in_block t 4096 x → ~ pm_free s x) as Hnf
    by (intros t l x Ht Hx; by apply (pt_page _ _ _ Hinv t l Ht)).
  destruct (pt_inv_frame root T s s2 Hinv Hok2 (proj1 (proj2 Hgr))) as (Hinv2 & Hw & Hr).
  { intros t l x Ht Hx. pose proof (Hnf t l x Ht Hx) as Hn. rewrite Em, Hout; [by apply H7|].
    intros Hb. by apply Hn, H4. }
  { intros t l x Ht Hx. rewrite Ef. intros Hfx. apply (Hnf t l x Ht Hx). by apply H5. }
  exists s2. split; [|split; [done|split; [done|split; [done|split; [done|split; [|done|done|..]]]]]].
  - unfold s2, m2. destruct init; [|done]. by rewrite translate_returns by (lia || (intros x Hx; by apply H4)).
  - unfold is_uint. lia.
  - intros x Hx. rewrite Ef, Ew. destruct (H4 x Hx) as [Hx1 Hx2]. split_and!; try done.
    + intros ?%H5. tauto.
    + intros t [l Hl] Hb. by apply (Hnf t l x Hl).
  - intros f off -> Ho. rewrite Em. unfold m2. rewrite lookup_write_bytes, length_init_bytes, decide_True
      by (unfold in_block; lia). replace (a + off - a) with off by lia. by apply init_bytes_nth.
Qed.

(** [n] pages from [v] on can be mapped. *)
Definition run_mappable (root : Z) (s : P) (ty : PageType) (n : nat) (v : Z) : Prop :=
  v mod page_size ty = 0 ∧
  ∀ k, (k < n)%nat → let v' := v + Z.of_nat k * page_size ty in
    canonical v' ∧ mmu_walk (ent (pm_mem s)) root v' = None ∧
    ∀ t, ~ reach (ent (pm_mem s)) root v' (S (type_level ty)) t.

(** [n] fresh pages are mapped from [v] on, and nothing else has changed. *)
Record run_fresh (root orig : Z) (ty : PageType) (w x : bool) (init : option (Z → Z))
    (T T' : tables) (s s' : P) (n : nat) (v : Z) (pg : nat → Z) : Prop := {
  rf_inv : pt_inv root T' s';
  rf_grown : grown T T' s s';
  rf_fresh k : (k < n)%nat →
    fresh_page T' s s' ty init (wrapping_sub 64 (v + Z.of_nat k * page_size ty) orig) (pg k);
  rf_apart j k y : (j < k < n)%nat → in_block (pg j) (page_size ty) y →
    ~ in_block (pg k) (page_size ty) y;
  rf_here k v' : (k < n)%nat → canonical v' →
    v + Z.of_nat k * page_size ty ≤ v' < v + (Z.of_nat k + 1) * page_size ty →
    mmu_walk (ent (pm_mem s')) root v' = Some (type_level ty, page_entry (pg k) ty w x);
  rf_other v' : canonical v' → ~ v ≤ v' < v + Z.of_nat n * page_size ty →
    mmu_walk (ent (pm_mem s')) root v' = mmu_walk (ent (pm_mem s)) root v';
  rf_reach v' k t' : (type_level ty < k)%nat → reach (ent (pm_mem s')) root v' k t' →
    reach (ent (pm_mem s)) root v' k t';
  rf_keep v' k t' : reach (ent (pm_mem s)) root v' k t' → reach (ent (pm_mem s')) root v' k t';
}.

(** One iteration that maps its page. *)
Lemma map_init_step root cr3 orig ty w x init n T s v :
  (∀ f z, init = Some f → is_uint 8 (f z)) →
  pt_inv root T s → run_mappable root s ty 1 v →
  let o := map_init_loop (S n) root cr3 orig v ty w x init s in
  (only_alloc_fails o ∧ ∀ a, o ≠ Done a) ∨
  ∃ s' T' a, o = map_init_loop n root cr3 orig (v + page_size ty) ty w x init s' ∧
    run_fresh root orig ty w x init T T' s s' 1 v (λ _, a).
Proof.
  intros Hini Hinv [Hal Hrun]. cbn zeta. destruct (Hrun 0%nat ltac:(lia)) as (Hc & Hw & Hnr). clear Hrun.
  rewrite Z.add_0_r in Hc, Hw. setoid_rewrite Z.add_0_r in Hnr. cbn [map_init_loop].
  destruct (pm_alloc_phys (page_size ty) (page_size ty) s) as [[s1 a]|msg|] eqn:Ha; cbn [mbind outcome_bind].
  2-3: left; (split; [left; by exists s, (page_size ty)|done]).
  destruct (alloc_page root T s s1 a ty init (wrapping_sub 64 v orig) Hinv Ha Hini)
    as (s2 & Hi & Hinv2 & Hw2 & Hr2 & Hg2 & Hfp).
  unfold init_bytes in Hi. cbn [mbind outcome_bind] in Hi. rewrite Hi. clear Hi. cbn [mbind outcome_bind].
  destruct (page_entry_facts a ty w x (fp_addr _ _ _ _ _ _ _ Hfp) (fp_align _ _ _ _ _ _ _ Hfp)) as (Hu & Hp & Hlg & _).
  destruct (map_raw_maps root T s2 v ty (page_entry a ty w x) Hinv2 Hu) as [[Hf1 Hf2]|Hok].
  { split_and!; try done; [by rewrite Hw2|]. intros t Hr. by apply (Hnr t), Hr2. }
  { left. destruct (map_raw _ _ _ _ s2) as [y| |]; [by destruct (Hf2 y)|done..]. }
  destruct Hok as (s3 & T3 & -> & Hinv3 & Hsame & Hoth & Hback & Hfwd & Hg3). cbn [mbind outcome_bind].
  right. exists s3, T3, a. split; [done|]. pose proof (type_level_range ty) as Hlr.
  assert (∀ v', canonical v' → agree_below (S (type_level ty)) v v' ↔ v ≤ v' < v + page_size ty) as Hiff.
  { intros v' Hv'. rewrite type_size. apply same_page_iff; try done. by rewrite <- type_size. }
  split; [done|by apply (grown_trans _ T _ _ s2)|..].
  - intros k Hk. replace k with 0%nat by lia. rewrite Z.add_0_r. by apply (fresh_page_grown T _ _ s2).
  - lia.
  - intros k v' Hk Hv' Hin. apply Hsame, Hiff; [done|]. replace k with 0%nat in Hin by lia. lia.
  - intros v' Hv' Hin. rewrite Hoth, Hw2; [done|]. rewrite Hiff by done. lia.
  - intros v' k t' Hk Hr'. by apply Hr2, Hback.
  - intros v' k t' Hr'. by apply Hfwd, Hr2.
Qed.

Lemma run_fresh_cons root orig ty w x init T T1 T2 s s1 s2 n v a pg :
  run_fresh root orig ty w x init T T1 s s1 1 v (λ _, a) →
  run_fresh root orig ty w x init T1 T2 s1 s2 n (v + page_size ty) pg →
  run_fresh root orig ty w x init T T2 s s2 (S n) v (λ k, match k with O => a | S k => pg k end).
Proof.
  intros H1 H2. pose proof (page_size_range ty) as Hps.
  pose proof (rf_fresh _ _ _ _ _ _ _ _ _ _ _ _ _ H1 0%nat ltac:(lia)) as Ha.
  assert (∀ k, v + page_size ty + Z.of_nat k * page_size ty = v + Z.of_nat (S k) * page_size ty) as Ek by lia.
  split.
  - apply (rf_inv _ _ _ _ _ _ _ _ _ _ _ _ _ H2).
  - apply (grown_trans _ T1 _ _ s1); [apply (rf_grown _ _ _ _ _ _ _ _ _ _ _ _ _ H1)|apply (rf_grown _ _ _ _ _ _ _ _ _ _ _ _ _ H2)].
  - intros [|k] Hk; [apply (fresh_page_grown T1 _ _ s1); [done|apply (rf_grown _ _ _ _ _ _ _ _ _ _ _ _ _ H2)]|].
    destruct (rf_fresh _ _ _ _ _ _ _ _ _ _ _ _ _ H2 k ltac:(lia)) as [A A0 B C D]. rewrite Ek in D. split; try done.
    intros y Hy. destruct (C y Hy) as (C1 & C2). split; [|done].
    by apply (rf_grown _ _ _ _ _ _ _ _ _ _ _ _ _ H1).
  - intros [|j] [|k] y Hjk Hy Hb; try lia.
    + destruct (fp_block _ _ _ _ _ _ _ (rf_fresh _ _ _ _ _ _ _ _ _ _ _ _ _ H2 k ltac:(lia)) y Hb) as (C1 & _).
      by apply (fp_block _ _ _ _ _ _ _ Ha y Hy).
    + by apply (rf_apart _ _ _ _ _ _ _ _ _ _ _ _ _ H2 j k y ltac:(lia)).
  - intros [|k] v' Hk Hv' Hin.
    + rewrite (rf_other _ _ _ _ _ _ _ _ _ _ _ _ _ H2) by (done || lia).
      apply (rf_here _ _ _ _ _ _ _ _ _ _ _ _ _ H1 0%nat); (done || lia).
    + apply (rf_here _ _ _ _ _ _ _ _ _ _ _ _ _ H2 k); (done || lia).
  - intros v' Hv' Hin. rewrite (rf_other _ _ _ _ _ _ _ _ _ _ _ _ _ H2) by (done || nia).
    apply (rf_other _ _ _ _ _ _ _ _ _ _ _ _ _ H1); (done || nia).
  - intros v' k t' Hk Hr. apply (rf_reach _ _ _ _ _ _ _ _ _ _ _ _ _ H1); [done|].
    by apply (rf_reach _ _ _ _ _ _ _ _ _ _ _ _ _ H2).
  - intros v' k t' Hr. by apply (rf_keep _ _ _ _ _ _ _ _ _ _ _ _ _ H2), (rf_keep _ _ _ _ _ _ _ _ _ _ _ _ _ H1).
Qed.

Lemma map_init_loop_spec root cr3 orig ty w x init m :
  (∀ f z, init = Some f → is_uint 8 (f z)) → ∀ n T s v,
  pt_inv root T s → run_mappable root s ty n v →
  let o := map_init_loop (n + m) root cr3 orig v ty w x init s in
  (only_alloc_fails o ∧ ∀ a, o ≠ Done a) ∨
  ∃ s' T' pg, o = map_init_loop m root cr3 orig (v + Z.of_nat n * page_size ty) ty w x init s' ∧
    run_fresh root orig ty w x init T T' s s' n v pg.
Proof.
  intros Hini n. induction n as [|n IH]; intros T s v Hinv [Hal Hrun]; cbn zeta; cbn [Nat.add].
  { right. exists s, T, (λ _, 0). rewrite Z.add_0_r. split; [done|].
    split; try done; try lia. apply grown_refl. }
  destruct (map_init_step root cr3 orig ty w x init (n + m) T s v Hini Hinv) as [|(s1 & T1 & a & -> & H1)].
  { split; [done|]. intros k Hk. apply Hrun. lia. }
  { by left. }
  pose proof (page_size_range ty) as Hps.
  destruct (IH T1 s1 (v + page_size ty)) as [|(s2 & T2 & pg & -> & H2)].
  - apply (rf_inv _ _ _ _ _ _ _ _ _ _ _ _ _ H1).
  - split; [rewrite Z.add_mod, Hal, Z.mod_same by lia; done|]. intros k Hk. cbn zeta.
    replace (v + page_size ty + Z.of_nat k * page_size ty) with (v + Z.of_nat (S k) * page_size ty) by lia.
    destruct (Hrun (S k) ltac:(lia)) as (Hc & Hw & Hnr). split; [done|]. split.
    + rewrite (rf_other _ _ _ _ _ _ _ _ _ _ _ _ _ H1) by (done || nia). done.
    + intros t Hr. apply (Hnr t). apply (rf_reach _ _ _ _ _ _ _ _ _ _ _ _ _ H1); [lia|done].
  - by left.
  - right. eexists s2, T2, _. split; [|by apply (run_fresh_cons _ _ _ _ _ _ _ T1 _ _ s1)].
    by replace (v + page_size ty + Z.of_nat n * page_size ty) with (v + Z.of_nat (S n) * page_size ty) by lia.
Qed.

(** The number of pages [map_init] maps. *)
Definition page_count (ty : PageType) (size : Z) : nat := Z.to_nat ((size - 1) / page_size ty + 1).

Lemma map_init_eq root cr3 v ty size w x init s :
  0 < size → v mod page_size ty = 0 → v + size - 1 < 2 ^ 64 →
  map_init root cr3 v ty size w x init s =
  map_init_loop (page_count ty size) root cr3 v v ty w x init s.
Proof.
  intros Hs Hal Hv. unfold map_init. rewrite (proj2 (Z.leb_gt size 0)) by lia.
  assert (Z.land v (page_size ty - 1) = 0) as Hm.
  { rewrite type_size, land_mask_mod by (unfold offset_bits; pose proof (type_level_range ty); lia).
    by rewrite <- type_size. }
  rewrite Hm. cbn [orb negb Z.eqb]. unfold checked_add.
  rewrite (proj2 (Z.ltb_lt (v + (size - 1)) _)) by lia. unfold page_count.
  by replace (v + (size - 1) - v) with (size - 1) by lia.
Qed.

Lemma map_init_maps root cr3 v ty size w x init T s :
  (∀ f z, init = Some f → is_uint 8 (f z)) → pt_inv root T s →
  0 < size → v + size - 1 < 2 ^ 64 → run_mappable root s ty (page_count ty size) v →
  let o := map_init root cr3 v ty size w x init s in
  (only_alloc_fails o ∧ ∀ a, o ≠ Done a) ∨
  ∃ s' T' pg, o = Done (s', Some tt) ∧
    run_fresh root v ty w x init T T' s s' (page_count ty size) v pg.
Proof.
  intros Hini Hinv Hs Hv Hrun. cbn zeta. rewrite map_init_eq by (done || apply Hrun).
  pose proof (map_init_loop_spec root cr3 v ty w x init 0 Hini _ T s v Hinv Hrun) as Hl.
  rewrite Nat.add_0_r in Hl. destruct Hl as [|(s' & T' & pg & Ho & Hr)]; [by left|right].
  by exists s', T', pg.
Qed.

(** The pages of a fresh run can be freed again. *)
Lemma run_fresh_mapped root orig ty w x init T T' s s' s2 n v pg :
  run_fresh root orig ty w x init T T' s s' (S n) v pg → v mod page_size ty = 0 →
  (∀ k, (k ≤ n)%nat → canonical (v + Z.of_nat k * page_size ty)) →
  (∀ v', mmu_walk (ent (pm_mem s2)) root v' = mmu_walk (ent (pm_mem s')) root v') →
  grown T' T' s' s2 →
  run_mapped root T' s2 (type_level ty) n v (λ k, page_entry (pg k) ty w x) ∧
  ∀ k, (k ≤ n)%nat → page_addr (type_level ty) (page_entry (pg k) ty w x) = pg k.
Proof.
  intros Hrf Hal Hcan Hw2 (_ & Hwin & Hfree & _).
  assert (∀ k, (k ≤ n)%nat → page_addr (type_level ty) (page_entry (pg k) ty w x) = pg k) as Hpa.
  { intros k Hk. pose proof (rf_fresh _ _ _ _ _ _ _ _ _ _ _ _ _ Hrf k ltac:(lia)) as Hf.
    by apply page_entry_facts; [apply (fp_addr _ _ _ _ _ _ _ Hf)|apply (fp_align _ _ _ _ _ _ _ Hf)]. }
  split; [|done]. pose proof (page_size_range ty) as Hps. split; [by rewrite <- type_size|].
  intros k Hk. rewrite <- type_size. split; [by apply Hcan|]. split_and!.
  - rewrite Hw2. apply (rf_here _ _ _ _ _ _ _ _ _ _ _ _ _ Hrf k); [lia|by apply Hcan|lia].
  - unfold page_owned. rewrite Hpa, <- type_size by done.
    pose proof (rf_fresh _ _ _ _ _ _ _ _ _ _ _ _ _ Hrf k ltac:(lia)) as Hf.
    split; [apply (fp_pos _ _ _ _ _ _ _ Hf)|]. intros y Hy.
    destruct (fp_block _ _ _ _ _ _ _ Hf y Hy) as (_ & Hn & Hwi & Hno).
    split_and!; [by intros ?%Hfree|by apply Hwin|done].
  - intros j y Hj. rewrite !Hpa by lia. apply (rf_apart _ _ _ _ _ _ _ _ _ _ _ _ _ Hrf). lia.
Qed.

(** Where a page could go, no part of it is mapped. *)
Lemma mappable_unmapped root T s v v' l : pt_inv root T s → agree_below (S l) v v' →
  mmu_walk (ent (pm_mem s)) root v = None → (∀ t, ~ reach (ent (pm_mem s)) root v (S l) t) →
  mmu_walk (ent (pm_mem s)) root v' = None.
Proof.
  intros Hinv Ha Hw Hnr. pose proof (pt_graph _ _ _ Hinv) as Hg. set (E := ent (pm_mem s)) in *.
  destruct (mmu_walk E root v') as [[l' e]|] eqn:Hw'; [exfalso|done].
  destruct (gwalk_Some E root v' 4 0 root l' e (reach_root _ _ _) Hw') as (t & Hr & He & Hp & Hpt & Hl).
  assert (∀ k x, (k ≤ S l)%nat → reach E root v' k x → reach E root v k x) as Hback.
  { intros k y Hk Hy. apply (reach_agree root T E v' v k y Hg Hy). intros i Hi. symmetry. apply Ha. lia. }
  destruct (decide (l' ≤ l)%nat) as [Hle|Hle].
  - apply Hback in Hr; [|lia]. rewrite (gwalk_reach E root v l' t Hr) in Hw.
    replace (4 - l')%nat with (S (4 - S l')) in Hw by lia. cbn [gwalk] in Hw.
    rewrite (Ha l'), He, Hp, Hpt in Hw by lia. cbn [negb] in Hw.
    by rewrite (proj2 (Nat.eqb_neq l' 0)) in Hw by lia.
  - destruct (reach_prefix E root v' l' t (S l) Hr ltac:(lia)) as [y Hy].
    by apply (Hnr y), Hback.
Qed.

(** The part of [map_init] after a page could not be mapped. *)
Lemma undo_run root cr3 orig ty w x init T T1 s s1 s2 n v pg :
  pt_inv root T s →
  run_fresh root orig ty w x init T T1 s s1 n v pg → run_mappable root s ty n v →
  pt_inv root T1 s2 → (∀ v', mmu_walk (ent (pm_mem s2)) root v' = mmu_walk (ent (pm_mem s1)) root v') →
  grown T1 T1 s1 s2 →
  let mapped := Z.of_nat n * page_size ty in is_uint 64 mapped →
  let o := if 0 <? mapped then '(s, _) ← free root cr3 v mapped s2; Done s else Done s2 in
  (only_alloc_fails o ∧ ∀ a, o ≠ Done a) ∨
  ∃ s3 T3, o = Done s3 ∧ pt_inv root T3 s3 ∧
    freed_page T1 T3 s2 s3 (λ y, ∃ k, (k < n)%nat ∧ in_block (pg k) (page_size ty) y) ∧
    ∀ v', canonical v' → mmu_walk (ent (pm_mem s3)) root v' = mmu_walk (ent (pm_mem s)) root v'.
Proof.
  intros Hinv Hrf [Hal Hrun] Hinv2 Hw2 Hg2 mapped Hm. cbn zeta. pose proof (page_size_range ty) as Hps.
  destruct n as [|n].
  { right. exists s2, T1. split; [done|]. split; [done|]. split.
    - split; [done|]. split; [done|]. intros y. split; [tauto|].
      intros [|[(t & l & Ht & Hn & _)|(k & Hk & _)]]; [done|congruence|lia].
    - intros v' Hv'. rewrite Hw2. apply (rf_other _ _ _ _ _ _ _ _ _ _ _ _ _ Hrf); [done|lia]. }
  rewrite (proj2 (Z.ltb_lt 0 mapped)) by (unfold mapped; lia).
  destruct (run_fresh_mapped root orig ty w x init T T1 s s1 s2 n v pg Hrf Hal) as [Hmp Hpa];
    [intros k Hk; apply Hrun; lia|done|done|].
  assert (mapped = (Z.of_nat n + 1) * 2 ^ offset_bits (type_level ty)) as Em
    by (rewrite <- type_size; unfold mapped; lia).
  rewrite Em in *. clearbody mapped. clear mapped Em.
  destruct (free_correct root T1 s2 (type_level ty) n v _ cr3 (type_level_range ty) Hinv2 Hmp Hm)
    as [[Hf1 Hf2]|(s3 & T3 & -> & Hinv3 & Hfp & Hw3)].
  { left. destruct (free _ _ _ _ s2) as [[y b]| |]; [by destruct (Hf2 (y, b))|done..]. }
  right. exists s3, T3. split; [done|]. split; [done|]. split.
  - destruct Hfp as (F1 & F2 & F3). split; [done|]. split; [done|]. intros y. rewrite F3.
    do 2 (apply or_iff_compat_l). split; intros (k & Hk & Hb); exists k; (split; [lia|]).
    + rewrite Hpa, <- type_size in Hb by lia. done.
    + rewrite Hpa, <- type_size by lia. done.
  - intros v' Hv'. rewrite Hw3, Hw2 by done. rewrite <- type_size. case_decide as Hin.
    + symmetry. set (q := (v' - v) / page_size ty).
      pose proof (Z.div_mod (v' - v) (page_size ty) ltac:(lia)) as Hdm.
      pose proof (Z.mod_pos_bound (v' - v) (page_size ty) ltac:(lia)) as Hmb. fold q in Hdm.
      assert (0 ≤ q < Z.of_nat n + 1) as Hq by nia.
      destruct (Hrun (Z.to_nat q) ltac:(lia)) as (Hc & Hnone & Hnr). rewrite Z2Nat.id in * by lia.
      apply (mappable_unmapped root T s (v + q * page_size ty) v' (type_level ty)); try done.
      rewrite type_size in *. apply same_page_iff; try done; [apply type_level_range| |lia].
      by rewrite Z.add_mod, Z.mod_mul, Z.add_0_r, Hal, Z.mod_0_l by lia.
    + apply (rf_other _ _ _ _ _ _ _ _ _ _ _ _ _ Hrf); [done|lia].
Qed.

Lemma map_init_undoes root cr3 v ty size w x init T s n :
  (∀ f z, init = Some f → is_uint 8 (f z)) → pt_inv root T s → 0 ≤ v →
  0 < size → v + size - 1 < 2 ^ 64 → (n < page_count ty size)%nat →
  run_mappable root s ty n v → ~ run_mappable root s ty (S n) v →
  let o := map_init root cr3 v ty size w x init s in
  (only_alloc_fails o ∧ ∀ a, o ≠ Done a) ∨
  ∃ s' T' a, o = Done (s', None) ∧ pt_inv root T' s' ∧
    (∀ v', canonical v' → mmu_walk (ent (pm_mem s')) root v' = mmu_walk (ent (pm_mem s)) root v') ∧
    ∀ y, in_block a (page_size ty) y → pm_free s y ∧ ~ pm_free s' y ∧
      ∀ t, is_Some (T' !! t) → ~ in_block t 4096 y.
Proof.
  intros Hini Hinv Hv0 Hs Hv Hn Hrun Hstop. cbn zeta. rewrite map_init_eq by (done || apply Hrun).
  pose proof (page_size_range ty) as Hps.
  assert (Z.of_nat n * page_size ty < size) as Hns.
  { unfold page_count in Hn. assert (Z.of_nat n ≤ (size - 1) / page_size ty) as Hq by lia.
    pose proof (Z.mul_div_le (size - 1) (page_size ty)). nia. }
  replace (page_count ty size) with (n + S (page_count ty size - S n))%nat by lia.
  destruct (map_init_loop_spec root cr3 v ty w x init (S (page_count ty size - S n)) Hini n T s v Hinv Hrun)
    as [|(s1 & T1 & pg & -> & Hrf)]; [by left|].
  set (vn := v + Z.of_nat n * page_size ty) in *. cbn [map_init_loop].
  destruct (pm_alloc_phys (page_size ty) (page_size ty) s1) as [[s1' a]|msg|] eqn:Ha; cbn [mbind outcome_bind].
  2-3: left; (split; [left; by exists s1, (page_size ty)|done]).
  pose proof (rf_inv _ _ _ _ _ _ _ _ _ _ _ _ _ Hrf) as Hinv1.
  destruct (alloc_page root T1 s1 s1' a ty init (wrapping_sub 64 vn v) Hinv1 Ha Hini)
    as (s2 & Hi & Hinv2 & Hw2 & Hr2 & Hg2 & Hfp).
  unfold init_bytes in Hi. cbn [mbind outcome_bind] in Hi. rewrite Hi. clear Hi. cbn [mbind outcome_bind].
  rewrite (map_raw_refuses root T1 s2 vn ty _ Hinv2).
  2:{ unfold is_uint, vn. lia. }
  2:{ intros (_ & _ & Hc & Hwn & Hnr). apply Hstop. split; [apply Hrun|]. intros k Hk.
      destruct (decide (k = n)) as [->|]; [|apply Hrun; lia]. fold vn. cbn zeta.
      rewrite Hw2, (rf_other _ _ _ _ _ _ _ _ _ _ _ _ _ Hrf) in Hwn by (done || (unfold vn; lia)).
      split; [done|]. split; [done|]. intros t Hr.
      by apply (Hnr t), Hr2, (rf_keep _ _ _ _ _ _ _ _ _ _ _ _ _ Hrf). }
  cbn [mbind outcome_bind].
  rewrite (wrapping_sub_small 64 vn v) by (unfold is_uint, vn; lia).
  replace (vn - v) with (Z.of_nat n * page_size ty) by (unfold vn; lia).
  destruct (undo_run root cr3 v ty w x init T T1 s s1 s2 n v pg Hinv Hrf Hrun Hinv2 Hw2 Hg2)
    as [[Hf1 Hf2]|(s3 & T3 & -> & Hinv3 & Hfp3 & Hw3)]; [unfold is_uint; lia|..].
  { left. destruct (if 0 <? _ then _ else _) as [y| |]; [by destruct (Hf2 y)|done..]. }
  right. exists s3, T3, a. split; [done|]. split; [done|]. split; [done|].
  intros y Hy. destruct (fp_block _ _ _ _ _ _ _ Hfp y Hy) as (A & B & _ & D).
  destruct Hfp3 as (F1 & _ & F3). split_and!.
  - by apply (rf_grown _ _ _ _ _ _ _ _ _ _ _ _ _ Hrf).
  - rewrite F3. intros [|[(t & l & Ht & _ & Hb)|(k & Hk & Hb)]]; [done|..].
    + by apply (D t); [eexists|].
    + by apply (fp_block _ _ _ _ _ _ _ (rf_fresh _ _ _ _ _ _ _ _ _ _ _ _ _ Hrf k Hk) y Hb).
  - intros t [l Ht] Hb. apply (D t); [|done]. exists l. by apply (lookup_weaken _ _ _ _ Ht).
Qed.

End ops.
