(* ===== verification/BootMm.v ===== *)
(** * Physical memory of the bootloader (bootloader/src/mm.rs)

    [PhysicalMemory], the bootloader's [PhysMem], on top of a [RangeSet]; its
    global allocator; and [init], which builds the set of free memory from the
    two passes over the memory map of the BIOS.  The theorems of RangeSet.v
    discharge [PhysMemLaws]. *)

From stdpp Require Import base tactics option list numbers strings gmap.
From Stdlib Require Import ZArith Lia.
From S2P Require Import Prelude MachineInt Bytes RangeSet PhysMem.

Local Open Scope Z_scope.

(** [usize::MAX] in the bootloader *)
Definition usize_max : Z := 2 ^ 32 - 1.

(** [PhysicalMemory]: the free memory, and the memory itself. *)
Record PhysicalMemory := mkPhysicalMemory { bm_mem : mem; bm_free : RangeSet }.

Definition translate (paddr size : Z) (s : PhysicalMemory) : outcome PhysicalMemory :=
  assert (0 <? size) "Attempted to translate zero size memory";;
  paddr ← expect (try_into 32 paddr) "Physical address outside of addressible range";
  _ ← expect (checked_add 32 paddr (size - 1))
    "Integer overflow on physical address translation";
  Done s.

Definition alloc_phys (size align : Z) (s : PhysicalMemory) : outcome (PhysicalMemory * Z) :=
  '(ptr, rs) ← RangeSet.allocate usize_max (bm_free s) size align;
  a ← expect ptr "Failed to allocate physical memory";
  Done (mkPhysicalMemory (bm_mem s) rs, a).

Definition free_phys (addr size : Z) (s : PhysicalMemory) : outcome PhysicalMemory :=
  e ← expect (x ← checked_sub size 1; checked_add 64 x addr) "Integer overflow on free";
  rs ← RangeSet.insert (bm_free s) (mkRange addr e);
  Done (mkPhysicalMemory (bm_mem s) rs).

#[export] Instance boot_phys_mem : PhysMem PhysicalMemory := {
  pm_mem := bm_mem;
  pm_set_mem m s := mkPhysicalMemory m (bm_free s);
  pm_translate := translate;
  pm_alloc_phys := alloc_phys;
  pm_free_phys := free_phys;
}.

(** ** The global allocator: [BOOT_ARGS.free_memory] *)

Definition alloc (pmem : option RangeSet) (size align : Z) : outcome (option RangeSet * Z) :=
  match pmem with
  | None => Done (None, 0)
  | Some rs =>
      '(ptr, rs) ← RangeSet.allocate usize_max rs size align;
      Done (Some rs, default 0 ptr)
  end.

Definition dealloc (pmem : option RangeSet) (ptr size : Z) : outcome (option RangeSet) :=
  let msg := "Cannot free memory without initialized MM" in
  rs ← expect pmem msg;
  n ← expect (checked_sub size 1) msg;
  e ← expect (checked_add 64 ptr n) msg;
  rs ← RangeSet.insert rs (mkRange ptr e);
  Done (Some rs).

(** ** [init] *)

Record E820Entry := mkE820Entry { base : Z; size : Z; typ : Z }.

(** What one [int 0x15] leaves: the entry it filled in, [ebx] and [efl]. *)
Record E820Reply := mkE820Reply { entry : E820Entry; ebx : Z; efl : Z }.

Section init.

(** The BIOS behind [invoke_realmode]: its state, and the answer to an E820
    call with the given continuation code. *)
Context {B : Type} (e820 : B → Z → B * E820Reply).

Definition use_entry (add_free_mem : bool) (ent : E820Entry) (free_memory : RangeSet)
    : outcome RangeSet :=
  if add_free_mem && (typ ent =? 1) && (0 <? size ent) then
    e ← unwrap (checked_add 64 (base ent) (size ent - 1));
    RangeSet.insert free_memory (mkRange (base ent) e)
  else if negb add_free_mem && negb (typ ent =? 1) && (0 <? size ent) then
    e ← unwrap (checked_add 64 (base ent) (size ent - 1));
    RangeSet.remove free_memory (mkRange (base ent) e)
  else Done free_memory.

(** The [loop] over the entries of the map; the BIOS ends it with a
    continuation code of 0. *)
Fixpoint e820_pass (fuel : nat) (add_free_mem : bool) (b : B) (cont : Z)
    (free_memory : RangeSet) : outcome (B * RangeSet) :=
  match fuel with
  | O => OutOfFuel
  | S fuel =>
      let '(b, r) := e820 b cont in
      if negb (Z.land (efl r) 1 =? 0) then Panic "Error reported by BIOS on E820" else
      free_memory ← use_entry add_free_mem (entry r) free_memory;
      if ebx r =? 0 then Done (b, free_memory)
      else e820_pass fuel add_free_mem b (ebx r) free_memory
  end.

Definition init (fuel : nat) (b : B) (pmem : option RangeSet) : outcome (B * option RangeSet) :=
  match pmem with
  | Some _ => Done (b, pmem)
  | None =>
      '(b, free_memory) ← e820_pass fuel true b 0 RangeSet.new;
      '(b, free_memory) ← e820_pass fuel false b 0 free_memory;
      free_memory ← RangeSet.remove free_memory (mkRange 0 (1024 * 1024 - 1));
      Done (b, Some free_memory)
  end.

End init.

(** ** The laws of [PhysMem] *)

Lemma boot_alloc_spec size k s s' a :
  wf (bm_free s) → 0 < size < 2 ^ 32 → 0 ≤ k < 32 →
  alloc_phys size (2 ^ k) s = Done (s', a) →
  0 ≤ a ∧ a + size ≤ 2 ^ 32 ∧ a mod 2 ^ k = 0 ∧ bm_mem s' = bm_mem s ∧ wf (bm_free s') ∧
  (∀ x, in_block a size x → x ∈ bm_free s) ∧
  (∀ x, x ∈ bm_free s' → x ∈ bm_free s ∧ ~ in_block a size x).
Proof.
  intros Hwf Hsize Hk Ha. unfold alloc_phys in Ha. apply bind_Done in Ha as ([ptr rs] & Ealc & Ha).
  destruct ptr as [p|]; [|done]. cbn [expect mbind outcome_bind] in Ha.
  apply Done_pair_inj in Ha as [<- <-]. cbn [bm_mem bm_free].
  destruct (allocate_prefer_correct usize_max (bm_free s) size k None p rs) as
    (base & Hwf' & Hal & Hmax & Hb & Hin & Hout); [done|lia|lia|done|done|].
  assert (is_uint 64 p) as Hp by (apply (wf_uint (bm_free s)); [done|apply Hin; lia]).
  unfold usize_max, is_uint, in_block in *.
  split_and!; try done; try lia.
  - intros x Hx. apply Hin. lia.
  - intros x Hx. apply Hout in Hx as [Hx1 Hx2]. split; [done|lia].
Qed.

Lemma boot_free_spec a size s s' :
  wf (bm_free s) → is_uint 64 a → 0 < size → free_phys a size s = Done s' →
  bm_mem s' = bm_mem s ∧ wf (bm_free s') ∧
  (∀ x, x ∈ bm_free s' ↔ x ∈ bm_free s ∨ in_block a size x).
Proof.
  intros Hwf Ha Hsize Hf. unfold free_phys in Hf. apply bind_Done in Hf as (e & He & Hf).
  apply expect_Done, bind_Some in He as (x & Hx & He).
  apply checked_sub_Some in Hx as [-> _]. apply checked_add_Some in He as [-> He].
  apply bind_Done in Hf as (rs & Hi & Hf). apply Done_inj in Hf as <-. cbn [bm_mem bm_free].
  destruct (insert_correct (bm_free s) (mkRange a (size - 1 + a)) Hwf)
    as [(rs' & Hi' & Hwf' & Hin)|[Hi' _]]; [unfold range_ok, is_uint in *; cbn; lia| |congruence].
  rewrite Hi in Hi'. apply Done_inj in Hi' as <-. split_and!; [done..|].
  intros x. rewrite Hin, elem_of_mkRange. unfold in_block.
  split; (intros [|]; [by left|right; lia]).
Qed.

#[export] Program Instance boot_phys_mem_laws : PhysMemLaws PhysicalMemory := {
  pm_free s x := x ∈ bm_free s;
  pm_window s x := 0 ≤ x < 2 ^ 32;
  pm_ok s := mem_ok (bm_mem s) ∧ wf (bm_free s) ∧ ~ 0 ∈ bm_free s;
}.
Next Obligation. by intros s [? _]. Qed.
Next Obligation. intros m s (_ & ? & ?) ? _. by split_and!. Qed.
Next Obligation. done. Qed.
Next Obligation. done. Qed.
Next Obligation. done. Qed.
Next Obligation.
  intros a n s Hn Hw. pose proof (Hw a) as Ha. pose proof (Hw (a + n - 1)) as He.
  unfold in_block in *. cbn. unfold translate, try_into, checked_add.
  rewrite (proj2 (Z.ltb_lt 0 n)), (proj2 (Z.ltb_lt a _)) by lia. cbn [assert expect mbind outcome_bind].
  by rewrite (proj2 (Z.ltb_lt (a + (n - 1)) _)) by lia.
Qed.
Next Obligation.
  intros k s s' a (Hm & Hwf & H0) Hk Ha. cbn in *.
  assert (0 < 2 ^ k < 2 ^ 32) as Hsize by (split; [lia|apply Z.pow_lt_mono_r; lia]).
  destruct (boot_alloc_spec (2 ^ k) k s s' a Hwf Hsize ltac:(lia) Ha) as (H1 & H2 & H3 & H4 & H5 & H6 & H7).
  assert (a ≠ 0) by (intros ->; apply H0, H6; unfold in_block; lia).
  rewrite H4. split_and!; try done; try lia.
  - intros x Hx. split; [by apply H6|]. unfold in_block in Hx. lia.
  - by intros [? _]%H7.
Qed.
Next Obligation.
  intros a k s s' (Hm & Hwf & H0) Hk Ha _ Huse Hf. cbn in *.
  assert (0 < 2 ^ k) as Hsize by lia. pose proof (Huse a) as Hwa. unfold in_block in Hwa at 1.
  assert (is_uint 64 a) as Hu by (unfold is_uint; lia).
  destruct (boot_free_spec a (2 ^ k) s s' Hwf Hu Hsize Hf) as (H1 & H2 & H3).
  rewrite H1. split_and!; try done. intros [?|?]%H3; [done|]. unfold in_block in *. lia.
Qed.

(** ** The memory map of the BIOS *)

Section init_proofs.
Context {B : Type} (e820 : B → Z → B * E820Reply).

(** Asking the BIOS until its continuation code is 0 gives these entries. *)
Inductive e820_map : B → Z → list E820Entry → B → Prop :=
| map_last b c b' r : e820 b c = (b', r) → Z.land (efl r) 1 = 0 → ebx r = 0 →
    e820_map b c [entry r] b'
| map_more b c b1 r es b' : e820 b c = (b1, r) → Z.land (efl r) 1 = 0 → ebx r ≠ 0 →
    e820_map b1 (ebx r) es b' → e820_map b c (entry r :: es) b'.

(** Entries that do not pass the top of the address space. *)
Definition entry_ok (e : E820Entry) : Prop := 0 ≤ base e ∧ base e + size e ≤ 2 ^ 64.

Definition covers (e : E820Entry) (x : Z) : Prop := base e ≤ x < base e + size e.

(** What a pass makes of the set. *)
Definition pass_result (add : bool) (es : list E820Entry) (rs : RangeSet) (x : Z) : Prop :=
  if add then x ∈ rs ∨ Exists (λ e, typ e = 1 ∧ covers e x) es
  else x ∈ rs ∧ ~ Exists (λ e, typ e ≠ 1 ∧ covers e x) es.

Lemma use_entry_spec add e rs : wf rs → entry_ok e → (RangeSet.in_use rs < CAPACITY)%nat →
  ∃ rs', use_entry add e rs = Done rs' ∧ wf rs' ∧
    (RangeSet.in_use rs' ≤ S (RangeSet.in_use rs))%nat ∧
    ∀ x, x ∈ rs' ↔ pass_result add [e] rs x.
Proof.
  intros Hwf [Hb Ht] Hroom. unfold use_entry.
  assert (∀ A (k : Z → outcome A), 0 < size e →
    (e ← unwrap (checked_add 64 (base e) (size e - 1)); k e) = k (base e + size e - 1)) as Hadd.
  { intros A k Hs. unfold checked_add. rewrite (proj2 (Z.ltb_lt (base e + (size e - 1)) _)) by lia.
    cbn. f_equal. lia. }
  assert (0 < size e → range_ok (mkRange (base e) (base e + size e - 1))) as Hr by (unfold range_ok; cbn; lia).
  assert (∀ x, x ∈ mkRange (base e) (base e + size e - 1) ↔ covers e x) as Hc
    by (intros x; rewrite elem_of_mkRange; unfold covers; lia).
  destruct add; cbn [andb negb pass_result].
  - destruct (Z.eqb_spec (typ e) 1) as [Hty|Hty], (Z.ltb_spec 0 (size e)) as [Hs|Hs]; cbn [andb].
    1: { rewrite Hadd by done. destruct (insert_correct rs _ Hwf (Hr Hs)) as [(rs' & -> & Hwf' & Hin)|(_ & Hfull & _)]; [|lia].
         exists rs'. split_and!; try done; [by eapply insert_in_use|].
         intros x. rewrite Hin, Hc. rewrite Exists_cons, Exists_nil. tauto. }
    all: exists rs; split_and!; try done; [lia|]; intros x; rewrite Exists_cons, Exists_nil;
      unfold covers; intuition lia.
  - destruct (Z.eqb_spec (typ e) 1) as [Hty|Hty], (Z.ltb_spec 0 (size e)) as [Hs|Hs]; cbn [andb negb].
    3: { rewrite Hadd by done. destruct (remove_correct rs _ Hwf (Hr Hs)) as [(rs' & -> & Hwf' & Hin)|(_ & Hfull & _)].
         - exists rs'. split_and!; try done; [by eapply remove_in_use|].
           intros x. rewrite Hin, Hc. rewrite Exists_cons, Exists_nil. tauto.
         - destruct (wf_rep rs Hwf) as [Hrep _]. rewrite (rep_in_use _ _ Hrep) in Hroom. lia. }
    all: exists rs; split_and!; try done; [lia|]; intros x; rewrite Exists_cons, Exists_nil;
      unfold covers; intuition lia.
Qed.

Lemma pass_result_cons add e es rs rs1 x :
  (x ∈ rs1 ↔ pass_result add [e] rs x) →
  pass_result add es rs1 x ↔ pass_result add (e :: es) rs x.
Proof.
  intros H1. destruct add; cbn in *; rewrite H1, !Exists_cons, Exists_nil; tauto.
Qed.

Lemma e820_pass_spec add b c es b' : e820_map b c es b' → ∀ fuel rs,
  (length es ≤ fuel)%nat → Forall entry_ok es → wf rs →
  (RangeSet.in_use rs + length es ≤ CAPACITY)%nat →
  ∃ rs', e820_pass e820 fuel add b c rs = Done (b', rs') ∧ wf rs' ∧
    (RangeSet.in_use rs' ≤ RangeSet.in_use rs + length es)%nat ∧
    ∀ x, x ∈ rs' ↔ pass_result add es rs x.
Proof.
  induction 1 as [b c b' r He Hf Hx|b c b1 r es b' He Hf Hx Hm IH]; intros fuel rs Hfu Hok Hwf Hroom;
    cbn [length] in *; (destruct fuel as [|fuel]; [lia|]); cbn [e820_pass]; rewrite He, Hf; cbn [Z.eqb negb];
    apply Forall_cons in Hok as [Hok1 Hok];
    (destruct (use_entry_spec add (entry r) rs Hwf Hok1) as (rs1 & -> & Hwf1 & Hn1 & Hin1); [lia|]);
    cbn [mbind outcome_bind].
  - rewrite Hx. cbn [Z.eqb]. exists rs1. split_and!; (done || lia).
  - rewrite (proj2 (Z.eqb_neq _ _) Hx).
    destruct (IH fuel rs1) as (rs2 & -> & Hwf2 & Hn2 & Hin2); [lia|done|done|lia|].
    exists rs2. split_and!; [done|done|lia|]. intros x. rewrite Hin2. by apply pass_result_cons.
Qed.

Lemma init_correct fuel b b1 b2 es1 es2 :
  e820_map b 0 es1 b1 → e820_map b1 0 es2 b2 →
  Forall entry_ok es1 → Forall entry_ok es2 →
  (length es1 + length es2 < CAPACITY)%nat → (CAPACITY ≤ fuel)%nat →
  ∃ rs, init e820 fuel b None = Done (b2, Some rs) ∧ wf rs ∧
    ∀ x, x ∈ rs ↔ Exists (λ e, typ e = 1 ∧ covers e x) es1 ∧
      ~ Exists (λ e, typ e ≠ 1 ∧ covers e x) es2 ∧ 1024 * 1024 ≤ x.
Proof.
  intros Hm1 Hm2 Hok1 Hok2 Hlen Hfuel. unfold init.
  assert (wf RangeSet.new) as Hwf0 by (exists []; split; [apply rep_new|by split]).
  destruct (e820_pass_spec true b 0 es1 b1 Hm1 fuel RangeSet.new) as (rs1 & -> & Hwf1 & Hn1 & Hin1);
    [lia|done|done|cbn; lia|]. cbn [mbind outcome_bind RangeSet.in_use RangeSet.new] in *.
  destruct (e820_pass_spec false b1 0 es2 b2 Hm2 fuel rs1) as (rs2 & -> & Hwf2 & Hn2 & Hin2);
    [lia|done|done|lia|]. cbn [mbind outcome_bind].
  destruct (remove_correct rs2 (mkRange 0 (1024 * 1024 - 1)) Hwf2) as [(rs3 & -> & Hwf3 & Hin3)|(_ & Hfull & _)].
  { unfold range_ok. cbn. lia. }
  - exists rs3. split; [done|]. split; [done|]. intros x. rewrite Hin3, Hin2, elem_of_mkRange.
    cbn [pass_result]. rewrite Hin1. cbn [pass_result].
    assert (x ∉ RangeSet.new) as Hnew by (intros H; inversion H).
    split; [|intros (H1 & H2 & H3); split; [tauto|lia]].
    intros [[[|Hu] Hn] Hx]; [done|]. split; [done|]. split; [done|].
    assert (0 ≤ x); [|lia]. apply Exists_exists in Hu as (e & He & _ & Hc).
    rewrite Forall_forall in Hok1. pose proof (proj1 (Hok1 e He)). unfold covers in Hc. lia.
  - destruct (wf_rep rs2 Hwf2) as [Hrep _]. rewrite <- (rep_in_use _ _ Hrep) in Hfull. lia.
Qed.

(** with a BIOS that reports the entries [es1] and then [es2], fewer than
    256 in all, the memory [init] declares free is exactly what the first pass
    reports as usable, less whatever the second reports as anything else, less
    the first megabyte. *)
Theorem init_spec fuel b b1 b2 es1 es2 :
  e820_map b 0 es1 b1 → e820_map b1 0 es2 b2 →
  Forall entry_ok es1 → Forall entry_ok es2 →
  (length es1 + length es2 < CAPACITY)%nat → (CAPACITY ≤ fuel)%nat →
  ∃ rs, init e820 fuel b None = Done (b2, Some rs) ∧ wf rs ∧
    ∀ x, x ∈ rs ↔ Exists (λ e, typ e = 1 ∧ covers e x) es1 ∧
      ~ Exists (λ e, typ e ≠ 1 ∧ covers e x) es2 ∧ 1024 * 1024 ≤ x.
Proof. apply init_correct. Qed.

End init_proofs.

(** A BIOS with 640 KiB of low memory, a reserved hole in the high memory that
    it also reports as usable, and no state. *)
Definition demo_e820 (_ : unit) (c : Z) : unit * E820Reply :=
  if c =? 0 then (tt, mkE820Reply (mkE820Entry 0 0xa0000 1) 1 2)
  else if c =? 1 then (tt, mkE820Reply (mkE820Entry 0x100000 0x700000 1) 2 2)
  else (tt, mkE820Reply (mkE820Entry 0x200000 0x1000 2) 0 2).

Definition demo_map : list E820Entry :=
  [mkE820Entry 0 0xa0000 1; mkE820Entry 0x100000 0x700000 1; mkE820Entry 0x200000 0x1000 2].

Lemma demo_e820_map : e820_map demo_e820 tt 0 demo_map tt.
Proof.
  apply (map_more demo_e820 tt 0 tt (mkE820Reply (mkE820Entry 0 0xa0000 1) 1 2)); try done.
  apply (map_more demo_e820 tt 1 tt (mkE820Reply (mkE820Entry 0x100000 0x700000 1) 2 2)); try done.
  by apply (map_last demo_e820 tt 2 tt (mkE820Reply (mkE820Entry 0x200000 0x1000 2) 0 2)).
Qed.

Lemma init_spec_witness :
  ∃ rs, init demo_e820 256 tt None = Done (tt, Some rs) ∧ wf rs ∧
    0x100000 ∈ rs ∧ 0x1fffff ∈ rs ∧ ~ 0x200000 ∈ rs ∧ ~ 0x9ffff ∈ rs.
Proof.
  destruct (init_spec demo_e820 256 tt tt tt demo_map demo_map) as (rs & Hi & Hwf & Hin).
  - apply demo_e820_map.
  - apply demo_e820_map.
  - repeat (apply Forall_cons_2; [split; cbn; lia|]). constructor.
  - repeat (apply Forall_cons_2; [split; cbn; lia|]). constructor.
  - cbn. unfold CAPACITY. lia.
  - unfold CAPACITY. lia.
  - exists rs. split; [done|]. split; [done|]. rewrite !Hin. unfold demo_map.
    rewrite !Exists_cons, !Exists_nil. unfold covers. cbn. lia.
Defined.
