(* ===== verification/PageTableProps.v ===== *)
(** * Page tables: the properties

    The theorems on the operations of shared/page_table, over any [PhysMem]
    that keeps [PhysMemLaws], and their instances on the bootloader's
    [PhysicalMemory]. *)

From stdpp Require Import base tactics option list numbers strings gmap.
From Stdlib Require Import ZArith Lia.
From S2P Require Import Prelude MachineInt Bytes RangeSet BootMm Cpu PhysMem PageTable PageTableGraph PageTableInv PageTableMap.

Local Open Scope Z_scope.

Section properties.
Context `{HPM : PhysMem P} `{HPL : !PhysMemLaws P}.
Implicit Types s : P.

(** C4: [translate] finds the page, offset and entry addresses that the walk
    of the MMU over the tables in memory finds, it changes nothing, and it
    refuses exactly the addresses that are not canonical. *)
Theorem translate_spec root T s v : pt_inv root T s → is_uint 64 v →
  (canonical v → ∃ mp, translate root v s = Done (s, Some mp) ∧
     page mp = walk_page v (mmu_walk (ent (pm_mem s)) root v) ∧
     entries_match (ent (pm_mem s)) root v (entry_list mp)) ∧
  (~ canonical v → translate root v s = Done (s, None)).
Proof.
  intros Hinv Hv. split; [apply (translate_correct root T s v Hinv)|].
  by apply translate_noncanonical.
Qed.

(** C5: [map_raw] refuses, and then leaves memory and allocator untouched,
    when the entry is not present, a large page lacks the size bit, the address
    is not canonical or already mapped, or a table is where the page would go.
    Otherwise it maps exactly the page of [v], at the level of its size, to the
    entry it was given.  Every other translation is unchanged, the invariant
    holds (reference counts included), tables are only added, in memory that was
    free, and memory that is neither free nor a table keeps its contents.  It
    panics only where an allocation does. *)
Theorem map_raw_spec root T s v ty raw :
  pt_inv root T s → is_uint 64 v → is_uint 64 raw →
  let l := type_level ty in let o := map_raw root v ty raw s in
  (~ mappable (ent (pm_mem s)) root v ty raw → o = Done (s, None)) ∧
  (mappable (ent (pm_mem s)) root v ty raw →
    (only_alloc_fails o ∧ ∀ a, o ≠ Done a) ∨
    ∃ s' T', o = Done (s', Some tt) ∧ pt_inv root T' s' ∧ grown T T' s s' ∧
      ∀ v', canonical v' → mmu_walk (ent (pm_mem s')) root v' =
        if decide (page_base l v = page_base l v') then Some (l, raw) else mmu_walk (ent (pm_mem s)) root v').
Proof.
  intros Hinv Hv64 Hu l. cbn zeta. split; [by apply (map_raw_refuses root T)|]. intros Hm.
  destruct (map_raw_maps root T s v ty raw Hinv Hu Hm) as [|(s' & T' & Ho & Hinv' & Hs & Hn & _ & _ & Hg)];
    [by left|right]. exists s', T'. split; [done|]. split; [done|]. split; [done|].
  pose proof (type_level_range ty). intros v' Hv'. assert (canonical v) as Hv by apply Hm.
  pose proof (page_base_agree l v v' ltac:(done) Hv Hv') as Hiff.
  case_decide; [apply Hs|apply Hn]; by apply Hiff || (intros Ha; by apply Hiff in Ha).
Qed.


(** [new] takes one page of free memory for the root and maps nothing; it
    panics only where the allocation does. *)
Theorem new_spec s : pm_ok s →
  (∃ msg, new s = Panic msg ∧ pm_alloc_phys 4096 4096 s = Panic msg) ∨
  (new s = OutOfFuel ∧ pm_alloc_phys 4096 4096 s = OutOfFuel) ∨
  ∃ s' root, new s = Done (s', root) ∧ pt_inv root {[root := 0%nat]} s' ∧
    (∀ x, in_block root 4096 x → pm_free s x) ∧
    ∀ v, mmu_walk (ent (pm_mem s')) root v = None.
Proof. apply new_correct. Qed.


End properties.

(** ** On the bootloader's memory *)

(** A megabyte of free memory. *)
Definition demo0 : PhysicalMemory :=
  mkPhysicalMemory ∅ (of_entries [mkRange 0x200000 0x2fffff]).

Definition state_of {A} (o : outcome (PhysicalMemory * A)) : PhysicalMemory :=
  match o with Done (s, _) => s | _ => demo0 end.

Definition demo_root : Z := 0x200000.

(** An empty table, and one with a page at 0x400000. *)
Definition demo1 : PhysicalMemory := state_of (new demo0).
Definition demo2 : PhysicalMemory := state_of (map_raw demo_root 0x400000 Page4K 0x100003 demo1).

Lemma demo0_ok : pm_ok demo0.
Proof.
  split; [intros x; unfold mem_byte; cbn; rewrite lookup_empty; by_decide|].
  split; [apply of_entries_wf; [cbn; unfold CAPACITY; lia|solve_ok_list]|].
  intros [H|H]%Exists_cons; [|by inversion H]. unfold elem_of, elem_of_Range in H. cbn in H. lia.
Qed.

(** What an operation returns is computed; the memory is not written out. *)
Definition value_of {A} (o : outcome (PhysicalMemory * A)) : option A :=
  match o with Done (_, a) => Some a | _ => None end.

Lemma state_of_eq {A} (o : outcome (PhysicalMemory * A)) a :
  value_of o = Some a → o = Done (state_of o, a).
Proof. destruct o as [[s b]| |]; cbn; congruence. Qed.

Lemma demo1_eq : new demo0 = Done (demo1, demo_root).
Proof. apply state_of_eq. vm_compute. reflexivity. Qed.

#[local] Opaque demo1.

Lemma demo1_inv : pt_inv demo_root {[demo_root := 0%nat]} demo1 ∧
  ∀ v, mmu_walk (ent (pm_mem demo1)) demo_root v = None.
Proof.
  pose proof (new_correct demo0 demo0_ok) as Hn. pose proof demo1_eq as Hd.
  set (o := new demo0) in *. clearbody o.
  destruct Hn as [(msg & E & _)|[[E _]|(s & r & E & Hinv & _ & Hw)]]; [congruence..|].
  rewrite E in Hd. apply Done_pair_inj in Hd as [<- <-]. exact (conj Hinv Hw).
Qed.

Lemma demo_canonical v : 0 ≤ v < 2 ^ 47 → canonical v.
Proof. unfold canonical, is_uint. lia. Qed.

Lemma demo_no_reach v k t : reach (ent (pm_mem demo1)) demo_root v (S k) t → False.
Proof.
  intros Hr. destruct (reach_prefix _ _ _ _ _ 1 Hr ltac:(lia)) as [y Hy].
  destruct (demo1_inv) as [Hinv _]. pose proof (reach_table _ _ _ _ _ _ (pt_graph _ _ _ Hinv) Hy) as Ht.
  apply lookup_singleton_Some in Ht as [_ Ht]. discriminate Ht.
Qed.

(** The entry for the page of [demo2]. *)
Lemma demo_mappable v ty raw : 0 ≤ v < 2 ^ 47 → present raw = true →
  (ty ≠ Page4K → large raw = true) → mappable (ent (pm_mem demo1)) demo_root v ty raw.
Proof.
  intros Hv Hp Hl. split; [exact Hp|]. split; [exact Hl|]. split; [by apply demo_canonical|].
  split; [apply demo1_inv|]. intros t Ht. exact (demo_no_reach _ _ _ Ht).
Qed.

Lemma demo2_eq : map_raw demo_root 0x400000 Page4K 0x100003 demo1 = Done (demo2, Some tt).
Proof. apply state_of_eq. vm_compute. reflexivity. Qed.

#[local] Opaque demo2.

Lemma demo2_inv : ∃ T, pt_inv demo_root T demo2 ∧ grown {[demo_root := 0%nat]} T demo1 demo2 ∧
  ∀ v, agree_below 4 0x400000 v → mmu_walk (ent (pm_mem demo2)) demo_root v = Some (3%nat, 0x100003).
Proof.
  pose proof (map_raw_maps demo_root _ demo1 0x400000 Page4K 0x100003 (proj1 demo1_inv)) as Hm.
  destruct Hm as [[_ Hf]|(s' & T & E & Hinv & Hs & _ & _ & _ & Hg)].
  - by_decide.
  - apply demo_mappable; [lia|done|done].
  - destruct (Hf _ demo2_eq).
  - rewrite demo2_eq in E. apply Done_pair_inj in E as [-> _]. exists T. exact (conj Hinv (conj Hg Hs)).
Qed.

Lemma translate_spec_witness :
  (∃ mp, translate demo_root 0x400123 demo2 = Done (demo2, Some mp) ∧
     page mp = Some (0x100000, 0x123)) ∧
  translate demo_root (2 ^ 48) demo2 = Done (demo2, None).
Proof.
  destruct demo2_inv as (T & Hinv & _ & Hw). split.
  - destruct (translate_spec demo_root T demo2 0x400123 Hinv) as [H1 _]; [by_decide|].
    destruct H1 as (mp & Ht & Hp & _); [by apply demo_canonical|].
    exists mp. split; [exact Ht|]. rewrite Hp, Hw; [vm_compute; reflexivity|].
    intros k Hk. do 4 (destruct k as [|k]; [reflexivity|]). lia.
  - apply (translate_spec demo_root T demo2 (2 ^ 48) Hinv); [by_decide|].
    unfold canonical, is_uint. lia.
Defined.

(** The page is mapped in the empty table, and refused where it is mapped. *)
Lemma map_raw_spec_witness :
  map_raw demo_root 0x400000 Page4K 0x101003 demo2 = Done (demo2, None) ∧
  ∃ s' T', map_raw demo_root 0x400000 Page4K 0x100003 demo1 = Done (s', Some tt) ∧
    pt_inv demo_root T' s' ∧ mmu_walk (ent (pm_mem s')) demo_root 0x400fff = Some (3%nat, 0x100003) ∧
    mmu_walk (ent (pm_mem s')) demo_root 0x401000 = None.
Proof.
  split.
  { destruct demo2_inv as (T & Hinv & _ & Hw).
    apply (map_raw_spec demo_root T demo2 0x400000 Page4K 0x101003 Hinv); [by_decide..|].
    intros (_ & _ & _ & Hn & _). rewrite Hw in Hn; [discriminate Hn|]. intros k _. reflexivity. }
  destruct (map_raw_spec demo_root _ demo1 0x400000 Page4K 0x100003 (proj1 demo1_inv)) as [_ Hm]; [by_decide..|].
  destruct Hm as [[_ Hf]|(s' & T' & E & Hinv & _ & Hw)].
  - apply demo_mappable; [lia|reflexivity|done].
  - destruct (Hf _ demo2_eq).
  - exists s', T'. split; [exact E|]. split; [exact Hinv|]. split.
    + rewrite (Hw 0x400fff (demo_canonical 0x400fff ltac:(lia))). vm_compute. reflexivity.
    + rewrite (Hw 0x401000 (demo_canonical 0x401000 ltac:(lia))).
      destruct demo1_inv as [_ Hn]. rewrite Hn. vm_compute. reflexivity.
Defined.

(** The page of [demo2] is in use and holds none of its tables. *)
Lemma demo_free x : x ∈ bm_free demo1 → 0x201000 ≤ x ≤ 0x2fffff.
Proof.
  assert (RangeSet.entries (bm_free demo1) = [mkRange 0x201000 0x2fffff]) as E by (vm_compute; reflexivity).
  unfold elem_of, elem_of_RangeSet. rewrite E, Exists_cons, Exists_nil.
  unfold elem_of, elem_of_Range. cbn [start end_]. lia.
Qed.

Lemma demo_owned T : grown {[demo_root := 0%nat]} T demo1 demo2 → page_owned T demo2 3 0x100003.
Proof.
  intros (_ & _ & Hfree & Hnew & _). unfold page_owned.
  assert (page_addr 3 0x100003 = 0x100000) as Ea by reflexivity. rewrite Ea.
  change (2 ^ offset_bits 3) with 4096. split; [lia|]. intros x Hx. unfold in_block in *. split_and!.
  - intros Hf. pose proof (demo_free x (Hfree x Hf)). lia.
  - change (0 ≤ x < 2 ^ 32). lia.
  - intros t [k Ht] Hb. destruct (decide (t = demo_root)) as [->|Hne]; [unfold demo_root in *; lia|].
    pose proof (demo_free x (Hnew t x (lookup_singleton_ne _ _ _ (not_eq_sym Hne)) (mk_is_Some _ _ Ht) Hb)). lia.
Qed.


Lemma new_spec_witness :
  ∃ s' root, new demo0 = Done (s', root) ∧ pt_inv root {[root := 0%nat]} s' ∧
    ∀ v, mmu_walk (ent (pm_mem s')) root v = None.
Proof.
  destruct (new_spec demo0 demo0_ok) as [(msg & E & _)|[[E _]|(s & r & E & Hinv & _ & Hw)]].
  - pose proof (eq_trans (eq_sym demo1_eq) E) as Hd. discriminate Hd.
  - pose proof (eq_trans (eq_sym demo1_eq) E) as Hd. discriminate Hd.
  - exists s, r. exact (conj E (conj Hinv Hw)).
Defined.

Definition demo_init (z : Z) : Z := z mod 256.

Lemma demo_init_ok f z : Some demo_init = Some f → is_uint 8 (f z).
Proof. intros [= <-]. by apply wrap_uint. Qed.

Lemma demo_run_mappable : run_mappable demo_root demo1 Page4K 2 0x400000.
Proof.
  split; [reflexivity|]. intros k Hk.
  split; [apply demo_canonical; change (page_size Page4K) with 4096; lia|].
  split; [apply demo1_inv|]. intros t Ht. exact (demo_no_reach _ _ _ Ht).
Qed.

(** The first page below the one [demo2] has mapped can be mapped, the second is that page. *)
Lemma demo_run_half : mmu_walk (ent (pm_mem demo2)) demo_root 0x3ff000 = None ∧
  run_mappable demo_root demo2 Page4K 1 0x3ff000 ∧ ~ run_mappable demo_root demo2 Page4K 2 0x3ff000.
Proof.
  assert (mmu_walk (ent (pm_mem demo2)) demo_root 0x3ff000 = None) as Hn by (vm_compute; reflexivity).
  split; [exact Hn|]. split.
  - split; [reflexivity|]. intros k Hk. replace k with 0%nat by lia.
    split; [apply demo_canonical; change (page_size Page4K) with 4096; lia|]. split; [exact Hn|].
    intros t Ht. apply reach_below_4 in Ht. cbn in Ht. lia.
  - intros [_ Hr]. destruct (Hr 1%nat ltac:(lia)) as (_ & H & _). destruct demo2_inv as (T & _ & _ & Hw).
    rewrite Hw in H; [discriminate H|]. intros k _. reflexivity.
Qed.

