(* ===== verification/KernelMm.v ===== *)
(** * Physical and virtual memory of the kernel (kernel/src/mm.rs)

    The kernel's [PhysMem]: a per-core free list of 4 KiB pages kept inside the
    free pages themselves, filled from and bypassed to the shared [RangeSet];
    the NUMA preference; the bump allocator of virtual addresses; the global
    allocator; and [PhysContig].  The free list refines a stack of pages, which
    discharges [PhysMemLaws], so that the theorems on page tables hold on the
    kernel's memory. *)

From stdpp Require Import base tactics option list numbers strings gmap.
From Stdlib Require Import ZArith Lia.
From S2P Require Import Prelude MachineInt Bytes RangeSet Cpu PhysMem PageTable PageTableGraph PageTableInv PageTableMap.

Local Open Scope Z_scope.

Definition KERNEL_VMEM_BASE : Z := 0xffff800000000000.
Definition KERNEL_PHYS_WINDOW_SIZE : Z := 64 * 1024 * 1024 * 1024.
Definition MAX_CORES : nat := 1024.

(** [usize::MAX] in the kernel *)
Definition usize_max : Z := 2 ^ 64 - 1.

(** What the memory manager works on, as seen by one core: physical memory,
    [boot_args.free_memory], the head of this core's [PageFreeList],
    [APIC_TO_MEMORY_RANGE], this core's raw APIC id, [boot_args.page_table] (the
    root) and [NEXT_FREE_VADDR].  [k_pages] is a history variable, the pages on
    the free list from the last pushed on: no operation reads it. *)
Record Kernel := mkKernel {
  k_mem : mem;
  k_free : option RangeSet;
  k_head : Z;
  k_pages : list Z;
  k_ranges : option (list (option Range));
  k_apic_id : Z;
  k_table : option Z;
  k_next_vaddr : Z;
}.

Definition set_k_mem (m : mem) (s : Kernel) : Kernel :=
  mkKernel m (k_free s) (k_head s) (k_pages s) (k_ranges s) (k_apic_id s) (k_table s) (k_next_vaddr s).
Definition set_k_free (rs : RangeSet) (s : Kernel) : Kernel :=
  mkKernel (k_mem s) (Some rs) (k_head s) (k_pages s) (k_ranges s) (k_apic_id s) (k_table s) (k_next_vaddr s).
Definition set_k_list (m : mem) (head : Z) (pages : list Z) (s : Kernel) : Kernel :=
  mkKernel m (k_free s) head pages (k_ranges s) (k_apic_id s) (k_table s) (k_next_vaddr s).
Definition set_k_ranges (l : list (option Range)) (s : Kernel) : Kernel :=
  mkKernel (k_mem s) (k_free s) (k_head s) (k_pages s) (Some l) (k_apic_id s) (k_table s) (k_next_vaddr s).
Definition set_k_next_vaddr (v : Z) (s : Kernel) : Kernel :=
  mkKernel (k_mem s) (k_free s) (k_head s) (k_pages s) (k_ranges s) (k_apic_id s) (k_table s) v.

(** ** NUMA *)

(** [CoreLocals::apic_id] *)
Definition apic_id (raw : Z) : option Z := if raw =? 0xffffffff then None else Some raw.

Definition memory_range (s : Kernel) : outcome (option Range) :=
  match k_ranges s with
  | None => Done None
  | Some atmr =>
      match apic_id (k_apic_id s) with
      | None => Done None
      | Some x => index atmr (Z.to_nat x)
      end
  end.

(** The range of a domain. *)
Definition domain_range (domain_to_mem : gmap Z (Z * Z)) (domain : Z) : option Range :=
  '(paddr, size) ← domain_to_mem !! domain;
  n ← checked_sub size 1;
  e ← checked_add 64 paddr n;
  Some (mkRange paddr e).

(** The loop over the entries of [apic_to_domain] (in key order). *)
Fixpoint numa_loop (apic_to_domain : list (Z * Z)) (domain_to_mem : gmap Z (Z * Z))
    (l : list (option Range)) : outcome (list (option Range)) :=
  match apic_to_domain with
  | [] => Done l
  | (apic, domain) :: rest =>
      l ← index_set l (Z.to_nat apic) (domain_range domain_to_mem domain);
      numa_loop rest domain_to_mem l
  end.

Definition register_numa_nodes (apic_to_domain : list (Z * Z)) (domain_to_mem : gmap Z (Z * Z))
    (s : Kernel) : outcome Kernel :=
  l ← numa_loop apic_to_domain domain_to_mem (replicate MAX_CORES None);
  Done (set_k_ranges l s).

(** ** Virtual addresses *)

Definition GUARD_PAGE_SIZE : Z := 32 * 1024.

(** [fetch_add] wraps; the check comes after it. *)
Definition alloc_virt_addr_4k (size : Z) (s : Kernel) : outcome (Kernel * Z) :=
  assert ((0 <? size) && (Z.land size 0xfff =? 0)) "Invalid size for virtual region allocation";;
  reserve_size ← expect (checked_add 64 GUARD_PAGE_SIZE size) "Integer overflow on virtual region size";
  let ret := k_next_vaddr s in
  let s := set_k_next_vaddr (wrapping_add 64 ret reserve_size) s in
  _ ← expect (checked_add 64 ret reserve_size) "Integer overflow on virtual address range";
  Done (s, ret).

(** ** Physical accesses *)

Definition phys_check (paddr size : Z) (overflow outside : string) : outcome unit :=
  e ← expect (x ← checked_sub size 1; checked_add 64 x paddr) overflow;
  assert (e <? KERNEL_PHYS_WINDOW_SIZE) outside.

(** [read_phys] of a type of [size] bytes *)
Definition read_phys (paddr size : Z) (s : Kernel) : outcome (list Z) :=
  phys_check paddr size "Integer overflow on read_phys" "Physical address outside of window";;
  Done (read_bytes (k_mem s) paddr (Z.to_nat size)).

Definition write_phys (paddr : Z) (val : list Z) (s : Kernel) : outcome Kernel :=
  phys_check paddr (Z.of_nat (length val)) "Integer overflow on write_phys"
    "Physical address outside of window";;
  Done (set_k_mem (write_bytes (k_mem s) paddr val) s).

(** ** The free list *)

(** [FreeListNode]: its fields by their addresses, in the order of the
    declaration (the language does not fix the order, and nothing depends on
    it). *)
Definition FREE_PAGES : Z := 510.
Definition node_next (p : Z) : Z := p.
Definition node_free_slots (p : Z) : Z := p + 8.
Definition node_free_page (p i : Z) : Z := p + 16 + 8 * i.

Definition from_raw (paddr : Z) : outcome unit :=
  e ← unwrap (checked_add 64 paddr (4096 - 1));
  assert (e <? KERNEL_PHYS_WINDOW_SIZE) "Physical address outside of window".

(** [PageFreeList::push] *)
Definition push (page : Z) (s : Kernel) : outcome Kernel :=
  let head := k_head s in
  let m := k_mem s in
  full ← (if head =? 0 then Done true
          else from_raw head;; Done (read_u64 m (node_free_slots head) =? 0));
  if full : bool then
    from_raw page;;
    let m := write_u64 m (node_free_slots page) FREE_PAGES in
    let m := write_u64 m (node_next page) head in
    Done (set_k_list m page (page :: k_pages s) s)
  else
    from_raw head;;
    let slots := wrapping_sub 64 (read_u64 m (node_free_slots head)) 1 in
    let m := write_u64 m (node_free_slots head) slots in
    assert (slots <? FREE_PAGES) "index out of bounds";;
    let m := write_u64 m (node_free_page head slots) page in
    Done (set_k_list m head (page :: k_pages s) s).

Fixpoint push_all (pages : list Z) (s : Kernel) : outcome Kernel :=
  match pages with
  | [] => Done s
  | p :: pages => s ← push p s; push_all pages s
  end.

Definition FREE_LIST_BATCH : Z := 1024 * 1024.

(** [(lo..hi).step_by(4096)] *)
Definition step_by_4096 (lo hi : Z) : list Z :=
  (λ i, lo + 4096 * Z.of_nat i) <$> seq 0 (Z.to_nat ((hi - lo + 4095) / 4096)).

(** The refill of an empty list in [pop]. *)
Definition refill (s : Kernel) : outcome Kernel :=
  phys_mem ← unwrap (k_free s);
  region ← memory_range s;
  '(alc, phys_mem) ← allocate_prefer usize_max phys_mem FREE_LIST_BATCH 4096 region;
  alc ← expect alc "Failed to allocate physical memory";
  push_all (step_by_4096 alc (wrapping_add 64 alc FREE_LIST_BATCH)) (set_k_free phys_mem s).

(** [PageFreeList::pop] *)
Definition pop (s : Kernel) : outcome (Kernel * Z) :=
  s ← (if k_head s =? 0 then refill s else Done s);
  let head := k_head s in
  let m := k_mem s in
  from_raw head;;
  let slots := read_u64 m (node_free_slots head) in
  if slots <? FREE_PAGES then
    let free := read_u64 m (node_free_page head slots) in
    let m := write_u64 m (node_free_slots head) (wrapping_add 64 slots 1) in
    Done (set_k_list m head (tail (k_pages s)) s, free)
  else
    Done (set_k_list m (read_u64 m (node_next head)) (tail (k_pages s)) s, head).

(** ** [impl PhysMem for PhysicalMemory] *)

Definition translate (paddr size : Z) (s : Kernel) : outcome Kernel :=
  phys_check paddr size "Integer overflow on physical memory translation"
    "Physical address outside of physical window";;
  Done s.

Definition alloc_phys (size align : Z) (s : Kernel) : outcome (Kernel * Z) :=
  if (size =? 4096) && (4096 <=? align) then pop s
  else
    phys_mem ← unwrap (k_free s);
    region ← memory_range s;
    '(alc, phys_mem) ← allocate_prefer usize_max phys_mem size align region;
    alc ← expect alc "Failed to allocate physical memory";
    Done (set_k_free phys_mem s, alc).

Definition free_phys (phys size : Z) (s : Kernel) : outcome Kernel :=
  if (Z.land phys 0xfff =? 0) && (size =? 4096) then push phys s
  else
    e ← expect (x ← checked_sub size 1; checked_add 64 x phys) "Integer overflow on free_phys";
    phys_mem ← unwrap (k_free s);
    phys_mem ← RangeSet.insert phys_mem (mkRange phys e);
    Done (set_k_free phys_mem s).

#[export] Instance kernel_phys_mem : PhysMem Kernel := {
  pm_mem := k_mem;
  pm_set_mem := set_k_mem;
  pm_translate := translate;
  pm_alloc_phys := alloc_phys;
  pm_free_phys := free_phys;
}.

(** ** The global allocator *)

(** [size.checked_add(0xfff)? & !0xfff] *)
Definition align_size (size : Z) : option Z :=
  n ← checked_add 64 size 0xfff;
  Some (Z.land n (bnot 64 0xfff)).

(** [GlobalAllocator::opt_alloc]: the alignment of the layout is not used. *)
Definition opt_alloc (cr3 size : Z) (s : Kernel) : outcome (Kernel * option Z) :=
  match align_size size with
  | None => Done (s, None)
  | Some alignsize =>
      '(s, vaddr) ← alloc_virt_addr_4k alignsize s;
      match k_table s with
      | None => Done (s, None)
      | Some root =>
          '(s, r) ← PageTable.map root cr3 vaddr Page4K alignsize true false s;
          match r with None => Done (s, None) | Some _ => Done (s, Some vaddr) end
      end
  end.

Definition alloc (cr3 size : Z) (s : Kernel) : outcome (Kernel * Z) :=
  '(s, p) ← opt_alloc cr3 size s;
  Done (s, default 0 p).

(** The boolean says whether [cr3] was rewritten. *)
Definition dealloc (cr3 ptr size : Z) (s : Kernel) : outcome (Kernel * bool) :=
  alignsize ← unwrap (align_size size);
  root ← unwrap (k_table s);
  free root cr3 ptr alignsize s.

(** ** [PhysContig<T>], for a [T] of [size] bytes aligned to [align] *)

Record PhysContig := mkPhysContig { vaddr : Z; paddr : Z }.

Fixpoint map_contig (offsets : list Z) (root vaddr paddr : Z) (s : Kernel) : outcome Kernel :=
  match offsets with
  | [] => Done s
  | offset :: offsets =>
      let raw := Z.lor (Z.lor (Z.lor (wrapping_add 64 paddr offset) PAGE_NX) PAGE_WRITE) PAGE_PRESENT in
      '(s, r) ← map_raw root (wrapping_add 64 vaddr offset) Page4K raw s;
      _ ← expect r "Failed to map PhysContig memory";
      map_contig offsets root vaddr paddr s
  end.

(** A store through the active tables, byte by byte. *)
Fixpoint store_virt (root v : Z) (val : list Z) (s : Kernel) : outcome Kernel :=
  match val with
  | [] => Done s
  | b :: val =>
      '(p, off) ← expect (walk_page v (mmu_walk (ent (k_mem s)) root v)) "page fault";
      store_virt root (v + 1) val (set_k_mem (write_bytes (k_mem s) (p + off) [b]) s)
  end.

(** [PhysContig::new] of the value with the bytes [val] *)
Definition contig_new (align : Z) (val : list Z) (s : Kernel) : outcome (Kernel * PhysContig) :=
  let size := Z.of_nat (length val) in
  assert (0 <? size) "Cannot use ZST for PhysContig";;
  let alc_size := Z.max 4096 size in
  '(s, paddr) ← alloc_phys alc_size (Z.max 4096 align) s;
  '(s, vaddr) ← alloc_virt_addr_4k alc_size s;
  root ← unwrap (k_table s);
  s ← map_contig (step_by_4096 0 alc_size) root vaddr paddr s;
  s ← store_virt root vaddr val s;
  Done (s, mkPhysContig vaddr paddr).

(** [drop], after the destructor of [T] *)
Definition contig_drop (cr3 size : Z) (c : PhysContig) (s : Kernel) : outcome (Kernel * bool) :=
  alignsize ← unwrap (align_size size);
  root ← unwrap (k_table s);
  free root cr3 (vaddr c) alignsize s.

(** ** The free list is a stack *)

(** Memory [m] holds the pages [st], top first, as a list from [head] on. *)
Inductive free_list (m : mem) : Z → list Z → Prop :=
| fl_nil : free_list m 0 []
| fl_node p next slots rest :
    p ≠ 0 → (length slots ≤ 510)%nat →
    read_u64 m (node_next p) = next →
    read_u64 m (node_free_slots p) = FREE_PAGES - Z.of_nat (length slots) →
    (∀ i a, slots !! i = Some a →
       read_u64 m (node_free_page p (FREE_PAGES - Z.of_nat (length slots) + Z.of_nat i)) = a) →
    free_list m next rest → free_list m p (slots ++ p :: rest).

Definition in_pages (st : list Z) (x : Z) : Prop := ∃ p, p ∈ st ∧ in_block p 4096 x.

Definition page_ok (p : Z) : Prop := 0 < p ∧ p mod 4096 = 0 ∧ p + 4096 ≤ KERNEL_PHYS_WINDOW_SIZE.

Lemma from_raw_ok p : page_ok p → from_raw p = Done tt.
Proof.
  intros (H1 & _ & H2). unfold from_raw, checked_add, KERNEL_PHYS_WINDOW_SIZE in *.
  rewrite (proj2 (Z.ltb_lt (p + (4096 - 1)) _)) by lia. cbn [unwrap expect mbind outcome_bind].
  by rewrite (proj2 (Z.ltb_lt _ _)) by lia.
Qed.

Lemma page_apart p q x : page_ok p → page_ok q → p ≠ q → in_block p 4096 x → ~ in_block q 4096 x.
Proof.
  intros (_ & Hp & _) (_ & Hq & _) Hne Hx Hy. unfold in_block in *.
  apply Z.mod_divide in Hp as [i ->]; [|lia]. apply Z.mod_divide in Hq as [j ->]; [|lia].
  assert (i ≠ j) by congruence. lia.
Qed.

Lemma free_list_ext m m' h st : free_list m h st →
  (∀ x, in_pages st x → mem_byte m' x = mem_byte m x) → free_list m' h st.
Proof.
  induction 1 as [|p next slots rest Hp Hlen Hn Hs Hi Hrest IH]; intros Hx; [constructor|].
  assert (∀ a, p ≤ a → a + 8 ≤ p + 4096 → read_u64 m' a = read_u64 m a) as Hr.
  { intros a H1 H2. apply read_u64_ext. intros x Hb. apply Hx. exists p. split.
    - apply elem_of_app. right. by left.
    - unfold in_block in *. lia. }
  unfold node_next, node_free_slots, node_free_page, FREE_PAGES in *.
  apply (fl_node m' p next slots rest Hp Hlen);
    unfold node_next, node_free_slots, node_free_page, FREE_PAGES.
  - by rewrite Hr by lia.
  - by rewrite Hr by lia.
  - intros i a Ha. pose proof (lookup_lt_Some _ _ _ Ha). rewrite Hr by lia. by apply Hi.
  - apply IH. intros x (q & Hq & Hb). apply Hx. exists q. split; [|done].
    apply elem_of_app. right. by right.
Qed.

Lemma free_list_nil m st : free_list m 0 st → st = [].
Proof. inversion 1; [done|congruence]. Qed.

Lemma free_list_head m h st : free_list m h st → h ≠ 0 → h ∈ st.
Proof. destruct 1; [done|]. intros _. apply elem_of_app. right. by left. Qed.

(** What the allocator keeps true. *)
Record kernel_ok (s : Kernel) : Prop := {
  ko_mem : mem_ok (k_mem s);
  ko_list : free_list (k_mem s) (k_head s) (k_pages s);
  ko_pages : Forall page_ok (k_pages s);
  ko_nodup : NoDup (k_pages s);
  ko_set rs : k_free s = Some rs → wf rs ∧ (∀ x, x ∈ rs → 0 < x < KERNEL_PHYS_WINDOW_SIZE) ∧
    ∀ x, x ∈ rs → ~ in_pages (k_pages s) x;
  ko_ranges l r : k_ranges s = Some l → Some r ∈ l → range_ok r;
}.

Definition free_bytes (s : Kernel) (x : Z) : Prop :=
  (∃ rs, k_free s = Some rs ∧ x ∈ rs) ∨ in_pages (k_pages s) x.

Lemma in_pages_cons p st x : in_pages (p :: st) x ↔ in_block p 4096 x ∨ in_pages st x.
Proof.
  unfold in_pages. split.
  - intros (q & [->|Hq]%elem_of_cons & Hb); [by left|right; eauto].
  - intros [Hb|(q & Hq & Hb)]; [exists p; split; [by left|done]|exists q; split; [by right|done]].
Qed.

Lemma write_u64_outside m a v p x : p ≤ a → a + 8 ≤ p + 4096 → ~ in_block p 4096 x →
  mem_byte (write_u64 m a v) x = mem_byte m x.
Proof. intros H1 H2 Hx. apply mem_byte_write_u64. unfold in_block in *. lia. Qed.

Lemma read_u64_small m a : mem_ok m → 0 ≤ read_u64 m a < 2 ^ 64.
Proof. apply read_u64_uint. Qed.

(** A new node on top of a list. *)
Lemma push_node m h st page : mem_ok m → free_list m h st → Forall page_ok st → page_ok page →
  ~ page ∈ st → is_uint 64 h →
  let m' := write_u64 (write_u64 m (node_free_slots page) FREE_PAGES) (node_next page) h in
  mem_ok m' ∧ free_list m' page (page :: st) ∧
  ∀ x, ~ in_block page 4096 x → mem_byte m' x = mem_byte m x.
Proof.
  intros Hm Hfl Hps Hpg Hnew Hh m'. pose proof Hpg as (Hpos & _ & _).
  assert (∀ x, ~ in_block page 4096 x → mem_byte m' x = mem_byte m x) as Hout.
  { intros x Hx. unfold m', node_free_slots, node_next. by rewrite !(write_u64_outside _ _ _ page) by (done || lia). }
  split; [by do 2 apply write_u64_ok|]. split; [|done].
  apply (fl_node _ page h [] st); [lia|cbn; lia| | |done|].
  - by apply read_write_u64_same.
  - unfold m', node_free_slots, node_next. rewrite read_write_u64_other by lia.
    by rewrite read_write_u64_same by by_decide.
  - apply (free_list_ext m); [done|]. intros x (q & Hq & Hb). apply Hout.
    rewrite Forall_forall in Hps. apply (page_apart q page x); [by apply Hps|done|congruence|done].
Qed.

(** A change of the slots of the head node. *)
Lemma head_change m m' p next slots' rest :
  free_list m next rest → Forall page_ok rest → page_ok p → ~ p ∈ rest → (length slots' ≤ 510)%nat →
  (∀ x, ~ in_block p 4096 x → mem_byte m' x = mem_byte m x) →
  read_u64 m' (node_next p) = next →
  read_u64 m' (node_free_slots p) = FREE_PAGES - Z.of_nat (length slots') →
  (∀ i a, slots' !! i = Some a →
     read_u64 m' (node_free_page p (FREE_PAGES - Z.of_nat (length slots') + Z.of_nat i)) = a) →
  free_list m' p (slots' ++ p :: rest).
Proof.
  intros Hrest Hro Hp Hn Hlen Hout Hnx Hs Hi. apply (fl_node _ p next slots' rest); try done.
  - destruct Hp. lia.
  - apply (free_list_ext m); [done|]. intros x (q & Hq & Hb). apply Hout.
    rewrite Forall_forall in Hro. apply (page_apart q p x); [by apply Hro|done|congruence|done].
Qed.

(** A push on memory that holds a list: the list with one page more, and no
    change outside its pages. *)
Lemma push_list s page : mem_ok (k_mem s) → free_list (k_mem s) (k_head s) (k_pages s) →
  Forall page_ok (k_pages s) → NoDup (k_pages s) → page_ok page → ~ page ∈ k_pages s →
  ∃ m h, push page s = Done (set_k_list m h (page :: k_pages s) s) ∧ mem_ok m ∧
    free_list m h (page :: k_pages s) ∧
    ∀ x, ~ in_pages (page :: k_pages s) x → mem_byte m x = mem_byte (k_mem s) x.
Proof.
  intros Hm Hfl Hps Hnd Hpg Hnew. pose proof Hpg as (Hpos & _ & Hwin). unfold KERNEL_PHYS_WINDOW_SIZE in Hwin.
  assert (k_head s ≠ 0 → page_ok (k_head s)) as Hhok.
  { intros Hh. rewrite Forall_forall in Hps. apply Hps. by apply (free_list_head (k_mem s)). }
  assert (is_uint 64 (k_head s)) as Hhu.
  { destruct (decide (k_head s = 0)) as [Hh|Hh]; [rewrite Hh; by_decide|].
    destruct (Hhok Hh) as (? & _ & ?). unfold KERNEL_PHYS_WINDOW_SIZE, is_uint in *. lia. }
  pose proof (push_node _ _ _ page Hm Hfl Hps Hpg Hnew Hhu) as Hnode. cbn zeta in Hnode.
  unfold push. destruct (Z.eqb_spec (k_head s) 0) as [Hh|Hh]; cbn [mbind outcome_bind];
    rewrite from_raw_ok by auto; cbn [mbind outcome_bind].
  { destruct Hnode as (? & ? & Hout). eexists _, page. split_and!; [done..|].
    intros x Hx. apply Hout. rewrite in_pages_cons in Hx. tauto. }
  destruct (Z.eqb_spec (read_u64 (k_mem s) (node_free_slots (k_head s))) 0) as [Hz|Hz]; cbn [mbind outcome_bind];
    rewrite from_raw_ok by auto; cbn [mbind outcome_bind].
  { destruct Hnode as (? & ? & Hout). eexists _, page. split_and!; [done..|].
    intros x Hx. apply Hout. rewrite in_pages_cons in Hx. tauto. }
  clear Hnode. specialize (Hhok Hh). remember (k_head s) as h eqn:Eh. remember (k_pages s) as st eqn:Est.
  clear Eh Est. destruct Hfl as [|h next slots rest _ Hlen Hnx Hs Hi Hrest]; [done|].
  unfold FREE_PAGES in *. assert (length slots < 510)%nat as Hroom by lia.
  rewrite Hs. set (n := 510 - Z.of_nat (length slots)) in *.
  rewrite (wrapping_sub_small 64 n 1) by (unfold is_uint, n; lia).
  rewrite (proj2 (Z.ltb_lt (n - 1) 510)) by lia. cbn [assert mbind outcome_bind].
  set (m' := write_u64 _ _ page).
  assert (∀ x, ~ in_block h 4096 x → mem_byte m' x = mem_byte (k_mem s) x) as Hout.
  { intros x Hx. unfold m', node_free_slots, node_free_page.
    by rewrite !(write_u64_outside _ _ _ h) by (done || lia). }
  exists m', h. split; [done|]. split; [by do 2 apply write_u64_ok|]. split.
  - apply Forall_app in Hps as [_ [_ Hro]%Forall_cons].
    apply NoDup_app in Hnd as (_ & _ & [Hhr _]%NoDup_cons).
    apply (head_change (k_mem s) m' h next (page :: slots) rest); try done;
      unfold m', node_free_slots, node_free_page, node_next, FREE_PAGES in *; cbn [length].
    + by rewrite !read_write_u64_other by lia.
    + rewrite read_write_u64_other by lia. rewrite read_write_u64_same by (unfold is_uint, n; lia). lia.
    + intros [|i] a Ha.
      * injection Ha as <-. replace (510 - Z.of_nat (S (length slots)) + Z.of_nat 0) with (n - 1) by lia.
        apply read_write_u64_same. unfold is_uint. lia.
      * cbn in Ha. pose proof (lookup_lt_Some _ _ _ Ha).
        replace (510 - Z.of_nat (S (length slots)) + Z.of_nat (S i)) with (n + Z.of_nat i) by lia.
        rewrite !read_write_u64_other by lia. by apply Hi.
  - intros x Hx. apply Hout. intros Hb. apply Hx. exists h. split; [|done].
    right. apply elem_of_app. right. by left.
Qed.

(** A pop of a list that is not empty: its first page. *)
Lemma pop_list s : mem_ok (k_mem s) → free_list (k_mem s) (k_head s) (k_pages s) → k_head s ≠ 0 →
  Forall page_ok (k_pages s) → NoDup (k_pages s) →
  ∃ m h a st, k_pages s = a :: st ∧ pop s = Done (set_k_list m h st s, a) ∧ mem_ok m ∧
    free_list m h st ∧ ∀ x, ~ in_pages (k_pages s) x → mem_byte m x = mem_byte (k_mem s) x.
Proof.
  intros Hm Hfl Hh Hps Hnd.
  assert (page_ok (k_head s)) as Hhok.
  { rewrite Forall_forall in Hps. apply Hps. by apply (free_list_head (k_mem s)). }
  unfold pop. rewrite (proj2 (Z.eqb_neq _ _) Hh). cbn [mbind outcome_bind].
  rewrite from_raw_ok by done. cbn [mbind outcome_bind].
  remember (k_head s) as h eqn:Eh. remember (k_pages s) as st eqn:Est.
  clear Eh Est. destruct Hfl as [|h next slots rest _ Hlen Hnx Hs Hi Hrest]; [done|].
  rewrite Hs. unfold FREE_PAGES in *. destruct slots as [|a slots]; cbn [length app tail] in *.
  { rewrite (proj2 (Z.ltb_ge _ _)) by lia. rewrite Hnx.
    exists (k_mem s), next, h, rest. by split_and!. }
  rewrite (proj2 (Z.ltb_lt _ _)) by lia. set (n := 510 - Z.of_nat (S (length slots))) in *.
  rewrite (wrapping_add_small 64 n 1) by (unfold is_uint, n; lia).
  pose proof (Hi 0%nat a eq_refl) as Ha. rewrite Z.add_0_r in Ha. rewrite Ha.
  set (m' := write_u64 _ _ _).
  assert (∀ x, ~ in_block h 4096 x → mem_byte m' x = mem_byte (k_mem s) x) as Hout.
  { intros x Hx. unfold m', node_free_slots. by rewrite (write_u64_outside _ _ _ h) by (done || lia). }
  exists m', h, a, (slots ++ h :: rest). split; [done|]. split; [done|]. split; [by apply write_u64_ok|]. split.
  - apply Forall_cons in Hps as [_ Hps]. apply NoDup_cons in Hnd as [_ Hnd].
    apply Forall_app in Hps as [_ [_ Hro]%Forall_cons].
    apply NoDup_app in Hnd as (_ & _ & [Hhr _]%NoDup_cons).
    apply (head_change (k_mem s) m' h next slots rest); try done;
      unfold m', node_free_slots, node_free_page, node_next, FREE_PAGES in *.
    + lia.
    + by rewrite read_write_u64_other by lia.
    + rewrite read_write_u64_same by (unfold is_uint, n; lia). lia.
    + intros i b Hb. pose proof (lookup_lt_Some _ _ _ Hb). rewrite read_write_u64_other by lia.
      specialize (Hi (S i) b Hb). rewrite <- Hi. f_equal. lia.
  - intros x Hx. apply Hout. intros Hb. apply Hx. exists h. split; [|done].
    right. apply elem_of_app. right. by left.
Qed.

(** ** The allocator keeps [kernel_ok] *)

Lemma kernel_ok_list s m h st : kernel_ok s → mem_ok m → free_list m h st →
  Forall page_ok st → NoDup st → (∀ x rs, k_free s = Some rs → x ∈ rs → ~ in_pages st x) →
  kernel_ok (set_k_list m h st s).
Proof.
  intros [H1 H2 H3 H4 H5 H6] Hm Hfl Hps Hnd Hap. split; try done.
  intros rs Hrs. destruct (H5 rs Hrs) as (? & ? & _). split_and!; try done. intros x Hx. by apply (Hap x rs).
Qed.

(** A page that is not free is pushed. *)
Lemma push_correct s page : kernel_ok s → page_ok page →
  (∀ x, in_block page 4096 x → ~ free_bytes s x) →
  ∃ m h, let s' := set_k_list m h (page :: k_pages s) s in
    push page s = Done s' ∧ kernel_ok s' ∧
    (∀ x, free_bytes s' x ↔ free_bytes s x ∨ in_block page 4096 x) ∧
    (∀ x, ~ free_bytes s' x → mem_byte m x = mem_byte (k_mem s) x).
Proof.
  intros Hok Hpg Hin. pose proof Hok as [H1 H2 H3 H4 H5 H6].
  assert (~ page ∈ k_pages s) as Hnew.
  { intros Hp. apply (Hin page); [unfold in_block; lia|]. right. exists page. split; [done|]. unfold in_block. lia. }
  destruct (push_list s page H1 H2 H3 H4 Hpg Hnew) as (m & h & Hp & Hm & Hfl & Hout).
  exists m, h. cbn zeta. split; [done|]. split; [|split].
  - apply kernel_ok_list; try done; [by constructor|by constructor|].
    intros x rs Hrs Hx. rewrite in_pages_cons. intros [Hb|Hb]; [|by apply (H5 rs Hrs) in Hb].
    apply (Hin x Hb). left. by exists rs.
  - intros x. unfold free_bytes. cbn. rewrite in_pages_cons. tauto.
  - intros x Hx. apply Hout. intros Hb. apply Hx. by right.
Qed.

Lemma push_all_correct l : ∀ s, kernel_ok s → Forall page_ok l → NoDup l →
  (∀ x, in_pages l x → ~ free_bytes s x) →
  ∃ m h, let s' := set_k_list m h (rev l ++ k_pages s) s in
    push_all l s = Done s' ∧ kernel_ok s' ∧
    (∀ x, free_bytes s' x ↔ free_bytes s x ∨ in_pages l x) ∧
    (∀ x, ~ free_bytes s' x → mem_byte m x = mem_byte (k_mem s) x).
Proof.
  induction l as [|p l IH]; intros s Hok Hpl Hnd Hin; cbn zeta; cbn [push_all rev app].
  { exists (k_mem s), (k_head s). destruct s. cbn in *. split; [done|]. split; [done|]. split; [|done].
    intros x. split; [by left|]. intros [|(q & Hq & _)]; [done|by inversion Hq]. }
  apply Forall_cons in Hpl as [Hp Hpl]. apply NoDup_cons in Hnd as [Hpn Hnd].
  destruct (push_correct s p Hok Hp) as (m & h & Hpu & Hok1 & Hf1 & Hm1).
  { intros x Hx. apply Hin. rewrite in_pages_cons. by left. }
  rewrite Hpu. cbn [mbind outcome_bind].
  destruct (IH _ Hok1 Hpl Hnd) as (m2 & h2 & Hpa & Hok2 & Hf2 & Hm2).
  { intros x Hx Hf. apply Hf1 in Hf as [Hf|Hb]; [apply (Hin x); [rewrite in_pages_cons; by right|done]|].
    destruct Hx as (q & Hq & Hqb). rewrite Forall_forall in Hpl.
    by apply (page_apart q p x); [apply Hpl| |congruence|..]. }
  exists m2, h2. rewrite <- app_assoc. cbn [app]. split; [exact Hpa|]. split; [exact Hok2|]. split.
  - intros x. rewrite in_pages_cons. specialize (Hf2 x). specialize (Hf1 x). cbn in *. tauto.
  - intros x Hx. specialize (Hm2 x Hx). cbn in Hm2. rewrite Hm2. apply Hm1. intros Hf. apply Hx, Hf2. by left.
Qed.

Lemma memory_range_ok s r : kernel_ok s → memory_range s = Done (Some r) → range_ok r.
Proof.
  intros Hok Hr. unfold memory_range in Hr. destruct (k_ranges s) as [l|] eqn:El; [|done].
  destruct (apic_id _); [|done]. apply index_Done in Hr. apply (ko_ranges _ Hok l); [done|].
  by apply list_elem_of_lookup_2 in Hr.
Qed.

(** A block taken from the set: what is left of the set, and the block. *)
Lemma take_correct s rs rs' size k region a : kernel_ok s → k_free s = Some rs → 0 < size < 2 ^ 64 →
  0 ≤ k < 64 → memory_range s = Done region →
  allocate_prefer usize_max rs size (2 ^ k) region = Done (Some a, rs') →
  0 < a ∧ a mod 2 ^ k = 0 ∧ a + size ≤ KERNEL_PHYS_WINDOW_SIZE ∧ kernel_ok (set_k_free rs' s) ∧
  (∀ x, in_block a size x → x ∈ rs) ∧ (∀ x, x ∈ rs' → x ∈ rs ∧ ~ in_block a size x).
Proof.
  intros Hok Hrs Hsize Hk Hreg Halc. destruct (ko_set _ Hok rs Hrs) as (Hwf & Hwin & Hap).
  destruct (allocate_prefer_correct usize_max rs size k region a rs') as
    (base & Hwf' & Hal & _ & Hb & Hin & Hout); try done.
  { intros r ->. by apply (memory_range_ok s). }
  assert (∀ x, in_block a size x → x ∈ rs) as Hblk by (intros x Hx; apply Hin; unfold in_block in Hx; lia).
  pose proof (Hwin a (Hblk a ltac:(unfold in_block; lia))) as Ha.
  pose proof (Hwin (a + size - 1) (Hblk (a + size - 1) ltac:(unfold in_block; lia))) as He.
  split; [lia|]. split; [done|]. split; [lia|]. split; [|split; [done|]].
  - pose proof Hok as [H1 H2 H3 H4 H5 H6]. split; try done. cbn. intros rs0 [= <-].
    split_and!; [done|..]; intros x [Hx _]%Hout; [by apply Hwin|by apply Hap].
  - intros x [Hx Hn]%Hout. split; [done|]. unfold in_block. lia.
Qed.

Lemma step_by_batch a : step_by_4096 a (a + FREE_LIST_BATCH) = (λ i, a + 4096 * Z.of_nat i) <$> seq 0 256.
Proof. unfold step_by_4096, FREE_LIST_BATCH. by replace (a + 1024 * 1024 - a + 4095) with 1052671 by lia. Qed.

Lemma batch_pages a : 0 < a → a mod 4096 = 0 → a + FREE_LIST_BATCH ≤ KERNEL_PHYS_WINDOW_SIZE →
  let l := step_by_4096 a (a + FREE_LIST_BATCH) in
  Forall page_ok l ∧ NoDup l ∧ ∀ x, in_pages l x → in_block a FREE_LIST_BATCH x.
Proof.
  intros Ha Hal Hw. cbn zeta. rewrite step_by_batch. unfold FREE_LIST_BATCH in *.
  assert (∀ p, p ∈ ((λ i, a + 4096 * Z.of_nat i) <$> seq 0 256) → ∃ i, (i < 256)%nat ∧ p = a + 4096 * Z.of_nat i) as Hp.
  { intros p (i & -> & Hi)%list_elem_of_fmap. apply elem_of_seq in Hi. exists i. split; [lia|done]. }
  split_and!.
  - apply Forall_forall. intros p (i & Hi & ->)%Hp. split_and!; [lia| |lia].
    rewrite Z.add_mod, (Z.mul_comm 4096), Z.mod_mul, Hal by lia. done.
  - apply NoDup_fmap_2; [|apply NoDup_seq]. intros i j. lia.
  - intros x (p & (i & Hi & ->)%Hp & Hb). unfold in_block in *. lia.
Qed.

(** A refill turns a block of the set into pages, the last of them on top. *)
Lemma refill_takes s rs rs' region a : kernel_ok s → k_head s = 0 → k_free s = Some rs →
  memory_range s = Done region →
  allocate_prefer usize_max rs FREE_LIST_BATCH 4096 region = Done (Some a, rs') →
  ∃ m h, let s' := set_k_list m h (rev (step_by_4096 a (a + FREE_LIST_BATCH))) (set_k_free rs' s) in
    refill s = Done s' ∧ kernel_ok s' ∧ h ≠ 0 ∧ (∀ x, free_bytes s' x → free_bytes s x) ∧
    (∀ x, ~ free_bytes s x → mem_byte m x = mem_byte (k_mem s) x).
Proof.
  intros Hok Hh Hrs Hreg Halc.
  destruct (take_correct s rs rs' FREE_LIST_BATCH 12 region a Hok Hrs ltac:(unfold FREE_LIST_BATCH; lia) ltac:(lia) Hreg Halc)
    as (Ha & Hal & Hwin & Hok1 & Hin & Hout).
  destruct (batch_pages a Ha Hal Hwin) as (Hpl & Hnd & Hblk).
  pose proof (ko_list _ Hok) as Hfl. rewrite Hh in Hfl. apply free_list_nil in Hfl.
  destruct (push_all_correct _ (set_k_free rs' s) Hok1 Hpl Hnd) as (m & h & Hpa & Hok2 & Hf2 & Hm2).
  { intros x Hx%Hblk [(rs0 & [= <-] & Hx')|(q & Hq & _)]; [by apply Hout in Hx' as [_ ?]|].
    cbn in Hq. rewrite Hfl in Hq. by inversion Hq. }
  cbn [k_pages set_k_free] in *. rewrite Hfl, app_nil_r in *. exists m, h. cbn zeta.
  match goal with |- context [set_k_list m h ?l _] => set (st := l) in * end.
  assert (∀ x, free_bytes (set_k_list m h st (set_k_free rs' s)) x → free_bytes s x) as Hsub.
  { intros x [[(rs0 & [= <-] & Hx)|Hx]|Hx]%Hf2.
    - left. exists rs. split; [done|]. by apply Hout.
    - by right.
    - left. exists rs. split; [done|]. by apply Hin, Hblk. }
  split; [|split; [done|split; [|split; [done|]]]].
  - unfold refill. rewrite Hrs, Hreg. cbn [unwrap expect mbind outcome_bind]. rewrite Halc.
    cbn [expect mbind outcome_bind].
    by rewrite wrapping_add_small by (unfold is_uint, FREE_LIST_BATCH, KERNEL_PHYS_WINDOW_SIZE in *; lia).
  - intros ->. pose proof (ko_list _ Hok2) as Hfl2. apply free_list_nil in Hfl2.
    cbn in Hfl2. unfold st in Hfl2. rewrite step_by_batch in Hfl2. discriminate Hfl2.
  - intros x Hx. apply (Hm2 x). intros Hf. by apply Hx, Hsub.
Qed.

Lemma refill_correct s s' : kernel_ok s → k_head s = 0 → refill s = Done s' →
  kernel_ok s' ∧ k_head s' ≠ 0 ∧ (∀ x, free_bytes s' x → free_bytes s x) ∧
  (∀ x, ~ free_bytes s x → mem_byte (k_mem s') x = mem_byte (k_mem s) x).
Proof.
  intros Hok Hh Hr. pose proof Hr as Hr'. unfold refill in Hr.
  apply bind_Done in Hr as (rs & Hrs%unwrap_Done & Hr). apply bind_Done in Hr as (region & Hreg & Hr).
  apply bind_Done in Hr as ([alc rs'] & Halc & Hr). apply bind_Done in Hr as (a & ->%expect_Done & Hr).
  destruct (refill_takes s rs rs' region a Hok Hh Hrs Hreg Halc) as (m & h & Hre & H1 & H2 & H3 & H4).
  rewrite Hr' in Hre. apply Done_inj in Hre. rewrite Hre. by split_and!.
Qed.

Lemma pop_correct s s' a : kernel_ok s → pop s = Done (s', a) →
  page_ok a ∧ kernel_ok s' ∧
  (∀ x, in_block a 4096 x → free_bytes s x) ∧
  (∀ x, free_bytes s' x → free_bytes s x ∧ ~ in_block a 4096 x) ∧
  (∀ x, ~ free_bytes s x → mem_byte (k_mem s') x = mem_byte (k_mem s) x).
Proof.
  intros Hok Hp.
  assert (∃ s1, pop s1 = Done (s', a) ∧ kernel_ok s1 ∧ k_head s1 ≠ 0 ∧
    (∀ x, free_bytes s1 x → free_bytes s x) ∧
    (∀ x, ~ free_bytes s x → mem_byte (k_mem s1) x = mem_byte (k_mem s) x)) as (s1 & Hp1 & Hok1 & Hh & Hf1 & Hm1).
  { destruct (decide (k_head s = 0)) as [Hh|Hh]; [|by exists s].
    unfold pop in Hp. rewrite Hh in Hp. cbn [Z.eqb] in Hp. apply bind_Done in Hp as (s1 & Hr & Hp).
    destruct (refill_correct s s1 Hok Hh Hr) as (Hok1 & Hh1 & Hf1 & Hm1).
    exists s1. split; [|done]. unfold pop. rewrite (proj2 (Z.eqb_neq _ _) Hh1). exact Hp. }
  clear Hp Hok. pose proof Hok1 as [H1 H2 H3 H4 H5 H6].
  destruct (pop_list s1 H1 H2 Hh H3 H4) as (m & h & b & st & Est & Hp & Hm & Hfl & Hout).
  rewrite Hp1 in Hp. apply Done_pair_inj in Hp as [-> <-]. rewrite Est in H3, H4.
  apply Forall_cons in H3 as [Ha Hst]. apply NoDup_cons in H4 as [Hna Hnd].
  assert (∀ x, in_pages (k_pages s1) x ↔ in_block a 4096 x ∨ in_pages st x) as Hpg
    by (intros x; rewrite Est; apply in_pages_cons).
  split; [done|]. split; [|split; [|split]].
  - apply kernel_ok_list; try done. intros x rs Hrs Hx Hb. destruct (H5 rs Hrs) as (_ & _ & Hap).
    apply (Hap x Hx), Hpg. by right.
  - intros x Hx. apply Hf1. right. apply Hpg. by left.
  - intros x Hx. destruct Hx as [(rs & Hrs & Hx)|Hx]; cbn in *.
    + split; [apply Hf1; left; by exists rs|]. intros Hb. destruct (H5 rs Hrs) as (_ & _ & Hap).
      apply (Hap x Hx), Hpg. by left.
    + split; [apply Hf1; right; apply Hpg; by right|]. destruct Hx as (q & Hq & Hqb). intros Hb.
      rewrite Forall_forall in Hst. by apply (page_apart q a x); [apply Hst| |congruence|..].
  - intros x Hx. cbn. rewrite Hout; [by apply Hm1|]. intros Hb. apply Hx, Hf1. by right.
Qed.

Lemma pop_top s a st : kernel_ok s → k_pages s = a :: st →
  ∃ s', pop s = Done (s', a) ∧ kernel_ok s' ∧ k_pages s' = st ∧ k_free s' = k_free s ∧
    ∀ x, ~ free_bytes s x → mem_byte (k_mem s') x = mem_byte (k_mem s) x.
Proof.
  intros Hok Est. pose proof Hok as [H1 H2 H3 H4 H5 H6].
  assert (k_head s ≠ 0) as Hh.
  { intros Hh. rewrite Hh in H2. apply free_list_nil in H2. congruence. }
  destruct (pop_list s H1 H2 Hh H3 H4) as (m & h & b & st' & Est' & Hp & Hm & Hfl & Hout).
  rewrite Est in Est'. injection Est' as <- <-. exists (set_k_list m h st s). split; [done|].
  split; [|split_and!; try done].
  - rewrite Est in H3, H4. apply Forall_cons in H3 as [_ H3]. apply NoDup_cons in H4 as [_ H4].
    apply kernel_ok_list; try done. intros x rs Hrs Hx Hb. destruct (H5 rs Hrs) as (_ & _ & Hap).
    apply (Hap x Hx). rewrite Est, in_pages_cons. by right.
  - intros x Hx. apply Hout. intros Hb. apply Hx. by right.
Qed.

Lemma phys_check_ok a n msg msg' : 0 < n → 0 ≤ a → a + n ≤ KERNEL_PHYS_WINDOW_SIZE →
  phys_check a n msg msg' = Done tt.
Proof.
  intros H1 H2 H3. unfold phys_check, checked_sub, checked_add, KERNEL_PHYS_WINDOW_SIZE in *.
  rewrite (proj2 (Z.leb_le 1 n)) by lia. cbn [mbind option_bind].
  rewrite (proj2 (Z.ltb_lt (n - 1 + a) _)) by lia. cbn [expect mbind outcome_bind].
  by rewrite (proj2 (Z.ltb_lt _ _)) by lia.
Qed.

Lemma set_k_mem_ok m s : kernel_ok s → mem_ok m →
  (∀ x, free_bytes s x → mem_byte m x = mem_byte (k_mem s) x) → kernel_ok (set_k_mem m s).
Proof.
  intros [H1 H2 H3 H4 H5 H6] Hm Hx. split; try done.
  apply (free_list_ext (k_mem s)); [done|]. intros x Hb. apply Hx. by right.
Qed.

(** An allocation of [size] bytes: one page comes off the free list, which
    knows no alignment but its own. *)
Lemma alloc_phys_block size k s s' a : kernel_ok s → 0 < size < 2 ^ 64 → 12 ≤ k < 64 →
  alloc_phys size (2 ^ k) s = Done (s', a) →
  0 < a ∧ a + size ≤ KERNEL_PHYS_WINDOW_SIZE ∧ a mod 4096 = 0 ∧ (size ≠ 4096 → a mod 2 ^ k = 0) ∧ kernel_ok s' ∧
  (∀ x, in_block a size x → free_bytes s x) ∧
  (∀ x, free_bytes s' x → free_bytes s x ∧ ~ in_block a size x) ∧
  (∀ x, ~ free_bytes s x → mem_byte (k_mem s') x = mem_byte (k_mem s) x).
Proof.
  intros Hok Hsize Hk Ha. unfold alloc_phys in Ha.
  assert (4096 ≤ 2 ^ k) as Hpk by (apply (Z.pow_le_mono_r 2 12); lia).
  destruct (Z.eqb_spec size 4096) as [->|E]; cbn [andb] in Ha.
  { rewrite (proj2 (Z.leb_le _ _)) in Ha by lia.
    destruct (pop_correct s s' a Hok Ha) as ((? & ? & ?) & ? & ? & ? & ?). by split_and!. }
  apply bind_Done in Ha as (rs & Hrs%unwrap_Done & Ha). apply bind_Done in Ha as (region & Hreg & Ha).
  apply bind_Done in Ha as ([alc rs'] & Halc & Ha). apply bind_Done in Ha as (b & ->%expect_Done & Ha).
  apply Done_pair_inj in Ha as [<- <-].
  destruct (take_correct s rs rs' size k region b Hok Hrs Hsize ltac:(lia) Hreg Halc)
    as (Hb & Hal & Hwin & Hok1 & Hin & Hout).
  split_and!; try done.
  - apply Z.mod_divide in Hal as [q ->]; [|lia]. replace k with (k - 12 + 12) by lia.
    rewrite Z.pow_add_r, Z.mul_assoc by lia. by apply Z.mod_mul.
  - intros x Hx. left. exists rs. split; [done|]. by apply Hin.
  - intros x [(rs0 & [= <-] & Hx)|Hx].
    + apply Hout in Hx as [Hx Hn]. split; [left; by exists rs|done].
    + split; [by right|]. intros Hbx. destruct (ko_set _ Hok rs Hrs) as (_ & _ & Hap).
      by apply (Hap x (Hin x Hbx)).
Qed.

Lemma alloc_phys_correct k s s' a : kernel_ok s → 12 ≤ k < 32 → alloc_phys (2 ^ k) (2 ^ k) s = Done (s', a) →
  0 < a ∧ a + 2 ^ k ≤ KERNEL_PHYS_WINDOW_SIZE ∧ a mod 2 ^ k = 0 ∧ kernel_ok s' ∧
  (∀ x, in_block a (2 ^ k) x → free_bytes s x) ∧
  (∀ x, free_bytes s' x → free_bytes s x ∧ ~ in_block a (2 ^ k) x) ∧
  (∀ x, ~ free_bytes s x → mem_byte (k_mem s') x = mem_byte (k_mem s) x).
Proof.
  intros Hok Hk Ha. assert (0 < 2 ^ k < 2 ^ 64) as Hpk by (split; [lia|apply Z.pow_lt_mono_r; lia]).
  destruct (alloc_phys_block (2 ^ k) k s s' a Hok Hpk ltac:(lia) Ha) as (H1 & H2 & H3 & H4 & H5).
  split_and!; try apply H5; try done.
  destruct (decide (2 ^ k = 4096)) as [E|E]; [by rewrite E|by apply H4].
Qed.

Lemma free_phys_correct a k s s' : kernel_ok s → 12 ≤ k < 32 → 0 < a → a mod 2 ^ k = 0 →
  (∀ x, in_block a (2 ^ k) x → ~ free_bytes s x ∧ 0 ≤ x < KERNEL_PHYS_WINDOW_SIZE) →
  free_phys a (2 ^ k) s = Done s' →
  kernel_ok s' ∧ (∀ x, free_bytes s' x ↔ free_bytes s x ∨ in_block a (2 ^ k) x) ∧
  (∀ x, ~ free_bytes s' x → mem_byte (k_mem s') x = mem_byte (k_mem s) x).
Proof.
  intros Hok Hk Ha Hal Huse Hf. assert (0 < 2 ^ k) as Hpk by lia.
  pose proof (proj2 (Huse a ltac:(unfold in_block; lia))) as Hwa.
  pose proof (proj2 (Huse (a + 2 ^ k - 1) ltac:(unfold in_block; lia))) as Hwe.
  unfold free_phys in Hf. change 0xfff with (2 ^ 12 - 1) in Hf. rewrite land_mask_mod in Hf by lia.
  destruct (Z.eqb_spec (2 ^ k) 4096) as [E|E].
  - rewrite E in *. change (2 ^ 12) with 4096 in Hf. rewrite Hal in Hf. cbn [Z.eqb andb] in Hf.
    destruct (push_correct s a Hok) as (m & h & Hp & Hok' & Hfr & Hm); [unfold page_ok; split_and!; (done || lia)|intros x Hx; by apply Huse|].
    rewrite Hf in Hp. apply Done_inj in Hp as ->. by split_and!.
  - rewrite andb_false_r in Hf. apply bind_Done in Hf as (e & He & Hf).
    apply expect_Done, bind_Some in He as (x & Hx & He).
    apply checked_sub_Some in Hx as [-> _]. apply checked_add_Some in He as [-> He].
    apply bind_Done in Hf as (rs & Hrs%unwrap_Done & Hf). apply bind_Done in Hf as (rs' & Hi & Hf).
    apply Done_inj in Hf as <-. destruct (ko_set _ Hok rs Hrs) as (Hwf & Hwin & Hap).
    destruct (insert_correct rs (mkRange a (2 ^ k - 1 + a)) Hwf) as [(rs1 & Hi' & Hwf' & Hin)|[Hi' _]];
      [unfold range_ok; cbn; unfold is_uint in *; lia| |congruence].
    rewrite Hi in Hi'. apply Done_inj in Hi' as <-.
    assert (∀ x, x ∈ rs' ↔ x ∈ rs ∨ in_block a (2 ^ k) x) as Hin'.
    { intros x. rewrite Hin, elem_of_mkRange. unfold in_block. split; (intros [|]; [by left|right; lia]). }
    split_and!; [|intros x; unfold free_bytes; cbn|done].
    + pose proof Hok as [H1 H2 H3 H4 H5 H6]. split; try done. cbn. intros rs0 [= <-]. split; [done|].
      split; intros x [Hx|Hx]%Hin'; [by apply Hwin| |by apply Hap|].
      * pose proof (Huse x Hx). unfold in_block in Hx. lia.
      * intros Hb. destruct (Huse x Hx) as [Hn _]. apply Hn. by right.
    + split.
      * intros [(rs0 & [= <-] & Hx)|Hx]; [|by left; right].
        apply Hin' in Hx as [Hx|Hx]; [left; left; by exists rs|by right].
      * intros [[(rs0 & Hrs0 & Hx)|Hx]|Hx]; [left; exists rs'|right; done|left; exists rs']; (split; [done|]); apply Hin'.
        -- left. congruence.
        -- by right.
Qed.

#[export] Program Instance kernel_phys_mem_laws : PhysMemLaws Kernel := {
  pm_free := free_bytes;
  pm_window s x := 0 ≤ x < KERNEL_PHYS_WINDOW_SIZE;
  pm_ok := kernel_ok;
}.
Next Obligation. intros s. apply ko_mem. Qed.
Next Obligation. intros m s. apply set_k_mem_ok. Qed.
Next Obligation. done. Qed.
Next Obligation. done. Qed.
Next Obligation. done. Qed.
Next Obligation.
  intros a n s Hn Hw. pose proof (Hw a) as Ha. pose proof (Hw (a + n - 1)) as He.
  unfold in_block in *. cbn. unfold translate. by rewrite phys_check_ok by lia.
Qed.
Next Obligation.
  intros k s s' a Hok Hk Ha. cbn in *.
  destruct (alloc_phys_correct k s s' a Hok Hk Ha) as (H1 & H2 & H3 & H4 & H5 & H6 & H7).
  unfold KERNEL_PHYS_WINDOW_SIZE in *. split_and!; try done; [lia|].
  intros x Hx. split; [by apply H5|]. unfold in_block in Hx. lia.
Qed.
Next Obligation.
  intros a k s s' Hok Hk Ha Hal Huse Hf. cbn in *.
  destruct (free_phys_correct a k s s' Hok Hk Ha Hal Huse Hf) as (H1 & H2 & H3). by split_and!.
Qed.

(** ** Properties *)

Lemma free_list_det m h st : free_list m h st → ∀ st', free_list m h st' → st = st'.
Proof.
  induction 1 as [|p next slots rest Hp Hlen Hn Hs Hi Hrest IH]; intros st' H'.
  - symmetry. by apply (free_list_nil m).
  - inversion H' as [|p' next' slots' rest' _ Hlen' Hn' Hs' Hi' Hrest']; subst; [done|].
    assert (length slots = length slots') as El by lia.
    f_equal; [|by f_equal; apply IH]. apply list_eq. intros i.
    destruct (slots !! i) as [a|] eqn:Ea, (slots' !! i) as [b|] eqn:Eb; try done.
    + f_equal. rewrite <- (Hi i a Ea), <- (Hi' i b Eb), El. done.
    + apply lookup_lt_Some in Ea. apply lookup_ge_None in Eb. lia.
    + apply lookup_lt_Some in Eb. apply lookup_ge_None in Ea. lia.
Qed.

(** C9: the free list that the kernel keeps inside its free pages is a stack.
    The memory determines the stack it stands for; [push] of a page in use puts
    it on top; [pop] returns the top; and on an empty list [pop] takes 1 MiB from
    the range set, returns its last page and leaves the other 255 on the stack.
    All of them keep the invariant and change no memory in use. *)
Theorem free_list_is_stack s : kernel_ok s →
  (∀ st, free_list (k_mem s) (k_head s) st → st = k_pages s) ∧
  (∀ page, page_ok page → (∀ x, in_block page 4096 x → ~ free_bytes s x) →
     ∃ s', push page s = Done s' ∧ kernel_ok s' ∧ k_pages s' = page :: k_pages s ∧
       ∀ x, ~ free_bytes s' x → mem_byte (k_mem s') x = mem_byte (k_mem s) x) ∧
  (∀ a st, k_pages s = a :: st →
     ∃ s', pop s = Done (s', a) ∧ kernel_ok s' ∧ k_pages s' = st ∧ k_free s' = k_free s ∧
       ∀ x, ~ free_bytes s x → mem_byte (k_mem s') x = mem_byte (k_mem s) x) ∧
  (∀ rs rs' region a, k_pages s = [] → k_free s = Some rs → memory_range s = Done region →
     allocate_prefer usize_max rs FREE_LIST_BATCH 4096 region = Done (Some a, rs') →
     ∃ s', pop s = Done (s', a + 255 * 4096) ∧ kernel_ok s' ∧ k_free s' = Some rs' ∧
       k_pages s' = (λ i, a + 4096 * i) <$> rev (seqZ 0 255) ∧
       ∀ x, ~ free_bytes s x → mem_byte (k_mem s') x = mem_byte (k_mem s) x).
Proof.
  intros Hok. pose proof Hok as [H1 H2 H3 H4 H5 H6]. split_and!.
  - intros st Hst. by apply (free_list_det (k_mem s) (k_head s)).
  - intros page Hp Hin. destruct (push_correct s page Hok Hp Hin) as (m & h & Hpu & Hok' & _ & Hm).
    eexists. split; [exact Hpu|]. by split_and!.
  - intros a st Est. apply (pop_top s a st Hok Est).
  - intros rs rs' region a Hst Hrs Hreg Halc.
    assert (k_head s = 0) as Hh.
    { destruct (decide (k_head s = 0)) as [|Hh]; [done|]. apply (free_list_head _ _ _ H2) in Hh.
      rewrite Hst in Hh. by inversion Hh. }
    destruct (refill_takes s rs rs' region a Hok Hh Hrs Hreg Halc) as (m & h & Hre & Hok1 & Hh1 & Hf1 & Hm1).
    set (s1 := set_k_list _ _ _ _) in *.
    destruct (pop_top s1 (a + 255 * 4096) ((λ i, a + 4096 * i) <$> rev (seqZ 0 255)) Hok1)
      as (s' & Hp & Hok' & Hst' & Hfr' & Hm').
    { unfold s1. cbn [k_pages set_k_list]. rewrite step_by_batch. cbn. repeat f_equal; lia. }
    exists s'. split_and!; try done.
    + rewrite <- Hp. unfold pop. rewrite Hh, (proj2 (Z.eqb_neq (k_head s1) 0)) by done. cbn [Z.eqb].
      by rewrite Hre.
    + intros x Hx. rewrite Hm'; [by apply Hm1|]. intros Hf. by apply Hx, Hf1.
Qed.

(** Two megabytes free, an empty list, no NUMA information. *)
Definition demo_kernel : Kernel :=
  mkKernel ∅ (Some (of_entries [mkRange 0x200000 0x3fffff])) 0 [] None 0xffffffff None KERNEL_VMEM_BASE.

Lemma demo_kernel_ok : kernel_ok demo_kernel.
Proof.
  split.
  - intros x. unfold mem_byte. cbn. rewrite lookup_empty. by_decide.
  - constructor.
  - constructor.
  - constructor.
  - cbn [k_free demo_kernel]. intros rs [= <-]. split; [|split].
    + apply of_entries_wf; [cbn; unfold CAPACITY; lia|solve_ok_list].
    + intros x [H|H]%Exists_cons; [|by inversion H]. unfold elem_of, elem_of_Range in H. cbn in H.
      unfold KERNEL_PHYS_WINDOW_SIZE. lia.
    + intros x _ (p & Hp & _). by inversion Hp.
  - done.
Qed.

Lemma demo_kernel_free x : free_bytes demo_kernel x → 0x200000 ≤ x ≤ 0x3fffff.
Proof.
  intros [(rs & [= <-] & [H|H]%Exists_cons)|(p & Hp & _)]; [|by inversion H|by inversion Hp].
  unfold elem_of, elem_of_Range in H. cbn in H. lia.
Qed.

Lemma free_list_is_stack_witness :
  (∃ s', push 0x100000 demo_kernel = Done s' ∧ k_pages s' = [0x100000]) ∧
  (∃ s', pop demo_kernel = Done (s', 0x2ff000) ∧ head (k_pages s') = Some 0x2fe000).
Proof.
  destruct (free_list_is_stack demo_kernel demo_kernel_ok) as (_ & Hpush & _ & Hpop). split.
  - destruct (Hpush 0x100000) as (s' & Hp & _ & Hst & _).
    + unfold page_ok, KERNEL_PHYS_WINDOW_SIZE. split_and!; (reflexivity || lia).
    + unfold in_block. intros x Hx Hf%demo_kernel_free. lia.
    + exists s'. exact (conj Hp Hst).
  - assert (∃ rs', allocate_prefer usize_max (of_entries [mkRange 0x200000 0x3fffff]) FREE_LIST_BATCH 4096 None
      = Done (Some 0x200000, rs')) as [rs' Halc] by (eexists; vm_compute; reflexivity).
    destruct (Hpop _ rs' None 0x200000 eq_refl eq_refl eq_refl Halc) as (s' & Hp & _ & _ & Hst & _).
    exists s'. split; [exact Hp|]. rewrite Hst. vm_compute. reflexivity.
Defined.

(** Calls of [alloc_virt_addr_4k], in the order of their [fetch_add]s: whatever
    the cores interleave, this is some such sequence. *)
Fixpoint alloc_virts (sizes : list Z) (s : Kernel) : outcome (Kernel * list Z) :=
  match sizes with
  | [] => Done (s, [])
  | size :: sizes =>
      '(s, v) ← alloc_virt_addr_4k size s;
      '(s, vs) ← alloc_virts sizes s;
      Done (s, v :: vs)
  end.

Lemma alloc_virt_Done size s s' v : is_uint 64 size → is_uint 64 (k_next_vaddr s) →
  alloc_virt_addr_4k size s = Done (s', v) ↔
  0 < size ∧ size mod 4096 = 0 ∧ k_next_vaddr s + GUARD_PAGE_SIZE + size < 2 ^ 64 ∧
  v = k_next_vaddr s ∧ s' = set_k_next_vaddr (k_next_vaddr s + GUARD_PAGE_SIZE + size) s.
Proof.
  intros Hs Hn. unfold alloc_virt_addr_4k, checked_add, is_uint in *.
  change 0xfff with (2 ^ 12 - 1). rewrite land_mask_mod by lia. change (2 ^ 12) with 4096.
  destruct (Z.ltb_spec 0 size); cbn [andb assert mbind outcome_bind]; [|split; [done|lia]].
  destruct (Z.eqb_spec (size mod 4096) 0); cbn [assert mbind outcome_bind]; [|split; [done|lia]].
  destruct (Z.ltb_spec (GUARD_PAGE_SIZE + size) (2 ^ 64)); cbn [expect mbind outcome_bind]; [|split; [done|lia]].
  destruct (Z.ltb_spec (k_next_vaddr s + (GUARD_PAGE_SIZE + size)) (2 ^ 64)); cbn [expect mbind outcome_bind]; [|split; [done|lia]].
  rewrite wrapping_add_small by (unfold is_uint, GUARD_PAGE_SIZE in *; lia).
  rewrite Z.add_assoc. split; [intros [<- <-]%Done_pair_inj; split_and!; (done || lia)|].
  by intros (_ & _ & _ & -> & ->).
Qed.

(** a call of [alloc_virt_addr_4k] returns exactly when the size is a
    positive number of pages and the region with its guard ends below 2^64; and
    the regions any sequence of calls returns are page aligned, in ascending
    order, and at least the 32 KiB guard apart. *)
Theorem alloc_virt_disjoint s : is_uint 64 (k_next_vaddr s) → k_next_vaddr s mod 4096 = 0 →
  (∀ size, is_uint 64 size → returns (alloc_virt_addr_4k size s) ↔
     0 < size ∧ size mod 4096 = 0 ∧ k_next_vaddr s + GUARD_PAGE_SIZE + size < 2 ^ 64) ∧
  ∀ sizes s' vs, Forall (is_uint 64) sizes → alloc_virts sizes s = Done (s', vs) →
    length vs = length sizes ∧
    (∀ i v n, vs !! i = Some v → sizes !! i = Some n →
       v mod 4096 = 0 ∧ k_next_vaddr s ≤ v ∧ v + n + GUARD_PAGE_SIZE ≤ k_next_vaddr s' < 2 ^ 64) ∧
    (∀ i j v w n, (i < j)%nat → vs !! i = Some v → sizes !! i = Some n → vs !! j = Some w →
       v + n + GUARD_PAGE_SIZE ≤ w).
Proof.
  intros Hn Hal. split.
  { intros size Hs. split.
    - intros [[s' v] Hr]. apply alloc_virt_Done in Hr; tauto.
    - intros (H1 & H2 & H3). eexists (_, _). apply alloc_virt_Done; [done|done|]. by split_and!. }
  intros sizes. revert s Hn Hal.
  induction sizes as [|n0 sizes IH]; intros s Hn Hal s' vs Hs Hr; cbn [alloc_virts] in Hr.
  { apply Done_pair_inj in Hr as [<- <-]. by split_and!. }
  apply Forall_cons in Hs as [Hs0 Hs]. apply bind_Done in Hr as ([s1 v0] & H0 & Hr).
  apply alloc_virt_Done in H0 as (P1 & P2 & P3 & -> & ->); [|done..].
  apply bind_Done in Hr as ([s2 ws] & Hr & [<- <-]%Done_pair_inj).
  destruct (IH (set_k_next_vaddr (k_next_vaddr s + GUARD_PAGE_SIZE + n0) s)) with s2 ws as (Hlen & Hin & Hord);
    cbn [k_next_vaddr set_k_next_vaddr] in *; try done.
  { unfold is_uint, GUARD_PAGE_SIZE in *. lia. }
  { rewrite (Z.add_mod _ n0), P2, Z.add_0_r, Z.mod_mod by lia. unfold GUARD_PAGE_SIZE.
    by rewrite Z.add_mod, Hal by lia. }
  assert (k_next_vaddr s + n0 + GUARD_PAGE_SIZE ≤ k_next_vaddr s2 < 2 ^ 64) as Hend.
  { destruct sizes as [|n1 sizes], ws as [|w ws]; try discriminate Hlen.
    - apply Done_pair_inj in Hr as [<- _]. cbn. lia.
    - destruct (Hin 0%nat w n1 eq_refl eq_refl) as (_ & ? & ?). apply Forall_cons in Hs as [[? _] _].
      unfold GUARD_PAGE_SIZE in *. lia. }
  split; [cbn; congruence|]. split.
  - intros [|i] v n Hv Hnn; [injection Hv as <-; injection Hnn as <-; split_and!; (done || lia)|].
    destruct (Hin i v n Hv Hnn) as (? & ? & ?). unfold GUARD_PAGE_SIZE in *. split_and!; (done || lia).
  - intros [|i] [|j] v w n Hij Hv Hnn Hw; try lia; [|by apply (Hord i j v w n); [lia|..]].
    injection Hv as <-. injection Hnn as <-. change (ws !! j = Some w) in Hw.
    assert (is_Some (sizes !! j)) as [n' Hn'].
    { apply lookup_lt_is_Some. rewrite <- Hlen. by apply (lookup_lt_Some _ _ _ Hw). }
    destruct (Hin j w n' Hw Hn') as (_ & ? & _). unfold GUARD_PAGE_SIZE in *. lia.
Qed.

Lemma alloc_virt_disjoint_witness :
  returns (alloc_virt_addr_4k 4096 demo_kernel) ∧
  ∃ s' v w, alloc_virts [4096; 8192] demo_kernel = Done (s', [v; w]) ∧ v + 4096 + GUARD_PAGE_SIZE ≤ w.
Proof.
  destruct (alloc_virt_disjoint demo_kernel) as [H1 H2]; [by_decide|reflexivity|]. split.
  - apply H1; [by_decide|]. split; [lia|]. split; [reflexivity|]. vm_compute. reflexivity.
  - eexists _, _, _. split; [vm_compute; reflexivity|].
    apply (H2 [4096; 8192] _ _ (Forall_cons_2 _ 4096 _ (ltac:(by_decide) : is_uint 64 4096)
      (Forall_cons_2 _ 8192 _ (ltac:(by_decide) : is_uint 64 8192) (Forall_nil_2 _))) ltac:(vm_compute; reflexivity))
      with 0%nat 1%nat; [lia|reflexivity..].
Defined.
