(* ===== verification/PageTableFrame.v ===== *)
(** * Page tables: what the operations keep

    A predicate on the state that loads, stores, allocation and [free_phys]
    keep is kept by every operation of shared/page_table.  KernelHeap.v uses it
    for the fields of the kernel's state that the tables know nothing of. *)

From stdpp Require Import base tactics option list numbers strings gmap.
From Stdlib Require Import ZArith Lia.
From S2P Require Import Prelude MachineInt Bytes Cpu PhysMem PageTable.

Local Open Scope Z_scope.

Section frame.
Context `{PhysMem P} (I : P → Prop).
Context (I_set : ∀ m s, I s → I (pm_set_mem m s)).
Context (I_translate : ∀ a n s, I s → post I (pm_translate a n s)).
Context (I_alloc : ∀ a n s, I s → post (λ r, I r.1) (pm_alloc_phys a n s)).
Context (I_free : ∀ a n s, I s → post I (pm_free_phys a n s)).

Local Abbreviation I1 := (λ r, I r.1).

(** A body, step by step: a call that has a lemma, a part of the body that
    returns a state, a call whose result does not matter, a case. *)
Local Ltac frame :=
  cbn beta iota zeta;
  lazymatch goal with
  | |- post _ (Done _) => apply post_Done; cbn; auto
  | |- post _ (mbind _ _) =>
      first [ eapply post_bind; [solve [eauto with frame]|intros ? ?; cbn beta in *; frame]
            | apply (post_bind _ I); [solve [frame]|intros ? ?; frame]
            | apply post_any; intros ?; frame ]
  | |- post _ (match ?x with _ => _ end) => destruct x; cbn [fst] in *; frame
  | |- post _ _ => solve [eauto with frame]
  end.

Local Hint Resolve I_set I_translate I_alloc I_free : frame.

Lemma load_u64_frame a s : I s → post I1 (load_u64 a s).
Proof. intros. unfold load_u64. frame. Qed.

Lemma store_u64_frame a v s : I s → post I (store_u64 a v s).
Proof. intros. unfold store_u64. frame. Qed.

Lemma alloc_phys_zeroed_frame a n s : I s → post I1 (alloc_phys_zeroed a n s).
Proof. intros. unfold alloc_phys_zeroed. frame. Qed.
Local Hint Resolve load_u64_frame store_u64_frame alloc_phys_zeroed_frame : frame.

Lemma translate_loop_frame v idxs : ∀ d t ret s, I s → post I1 (translate_loop v d idxs t ret s).
Proof. induction idxs as [|i idxs IH]; intros; cbn [translate_loop]; frame. Qed.
Local Hint Resolve translate_loop_frame : frame.

Lemma translate_frame root v s : I s → post I1 (translate root v s).
Proof. intros. unfold translate. frame. Qed.

Lemma bump_in_use_frame a s : I s → post I (bump_in_use a s).
Proof. intros. unfold bump_in_use. frame. Qed.
Local Hint Resolve translate_frame bump_in_use_frame : frame.

Lemma map_tables_frame iis idxs : ∀ es s, I s → post I1 (map_tables iis idxs es s).
Proof. induction iis as [|i iis IH]; intros es s Hs; cbn [map_tables]; frame. Qed.
Local Hint Resolve map_tables_frame : frame.

Lemma map_raw_frame root v ty raw s : I s → post I1 (map_raw root v ty raw s).
Proof. intros. unfold map_raw. frame. Qed.

Lemma free_levels_frame es : ∀ s, I s → post I (free_levels es s).
Proof. induction es as [|e es IH]; intros s Hs; cbn [free_levels]; frame. Qed.
Local Hint Resolve map_raw_frame free_levels_frame : frame.

Lemma free_page_frame mp ty s : I s → post I (free_page mp ty s).
Proof. intros. unfold free_page. frame. Qed.
Local Hint Resolve free_page_frame : frame.

Lemma free_loop_frame root stop n : ∀ mp freed s, I s → post I1 (free_loop n root stop mp freed s).
Proof. induction n as [|n IH]; intros; cbn [free_loop]; frame. Qed.
Local Hint Resolve free_loop_frame : frame.

Lemma free_frame root cr3 v size s : I s → post I1 (free root cr3 v size s).
Proof. intros. unfold free. frame. Qed.
Local Hint Resolve free_frame : frame.

Lemma map_init_loop_frame root cr3 orig ty w x init n : ∀ v s, I s →
  post I1 (map_init_loop n root cr3 orig v ty w x init s).
Proof. induction n as [|n IH]; intros; cbn [map_init_loop]; frame. Qed.
Local Hint Resolve map_init_loop_frame : frame.

Lemma map_init_frame root cr3 v ty size w x init s : I s → post I1 (map_init root cr3 v ty size w x init s).
Proof. intros. unfold map_init. frame. Qed.

End frame.
