(* ===== verification/KernelHeap.v ===== *)
(** * The kernel's heap and contiguous memory (kernel/src/mm.rs)

    The global allocator and [PhysContig] of KernelMm.v over page tables: what
    an allocation maps, and that giving it back restores every translation. *)

From stdpp Require Import base tactics option list numbers strings gmap.
From Stdlib Require Import ZArith Lia.
From S2P Require Import Prelude MachineInt Bytes RangeSet Cpu PhysMem PageTable PageTableGraph PageTableInv PageTableMap KernelMm PageTableFrame.

Local Open Scope Z_scope.

(** ** The table and the next address are not the allocator's business *)

Definition heap_is (r : option Z) (v : Z) (s : Kernel) : Prop := k_table s = r ∧ k_next_vaddr s = v.

Lemma push_heap r v page s : heap_is r v s → post (heap_is r v) (push page s).
Proof. intros Hs s' Hp. unfold push in Hp. destruct (k_head s =? 0), Hs; outcome_inv; try case_match; outcome_inv; done. Qed.

Lemma push_all_heap r v l : ∀ s, heap_is r v s → post (heap_is r v) (push_all l s).
Proof.
  induction l as [|p l IH]; intros s Hs; [by apply post_Done|].
  apply (post_bind _ (heap_is r v)); [by apply push_heap|done].
Qed.

Lemma pop_heap r v s : heap_is r v s → post (λ x, heap_is r v x.1) (pop s).
Proof.
  intros Hs. apply (post_bind _ (heap_is r v)).
  - destruct (k_head s =? 0); [|by apply post_Done]. unfold refill.
    do 2 (apply post_any; intros ?). apply post_any. intros [alc rs]. apply post_any. intros b.
    by apply push_all_heap.
  - intros s1 [H1 H2]. apply post_any. intros _. cbn zeta. case_match; by apply post_Done.
Qed.

Lemma kernel_alloc_heap r v size align s : heap_is r v s →
  post (λ x, heap_is r v x.1) (pm_alloc_phys size align s).
Proof.
  intros Hs. cbn. unfold alloc_phys. destruct (_ && _); [by apply pop_heap|].
  do 2 (apply post_any; intros ?). apply post_any. intros [alc rs]. apply post_any. intros b.
  by apply post_Done.
Qed.

Lemma kernel_free_heap r v a size s : heap_is r v s → post (heap_is r v) (pm_free_phys a size s).
Proof.
  intros Hs. cbn. unfold free_phys. destruct (_ && _); [by apply push_heap|].
  do 3 (apply post_any; intros ?). by apply post_Done.
Qed.

Lemma kernel_translate_heap r v a n s : heap_is r v s → post (heap_is r v) (pm_translate a n s).
Proof. intros Hs. apply post_any. intros _. by apply post_Done. Qed.

Lemma kernel_set_heap r v m s : heap_is r v s → heap_is r v (pm_set_mem m s).
Proof. done. Qed.

Definition map_heap r v root cr3 va ty size w x init s :=
  map_init_frame (heap_is r v) (kernel_set_heap r v) (kernel_translate_heap r v) (kernel_alloc_heap r v)
    (kernel_free_heap r v) root cr3 va ty size w x init s.
Definition free_heap r v root cr3 va size s :=
  free_frame (heap_is r v) (kernel_set_heap r v) (kernel_translate_heap r v)
    (kernel_free_heap r v) root cr3 va size s.

(** ** Sizes *)

Lemma align_size_Some size n : 0 ≤ size → align_size size = Some n →
  n mod 4096 = 0 ∧ size ≤ n < size + 4096 ∧ is_uint 64 n.
Proof.
  intros H0 Ha. unfold align_size in Ha. apply bind_Some in Ha as (m & Hm & [= <-]).
  apply checked_add_Some in Hm as [-> Hu]. change 0xfff with (2 ^ 12 - 1).
  rewrite align_down by (unfold is_uint; lia). change (2 ^ 12) with 4096.
  set (m := size + (4096 - 1)) in *. pose proof (Z.mod_pos_bound m 4096 ltac:(lia)).
  split_and!; unfold is_uint in *; try lia. rewrite Zminus_mod, Z.mod_mod, Z.sub_diag by lia. done.
Qed.

Lemma page_count_4K n : 0 < n → n mod 4096 = 0 → page_count Page4K n = Z.to_nat (n / 4096).
Proof.
  intros Hn Hm. unfold page_count. change (page_size Page4K) with 4096. f_equal.
  apply Z.mod_divide in Hm as [q ->]; [|lia]. rewrite Z.div_mul by lia.
  assert ((q * 4096 - 1) / 4096 = q - 1); [|lia]. symmetry. apply (Z.div_unique _ _ _ 4095); lia.
Qed.

(** ** The heap *)

(** The tables of the active root are sound, and virtual addresses are handed
    out from a page boundary. *)
Definition heap_ok (root : Z) (T : tables) (s : Kernel) : Prop :=
  k_table s = Some root ∧ pt_inv root T s ∧ is_uint 64 (k_next_vaddr s) ∧ k_next_vaddr s mod 4096 = 0.

(** Nothing is mapped at the next [n] addresses, and they do not wrap. *)
Definition heap_room (root : Z) (s : Kernel) (n : Z) : Prop :=
  k_next_vaddr s + GUARD_PAGE_SIZE + n < 2 ^ 64 ∧
  ∀ v, k_next_vaddr s ≤ v < k_next_vaddr s + n →
    canonical v ∧ mmu_walk (ent (k_mem s)) root v = None.

Definition bumped (n : Z) (s : Kernel) : Kernel :=
  set_k_next_vaddr (k_next_vaddr s + GUARD_PAGE_SIZE + n) s.

Lemma pt_inv_bumped root T n s : pt_inv root T s → pt_inv root T (bumped n s).
Proof.
  intros [H1 H2 H3 H4]. split; try done. destruct H4 as [A1 A2 A3 A4 A5 A6]. by split.
Qed.

Lemma room_mappable root T s n : heap_ok root T s → heap_room root s n → n mod 4096 = 0 →
  run_mappable root (bumped n s) Page4K (Z.to_nat (n / 4096)) (k_next_vaddr s).
Proof.
  intros (_ & _ & _ & Hal) [_ Hroom] Hn. split; [done|]. intros k Hk. cbn zeta.
  change (page_size Page4K) with 4096. pose proof (Z.mul_div_le n 4096 ltac:(lia)).
  destruct (Hroom (k_next_vaddr s + Z.of_nat k * 4096)) as [Hc Hw]; [lia|].
  split; [done|]. split; [done|]. intros t Ht. apply reach_below_4 in Ht. cbn in Ht. lia.
Qed.

Lemma opt_alloc_correct root T s cr3 size n : heap_ok root T s → 0 < size → align_size size = Some n →
  heap_room root s n →
  let v := k_next_vaddr s in let np := Z.to_nat (n / 4096) in
  (only_alloc_fails (opt_alloc cr3 size s) ∧ ∀ a, opt_alloc cr3 size s ≠ Done a) ∨
  ∃ s' T' pg, opt_alloc cr3 size s = Done (s', Some v) ∧ heap_ok root T' s' ∧
    k_next_vaddr s' = v + GUARD_PAGE_SIZE + n ∧
    run_fresh root v Page4K true false None T T' (bumped n s) s' np v pg.
Proof.
  intros Hh Hs Ha Hroom v np. pose proof Hh as (Htab & Hinv & Hu & Hal).
  destruct (align_size_Some size n ltac:(lia) Ha) as (Hn & Hle & Hun). pose proof Hroom as [Htop _].
  unfold opt_alloc. rewrite Ha.
  rewrite (proj2 (alloc_virt_Done n s (bumped n s) v Hun Hu)) by (split_and!; (done || lia)).
  cbn [mbind outcome_bind]. change (k_table (bumped n s)) with (k_table s). rewrite Htab. unfold PageTable.map.
  assert (run_mappable root (bumped n s) Page4K (page_count Page4K n) v) as Hrun.
  { rewrite page_count_4K by (done || lia). by apply (room_mappable root T). }
  destruct (map_init_maps root cr3 v Page4K n true false None T (bumped n s)) as [[Hf1 Hf2]|(s' & T' & pg & Hm & Hrf)];
    [done|by apply pt_inv_bumped|lia|unfold GUARD_PAGE_SIZE in *; lia|done|..].
  { left. destruct (map_init _ _ _ _ _ _ _ _ _) as [x| |]; [by destruct (Hf2 x)|done..]. }
  right. exists s', T', pg. rewrite Hm. cbn [mbind outcome_bind].
  rewrite page_count_4K in Hrf by (done || lia). split; [done|].
  destruct (map_heap (Some root) (v + GUARD_PAGE_SIZE + n) root cr3 v Page4K n true false None (bumped n s)
    ltac:(done) (s', Some tt) Hm) as [Ht' Hv']. cbn [fst] in Ht', Hv'.
  split; [|done]. split; [done|]. split; [apply (rf_inv _ _ _ _ _ _ _ _ _ _ _ _ _ Hrf)|]. rewrite Hv'.
  split; [unfold is_uint, GUARD_PAGE_SIZE in *; lia|]. unfold GUARD_PAGE_SIZE.
  rewrite Z.add_mod, Hn, Z.add_0_r, Z.mod_mod by lia. unfold v. by rewrite Z.add_mod, Hal by lia.
Qed.

Lemma dealloc_correct root T T' s s' cr3 size n pg : heap_ok root T s → heap_room root s n →
  0 < size → align_size size = Some n → heap_ok root T' s' →
  let v := k_next_vaddr s in let np := Z.to_nat (n / 4096) in
  run_fresh root v Page4K true false None T T' (bumped n s) s' np v pg →
  (only_alloc_fails (dealloc cr3 v size s') ∧ ∀ a, dealloc cr3 v size s' ≠ Done a) ∨
  ∃ s'' T'' b, dealloc cr3 v size s' = Done (s'', b) ∧ heap_ok root T'' s'' ∧
    k_next_vaddr s'' = k_next_vaddr s' ∧
    (∀ x, free_bytes s' x → free_bytes s'' x) ∧
    (∀ k x, (k < np)%nat → in_block (pg k) 4096 x → free_bytes s'' x) ∧
    ∀ v', canonical v' → mmu_walk (ent (k_mem s'')) root v' = mmu_walk (ent (k_mem s)) root v'.
Proof.
  intros Hh Hroom Hs Ha Hh' v np Hrf. destruct Hh' as (Htab' & Hinv' & Hu' & Hal').
  destruct (align_size_Some size n ltac:(lia) Ha) as (Hn & Hle & Hun).
  assert (Z.of_nat np * 4096 = n) as Hnp.
  { unfold np. apply Z.mod_divide in Hn as [q ->]; [|lia]. rewrite Z.div_mul by lia. lia. }
  pose proof (room_mappable root T s n Hh Hroom Hn) as Hrun.
  assert (grown T' T' s' s') as Hg by apply grown_refl.
  destruct (undo_run root cr3 v Page4K true false None T T' (bumped n s) s' s' np v pg
    (pt_inv_bumped root T n s (proj1 (proj2 Hh))) Hrf Hrun Hinv' (λ _, eq_refl) Hg)
    as [Hf|(s3 & T3 & Ho & Hinv3 & Hfp & Hw)];
    change (page_size Page4K) with 4096 in *; rewrite Hnp in *; [done|..];
    rewrite (proj2 (Z.ltb_lt 0 n)) in * by lia;
    unfold dealloc; rewrite Ha, Htab'; cbn [unwrap expect mbind outcome_bind].
  - left. destruct Hf as [Hf1 Hf2].
    destruct (free root cr3 v n s') as [[y b]| |]; [by destruct (Hf2 y)|done..].
  - right. destruct (free root cr3 v n s') as [[y b]| |] eqn:Ef; [|done..].
    apply Done_inj in Ho as ->. exists s3, T3, b. split; [done|].
    destruct (free_heap (Some root) (k_next_vaddr s') root cr3 v n s' ltac:(done) (s3, b) Ef) as [Ht3 Hv3].
    cbn [fst] in *. destruct Hfp as (_ & _ & Hfree). split; [by unfold heap_ok; rewrite Hv3|].
    split; [done|]. split; [intros x Hx; apply Hfree; by left|]. split; [|done].
    intros k x Hk Hx. apply Hfree. right. right. by exists k.
Qed.

(** ** Contiguous memory *)

(** The entry of a page of a [PhysContig]. *)
Lemma contig_raw p : Z.lor (Z.lor (Z.lor p PAGE_NX) PAGE_WRITE) PAGE_PRESENT = page_entry p Page4K true false.
Proof.
  unfold page_entry. rewrite decide_False by (intros H; by apply H). rewrite Z.lor_0_r, <- !Z.lor_assoc. f_equal.
Qed.

(** The page [k] pages on. *)
Definition contig_page (p : Z) (k : Z) : Z := page_entry (p + 4096 * k) Page4K true false.

Lemma contig_page_facts p k : 0 ≤ p + 4096 * k → p + 4096 * k + 4096 ≤ KERNEL_PHYS_WINDOW_SIZE → p mod 4096 = 0 →
  is_uint 64 (contig_page p k) ∧ present (contig_page p k) = true ∧
  page_addr 3 (contig_page p k) = p + 4096 * k.
Proof.
  intros H1 H2 Hal. unfold KERNEL_PHYS_WINDOW_SIZE in H2.
  destruct (page_entry_facts (p + 4096 * k) Page4K true false) as (A & B & _ & D); [unfold is_uint; lia| |done].
  change (page_size Page4K) with 4096. rewrite Z.add_mod, (Z.mul_comm 4096), Z.mod_mul, Z.add_0_r, Hal by lia. done.
Qed.

(** The pages of a run map to consecutive pages from [p] on. *)
Definition contig_walk (root : Z) (E E' : Z → Z → Z) (v p : Z) (n : nat) : Prop :=
  ∀ v', canonical v' → mmu_walk E' root v' =
    if decide (v ≤ v' < v + 4096 * Z.of_nat n) then Some (3%nat, contig_page p ((v' - v) / 4096))
    else mmu_walk E root v'.

Lemma step_by_seq (j : Z) n : step_by_4096 j (j + 4096 * Z.of_nat (S n)) =
  j :: step_by_4096 (j + 4096) (j + 4096 * Z.of_nat (S n)).
Proof.
  unfold step_by_4096.
  replace (Z.to_nat ((j + 4096 * Z.of_nat (S n) - j + 4095) / 4096)) with (S n).
  2:{ replace (j + 4096 * Z.of_nat (S n) - j + 4095) with (4095 + Z.of_nat (S n) * 4096) by lia.
      rewrite Z.div_add by lia. change (4095 / 4096) with 0. lia. }
  replace (Z.to_nat ((j + 4096 * Z.of_nat (S n) - (j + 4096) + 4095) / 4096)) with n.
  2:{ replace (j + 4096 * Z.of_nat (S n) - (j + 4096) + 4095) with (4095 + Z.of_nat n * 4096) by lia.
      rewrite Z.div_add by lia. change (4095 / 4096) with 0. lia. }
  cbn [seq fmap list_fmap]. f_equal; [lia|]. rewrite <- fmap_S_seq, <- list_fmap_compose.
  apply list_fmap_ext. intros i x _. cbn. lia.
Qed.

Lemma map_contig_spec root v0 p0 n : ∀ j T s, pt_inv root T s →
  let v := v0 + j in let p := p0 + j in
  0 ≤ v0 → 0 ≤ p0 → 0 ≤ j → v mod 4096 = 0 → p mod 4096 = 0 →
  p + 4096 * Z.of_nat n ≤ KERNEL_PHYS_WINDOW_SIZE →
  (∀ k, (k < n)%nat → canonical (v + 4096 * Z.of_nat k) ∧
     mmu_walk (ent (k_mem s)) root (v + 4096 * Z.of_nat k) = None) →
  let o := map_contig (step_by_4096 j (j + 4096 * Z.of_nat n)) root v0 p0 s in
  (only_alloc_fails o ∧ ∀ a, o ≠ Done a) ∨
  ∃ s' T', o = Done s' ∧ pt_inv root T' s' ∧ grown T T' s s' ∧
    contig_walk root (ent (k_mem s)) (ent (k_mem s')) v p n.
Proof.
  induction n as [|n IH]; intros j T s Hinv v p Hv0 Hp0 Hj Hal Hpal Hwin Hrun; cbn zeta.
  { right. exists s, T. replace (step_by_4096 j (j + 4096 * Z.of_nat 0)) with (@nil Z).
    2:{ unfold step_by_4096. by replace (j + 4096 * Z.of_nat 0 - j + 4095) with 4095 by lia. }
    split; [done|]. split; [done|]. split; [apply grown_refl|].
    intros v' Hv'. by rewrite decide_False by lia. }
  rewrite step_by_seq. cbn [map_contig]. unfold KERNEL_PHYS_WINDOW_SIZE in Hwin.
  destruct (Hrun 0%nat ltac:(lia)) as [Hc Hw]. rewrite Z.mul_0_r, Z.add_0_r in Hc, Hw.
  pose proof Hc as [Hcu _]. unfold is_uint in Hcu.
  rewrite (wrapping_add_small 64 v0 j), (wrapping_add_small 64 p0 j), contig_raw by (unfold is_uint, v, p in *; lia).
  fold v p. replace (page_entry p Page4K true false) with (contig_page p 0) by (unfold contig_page; f_equal; lia).
  destruct (contig_page_facts p 0) as (Hu & Hpr & _); [lia|unfold KERNEL_PHYS_WINDOW_SIZE; lia|done|].
  destruct (map_raw_maps root T s v Page4K (contig_page p 0) Hinv Hu) as [[Hf1 Hf2]|(s1 & T1 & Ho & Hinv1 & Hs & Hno & _ & _ & Hg)].
  { split_and!; try done. intros t Ht. apply reach_below_4 in Ht. cbn in Ht. lia. }
  { left. destruct (map_raw _ _ _ _ s) as [x| |]; [by destruct (Hf2 x)|done..]. }
  rewrite Ho. cbn [mbind outcome_bind expect].
  assert (∀ v', canonical v' → agree_below 4 v v' ↔ v ≤ v' < v + 4096) as Hiff
    by (intros v' Hv'; apply (same_page_iff 3 v v'); [lia|done..]).
  destruct (IH (j + 4096) T1 s1 Hinv1) as [Hf|(s2 & T2 & Ho2 & Hinv2 & Hg2 & Hw2)]; try lia.
  - replace (v0 + (j + 4096)) with (v + 1 * 4096) by (unfold v; lia). by rewrite Z.mod_add by lia.
  - replace (p0 + (j + 4096)) with (p + 1 * 4096) by (unfold p; lia). by rewrite Z.mod_add by lia.
  - unfold KERNEL_PHYS_WINDOW_SIZE, p in *. lia.
  - intros k Hk. replace (v0 + (j + 4096) + 4096 * Z.of_nat k) with (v + 4096 * Z.of_nat (S k)) by (unfold v; lia).
    destruct (Hrun (S k) ltac:(lia)) as [Hck Hwk]. split; [done|].
    change (pm_mem s1) with (k_mem s1) in Hno. rewrite Hno; [done|]. rewrite Hiff by done. lia.
  - left. by replace (j + 4096 * Z.of_nat (S n)) with (j + 4096 + 4096 * Z.of_nat n) by lia.
  - right. exists s2, T2. replace (j + 4096 * Z.of_nat (S n)) with (j + 4096 + 4096 * Z.of_nat n) by lia.
    split; [done|]. split; [done|]. split; [by apply (grown_trans _ T1 _ _ s1)|].
    intros v' Hv'. rewrite Hw2 by done. replace (v0 + (j + 4096)) with (v + 4096) by (unfold v; lia).
    case_decide as Hd; [rewrite decide_True by lia|].
    + do 2 f_equal. unfold contig_page. f_equal. replace (v' - v) with (v' - (v + 4096) + 1 * 4096) by lia.
      rewrite Z.div_add by lia. unfold p. lia.
    + case_decide as Hd'; change (k_mem s1) with (pm_mem s1).
      * rewrite Hs by (apply Hiff; [done|lia]). by rewrite Z.div_small by lia.
      * apply Hno. rewrite Hiff by done. lia.
Qed.

(** A store through the tables to pages that are in use and hold no table is a
    store to the physical memory behind them. *)
Lemma store_virt_spec root T l : ∀ v p s, pt_inv root T s → bytes_ok l →
  (∀ i, 0 ≤ i < Z.of_nat (length l) →
     ∃ pg off, walk_page (v + i) (mmu_walk (ent (k_mem s)) root (v + i)) = Some (pg, off) ∧ pg + off = p + i) →
  (∀ x, in_block p (Z.of_nat (length l)) x → ~ free_bytes s x ∧ ∀ t, is_Some (T !! t) → ~ in_block t 4096 x) →
  ∃ s', store_virt root v l s = Done s' ∧ s' = set_k_mem (write_bytes (k_mem s) p l) s ∧ pt_inv root T s' ∧
    ∀ v', mmu_walk (ent (k_mem s')) root v' = mmu_walk (ent (k_mem s)) root v'.
Proof.
  induction l as [|b l IH]; intros v p s Hinv Hl Hw Hblk; cbn [store_virt length write_bytes] in *.
  { exists s. destruct s. by split_and!. }
  destruct (Hw 0 ltac:(lia)) as (pg & off & Hp & Ea). rewrite Z.add_0_r in Hp, Ea.
  rewrite Hp. cbn [expect mbind outcome_bind]. rewrite Ea. apply Forall_cons in Hl as [Hb Hl].
  set (s1 := set_k_mem (write_bytes (k_mem s) p [b]) s).
  assert (∀ x, x ≠ p → mem_byte (k_mem s1) x = mem_byte (k_mem s) x) as Hout.
  { intros x Hx. unfold s1. cbn [k_mem set_k_mem]. rewrite lookup_write_bytes, decide_False; [done|].
    unfold in_block. cbn. lia. }
  assert (in_block p (Z.of_nat (S (length l))) p) as Hin by (unfold in_block; lia).
  destruct (Hblk p Hin) as [Hpf Hpt].
  assert (pm_ok s1) as Hok1.
  { apply set_k_mem_ok; [apply (pt_bytes _ _ _ Hinv)|apply write_bytes_ok|].
    - apply (ko_mem _ (pt_bytes _ _ _ Hinv)).
    - by constructor.
    - intros x Hx. apply Hout. intros ->. done. }
  destruct (pt_inv_frame root T s s1 Hinv Hok1) as (Hinv1 & Hw1 & _).
  { done. }
  { intros t k x Ht Hx. apply Hout. intros ->. by apply (Hpt t); [eexists|]. }
  { intros t k x Ht Hx. by apply (pt_page _ _ _ Hinv t k Ht). }
  destruct (IH (v + 1) (p + 1) s1 Hinv1 Hl) as (s' & Hst & Es & Hinv' & Hw').
  - intros i Hi. destruct (Hw (1 + i) ltac:(lia)) as (pg' & off' & Hp' & Ea').
    rewrite Z.add_assoc in Hp'. exists pg', off'. change (k_mem s1) with (pm_mem s1). rewrite Hw1. split; [done|lia].
  - intros x Hx. apply Hblk. unfold in_block in *. lia.
  - exists s'. split; [done|]. split; [done|]. split; [done|].
    intros v'. rewrite Hw'. apply Hw1.
Qed.

(** What a [PhysContig] owns: the pages at [v] map to the [np] pages at [p],
    which are in use, hold no table, and start with the bytes [val]. *)
Record contig_owned (root : Z) (T : tables) (s : Kernel) (v p : Z) (np : nat) (val : list Z) : Prop := {
  co_align : p mod 4096 = 0;
  co_window : 0 < p ∧ p + 4096 * Z.of_nat np ≤ KERNEL_PHYS_WINDOW_SIZE;
  co_walk k v' : (k < np)%nat → canonical v' → v + 4096 * Z.of_nat k ≤ v' < v + 4096 * (Z.of_nat k + 1) →
    mmu_walk (ent (k_mem s)) root v' = Some (3%nat, contig_page p (Z.of_nat k));
  co_block x : in_block p (4096 * Z.of_nat np) x → ~ free_bytes s x ∧
    ∀ t, is_Some (T !! t) → ~ in_block t 4096 x;
  co_val : read_bytes (k_mem s) p (length val) = val;
}.

(** The size [new] takes, where it does not panic. *)
Definition contig_pages (size : Z) : nat := Z.to_nat (Z.max 4096 size / 4096).

Lemma contig_size size : 0 < size → (size ≤ 4096 ∨ size mod 4096 = 0) →
  Z.max 4096 size = 4096 * Z.of_nat (contig_pages size) ∧ (0 < contig_pages size)%nat.
Proof.
  intros H0 Hs. unfold contig_pages.
  assert (Z.max 4096 size mod 4096 = 0) as Hm.
  { destruct Hs; [by rewrite Z.max_l by lia|]. destruct (Z.max_spec 4096 size) as [[_ ->]|[_ ->]]; done. }
  apply Z.mod_divide in Hm as [q Hq]; [|lia]. rewrite Hq, Z.div_mul by lia. lia.
Qed.

Lemma pt_inv_alloc root T s s1 : pt_inv root T s → pm_ok s1 →
  (∀ x, free_bytes s1 x → free_bytes s x) →
  (∀ x, ~ free_bytes s x → mem_byte (k_mem s1) x = mem_byte (k_mem s) x) →
  pt_inv root T s1 ∧ ∀ v, mmu_walk (ent (k_mem s1)) root v = mmu_walk (ent (k_mem s)) root v.
Proof.
  intros Hinv Hok Hsub Hmem.
  assert (∀ t l x, T !! t = Some l → in_block t 4096 x → ~ free_bytes s x) as Hnf
    by (intros t l x Ht Hx; by apply (pt_page _ _ _ Hinv t l Ht)).
  destruct (pt_inv_frame root T s s1 Hinv Hok) as (H1 & H2 & _).
  - done.
  - intros t l x Ht Hx. by apply Hmem, (Hnf t l).
  - intros t l x Ht Hx Hf. by apply (Hnf t l x Ht Hx), Hsub.
  - split; [exact H1|exact H2].
Qed.

Lemma map_contig_heap r nv root v p l : ∀ s, heap_is r nv s → post (heap_is r nv) (map_contig l root v p s).
Proof.
  induction l as [|o l IH]; intros s Hs; cbn [map_contig]; [by apply post_Done|].
  apply (post_bind _ (λ x, heap_is r nv x.1)).
  - by apply (map_raw_frame (heap_is r nv) (kernel_set_heap r nv) (kernel_translate_heap r nv) (kernel_alloc_heap r nv)).
  - intros [s1 x] Hs1. apply post_any. intros _. by apply IH.
Qed.

(** A block taken before the tables grew is apart from them. *)
Lemma block_apart root T T' (s s1 s2 : Kernel) p n : pt_inv root T s → grown T T' s1 s2 →
  (∀ x, in_block p n x → free_bytes s x) → (∀ x, free_bytes s1 x → ~ in_block p n x) →
  ∀ x, in_block p n x → ~ free_bytes s2 x ∧ ∀ t, is_Some (T' !! t) → ~ in_block t 4096 x.
Proof.
  intros Hinv (_ & _ & Hfree & Hnew & _) Hblk Hout x Hx. split; [by intros Hf%Hfree%Hout|].
  intros t Ht Hb. destruct (T !! t) as [l|] eqn:E.
  - apply (pt_page _ _ _ Hinv t l E) in Hb as [Hn _]. by apply Hn, Hblk.
  - by apply (Hout x (Hnew t x E Ht Hb)).
Qed.

(** Where the walk of a contiguous run leads. *)
Lemma contig_walk_page root E E' v p n i : contig_walk root E E' v p n → v mod 4096 = 0 → p mod 4096 = 0 → 0 ≤ p →
  p + 4096 * Z.of_nat n ≤ KERNEL_PHYS_WINDOW_SIZE → 0 ≤ i < 4096 * Z.of_nat n → canonical (v + i) →
  ∃ pg off, walk_page (v + i) (mmu_walk E' root (v + i)) = Some (pg, off) ∧ pg + off = p + i.
Proof.
  intros Hw Hv Hp Hp0 Hwin Hi Hc. rewrite Hw, decide_True by (done || lia). cbn [walk_page].
  eexists _, _. split; [done|]. replace (v + i - v) with i by lia.
  pose proof (Z.div_mod i 4096 ltac:(lia)). pose proof (Z.mod_pos_bound i 4096 ltac:(lia)).
  destruct (contig_page_facts p (i / 4096)) as (_ & _ & Ha); [lia|lia|done|].
  fold (page_addr 3 (contig_page p (i / 4096))). rewrite Ha.
  change (level_mask 3) with (2 ^ 12 - 1). rewrite land_mask_mod by lia. change (2 ^ 12) with 4096.
  rewrite Z.add_mod, Hv, Z.add_0_l, Z.mod_mod by lia. lia.
Qed.

Lemma contig_new_correct root T s align k val : heap_ok root T s → bytes_ok val →
  let size := Z.of_nat (length val) in let np := contig_pages size in let n := 4096 * Z.of_nat np in
  0 < size → (size ≤ 4096 ∨ size mod 4096 = 0) → Z.max 4096 align = 2 ^ k → 12 ≤ k < 64 → heap_room root s n →
  let v := k_next_vaddr s in let o := contig_new align val s in
  (only_alloc_fails o ∧ ∀ a, o ≠ Done a) ∨ (∃ msg, o = Panic msg ∧ alloc_phys n (2 ^ k) s = Panic msg) ∨
  (o = OutOfFuel ∧ alloc_phys n (2 ^ k) s = OutOfFuel) ∨
  ∃ s' T' p, o = Done (s', mkPhysContig v p) ∧ heap_ok root T' s' ∧
    k_next_vaddr s' = v + GUARD_PAGE_SIZE + n ∧ (n ≠ 4096 → p mod 2 ^ k = 0) ∧
    contig_owned root T' s' v p np val ∧ contig_walk root (ent (k_mem s)) (ent (k_mem s')) v p np ∧
    (∀ x, in_block p n x → free_bytes s x).
Proof.
  intros Hh Hval size np n Hs Hsz Hk Hk' Hroom v. cbn zeta.
  destruct Hh as (Htab & Hinv & Hu & Hal). destruct (contig_size size Hs Hsz) as [En Hnp]. fold np in En, Hnp. fold n in En.
  destruct Hroom as [Htop Hroom]. fold v in Htop, Hroom.
  assert (0 < n < 2 ^ 64) as Hn by (unfold is_uint, GUARD_PAGE_SIZE in *; lia).
  unfold contig_new. fold size. rewrite (proj2 (Z.ltb_lt 0 size)) by lia. cbn [assert mbind outcome_bind].
  rewrite En, Hk. destruct (alloc_phys n (2 ^ k) s) as [[s1 p]|msg|] eqn:Ea; cbn [mbind outcome_bind].
  2:{ right. left. by exists msg. }
  2:{ right. right. by left. }
  destruct (alloc_phys_block n k s s1 p (pt_bytes _ _ _ Hinv) Hn Hk' Ea)
    as (Hp0 & Hpw & Hpal & Hpk & Hok1 & Hblk & Hsub & Hmem).
  destruct (kernel_alloc_heap (Some root) v n (2 ^ k) s (conj Htab eq_refl) _ Ea) as [Ht1 Hv1]. cbn [fst] in Ht1, Hv1.
  destruct (pt_inv_alloc root T s s1 Hinv Hok1 (λ x Hx, proj1 (Hsub x Hx)) Hmem) as [Hinv1 Hw1].
  rewrite (proj2 (alloc_virt_Done n s1 (bumped n s1) v ltac:(unfold is_uint; lia) ltac:(rewrite Hv1; exact Hu))).
  2:{ unfold bumped. rewrite Hv1. split; [lia|]. split; [unfold n; by rewrite Z.mul_comm, Z.mod_mul|]. by split_and!. }
  cbn [mbind outcome_bind]. change (k_table (bumped n s1)) with (k_table s1). rewrite Ht1.
  cbn [unwrap expect mbind outcome_bind].
  destruct (map_contig_spec root v p np 0 T (bumped n s1) (pt_inv_bumped root T n s1 Hinv1))
    as [[Hf1 Hf2]|(s2 & T2 & Ho & Hinv2 & Hg2 & Hw2)]; rewrite ?Z.add_0_r, ?Z.add_0_l; try done;
    try (unfold is_uint in *; lia).
  { intros i Hi. destruct (Hroom (v + 4096 * Z.of_nat i)) as [Hc Hwi]; [unfold n; lia|].
    split; [done|]. change (k_mem (bumped n s1)) with (k_mem s1). by rewrite Hw1. }
  { left. rewrite Z.add_0_l in Hf1, Hf2. fold n in Hf1, Hf2.
    destruct (map_contig _ _ _ _ _) as [x| |]; [by destruct (Hf2 x)|done..]. }
  rewrite Z.add_0_l in Ho. fold n in Ho. rewrite Ho. cbn [mbind outcome_bind]. rewrite !Z.add_0_r in Hw2.
  assert (contig_walk root (ent (k_mem s)) (ent (k_mem s2)) v p np) as Hcw.
  { intros v' Hv'. rewrite Hw2 by done. case_decide; [done|]. apply Hw1. }
  pose proof (block_apart root T T2 s (bumped n s1) s2 p n Hinv Hg2 Hblk (λ x Hx, proj2 (Hsub x Hx))) as Hap.
  assert (size ≤ n) as Hsn by lia.
  destruct (store_virt_spec root T2 val v p s2 Hinv2 Hval) as (s3 & Hst & Es & Hinv3 & Hw3).
  { intros i Hi. apply (contig_walk_page _ _ _ _ _ _ _ Hcw); try (done || lia). apply Hroom. lia. }
  { intros x Hx. apply Hap. unfold in_block in *. fold size in Hx. lia. }
  rewrite Hst. cbn [mbind outcome_bind]. right. right. right. exists s3, T2, p.
  destruct (map_contig_heap (Some root) (v + GUARD_PAGE_SIZE + n) root v p _ (bumped n s1)
    ltac:(unfold bumped; rewrite Hv1; done) _ Ho) as [Ht2 Hv2].
  split; [done|]. rewrite Es. cbn [k_next_vaddr k_table set_k_mem]. split.
  { split; [done|]. split; [by rewrite <- Es|]. cbn [k_next_vaddr set_k_mem]. rewrite Hv2.
    split; [unfold is_uint, GUARD_PAGE_SIZE in *; lia|]. unfold GUARD_PAGE_SIZE, n.
    rewrite (Z.mul_comm 4096), Z.mod_add by lia. unfold v. by rewrite Z.add_mod, Hal by lia. }
  split; [done|]. split; [done|]. rewrite <- Es. split; [|split; [|done]].
  - split; [done|done| |rewrite Es; exact Hap|rewrite Es; apply read_write_bytes].
    intros i v' Hi Hv' Hr. rewrite Hw3, Hcw, decide_True by (done || lia). do 2 f_equal. f_equal.
    symmetry. apply (Z.div_unique _ _ _ (v' - v - 4096 * Z.of_nat i)); lia.
  - intros v' Hv'. rewrite Hw3. by apply Hcw.
Qed.

Lemma align_size_contig size : 0 < size → (size ≤ 4096 ∨ size mod 4096 = 0) → size + 4095 < 2 ^ 64 →
  align_size size = Some (4096 * Z.of_nat (contig_pages size)).
Proof.
  intros H0 Hs Hu. destruct (contig_size size H0 Hs) as [En _].
  assert (∃ n, align_size size = Some n) as [n Hn].
  { unfold align_size, checked_add. rewrite (proj2 (Z.ltb_lt (size + 0xfff) _)) by lia. by eexists. }
  destruct (align_size_Some size n ltac:(lia) Hn) as (Hm & Hle & _). rewrite Hn. f_equal. rewrite <- En.
  apply Z.mod_divide in Hm as [q ->]; [|lia].
  destruct Hs as [Hs|Hs]; [rewrite Z.max_l by lia; nia|].
  apply Z.mod_divide in Hs as [r ->]; [|lia]. lia.
Qed.

Lemma contig_drop_correct root T s v p val cr3 : heap_ok root T s → bytes_ok val →
  let size := Z.of_nat (length val) in let np := contig_pages size in let n := 4096 * Z.of_nat np in
  0 < size → (size ≤ 4096 ∨ size mod 4096 = 0) → v mod 4096 = 0 → v + n < 2 ^ 64 →
  (∀ i, 0 ≤ i < n → canonical (v + i)) → contig_owned root T s v p np val →
  let o := contig_drop cr3 size (mkPhysContig v p) s in
  (only_alloc_fails o ∧ ∀ a, o ≠ Done a) ∨
  ∃ s' T' b, o = Done (s', b) ∧ heap_ok root T' s' ∧ k_next_vaddr s' = k_next_vaddr s ∧
    (∀ x, free_bytes s x ∨ in_block p n x → free_bytes s' x) ∧
    ∀ v', canonical v' → mmu_walk (ent (k_mem s')) root v' =
      if decide (v ≤ v' < v + n) then None else mmu_walk (ent (k_mem s)) root v'.
Proof.
  intros (Htab & Hinv & Hu & Hnal) Hval size np n Hs Hsz Hal Htop Hcan Hco. cbn zeta.
  destruct (contig_size size Hs Hsz) as [En Hnp]. fold np in En, Hnp. fold n in En.
  unfold contig_drop. rewrite align_size_contig by (done || (destruct Hcan with 0 as [[? ?] _]; lia)).
  fold np n. rewrite Htab. cbn [unwrap expect mbind outcome_bind vaddr].
  assert ((Z.of_nat (np - 1) + 1) * 2 ^ offset_bits 3 = n) as Enp
    by (change (2 ^ offset_bits 3) with 4096; unfold n; lia).
  assert (∀ k, (k ≤ np - 1)%nat → page_addr 3 (contig_page p (Z.of_nat k)) = p + 4096 * Z.of_nat k) as Hpa.
  { intros k Hk. destruct (co_window _ _ _ _ _ _ _ Hco). apply contig_page_facts; [lia|lia|apply (co_align _ _ _ _ _ _ _ Hco)]. }
  destruct (free_correct root T s 3 (np - 1) v (λ k, contig_page p (Z.of_nat k)) cr3 ltac:(lia) Hinv) as [Hf|Hok].
  - split; [done|]. intros k Hk. change (2 ^ offset_bits 3) with 4096.
    assert (canonical (v + Z.of_nat k * 4096)) as Hc by (apply Hcan; unfold n; lia).
    destruct (co_window _ _ _ _ _ _ _ Hco) as [Hp0 Hpw].
    split; [done|]. split; [apply (co_walk _ _ _ _ _ _ _ Hco k); [lia|done|lia]|]. split.
    + unfold page_owned. change (2 ^ offset_bits 3) with 4096. rewrite Hpa by done. split; [lia|]. intros x Hx.
      destruct (co_block _ _ _ _ _ _ _ Hco x) as [Hn1 Hn2]; [unfold in_block in *; lia|].
      split; [done|]. split; [|done]. change (0 ≤ x < KERNEL_PHYS_WINDOW_SIZE). unfold in_block in Hx. lia.
    + intros j x Hj. rewrite !Hpa by lia. unfold in_block. lia.
  - rewrite Enp. destruct (Hcan 0) as [[? ?] _]; [lia|]. unfold is_uint. lia.
  - left. by rewrite Enp in Hf.
  - right. destruct Hok as (s' & T' & Ho & Hinv' & (_ & _ & Hfree) & Hw). rewrite Enp in Ho, Hw.
    exists s', T', (Z.land cr3 (bnot 64 0xfff) =? root). split; [done|].
    destruct (free_heap (Some root) (k_next_vaddr s) root cr3 v n s ltac:(done) _ Ho) as [Ht' Hv'].
    cbn [fst] in *. split; [by unfold heap_ok; rewrite Hv'|]. split; [done|]. split; [|done].
    intros x [Hx|Hx]; apply Hfree; [by left|]. right. right. exists (Z.to_nat ((x - p) / 4096)).
    change (2 ^ offset_bits 3) with 4096. unfold in_block in Hx.
    assert (0 ≤ (x - p) / 4096 ≤ Z.of_nat np - 1).
    { split; [apply Z.div_pos; lia|]. assert ((x - p) / 4096 < Z.of_nat np); [|lia].
      apply Z.div_lt_upper_bound; lia. }
    split; [lia|]. rewrite Hpa by lia. rewrite Z2Nat.id by lia.
    pose proof (Z.div_mod (x - p) 4096 ltac:(lia)). pose proof (Z.mod_pos_bound (x - p) 4096 ltac:(lia)).
    unfold in_block. lia.
Qed.

(** ** Properties *)

(** C10: where the next addresses are unmapped, an allocation of the global
    allocator returns the next virtual address with a guard behind it, each of
    its pages mapped writable and not executable to a page of its own that was
    free, and nothing else changed; and [dealloc] of it with the same size frees
    all those pages and restores every translation.  Either fails only where
    physical memory does. *)
Theorem heap_roundtrip root T s cr3 cr3' size n :
  heap_ok root T s → 0 < size → align_size size = Some n → heap_room root s n →
  let v := k_next_vaddr s in let np := Z.to_nat (n / 4096) in
  (only_alloc_fails (opt_alloc cr3 size s) ∧ ∀ a, opt_alloc cr3 size s ≠ Done a) ∨
  ∃ s' T' pg, opt_alloc cr3 size s = Done (s', Some v) ∧ heap_ok root T' s' ∧
    k_next_vaddr s' = v + GUARD_PAGE_SIZE + n ∧
    run_fresh root v Page4K true false None T T' (bumped n s) s' np v pg ∧
    ((only_alloc_fails (dealloc cr3' v size s') ∧ ∀ a, dealloc cr3' v size s' ≠ Done a) ∨
     ∃ s'' T'' b, dealloc cr3' v size s' = Done (s'', b) ∧ heap_ok root T'' s'' ∧
       k_next_vaddr s'' = k_next_vaddr s' ∧
       (∀ x, free_bytes s' x → free_bytes s'' x) ∧
       (∀ k x, (k < np)%nat → in_block (pg k) 4096 x → free_bytes s'' x) ∧
       ∀ v', canonical v' → mmu_walk (ent (k_mem s'')) root v' = mmu_walk (ent (k_mem s)) root v').
Proof.
  intros Hh Hs Ha Hroom v np.
  destruct (opt_alloc_correct root T s cr3 size n Hh Hs Ha Hroom) as [|(s' & T' & pg & Ho & Hh' & Hv' & Hrf)];
    [by left|right]. exists s', T', pg. split_and!; try done. by apply (dealloc_correct root T T' s s' cr3' size n pg).
Qed.

(** [PhysContig::new] of a value of at most a page, or of whole pages,
    maps fresh virtual addresses to physically contiguous pages that were free
    and hold the value, at the alignment asked for except that a single page is
    only page aligned; [drop] frees them and restores every translation. *)
Theorem contig_roundtrip root T s align k val cr3 :
  heap_ok root T s → bytes_ok val →
  let size := Z.of_nat (length val) in let np := contig_pages size in let n := 4096 * Z.of_nat np in
  0 < size → (size ≤ 4096 ∨ size mod 4096 = 0) → Z.max 4096 align = 2 ^ k → 12 ≤ k < 64 → heap_room root s n →
  let v := k_next_vaddr s in let o := contig_new align val s in
  (only_alloc_fails o ∧ ∀ a, o ≠ Done a) ∨ (∃ msg, o = Panic msg ∧ alloc_phys n (2 ^ k) s = Panic msg) ∨
  (o = OutOfFuel ∧ alloc_phys n (2 ^ k) s = OutOfFuel) ∨
  ∃ s' T' p, o = Done (s', mkPhysContig v p) ∧ heap_ok root T' s' ∧ (n ≠ 4096 → p mod 2 ^ k = 0) ∧
    contig_owned root T' s' v p np val ∧ contig_walk root (ent (k_mem s)) (ent (k_mem s')) v p np ∧
    (∀ x, in_block p n x → free_bytes s x) ∧
    let o' := contig_drop cr3 size (mkPhysContig v p) s' in
    ((only_alloc_fails o' ∧ ∀ a, o' ≠ Done a) ∨
     ∃ s'' T'' b, o' = Done (s'', b) ∧ heap_ok root T'' s'' ∧
       (∀ x, free_bytes s' x ∨ in_block p n x → free_bytes s'' x) ∧
       ∀ v', canonical v' → mmu_walk (ent (k_mem s'')) root v' = mmu_walk (ent (k_mem s)) root v').
Proof.
  intros Hh Hval size np n Hs Hsz Hk Hk' Hroom v. cbn zeta.
  destruct (contig_new_correct root T s align k val Hh Hval Hs Hsz Hk Hk' Hroom)
    as [|[|[|(s' & T' & p & Ho & Hh' & _ & Hpk & Hco & Hcw & Hblk)]]]; [tauto..|].
  right. right. right. exists s', T', p. split_and!; try done.
  pose proof Hh as (_ & _ & _ & Hal). destruct Hroom as [Htop Hun].
  destruct (contig_drop_correct root T' s' v p val cr3 Hh' Hval Hs Hsz Hal) as [|(s'' & T'' & b & Hd & Hh'' & _ & Hf & Hw)].
  - fold size np n. unfold v, GUARD_PAGE_SIZE in *. lia.
  - intros i Hi. apply Hun. unfold v. fold size np n in Hi. lia.
  - done.
  - by left.
  - right. exists s'', T'', b. split_and!; try done. intros v' Hv'. rewrite Hw by done.
    fold size np n. case_decide as Hd'; [symmetry; by apply Hun|]. rewrite Hcw, decide_False by (done || lia). done.
Qed.

(** *** Witnesses: a kernel with an empty page table *)

Definition result_of {A} (o : outcome (Kernel * A)) : option A :=
  match o with Done (_, a) => Some a | _ => None end.
Definition kernel_of {A} (o : outcome (Kernel * A)) : Kernel :=
  match o with Done (s, _) => s | _ => demo_kernel end.

Lemma result_of_eq {A} (o : outcome (Kernel * A)) a : result_of o = Some a → o = Done (kernel_of o, a).
Proof. destruct o as [[s b]| |]; cbn; congruence. Qed.

Definition with_table (r : Z) (s : Kernel) : Kernel :=
  mkKernel (k_mem s) (k_free s) (k_head s) (k_pages s) (k_ranges s) (k_apic_id s) (Some r) (k_next_vaddr s).

Lemma pt_inv_with_table root T r s : pt_inv root T s → pt_inv root T (with_table r s).
Proof. intros [H1 H2 H3 H4]. split; try done. destruct H4 as [A1 A2 A3 A4 A5 A6]. by split. Qed.

Definition demo_kroot : Z := 0x2ff000.
Definition demo_new : Kernel := kernel_of (new demo_kernel).
Definition demo_heap : Kernel := with_table demo_kroot demo_new.

Lemma demo_new_eq : new demo_kernel = Done (demo_new, demo_kroot).
Proof. unfold demo_new. apply (result_of_eq (new demo_kernel)). vm_compute. reflexivity. Qed.

Lemma demo_heap_vaddr : k_next_vaddr demo_heap = KERNEL_VMEM_BASE.
Proof. vm_compute. reflexivity. Qed.

#[local] Opaque demo_new.

Lemma demo_heap_ok : heap_ok demo_kroot {[demo_kroot := 0%nat]} demo_heap ∧
  ∀ v, mmu_walk (ent (k_mem demo_heap)) demo_kroot v = None.
Proof.
  pose proof (new_correct demo_kernel demo_kernel_ok) as Hn. pose proof demo_new_eq as Hd.
  set (o := new demo_kernel) in *. clearbody o.
  destruct Hn as [(msg & E & _)|[[E _]|(s & r & E & Hinv & _ & Hw)]]; [congruence..|].
  rewrite E in Hd. clear E. apply Done_pair_inj in Hd as [Es Er]. subst s r. split; [|exact Hw].
  split; [reflexivity|]. split.
  - exact (pt_inv_with_table _ _ demo_kroot demo_new Hinv).
  - rewrite demo_heap_vaddr. split; [by_decide|reflexivity].
Qed.

Lemma demo_heap_room n : 0 ≤ n ≤ 2 ^ 32 → heap_room demo_kroot demo_heap n.
Proof.
  intros Hn. unfold heap_room. rewrite demo_heap_vaddr. unfold GUARD_PAGE_SIZE, KERNEL_VMEM_BASE.
  split; [lia|]. intros v Hv. split; [unfold canonical, is_uint; lia|apply demo_heap_ok].
Qed.

Lemma heap_roundtrip_witness :
  ∃ s' s'' b, opt_alloc 0 100 demo_heap = Done (s', Some KERNEL_VMEM_BASE) ∧
    dealloc 0 KERNEL_VMEM_BASE 100 s' = Done (s'', b) ∧
    mmu_walk (ent (k_mem s'')) demo_kroot KERNEL_VMEM_BASE = None.
Proof.
  assert (result_of (opt_alloc 0 100 demo_heap) = Some (Some KERNEL_VMEM_BASE)) as Er by (vm_compute; reflexivity).
  assert (result_of (dealloc 0 KERNEL_VMEM_BASE 100 (kernel_of (opt_alloc 0 100 demo_heap))) = Some false) as Ed
    by (vm_compute; reflexivity).
  destruct (heap_roundtrip demo_kroot _ demo_heap 0 0 100 4096 (proj1 demo_heap_ok) ltac:(lia) eq_refl
    (demo_heap_room 4096 ltac:(lia))) as [[_ Hf]|(s' & T' & pg & Ho & _ & _ & _ & Hd)].
  { destruct (Hf _ (result_of_eq _ _ Er)). }
  rewrite demo_heap_vaddr in Ho, Hd. rewrite Ho in Ed. cbn [kernel_of] in Ed.
  destruct Hd as [[_ Hf]|(s'' & T'' & b & Ho' & _ & _ & _ & _ & Hw)].
  { destruct (Hf _ (result_of_eq _ _ Ed)). }
  exists s', s'', b. split; [exact Ho|]. split; [exact Ho'|].
  rewrite Hw; [apply demo_heap_ok|]. unfold canonical, is_uint, KERNEL_VMEM_BASE. lia.
Defined.

Lemma read_bytes_head m a b l : read_bytes m a (length (b :: l)) = b :: l → mem_byte m a = b.
Proof. cbn. congruence. Qed.

(** Two pages that start with 1, aligned to 8192. *)
Definition demo_val : list Z := 1 :: replicate (Z.to_nat 8191) 0.

Lemma contig_roundtrip_witness :
  ∃ s' s'' p b, contig_new 8192 demo_val demo_heap = Done (s', mkPhysContig KERNEL_VMEM_BASE p) ∧
    p mod 8192 = 0 ∧ mem_byte (k_mem s') p = 1 ∧
    contig_drop 0 8192 (mkPhysContig KERNEL_VMEM_BASE p) s' = Done (s'', b).
Proof.
  assert (result_of (contig_new 8192 demo_val demo_heap) = Some (mkPhysContig KERNEL_VMEM_BASE 0x300000)) as Er
    by (vm_compute; reflexivity).
  assert (result_of (contig_drop 0 8192 (mkPhysContig KERNEL_VMEM_BASE 0x300000)
    (kernel_of (contig_new 8192 demo_val demo_heap))) = Some false) as Ed by (vm_compute; reflexivity).
  assert (Z.of_nat (length demo_val) = 8192) as El by (vm_compute; reflexivity).
  assert (bytes_ok demo_val) as Hb by (apply Forall_cons_2; [by_decide|apply Forall_replicate; by_decide]).
  pose proof (contig_roundtrip demo_kroot _ demo_heap 8192 13 demo_val 0 (proj1 demo_heap_ok) Hb) as H.
  rewrite El, demo_heap_vaddr in H. change (4096 * Z.of_nat (contig_pages 8192)) with 8192 in H.
  change (contig_pages 8192) with 2%nat in H.
  specialize (H ltac:(lia) (or_intror eq_refl) eq_refl ltac:(lia) (demo_heap_room 8192 ltac:(lia))).
  pose proof (result_of_eq _ _ Er) as Hn. cbn zeta in H.
  destruct H as [[_ Hf]|[(msg & E & _)|[[E _]|(s' & T' & p & Ho & _ & Hp & Hco & _ & _ & Hd)]]].
  - destruct (Hf _ Hn).
  - rewrite Hn in E. discriminate E.
  - rewrite Hn in E. discriminate E.
  - rewrite Ho in Er, Ed. cbn [result_of kernel_of] in Er, Ed. injection Er as ->.
    destruct Hd as [[_ Hf]|(s'' & T'' & b & Ho' & _)]; [destruct (Hf _ (result_of_eq _ _ Ed))|].
    exists s', s'', 0x300000, b. split; [exact Ho|]. split; [reflexivity|]. split; [|exact Ho'].
    exact (read_bytes_head _ _ _ _ (co_val _ _ _ _ _ _ _ Hco)).
Defined.

(** ** Where the code does not do what its callers ask *)

(** A page asked for at a larger alignment comes off the free list all the same. *)
Lemma alloc_phys_misaligned : ∃ a, result_of (alloc_phys 4096 8192 demo_kernel) = Some a ∧ a mod 8192 ≠ 0.
Proof. exists 0x2ff000. split; [vm_compute; reflexivity|done]. Qed.

(** A value of more than a page that is not whole pages makes [new] panic. *)
Lemma contig_new_panics align val s : let size := Z.of_nat (length val) in
  4096 < size → size mod 4096 ≠ 0 → returns (alloc_phys size (Z.max 4096 align) s) →
  contig_new align val s = Panic "Invalid size for virtual region allocation".
Proof.
  intros size Hs Hm [[s1 p] Ha]. unfold contig_new. fold size. rewrite (proj2 (Z.ltb_lt 0 size)) by lia.
  cbn [assert mbind outcome_bind]. rewrite Z.max_r, Ha by lia. cbn [mbind outcome_bind].
  unfold alloc_virt_addr_4k. change 0xfff with (2 ^ 12 - 1). rewrite land_mask_mod by lia.
  change (2 ^ 12) with 4096. by rewrite (proj2 (Z.eqb_neq _ _) Hm), andb_false_r.
Qed.
