(* ===== verification/CoreLocals.v ===== *)
(** * Core locals (kernel/src/core_locals.rs)

    The reference counts a core keeps of its interrupt and exception nesting and
    of the requests to have interrupts disabled, and how they drive the
    processor's interrupt flag.  A step relation interleaves the code of a core
    with interrupts and exceptions, at the granularity of the atomic accesses. *)

From stdpp Require Import base tactics option list numbers strings relations.
From Stdlib Require Import ZArith Lia.
From S2P Require Import Prelude MachineInt RangeSet Cpu KernelMm.

Local Open Scope Z_scope.

(** ** [AutoAtomicRef] *)

(** [increment]: [fetch_add], then the check of the old value. *)
Definition increment (count : Z) : outcome Z :=
  expect (checked_add 64 count 1) "Integer overflow on AutoAtomicRef increment";;
  Done (wrapping_add 64 count 1).

(** The destructor of [AutoAtomicRefGuard] *)
Definition guard_drop (count : Z) : outcome Z :=
  expect (checked_sub count 1) "Integer overflow on AutoAtomicRef decrement";;
  Done (wrapping_sub 64 count 1).

(** ** [CoreLocals] *)

(** The counters and ids.  [apic], [interrupts] and [free_list] are the state of
    the components of the same name (Apic.v, Interrupts.v, KernelMm.v). *)
Record CoreLocals := mkCoreLocals {
  address : Z;
  cl_id : Z;
  interrupt_depth : Z;
  exception_depth : Z;
  interrupt_disable_outstanding : Z;
  cl_apic_id : Z;
}.

Definition set_depths (i e : Z) (l : CoreLocals) : CoreLocals :=
  mkCoreLocals (address l) (cl_id l) i e (interrupt_disable_outstanding l) (cl_apic_id l).
Definition set_outstanding (n : Z) (l : CoreLocals) : CoreLocals :=
  mkCoreLocals (address l) (cl_id l) (interrupt_depth l) (exception_depth l) n (cl_apic_id l).

Definition set_apic_id (id : Z) (l : CoreLocals) : CoreLocals :=
  mkCoreLocals (address l) (cl_id l) (interrupt_depth l) (exception_depth l) (interrupt_disable_outstanding l) id.

Definition enter_exception (l : CoreLocals) : outcome CoreLocals :=
  n ← increment (exception_depth l); Done (set_depths (interrupt_depth l) n l).
Definition in_exception (l : CoreLocals) : bool := 0 <? exception_depth l.
Definition enter_interrupt (l : CoreLocals) : outcome CoreLocals :=
  n ← increment (interrupt_depth l); Done (set_depths n (exception_depth l) l).
Definition in_interrupt (l : CoreLocals) : bool := 0 <? interrupt_depth l.

(** The drop of the guards of [enter_exception] and [enter_interrupt] *)
Definition exit_exception (l : CoreLocals) : outcome CoreLocals :=
  n ← guard_drop (exception_depth l); Done (set_depths (interrupt_depth l) n l).
Definition exit_interrupt (l : CoreLocals) : outcome CoreLocals :=
  n ← guard_drop (interrupt_depth l); Done (set_depths n (exception_depth l) l).

(** [disable_interrupts] up to [cli], and [enable_interrupts] up to the decision
    to execute [sti]. *)
Definition disable_add (l : CoreLocals) : outcome CoreLocals :=
  let os := interrupt_disable_outstanding l in
  expect (checked_add 64 os 1) "Integer overflow on disable interrupts increment";;
  Done (set_outstanding (wrapping_add 64 os 1) l).

Definition enable_sub (l : CoreLocals) : outcome (CoreLocals * bool) :=
  let os := interrupt_disable_outstanding l in
  expect (checked_sub os 1) "Integer overflow on disable interrupts decrement";;
  let l := set_outstanding (wrapping_sub 64 os 1) l in
  Done (l, negb (in_interrupt l) && (os =? 1)).

(** The whole operations, with the interrupt flag. *)
Definition disable_interrupts (l : CoreLocals) (iflag : bool) : outcome (CoreLocals * bool) :=
  l ← disable_add l; Done (l, false).
Definition enable_interrupts (l : CoreLocals) (iflag : bool) : outcome (CoreLocals * bool) :=
  '(l, sti) ← enable_sub l; Done (l, (if sti : bool then true else iflag)).

(** [init]: the locals are put in memory from the shared free list, [size] and
    [align] being those of the structure, and GS points at them. *)
Definition KERNEL_PHYS_WINDOW_BASE : Z := 0xffffcafe00000000.

Definition init (core_id size align : Z) (free_memory : option RangeSet) (m : msrs)
    : outcome (CoreLocals * RangeSet * msrs) :=
  let m := set_gs_base core_id m in
  pmem ← unwrap free_memory;
  '(alc, pmem) ← allocate usize_max pmem size align;
  alc ← unwrap alc;
  let core_local_ptr := wrapping_add 64 alc KERNEL_PHYS_WINDOW_BASE in
  Done (mkCoreLocals core_local_ptr core_id 0 0 1 (bnot 32 0), pmem, set_gs_base core_local_ptr m).

(** ** A core with its interrupts *)

(** Where a piece of code is: a handler that was just entered, code that has [h]
    requests outstanding, the same between the count and [cli] or [sti], and a
    handler that has dropped its guards. *)
Inductive Pc :=
| Entry
| Run (h : nat)
| Disabling (h : nat)
| Enabling (h : nat) (sti : bool)
| Leaving.

(** What the processor saves: the flag, and the code that was interrupted;
    [f_exc] tells whether the handler on top is for an exception. *)
Record Frame := mkFrame { f_if : bool; f_pc : Pc; f_exc : bool }.

Record Core := mkCore { locals : CoreLocals; iflag : bool; ctx : Pc; frames : list Frame }.

(** The guards of [interrupt_handler]: the second only for an exception. *)
Definition enter (exc : bool) (l : CoreLocals) : outcome CoreLocals :=
  l ← enter_interrupt l; if exc then enter_exception l else Done l.
Definition leave (exc : bool) (l : CoreLocals) : outcome CoreLocals :=
  l ← (if exc then exit_exception l else Done l); exit_interrupt l.

(** The gates are interrupt gates: the flag is cleared on every entry.  An
    interrupt needs the flag, an exception (or an NMI) does not.  Code gives back
    only requests of its own (lock guards are scoped). *)
Inductive core_step : Core → Core → Prop :=
| step_disable l i h fs l' : disable_add l = Done l' →
    core_step (mkCore l i (Run h) fs) (mkCore l' i (Disabling h) fs)
| step_cli l i h fs : core_step (mkCore l i (Disabling h) fs) (mkCore l false (Run (S h)) fs)
| step_enable l i h fs l' sti : enable_sub l = Done (l', sti) →
    core_step (mkCore l i (Run (S h)) fs) (mkCore l' i (Enabling h sti) fs)
| step_sti l i h sti fs :
    core_step (mkCore l i (Enabling h sti) fs) (mkCore l (if sti then true else i) (Run h) fs)
| step_interrupt l p fs : core_step (mkCore l true p fs) (mkCore l false Entry (mkFrame true p false :: fs))
| step_exception l i p fs : core_step (mkCore l i p fs) (mkCore l false Entry (mkFrame i p true :: fs))
| step_enter l i f fs l' : enter (f_exc f) l = Done l' →
    core_step (mkCore l i Entry (f :: fs)) (mkCore l' i (Run 0) (f :: fs))
| step_leave l i f fs l' : leave (f_exc f) l = Done l' →
    core_step (mkCore l i (Run 0) (f :: fs)) (mkCore l' i Leaving (f :: fs))
| step_iret l i f fs : core_step (mkCore l i Leaving (f :: fs)) (mkCore l (f_if f) (f_pc f) fs).

(** [init] leaves one request, and interrupts are off. *)
Definition core_init (k : Core) : Prop :=
  iflag k = false ∧ ctx k = Run 1 ∧ frames k = [] ∧ interrupt_depth (locals k) = 0 ∧
  exception_depth (locals k) = 0 ∧ interrupt_disable_outstanding (locals k) = 1.

(** ** Invariant *)

Definition requests (p : Pc) : nat :=
  match p with Run h | Enabling h _ => h | Disabling h => S h | Entry | Leaving => 0 end.
Definition entered (p : Pc) : nat := match p with Entry | Leaving => 0 | _ => 1 end.

(** The requests of all code, the nesting of the handlers. *)
Fixpoint total (p : Pc) (fs : list Frame) : nat :=
  requests p + match fs with [] => 0 | f :: fs => total (f_pc f) fs end.
Fixpoint nesting (P : Frame → bool) (p : Pc) (fs : list Frame) : nat :=
  match fs with [] => 0 | f :: fs => (if P f then entered p else 0) + nesting P (f_pc f) fs end.

(** The flag, in the code outside handlers and in a handler. *)
Definition base_ok (p : Pc) (i : bool) : Prop :=
  match p with
  | Run h | Disabling h => i = (h =? 0)%nat
  | Enabling h sti => i = false ∧ sti = (h =? 0)%nat
  | Entry | Leaving => False
  end.
Definition handler_ok (p : Pc) (i : bool) : Prop :=
  i = false ∧ match p with Enabling _ sti => sti = false | _ => True end.

Fixpoint flags_ok (p : Pc) (i : bool) (fs : list Frame) : Prop :=
  match fs with
  | [] => base_ok p i
  | f :: fs => handler_ok p i ∧ flags_ok (f_pc f) (f_if f) fs
  end.

Record core_inv (k : Core) : Prop := {
  ci_flags : flags_ok (ctx k) (iflag k) (frames k);
  ci_total : interrupt_disable_outstanding (locals k) = Z.of_nat (total (ctx k) (frames k));
  ci_int : interrupt_depth (locals k) = Z.of_nat (nesting (λ _, true) (ctx k) (frames k));
  ci_exc : exception_depth (locals k) = Z.of_nat (nesting f_exc (ctx k) (frames k));
  ci_width : is_uint 64 (interrupt_disable_outstanding (locals k)) ∧ is_uint 64 (interrupt_depth (locals k)) ∧
    is_uint 64 (exception_depth (locals k));
}.

(** Counters at their width. *)
Lemma increment_Done c n : is_uint 64 c → increment c = Done n → n = c + 1 ∧ is_uint 64 n.
Proof.
  unfold is_uint. intros Hc (x & (-> & Hx)%expect_Done%checked_add_Some & <-%Done_inj)%bind_Done.
  rewrite wrapping_add_small by (unfold is_uint; lia). lia.
Qed.

Lemma guard_drop_Done c n : is_uint 64 c → guard_drop c = Done n → n = c - 1 ∧ is_uint 64 n.
Proof.
  unfold is_uint. intros Hc (x & (-> & Hx)%expect_Done%checked_sub_Some & <-%Done_inj)%bind_Done.
  rewrite wrapping_sub_small by (unfold is_uint; lia). lia.
Qed.

Lemma guard_drop_returns c : 1 ≤ c → returns (guard_drop c).
Proof.
  intros Hc. unfold guard_drop, checked_sub. rewrite (proj2 (Z.leb_le _ _)) by lia. by eexists.
Qed.

Lemma enter_Done exc l l' : is_uint 64 (interrupt_depth l) → is_uint 64 (exception_depth l) → enter exc l = Done l' →
  interrupt_depth l' = interrupt_depth l + 1 ∧ exception_depth l' = exception_depth l + (if exc then 1 else 0) ∧
  interrupt_disable_outstanding l' = interrupt_disable_outstanding l ∧
  is_uint 64 (interrupt_depth l') ∧ is_uint 64 (exception_depth l').
Proof.
  intros Hi He H. apply bind_Done in H as (l1 & H1 & H). apply bind_Done in H1 as (n & Hn & <-%Done_inj).
  destruct (increment_Done _ _ Hi Hn) as [En Hu]. destruct exc; [|apply Done_inj in H as <-; cbn; split_and!; try done; lia].
  apply bind_Done in H as (e & Hm & <-%Done_inj). destruct (increment_Done _ _ He Hm) as [Em Hv]. cbn in *. by split_and!.
Qed.

Lemma leave_Done exc l l' : is_uint 64 (interrupt_depth l) → is_uint 64 (exception_depth l) → leave exc l = Done l' →
  interrupt_depth l' = interrupt_depth l - 1 ∧ exception_depth l' = exception_depth l - (if exc then 1 else 0) ∧
  interrupt_disable_outstanding l' = interrupt_disable_outstanding l ∧
  is_uint 64 (interrupt_depth l') ∧ is_uint 64 (exception_depth l').
Proof.
  intros Hi He H. apply bind_Done in H as (l1 & H1 & H). apply bind_Done in H as (n & Hn & <-%Done_inj). destruct exc.
  - apply bind_Done in H1 as (e & Hm & <-%Done_inj). destruct (guard_drop_Done _ _ He Hm) as [Em Hv].
    destruct (guard_drop_Done _ _ Hi Hn) as [En Hu]. cbn in *. by split_and!.
  - apply Done_inj in H1 as <-. destruct (guard_drop_Done _ _ Hi Hn) as [En Hu]. cbn. split_and!; try done; lia.
Qed.

Lemma core_inv_init k : core_init k → core_inv k.
Proof.
  destruct k as [l i p fs]. intros (H1 & H2 & H3 & H4 & H5 & H6). cbn in *. subst.
  split; cbn; rewrite ?H4, ?H5, ?H6; done.
Qed.

Lemma core_inv_step k k' : core_inv k → core_step k k' → core_inv k'.
Proof.
  intros [Hf Ht Hi He (W1 & W2 & W3)] Hs. destruct Hs as [l i h fs l' Hd|l i h fs|l i h fs l' sti Hd|l i h sti fs|l p fs|l i p fs
    |l i f fs l' Hd|l i f fs l' Hd|l i f fs]; cbn [locals iflag ctx frames] in *.
  - apply bind_Done in Hd as (x & (-> & Hx)%expect_Done%checked_add_Some & <-%Done_inj).
    split; cbn [locals iflag ctx frames set_outstanding interrupt_disable_outstanding interrupt_depth exception_depth];
      try (unfold is_uint in *; rewrite wrapping_add_small by (unfold is_uint; lia)).
    + by destruct fs.
    + rewrite Ht. destruct fs; cbn; lia.
    + rewrite Hi. by destruct fs.
    + rewrite He. by destruct fs.
    + lia.
  - split; cbn [locals iflag ctx frames]; try done; [|rewrite Ht|rewrite Hi|rewrite He]; destruct fs; cbn in *; try done.
    split; [done|apply Hf].
  - apply bind_Done in Hd as (x & (-> & Hx)%expect_Done%checked_sub_Some & [<- <-]%Done_pair_inj).
    split; cbn [locals iflag ctx frames set_outstanding interrupt_disable_outstanding interrupt_depth exception_depth in_interrupt];
      try (unfold is_uint in *; rewrite wrapping_sub_small by (unfold is_uint; lia)).
    + unfold in_interrupt. cbn [set_outstanding interrupt_depth]. rewrite Hi, Ht. destruct fs as [|f fs].
      * cbn in *. destruct h; cbn; split; try done. apply Z.eqb_neq. lia.
      * cbn [nesting entered]. rewrite (proj2 (Z.ltb_lt _ _)) by lia. destruct Hf as [[-> _] Hf]. by split.
    + rewrite Ht. destruct fs; cbn; lia.
    + rewrite Hi. by destruct fs.
    + rewrite He. by destruct fs.
    + lia.
  - split; cbn [locals iflag ctx frames]; try done; [|rewrite Ht|rewrite Hi|rewrite He]; destruct fs; cbn in *; try done.
    + destruct Hf as [-> ->]. by destruct h.
    + destruct Hf as [[-> ->] Hf]. by split.
  - split; [by split|done..].
  - split; [by split|done..].
  - destruct (enter_Done _ _ _ W2 W3 Hd) as (E1 & E2 & E3 & U1 & U2).
    split; cbn [locals iflag ctx frames]; rewrite ?E3; [done|done| | |done].
    + rewrite E1, Hi. cbn. lia.
    + rewrite E2, He. cbn. destruct (f_exc f); lia.
  - destruct (leave_Done _ _ _ W2 W3 Hd) as (E1 & E2 & E3 & U1 & U2).
    split; cbn [locals iflag ctx frames]; rewrite ?E3; [done|done| | |done].
    + rewrite E1, Hi. cbn. lia.
    + rewrite E2, He. cbn. destruct (f_exc f); cbn; lia.
  - split; cbn [locals iflag ctx frames]; [apply Hf|rewrite Ht|rewrite Hi|rewrite He|done]; cbn; [done|done|by destruct (f_exc f)].
Qed.

Lemma core_inv_reachable k k' : core_init k → rtc core_step k k' → core_inv k'.
Proof.
  intros Hk%core_inv_init. induction 1 as [|x y z Hs _ IH]; [done|]. by apply IH, (core_inv_step x).
Qed.

(** The counts never underflow. *)
Lemma counts_returns k : core_inv k →
  (∀ h, ctx k = Run (S h) → returns (enable_sub (locals k))) ∧
  (∀ f fs, ctx k = Run 0 → frames k = f :: fs → returns (leave (f_exc f) (locals k))).
Proof.
  destruct k as [l i p fs]. intros [Hf Ht Hi He _]. cbn in *. split.
  - intros h ->. unfold enable_sub, checked_sub. rewrite Ht.
    rewrite (proj2 (Z.leb_le _ _)) by (destruct fs; cbn; lia). by eexists.
  - intros f fs' -> ->. cbn in Hi, He. unfold leave. apply returns_bind.
    + destruct (f_exc f); [|by eexists]. apply returns_bind; [apply guard_drop_returns; lia|]. intros; by eexists.
    + intros l' Hl. apply returns_bind; [|intros; by eexists]. apply guard_drop_returns.
      assert (interrupt_depth l' = interrupt_depth l) as ->; [|lia].
      destruct (f_exc f); [|by apply Done_inj in Hl as <-]. by apply bind_Done in Hl as (e & _ & <-%Done_inj).
Qed.

(** An interrupt finds the flag set. *)
Lemma interrupt_taken k k' f : core_inv k → core_step k k' → frames k' = f :: frames k → f_exc f = false →
  requests (ctx k) = 0%nat ∨ ctx k = Disabling 0.
Proof.
  intros [Hf _ _ _ _] Hs Hfs He. destruct Hs as [l i h fs l' Hd|l i h fs|l i h fs l' sti Hd|l i h sti fs|l p fs|l i p fs
    |l i f' fs l' Hd|l i f' fs l' Hd|l i f' fs]; cbn in *; try by apply (f_equal length) in Hfs; cbn in Hfs; lia.
  - destruct fs as [|f' fs]; cbn in Hf; [|by destruct Hf as [[? _] _]].
    destruct p as [|[|h]|[|h]|h sti|]; cbn in *; try done; [by left|by right|by destruct Hf].
  - injection Hfs as <-. done.
Qed.

Lemma init_core_init core_id size align fm m l rs m' :
  init core_id size align fm m = Done (l, rs, m') → core_init (mkCore l false (Run 1) []).
Proof.
  intros H. unfold init in H. apply bind_Done in H as (pmem & _ & H). apply bind_Done in H as ([alc pmem'] & _ & H).
  apply bind_Done in H as (a & _ & H). injection H as <- <- <-. by split_and!.
Qed.


(** Boot code that gives its request back is interrupted. *)
Definition demo_memory : RangeSet := of_entries [mkRange 0x100000 0x1fffff].
Definition demo_locals : CoreLocals := mkCoreLocals 0xffffcafe00100000 0 0 0 1 0xffffffff.

Lemma demo_init : ∃ rs m', init 0 4096 64 (Some demo_memory) (λ _, (0, 0)) = Done (demo_locals, rs, m').
Proof. eexists _, _. vm_compute. reflexivity. Qed.

Definition demo_interrupted : Core :=
  mkCore (set_depths 1 0 (set_outstanding 0 demo_locals)) false (Run 0) [mkFrame true (Run 0) false].

Lemma demo_run : rtc core_step (mkCore demo_locals false (Run 1) []) demo_interrupted.
Proof.
  eapply rtc_l; [by apply (step_enable _ _ 0)|]. eapply rtc_l; [apply step_sti|].
  eapply rtc_l; [apply step_interrupt|]. eapply rtc_l; [by apply step_enter|]. apply rtc_refl.
Qed.

