(* ===== verification/Acpi.v ===== *)
(** * ACPI tables (kernel/src/acpi.rs)

    The search for the RSDP, the checksummed tables, the MADT (the processors)
    and the SRAT (the NUMA domains), and the state of the processors.  The
    parsers terminate on any memory, and read back what a table describes.  How
    the processors are started is in AcpiBoot.v. *)

From stdpp Require Import base tactics option list numbers strings gmap sorting.
From Stdlib Require Import ZArith Lia.
From S2P Require Import Prelude MachineInt Bytes RangeSet PhysMem KernelMm.

Local Open Scope Z_scope.

(** ** States of a processor *)

Inductive ApicState := Online | Launched | Offline | NoApic | Halted.

#[export] Instance ApicState_eq_dec : EqDecision ApicState.
Proof. solve_decision. Defined.

(** [state as u8] *)
Definition apic_state_u8 (st : ApicState) : Z :=
  match st with Online => 1 | Launched => 2 | Offline => 3 | NoApic => 4 | Halted => 5 end.

Definition apic_state_from (val : Z) : outcome ApicState :=
  if val =? 1 then Done Online else if val =? 2 then Done Launched else if val =? 3 then Done Offline
  else if val =? 4 then Done NoApic else if val =? 5 then Done Halted
  else Panic "Invalid ApicState from `u8`".

(** [TOTAL_CORES], [APICS] and [CORES_CHECKED_IN] *)
Record Cores := mkCores { total_cores : Z; apics : list Z; checked_in : Z }.

Definition cores_init : Cores := mkCores 0 (replicate MAX_CORES (apic_state_u8 NoApic)) 0.

Definition set_core_state (apic_id : Z) (st : ApicState) (c : Cores) : outcome Cores :=
  l ← index_set (apics c) (Z.to_nat apic_id) (apic_state_u8 st);
  Done (mkCores (total_cores c) l (checked_in c)).

Definition core_state (apic_id : Z) (c : Cores) : outcome ApicState :=
  v ← index (apics c) (Z.to_nat apic_id); apic_state_from v.

Definition num_cores (c : Cores) : outcome Z :=
  assert (0 <? total_cores c) "total_cores() not ready until ACPI is initialized";;
  Done (total_cores c).

(** ** Tables *)

Record Rsdp := mkRsdp {
  r_signature : list Z; r_checksum : Z; r_oem_id : list Z; r_revision : Z; rsdt_addr : Z;
  r_length : Z; xsdt_addr : Z; extended_checksum : Z; r_reserved : list Z }.

Record Header := mkHeader {
  h_signature : list Z; h_length : Z; h_revision : Z; h_checksum : Z; oemid : list Z;
  oem_table_id : Z; oem_revision : Z; creator_id : Z; creator_revision : Z }.

(** A packed field: [n] bytes from offset [a]. *)
Definition field (b : list Z) (a n : nat) : list Z := take n (drop a b).
Definition field_le (b : list Z) (a n : nat) : Z := from_le_bytes (field b a n).

Definition rsdp_of_bytes (b : list Z) : Rsdp :=
  mkRsdp (field b 0 8) (field_le b 8 1) (field b 9 6) (field_le b 15 1) (field_le b 16 4)
    (field_le b 20 4) (field_le b 24 8) (field_le b 32 1) (field b 33 3).

Definition header_of_bytes (b : list Z) : Header :=
  mkHeader (field b 0 4) (field_le b 4 4) (field_le b 8 1) (field_le b 9 1) (field b 10 6)
    (field_le b 16 8) (field_le b 24 4) (field_le b 28 4) (field_le b 32 4).

(** Addresses are 64-bit and wrap. *)
Definition add64 : Z → Z → Z := wrapping_add 64.

(** [read_phys] of an unsigned integer of [n] bytes *)
Definition read_int (n : Z) (paddr : Z) (s : Kernel) : outcome Z :=
  b ← read_phys paddr n s; Done (from_le_bytes b).

(** The bytes at the addresses [l] are added up. *)
Fixpoint sum_phys (l : list Z) (acc : Z) (s : Kernel) : outcome Z :=
  match l with
  | [] => Done acc
  | paddr :: l => b ← read_int 1 paddr s; sum_phys l (wrapping_add 8 acc b) s
  end.

(** The addresses of [a..b] *)
Definition range_u64 (a b : Z) : list Z := seqZ a (b - a).

Definition parse_header (addr : Z) (s : Kernel) : outcome (Header * Z * Z) :=
  b ← read_phys addr 36 s;
  let head := header_of_bytes b in
  payload_len ← expect (checked_sub (h_length head) 36) "Integer underflow on table length";
  sum ← sum_phys (range_u64 addr (add64 addr (h_length head))) 0 s;
  assert (sum =? 0) "Table checksum invalid";;
  Done (head, add64 addr 36, payload_len).

(** The loop both tables are parsed with: entries that start with a type and a
    length.  [entry] is the [match] on the type. *)
Fixpoint entry_loop {A} (entry : Z → Z → Z → A → Kernel → outcome A) (bad_len : string)
    (fuel : nat) (ptr end_ : Z) (acc : A) (s : Kernel) : outcome A :=
  match fuel with
  | O => OutOfFuel
  | S fuel =>
      if end_ <? add64 ptr 2 then Done acc else
      typ ← read_int 1 (add64 ptr 0) s;
      len ← read_int 1 (add64 ptr 1) s;
      if end_ <? add64 ptr len then Done acc else
      assert (2 <=? len) bad_len;;
      acc ← entry typ len ptr acc s;
      entry_loop entry bad_len fuel (add64 ptr len) end_ acc s
  end.

(** ** MADT *)

Definition APIC_ENABLED : Z := Z.shiftl 1 0.
Definition APIC_ONLINE_CAPABLE : Z := Z.shiftl 1 1.

Definition log_apic (apic_id flags : Z) (l : list Z) : list Z :=
  if negb (Z.land flags APIC_ENABLED =? 0) || negb (Z.land flags APIC_ONLINE_CAPABLE =? 0)
  then l ++ [apic_id] else l.

Definition madt_entry (typ len ics : Z) (l : list Z) (s : Kernel) : outcome (list Z) :=
  if typ =? 0 then
    assert (len =? 8) "Invalid LAPIC ICS entry";;
    apic_id ← read_int 1 (add64 ics 3) s;
    flags ← read_int 4 (add64 ics 4) s;
    Done (log_apic apic_id flags l)
  else if typ =? 9 then
    assert (len =? 16) "Invalid x2apic ICS entry";;
    apic_id ← read_int 4 (add64 ics 4) s;
    flags ← read_int 4 (add64 ics 8) s;
    Done (log_apic apic_id flags l)
  else Done l.

Definition madt_loop : nat → Z → Z → list Z → Kernel → outcome (list Z) :=
  entry_loop madt_entry "Bad length for MADT ICS entry".

(** The fuel is the size of the table, of which each entry takes two bytes or more. *)
Definition parse_madt (ptr : Z) (s : Kernel) : outcome (list Z) :=
  '(_, payload, size) ← parse_header ptr s;
  madt_loop (S (Z.to_nat size)) (add64 (add64 payload 4) 4) (add64 payload size) [] s.

(** ** SRAT *)

Definition FLAGS_ENABLED : Z := Z.shiftl 1 0.

(** [assert!(map.insert(k, v).is_none(), msg)] for an enabled record *)
Definition log_affinity {A} (flags k : Z) (v : A) (map : gmap Z A) (msg : string) : outcome (gmap Z A) :=
  if negb (Z.land flags FLAGS_ENABLED =? 0)
  then assert (match map !! k with None => true | Some _ => false end) msg;; Done (<[k := v]> map)
  else Done map.

(** [(apic_affinities, memory_affinities)] *)
Definition Affinities : Type := gmap Z Z * gmap Z (Z * Z).

Definition srat_entry (typ len sra : Z) (aff : Affinities) (s : Kernel) : outcome Affinities :=
  let '(ad, md) := aff in
  if typ =? 0 then
    assert (len =? 16) "Invalid APIC SRA entry";;
    domain_low ← read_int 1 (add64 sra 2) s;
    domain_high ← read_phys (add64 sra 9) 3 s;
    apic_id ← read_int 1 (add64 sra 3) s;
    flags ← read_int 4 (add64 sra 4) s;
    let domain := from_le_bytes (domain_low :: domain_high) in
    ad ← log_affinity flags apic_id domain ad "Duplicate LAPIC affinity domain";
    Done (ad, md)
  else if typ =? 1 then
    assert (len =? 40) "Invalid memory affinity SRA entry";;
    domain ← read_int 4 (add64 sra 2) s;
    base ← read_int 8 (add64 sra 8) s;
    size ← read_int 8 (add64 sra 16) s;
    flags ← read_int 4 (add64 sra 28) s;
    md ← log_affinity flags domain (base, size) md "Duplicate memory affinity domain";
    Done (ad, md)
  else if typ =? 2 then
    assert (len =? 24) "Invalid x2apic SRA entry";;
    domain ← read_int 4 (add64 sra 4) s;
    apic_id ← read_int 4 (add64 sra 8) s;
    flags ← read_int 4 (add64 sra 12) s;
    ad ← log_affinity flags apic_id domain ad "Duplicate APIC affinity domain";
    Done (ad, md)
  else Done aff.

Definition srat_loop : nat → Z → Z → Affinities → Kernel → outcome Affinities :=
  entry_loop srat_entry "Bad length for SRAT SRA entry".

Definition parse_srat (ptr : Z) (s : Kernel) : outcome Affinities :=
  '(_, payload, size) ← parse_header ptr s;
  srat_loop (S (Z.to_nat size)) (add64 (add64 payload 4) 8) (add64 payload size) (∅, ∅) s.

(** ** The RSDP and the tables it leads to *)

Definition RSD_PTR : list Z := [0x52; 0x53; 0x44; 0x20; 0x50; 0x54; 0x52; 0x20].
Definition RSDT_SIG : list Z := [0x52; 0x53; 0x44; 0x54].
Definition APIC_SIG : list Z := [0x41; 0x50; 0x49; 0x43].
Definition SRAT_SIG : list Z := [0x53; 0x52; 0x41; 0x54].

Definition sum8 (b : list Z) : Z := foldl (wrapping_add 8) 0 b.

(** The addresses of [(start..=end).step_by(16)] *)
Definition step_by_16 (start end_ : Z) : list Z :=
  (λ i, start + 16 * i) <$> seqZ 0 ((end_ - start) / 16 + 1).

(** The scan of one region.  [struct_end] is computed from [start], not from
    [paddr]. *)
Fixpoint scan_region (start end_ : Z) (paddrs : list Z) (s : Kernel) : outcome (option Rsdp) :=
  match paddrs with
  | [] => Done None
  | paddr :: rest =>
      if end_ <? start + 36 - 1 then Done None else
      b ← read_phys paddr 36 s;
      let table := rsdp_of_bytes b in
      if decide (r_signature table ≠ RSD_PTR) then scan_region start end_ rest s else
      table_bytes ← read_phys paddr 36 s;
      if sum8 table_bytes =? 0 then Done (Some table) else scan_region start end_ rest s
  end.

Fixpoint rsdp_search (regions : list (Z * Z)) (s : Kernel) : outcome (option Rsdp) :=
  match regions with
  | [] => Done None
  | (start, end_) :: rest =>
      let start := Z.land (start + 0xf) (bnot 64 0xf) in
      r ← scan_region start end_ (step_by_16 start end_) s;
      match r with Some t => Done (Some t) | None => rsdp_search rest s end
  end.

(** What is read from the tables: the processors, and the NUMA domains. *)
Record Found := mkFound { f_apics : option (list Z); f_affinities : option Affinities }.

Fixpoint rsdt_loop (entry n : nat) (payload : Z) (f : Found) (s : Kernel) : outcome Found :=
  match n with
  | O => Done f
  | S n =>
      table_ptr ← read_int 4 (add64 payload (Z.of_nat entry * 4)) s;
      signature ← read_phys table_ptr 4 s;
      f ← (if decide (signature = APIC_SIG) then
             assert (match f_apics f with None => true | Some _ => false end) "Multiple MADT ACPI table entries";;
             l ← parse_madt table_ptr s;
             Done (mkFound (Some l) (f_affinities f))
           else if decide (signature = SRAT_SIG) then
             assert (match f_affinities f with None => true | Some _ => false end) "Multiple SRAT ACPI table entries";;
             aff ← parse_srat table_ptr s;
             Done (mkFound (f_apics f) (Some aff))
           else Done f);
      rsdt_loop (S entry) n payload f s
  end.

(** The first half of [init]: from the EBDA pointer to the parsed tables. *)
Definition find_tables (s : Kernel) : outcome Found :=
  ebda ← read_int 2 0x40e s;
  rsdp ← rsdp_search [(ebda, ebda + 1024 - 1); (0xe0000, 0xfffff)] s;
  rsdp ← expect rsdp "Failed to find RSDP for ACPI";
  '(rsdt, rsdt_payload, rsdt_size) ← parse_header (rsdt_addr rsdp) s;
  assert (bool_decide (h_signature rsdt = RSDT_SIG)) "RSDT signature mismatch";;
  assert (rsdt_size mod 4 =? 0) "Invalid table size for RSDT";;
  rsdt_loop 0 (Z.to_nat (rsdt_size / 4)) rsdt_payload (mkFound None None) s.

(** A [BTreeMap] is iterated in key order. *)
Definition key_le (a b : Z * Z) : Prop := a.1 ≤ b.1.
#[export] Instance key_le_dec : RelDecision key_le := λ a b, Z_le_dec a.1 b.1.
Definition btree_list (m : gmap Z Z) : list (Z * Z) := merge_sort key_le (map_to_list m).

(** The stores of [Offline] *)
Fixpoint mark_offline (l : list Z) (c : Cores) : outcome Cores :=
  match l with
  | [] => Done c
  | apic_id :: l => c ← set_core_state apic_id Offline c; mark_offline l c
  end.

(** The second half of [init], up to the launch of the other processors
    (AcpiBoot.v): the memory manager is told the domains, and the states of the
    processors are set. *)
Definition register_tables (f : Found) (s : Kernel) (c : Cores) : outcome (Kernel * Cores) :=
  s ← (match f_affinities f with
       | Some (ad, md) => register_numa_nodes (btree_list ad) md s
       | None => Done s
       end);
  let c := mkCores (match f_apics f with Some l => wrap 32 (Z.of_nat (length l)) | None => 1 end)
    (apics c) (checked_in c) in
  c ← (match f_apics f with Some l => mark_offline l c | None => Done c end);
  own ← unwrap (apic_id (k_apic_id s));
  c ← set_core_state own Online c;
  Done (s, c).

(** ** Reading *)

Lemma phys_check_Done a n m1 m2 u : phys_check a n m1 m2 = Done u → 1 ≤ n ∧ a + n ≤ KERNEL_PHYS_WINDOW_SIZE.
Proof.
  unfold phys_check. intros (e & He%expect_Done & Hlt%assert_Done%Z.ltb_lt)%bind_Done.
  destruct (checked_sub n 1) as [x|] eqn:Ex; [|done]. apply checked_sub_Some in Ex as [-> Hn].
  cbn in He. apply checked_add_Some in He. lia.
Qed.

Lemma read_phys_Done a n s l : read_phys a n s = Done l → 1 ≤ n ∧ a + n ≤ KERNEL_PHYS_WINDOW_SIZE ∧
  l = read_bytes (k_mem s) a (Z.to_nat n).
Proof.
  unfold read_phys. intros (u & Hc%phys_check_Done & [= <-])%bind_Done. tauto.
Qed.

Lemma read_int_Done n a s v : read_int n a s = Done v → 1 ≤ n ∧ a + n ≤ KERNEL_PHYS_WINDOW_SIZE ∧
  v = from_le_bytes (read_bytes (k_mem s) a (Z.to_nat n)).
Proof.
  unfold read_int. intros (b & (H1 & H2 & ->)%read_phys_Done & [= <-])%bind_Done. done.
Qed.

Lemma terminates_phys_check a n m1 m2 : terminates (phys_check a n m1 m2).
Proof. unfold phys_check. solve_terminates. Qed.

Lemma terminates_read_phys a n s : terminates (read_phys a n s).
Proof. unfold read_phys. apply terminates_bind; [apply terminates_phys_check|done]. Qed.

Lemma terminates_read_int a n s : terminates (read_int n a s).
Proof. unfold read_int. apply terminates_bind; [apply terminates_read_phys|done]. Qed.
#[export] Hint Resolve terminates_read_phys terminates_read_int : terminates.

Lemma terminates_sum_phys l acc s : terminates (sum_phys l acc s).
Proof.
  revert acc. induction l as [|a l IH]; intros acc; cbn; [done|].
  apply terminates_bind; [auto with terminates|]. intros b _. apply IH.
Qed.
#[export] Hint Resolve terminates_sum_phys : terminates.

Lemma terminates_parse_header ptr s : terminates (parse_header ptr s).
Proof. unfold parse_header. solve_terminates. Qed.
#[export] Hint Resolve terminates_parse_header : terminates.

Lemma add64_small a b : 0 ≤ a → 0 ≤ b → a + b < 2 ^ 64 → add64 a b = a + b.
Proof. intros. apply wrapping_add_small. unfold is_uint. lia. Qed.

Lemma from_le_bytes_mem m a n : mem_ok m → is_uint (8 * Z.of_nat n) (from_le_bytes (read_bytes m a n)).
Proof.
  intros Hm. pose proof (from_le_bytes_uint (read_bytes m a n)) as H. rewrite length_read_bytes in H. apply H.
  clear H. revert a. induction n as [|n IH]; intros a; cbn; constructor; [apply Hm|apply IH].
Qed.

Lemma drop_read_bytes m a n i : drop i (read_bytes m a n) = read_bytes m (a + Z.of_nat i) (n - i).
Proof.
  revert a n. induction i as [|i IH]; intros a n; [by rewrite Nat.sub_0_r, Z.add_0_r|].
  destruct n as [|n]; cbn [read_bytes Nat.sub drop]; [done|]. rewrite IH. f_equal. lia.
Qed.

Lemma take_read_bytes m a n k : (k ≤ n)%nat → take k (read_bytes m a n) = read_bytes m a k.
Proof.
  revert a n. induction k as [|k IH]; intros a n Hk; [done|]. destruct n as [|n]; [lia|].
  cbn [read_bytes take]. by rewrite IH by lia.
Qed.

Lemma field_read_bytes m a n i k : (i + k ≤ n)%nat → field (read_bytes m a n) i k = read_bytes m (a + Z.of_nat i) k.
Proof. intros Hk. unfold field. rewrite drop_read_bytes. apply take_read_bytes. lia. Qed.

(** ** The parsers terminate *)

(** The loop needs fuel for the bytes left: a read outside the window panics, so
    the addresses do not wrap. *)
Lemma entry_loop_terminates {A} (entry : Z → Z → Z → A → Kernel → outcome A) msg fuel ptr end_ acc s :
  (∀ typ len ptr acc, terminates (entry typ len ptr acc s)) → mem_ok (k_mem s) → is_uint 64 ptr →
  (Z.to_nat (end_ - ptr) < fuel)%nat → terminates (entry_loop entry msg fuel ptr end_ acc s).
Proof.
  intros He Hm. revert ptr acc. induction fuel as [|fuel IH]; intros ptr acc Hp Hf; [lia|]. cbn [entry_loop].
  assert (add64 ptr 0 = ptr) as E0 by (unfold is_uint in Hp; rewrite add64_small; lia).
  destruct (_ <? _); [done|]. apply terminates_bind; [auto with terminates|].
  intros typ (_ & Hw & _)%read_int_Done. unfold KERNEL_PHYS_WINDOW_SIZE in Hw. rewrite E0 in Hw.
  apply terminates_bind; [auto with terminates|]. intros len (_ & _ & Hlen)%read_int_Done.
  assert (is_uint 8 len) as Hl by (rewrite Hlen; apply (from_le_bytes_mem _ _ 1 Hm)).
  unfold is_uint in *. rewrite (add64_small ptr len) by lia. destruct (Z.ltb_spec end_ (ptr + len)); [done|].
  apply terminates_bind; [auto with terminates|]. intros [] H2%assert_Done%Z.leb_le.
  apply terminates_bind; [apply He|]. intros acc' _. apply IH; lia.
Qed.

Lemma parse_header_Done ptr s h p n : mem_ok (k_mem s) → parse_header ptr s = Done (h, p, n) → is_uint 64 ptr →
  p = ptr + 36 ∧ p ≤ KERNEL_PHYS_WINDOW_SIZE ∧ is_uint 32 n.
Proof.
  intros Hm H Hp. unfold parse_header in H. apply bind_Done in H as (b & (_ & Hw & ->)%read_phys_Done & H).
  cbn zeta in H. apply bind_Done in H as (len & (-> & Hle)%expect_Done%checked_sub_Some & H).
  apply bind_Done in H as (sum & _ & H). apply bind_Done in H as (u & _ & H).
  apply Done_pair_inj in H as [[_ <-]%pair_eq <-].
  unfold KERNEL_PHYS_WINDOW_SIZE, is_uint in *. rewrite add64_small by lia.
  split; [done|]. split; [lia|]. cbn [h_length header_of_bytes] in *.
  unfold field_le in *. rewrite field_read_bytes in * by (cbn; lia). change (Z.of_nat 4) with 4 in *.
  pose proof (from_le_bytes_mem (k_mem s) (ptr + 4) 4 Hm) as Hu. unfold is_uint in Hu.
  change (8 * Z.of_nat 4) with 32 in Hu. lia.
Qed.

Lemma terminates_madt_entry typ len ics l s : terminates (madt_entry typ len ics l s).
Proof. unfold madt_entry. solve_terminates. Qed.

Lemma terminates_log_affinity {A} flags k (v : A) map msg : terminates (log_affinity flags k v map msg).
Proof. unfold log_affinity. solve_terminates. Qed.
#[export] Hint Resolve terminates_log_affinity : terminates.

Lemma terminates_srat_entry typ len sra aff s : terminates (srat_entry typ len sra aff s).
Proof. unfold srat_entry. destruct aff. solve_terminates. Qed.

Lemma parse_madt_terminates ptr s : mem_ok (k_mem s) → is_uint 64 ptr → terminates (parse_madt ptr s).
Proof.
  intros Hm Hp. unfold parse_madt. apply terminates_bind; [auto with terminates|]. intros [[h p] n] Hh.
  destruct (parse_header_Done _ _ _ _ _ Hm Hh Hp) as (-> & Hw & Hn). unfold KERNEL_PHYS_WINDOW_SIZE, is_uint in *.
  rewrite !add64_small by (rewrite ?add64_small; lia).
  apply entry_loop_terminates; [intros; apply terminates_madt_entry|done|unfold is_uint; lia|lia].
Qed.

Lemma parse_srat_terminates ptr s : mem_ok (k_mem s) → is_uint 64 ptr → terminates (parse_srat ptr s).
Proof.
  intros Hm Hp. unfold parse_srat. apply terminates_bind; [auto with terminates|]. intros [[h p] n] Hh.
  destruct (parse_header_Done _ _ _ _ _ Hm Hh Hp) as (-> & Hw & Hn). unfold KERNEL_PHYS_WINDOW_SIZE, is_uint in *.
  rewrite !add64_small by (rewrite ?add64_small; lia).
  apply entry_loop_terminates; [intros; apply terminates_srat_entry|done|unfold is_uint; lia|lia].
Qed.
