(* ===== verification/AcpiProps.v ===== *)
(** * ACPI tables: what the parsers read

    Tables as a firmware writes them, and the theorems that the parsers of
    Acpi.v terminate and read them back. *)

From stdpp Require Import base tactics option list numbers strings gmap sorting.
From Stdlib Require Import ZArith Lia.
From S2P Require Import Prelude MachineInt Bytes RangeSet PhysMem KernelMm Acpi.

Local Open Scope Z_scope.

(** ** Bytes in memory *)

(** The bytes [b] are in the window, at address [a]. *)
Definition holds (s : Kernel) (a : Z) (b : list Z) : Prop :=
  0 ≤ a ∧ a + Z.of_nat (length b) ≤ KERNEL_PHYS_WINDOW_SIZE ∧ read_bytes (k_mem s) a (length b) = b.

Lemma holds_app s a b1 b2 : holds s a (b1 ++ b2) → holds s a b1 ∧ holds s (a + Z.of_nat (length b1)) b2.
Proof.
  unfold holds. rewrite length_app, read_bytes_split. intros (H1 & H2 & H3).
  apply app_inj_1 in H3 as [H3 H4]; [|apply length_read_bytes]. split; split_and!; try done; lia.
Qed.

Lemma read_phys_holds s a b i n : holds s a b → 0 ≤ i → 0 < n → i + n ≤ Z.of_nat (length b) →
  read_phys (add64 a i) n s = Done (field b (Z.to_nat i) (Z.to_nat n)).
Proof.
  intros (H1 & H2 & H3) Hi Hn Hl. unfold KERNEL_PHYS_WINDOW_SIZE in H2. rewrite add64_small by lia.
  unfold read_phys. rewrite phys_check_ok by (unfold KERNEL_PHYS_WINDOW_SIZE; lia). cbn.
  rewrite <- H3, field_read_bytes by lia. by rewrite Z2Nat.id.
Qed.

Lemma read_int_holds s a b i n : holds s a b → 0 ≤ i → 0 < n → i + n ≤ Z.of_nat (length b) →
  read_int n (add64 a i) s = Done (field_le b (Z.to_nat i) (Z.to_nat n)).
Proof. intros. unfold read_int. by rewrite (read_phys_holds s a b). Qed.

(** ** Entries *)

(** An entry has its length in its second byte. *)
Definition entry_shape (b : list Z) : Prop := ∃ typ body, b = typ :: Z.of_nat (length b) :: body.

(** What may follow the last entry: too little for an entry. *)
Definition entry_tail (b : list Z) : Prop := (length b < 2)%nat ∨ Z.of_nat (length b) < nth 1 b 0 < 256.

(** The type and the length at the head of an entry. *)
Lemma holds_head s ptr b rest : entry_shape b → holds s ptr (b ++ rest) →
  read_int 1 (add64 ptr 0) s = Done (nth 0 b 0) ∧ read_int 1 (add64 ptr 1) s = Done (nth 1 b 0).
Proof.
  intros (typ & body & Hb) Hh. rewrite Hb in Hh |- *.
  rewrite !(read_int_holds s ptr _ _ _ Hh) by (rewrite ?length_app; cbn [length]; lia).
  change (Done (typ + 256 * 0) = Done typ ∧
    Done (Z.of_nat (length b) + 256 * 0) = Done (Z.of_nat (length b))). split; f_equal; lia.
Qed.

Fixpoint log_all {A E} (log : E → A → outcome A) (es : list E) (acc : A) : outcome A :=
  match es with [] => Done acc | e :: es => acc ← log e acc; log_all log es acc end.

Section entries.
Context {A E : Type} (entry : Z → Z → Z → A → Kernel → outcome A) (bytes : E → list Z)
  (log : E → A → outcome A) (ok : E → Prop) (s : Kernel).
Hypothesis entry_log : ∀ e acc ptr, ok e → holds s ptr (bytes e) → entry_shape (bytes e) ∧
  entry (nth 0 (bytes e) 0) (nth 1 (bytes e) 0) ptr acc s = log e acc.

Lemma tail_stops msg fuel tail ptr acc : entry_tail tail → holds s ptr tail →
  entry_loop entry msg (S fuel) ptr (ptr + Z.of_nat (length tail)) acc s = Done acc.
Proof.
  intros Ht Hh. cbn [entry_loop]. pose proof Hh as (H1 & H2 & _). unfold KERNEL_PHYS_WINDOW_SIZE in H2.
  rewrite (add64_small ptr 2) by lia. destruct (Z.ltb_spec (ptr + Z.of_nat (length tail)) (ptr + 2)); [done|].
  destruct Ht as [Ht|[Ht Ht']]; [lia|]. rewrite !(read_int_holds s ptr _ _ _ Hh), !bind_Done_l by lia.
  destruct tail as [|t0 [|t1 tail]]; [cbn in *; lia..|].
  change (field_le (t0 :: t1 :: tail) (Z.to_nat 1) (Z.to_nat 1)) with (t1 + 256 * 0). cbn [nth] in *.
  rewrite add64_small by lia. by rewrite (proj2 (Z.ltb_lt _ _)) by lia.
Qed.

(** The loop logs the entries, in their order. *)
Lemma entry_loop_holds msg tail es fuel ptr acc : entry_tail tail → Forall ok es →
  holds s ptr (concat (bytes <$> es) ++ tail) → (length (concat (bytes <$> es)) < fuel)%nat →
  entry_loop entry msg fuel ptr (ptr + Z.of_nat (length (concat (bytes <$> es) ++ tail))) acc s
    = log_all log es acc.
Proof.
  intros Ht Hok. revert fuel ptr acc.
  induction Hok as [|e es He _ IH]; intros fuel ptr acc Hh Hf; (destruct fuel as [|fuel]; [cbn in Hf; lia|]);
    cbn [fmap list_fmap concat app] in *; cbn [entry_loop log_all].
  - by apply tail_stops.
  - rewrite <- app_assoc in Hh |- *. destruct (holds_app _ _ _ _ Hh) as [He1 He2].
    destruct (entry_log e acc ptr He He1) as [Hs Hlog]. destruct (holds_head _ _ _ _ Hs Hh) as (R0 & R1).
    rewrite length_app in *. pose proof Hh as (_ & Hw & _). unfold KERNEL_PHYS_WINDOW_SIZE in Hw.
    rewrite length_app in Hw. destruct Hs as (typ & body & Hb).
    assert (nth 1 (bytes e) 0 = Z.of_nat (length (bytes e))) as Hn by (rewrite Hb at 1; done).
    assert (2 ≤ length (bytes e))%nat as H2 by (rewrite Hb; cbn; lia).
    pose proof (proj1 Hh). rewrite !add64_small in * by lia.
    rewrite (proj2 (Z.ltb_ge _ _)) by lia. rewrite R0, bind_Done_l, R1, bind_Done_l, Hn.
    rewrite (add64_small ptr (Z.of_nat _)) by lia. rewrite (proj2 (Z.ltb_ge _ _)) by lia.
    rewrite (proj2 (Z.leb_le 2 _)) by lia. cbn [assert]. rewrite bind_Done_l, <- Hn, Hlog.
    destruct (log e acc) as [acc'| |]; cbn; [|done..].
    rewrite <- (IH fuel (ptr + Z.of_nat (length (bytes e))) acc'); [|done|lia].
    rewrite Hn. f_equal; rewrite ?length_app; lia.
Qed.
End entries.

(** ** The entries of a MADT *)

Inductive Ics :=
| Lapic (uid id flags : Z)
| X2Apic (reserved id flags uid : Z)
| OtherIcs (typ : Z) (body : list Z).

Definition ics_bytes (e : Ics) : list Z :=
  match e with
  | Lapic uid id flags => [0; 8; uid; id] ++ to_le_bytes 4 flags
  | X2Apic reserved id flags uid =>
      [9; 16] ++ to_le_bytes 2 reserved ++ to_le_bytes 4 id ++ to_le_bytes 4 flags ++ to_le_bytes 4 uid
  | OtherIcs typ body => typ :: Z.of_nat (2 + length body) :: body
  end.

Definition ics_ok (e : Ics) : Prop :=
  match e with
  | Lapic _ id flags => is_uint 8 id ∧ is_uint 32 flags
  | X2Apic _ id flags _ => is_uint 32 id ∧ is_uint 32 flags
  | OtherIcs typ _ => typ ≠ 0 ∧ typ ≠ 9
  end.

(** A processor is usable when it is enabled, or can be. *)
Definition usable (e : Ics) : option Z :=
  match e with
  | Lapic _ id flags | X2Apic _ id flags _ => if Z.testbit flags 0 || Z.testbit flags 1 then Some id else None
  | OtherIcs _ _ => None
  end.

Lemma log_apic_usable id flags l :
  log_apic id flags l = l ++ option_list (if Z.testbit flags 0 || Z.testbit flags 1 then Some id else None).
Proof.
  unfold log_apic, APIC_ENABLED, APIC_ONLINE_CAPABLE.
  change (Z.shiftl 1 0) with (2 ^ 0). change (Z.shiftl 1 1) with (2 ^ 1).
  rewrite !land_pow2_testbit, !negb_involutive by lia.
  destruct (_ || _); cbn; [done|by rewrite app_nil_r].
Qed.

(** A field that is an integer of [n] bytes. *)
Lemma field_le_int b i n v : 0 ≤ v < 2 ^ (8 * Z.of_nat n) → field b i n = to_le_bytes n v → field_le b i n = v.
Proof. intros Hv E. unfold field_le. rewrite E. by apply from_to_le_bytes. Qed.

Lemma field_le_byte b i v : field b i 1 = [v] → field_le b i 1 = v.
Proof. intros E. unfold field_le. rewrite E. cbn [from_le_bytes]. lia. Qed.

Lemma ics_entry s e l ptr : ics_ok e → holds s ptr (ics_bytes e) → entry_shape (ics_bytes e) ∧
  madt_entry (nth 0 (ics_bytes e) 0) (nth 1 (ics_bytes e) 0) ptr l s = Done (l ++ option_list (usable e)).
Proof.
  intros Hok Hh. destruct e as [uid id flags|res id flags uid|typ body]; cbn [usable ics_ok] in *.
  - split; [by eexists _, _|]. cbn [nth ics_bytes app]. unfold madt_entry. cbn [Z.eqb Pos.eqb assert].
    rewrite bind_Done_l, !(read_int_holds s ptr _ _ _ Hh), !bind_Done_l by (cbn; lia).
    rewrite (field_le_byte _ _ id), (field_le_int _ _ _ flags) by (apply Hok || reflexivity). by rewrite log_apic_usable.
  - split; [by eexists _, _|]. cbn [nth ics_bytes app]. unfold madt_entry. cbn [Z.eqb Pos.eqb assert].
    rewrite bind_Done_l, !(read_int_holds s ptr _ _ _ Hh), !bind_Done_l by (cbn; lia).
    rewrite (field_le_int _ _ _ id), (field_le_int _ _ _ flags) by (apply Hok || reflexivity). by rewrite log_apic_usable.
  - split; [by eexists _, _|]. cbn [nth ics_bytes app option_list]. unfold madt_entry.
    destruct (Z.eqb_spec typ 0); [tauto|]. destruct (Z.eqb_spec typ 9); [tauto|]. by rewrite app_nil_r.
Qed.

Lemma log_all_omap {A E} (f : E → option A) es l :
  log_all (λ e l, Done (l ++ option_list (f e))) es l = Done (l ++ omap f es).
Proof.
  revert l. induction es as [|e es IH]; intros l; cbn; [by rewrite app_nil_r|].
  rewrite IH, <- app_assoc. by destruct (f e).
Qed.

(** ** Tables *)

(** A table: a header with the length and the checksum right, then the payload. *)
Definition table (s : Kernel) (ptr : Z) (signature payload : list Z) : Prop :=
  ∃ hdr, length hdr = 36%nat ∧ field hdr 0 4 = signature ∧ field_le hdr 4 4 = 36 + Z.of_nat (length payload) ∧
    sum8 (hdr ++ payload) = 0 ∧ holds s ptr (hdr ++ payload).

Lemma sum_phys_holds s a b acc : holds s a b →
  sum_phys (seqZ a (Z.of_nat (length b))) acc s = Done (foldl (wrapping_add 8) acc b).
Proof.
  revert a acc. induction b as [|x b IH]; intros a acc Hh; [done|]. cbn [length].
  rewrite seqZ_cons by lia. cbn [sum_phys foldl].
  assert (read_int 1 a s = Done x) as Hx.
  { replace a with (add64 a 0) by (destruct Hh as (? & Hw & _); unfold KERNEL_PHYS_WINDOW_SIZE in Hw;
      cbn [length] in Hw; rewrite add64_small; lia).
    rewrite (read_int_holds s a _ _ _ Hh) by (cbn [length]; lia). f_equal. by apply field_le_byte. }
  rewrite Hx, bind_Done_l. replace (Z.pred (Z.of_nat (S (length b)))) with (Z.of_nat (length b)) by lia.
  apply IH. destruct (holds_app s a [x] b Hh) as [_ H]. cbn in H. by replace (Z.succ a) with (a + 1) by lia.
Qed.

Lemma parse_header_table s ptr signature payload : table s ptr signature payload →
  holds s (ptr + 36) payload ∧
  ∃ h, parse_header ptr s = Done (h, ptr + 36, Z.of_nat (length payload)) ∧ h_signature h = signature.
Proof.
  intros (hdr & Hl & Hs & Hn & Hsum & Hh). destruct (holds_app _ _ _ _ Hh) as [Hhdr Hp].
  pose proof Hh as (H1 & H2 & _). unfold KERNEL_PHYS_WINDOW_SIZE in H2. rewrite length_app, Hl in H2.
  split; [by rewrite Hl in Hp|]. exists (header_of_bytes hdr). split; [|done]. unfold parse_header.
  replace ptr with (add64 ptr 0) at 1 by (rewrite add64_small; lia).
  rewrite (read_phys_holds s ptr _ _ _ Hhdr), bind_Done_l by lia.
  assert (field hdr (Z.to_nat 0) (Z.to_nat 36) = hdr) as ->
    by (unfold field; change (Z.to_nat 0) with 0%nat; rewrite drop_0, take_ge; [done|]; change (Z.to_nat 36) with 36%nat; lia).
  cbn zeta. cbn [h_length header_of_bytes]. rewrite Hn.
  unfold checked_sub. rewrite (proj2 (Z.leb_le _ _)) by lia. cbn [expect]. rewrite bind_Done_l.
  rewrite !add64_small by lia. unfold range_u64.
  replace (ptr + (36 + Z.of_nat (length payload)) - ptr) with (Z.of_nat (length (hdr ++ payload)))
    by (rewrite length_app; lia).
  rewrite (sum_phys_holds s ptr _ 0 Hh), bind_Done_l. unfold sum8 in Hsum. rewrite Hsum. cbn [Z.eqb assert].
  rewrite bind_Done_l. do 3 f_equal. lia.
Qed.

(** A MADT: the address of the interrupt controller and the flags, then the
    entries. *)
Definition madt_table (s : Kernel) (ptr : Z) (es : list Ics) : Prop :=
  Forall ics_ok es ∧ ∃ pre tail, length pre = 8%nat ∧ entry_tail tail ∧
    table s ptr APIC_SIG (pre ++ concat (ics_bytes <$> es) ++ tail).

Lemma parse_madt_table s ptr es : madt_table s ptr es → parse_madt ptr s = Done (omap usable es).
Proof.
  intros (Hok & pre & tail & Hl & Ht & Htab). destruct (parse_header_table _ _ _ _ Htab) as (Hh & h & Hp & _).
  unfold parse_madt. rewrite Hp, bind_Done_l. destruct (holds_app _ _ _ _ Hh) as [_ He].
  pose proof Hh as (H1 & H2 & _). unfold KERNEL_PHYS_WINDOW_SIZE in H2. rewrite length_app, Hl in *.
  rewrite (add64_small (ptr + 36) 4), (add64_small _ 4), (add64_small _ (Z.of_nat _)) by lia.
  replace (ptr + 36 + 4 + 4) with (ptr + 36 + Z.of_nat 8) by lia.
  replace (ptr + 36 + Z.of_nat (8 + length (concat (ics_bytes <$> es) ++ tail)))
    with (ptr + 36 + Z.of_nat 8 + Z.of_nat (length (concat (ics_bytes <$> es) ++ tail))) by lia.
  unfold madt_loop. rewrite (entry_loop_holds madt_entry ics_bytes (λ e l, Done (l ++ option_list (usable e))) ics_ok s
    (λ e l ptr, ics_entry s e l ptr)); try done.
  - apply (log_all_omap usable es []).
  - rewrite length_app. lia.
Qed.

(** ** The entries of an SRAT *)

Inductive Sra :=
| SraLapic (domain id flags sapic clock : Z)
| SraMem (domain reserved1 base size reserved2 flags reserved3 : Z)
| SraX2Apic (reserved1 domain id flags clock reserved2 : Z)
| OtherSra (typ : Z) (body : list Z).

Definition sra_bytes (e : Sra) : list Z :=
  match e with
  | SraLapic domain id flags sapic clock =>
      [0; 16; domain mod 256; id] ++ to_le_bytes 4 flags ++ [sapic] ++ to_le_bytes 3 (domain / 256) ++ to_le_bytes 4 clock
  | SraMem domain reserved1 base size reserved2 flags reserved3 =>
      [1; 40] ++ to_le_bytes 4 domain ++ to_le_bytes 2 reserved1 ++ to_le_bytes 8 base ++ to_le_bytes 8 size ++
        to_le_bytes 4 reserved2 ++ to_le_bytes 4 flags ++ to_le_bytes 8 reserved3
  | SraX2Apic reserved1 domain id flags clock reserved2 =>
      [2; 24] ++ to_le_bytes 2 reserved1 ++ to_le_bytes 4 domain ++ to_le_bytes 4 id ++ to_le_bytes 4 flags ++
        to_le_bytes 4 clock ++ to_le_bytes 4 reserved2
  | OtherSra typ body => typ :: Z.of_nat (2 + length body) :: body
  end.

Definition sra_ok (e : Sra) : Prop :=
  match e with
  | SraLapic domain id flags _ _ => is_uint 32 domain ∧ is_uint 8 id ∧ is_uint 32 flags
  | SraMem domain _ base size _ flags _ => is_uint 32 domain ∧ is_uint 64 base ∧ is_uint 64 size ∧ is_uint 32 flags
  | SraX2Apic _ domain id flags _ _ => is_uint 32 domain ∧ is_uint 32 id ∧ is_uint 32 flags
  | OtherSra typ _ => typ ≠ 0 ∧ typ ≠ 1 ∧ typ ≠ 2
  end.

(** The enabled records: processor and domain, domain and memory. *)
Definition apic_record (e : Sra) : option (Z * Z) :=
  match e with
  | SraLapic domain id flags _ _ | SraX2Apic _ domain id flags _ _ =>
      if Z.testbit flags 0 then Some (id, domain) else None
  | _ => None
  end.
Definition mem_record (e : Sra) : option (Z * (Z * Z)) :=
  match e with
  | SraMem domain _ base size _ flags _ => if Z.testbit flags 0 then Some (domain, (base, size)) else None
  | _ => None
  end.

(** A record for a key that has one already is refused. *)
Definition add_record {A} (r : option (Z * A)) (m : gmap Z A) (msg : string) : outcome (gmap Z A) :=
  match r with
  | Some (k, v) => assert (match m !! k with None => true | Some _ => false end) msg;; Done (<[k := v]> m)
  | None => Done m
  end.

Definition dup_msg (e : Sra) : string :=
  match e with SraLapic _ _ _ _ _ => "Duplicate LAPIC affinity domain" | _ => "Duplicate APIC affinity domain" end.

Definition sra_log (e : Sra) (aff : Affinities) : outcome Affinities :=
  ad ← add_record (apic_record e) aff.1 (dup_msg e);
  md ← add_record (mem_record e) aff.2 "Duplicate memory affinity domain";
  Done (ad, md).

Lemma log_affinity_record {A} flags k (v : A) m msg :
  log_affinity flags k v m msg = add_record (if Z.testbit flags 0 then Some (k, v) else None) m msg.
Proof.
  unfold log_affinity, FLAGS_ENABLED. change (Z.shiftl 1 0) with (2 ^ 0).
  rewrite land_pow2_testbit, negb_involutive by lia. by destruct (Z.testbit flags 0).
Qed.

Lemma sra_entry s e aff ptr : sra_ok e → holds s ptr (sra_bytes e) → entry_shape (sra_bytes e) ∧
  srat_entry (nth 0 (sra_bytes e) 0) (nth 1 (sra_bytes e) 0) ptr aff s = sra_log e aff.
Proof.
  intros Hok Hh. destruct aff as [ad md]. split; [destruct e; by eexists _, _|].
  destruct e as [domain id flags sapic clock|domain r1 base size r2 flags r3|r1 domain id flags clock r2|typ body];
    cbn [sra_ok] in Hok; unfold sra_log; cbn [nth sra_bytes app apic_record mem_record fst snd add_record dup_msg];
    unfold srat_entry; cbn [Z.eqb Pos.eqb assert].
  - rewrite bind_Done_l, !(read_int_holds s ptr _ _ _ Hh) by (cbn; lia).
    rewrite (read_phys_holds s ptr _ _ _ Hh), !bind_Done_l by (cbn; lia).
    rewrite (field_le_byte _ (Z.to_nat 2) (domain mod 256)), (field_le_byte _ (Z.to_nat 3) id), (field_le_int _ (Z.to_nat 4) _ flags)
      by (apply Hok || reflexivity).
    change (field _ (Z.to_nat 9) (Z.to_nat 3)) with (to_le_bytes 3 (domain / 256)).
    change (domain mod 256 :: to_le_bytes 3 (domain / 256)) with (to_le_bytes 4 domain).
    rewrite from_to_le_bytes by apply Hok. by rewrite log_affinity_record.
  - rewrite bind_Done_l, !(read_int_holds s ptr _ _ _ Hh), !bind_Done_l by (cbn; lia).
    rewrite (field_le_int _ (Z.to_nat 2) _ domain), (field_le_int _ (Z.to_nat 8) _ base),
      (field_le_int _ (Z.to_nat 16) _ size), (field_le_int _ (Z.to_nat 28) _ flags)
      by (apply Hok || reflexivity). by rewrite log_affinity_record.
  - rewrite bind_Done_l, !(read_int_holds s ptr _ _ _ Hh), !bind_Done_l by (cbn; lia).
    rewrite (field_le_int _ (Z.to_nat 4) _ domain), (field_le_int _ (Z.to_nat 8) _ id), (field_le_int _ (Z.to_nat 12) _ flags)
      by (apply Hok || reflexivity). by rewrite log_affinity_record.
  - destruct (Z.eqb_spec typ 0); [tauto|]. destruct (Z.eqb_spec typ 1); [tauto|]. destruct (Z.eqb_spec typ 2); [tauto|]. done.
Qed.

(** No two records have the same key, and none has a key of the map. *)
Definition fresh_records {A} (rs : list (Z * A)) (m : gmap Z A) : Prop :=
  NoDup rs.*1 ∧ ∀ k, k ∈ rs.*1 → m !! k = None.

Lemma fresh_records_cons {A} k (v : A) rs m :
  fresh_records ((k, v) :: rs) m ↔ m !! k = None ∧ fresh_records rs (<[k := v]> m).
Proof.
  unfold fresh_records. cbn. rewrite NoDup_cons. split.
  - intros [[Hk Hn] Hf]. split; [apply Hf; by left|]. split; [done|]. intros j Hj.
    rewrite lookup_insert_ne by (intros ->; done). apply Hf. by right.
  - intros (Hk & Hn & Hf). split; [split; [|done]|].
    + intros Hin. specialize (Hf k Hin). by rewrite lookup_insert_eq in Hf.
    + intros j [->|Hj]%elem_of_cons; [done|]. specialize (Hf j Hj).
      destruct (decide (k = j)) as [->|]; [by rewrite lookup_insert_eq in Hf|by rewrite lookup_insert_ne in Hf].
Qed.

Lemma records_union_cons {A} k (v : A) rs m : fresh_records rs (<[k := v]> m) →
  list_to_map (M := gmap Z A) ((k, v) :: rs) ∪ m = list_to_map rs ∪ <[k := v]> m.
Proof.
  intros [_ Hf]. cbn. rewrite <- insert_union_l; apply insert_union_r.
  apply not_elem_of_list_to_map_1. intros Hin. specialize (Hf k Hin). by rewrite lookup_insert_eq in Hf.
Qed.

Lemma add_record_fresh {A} r rs (m : gmap Z A) msg : fresh_records (option_list r ++ rs) m →
  ∃ m', add_record r m msg = Done m' ∧ fresh_records rs m' ∧
    list_to_map (M := gmap Z A) (option_list r ++ rs) ∪ m = list_to_map rs ∪ m'.
Proof.
  destruct r as [[k v]|]; cbn [option_list app add_record]; [|by exists m].
  intros [Hk Hf]%fresh_records_cons. rewrite Hk. cbn. eexists. split; [done|]. split; [done|].
  by apply (records_union_cons k v rs m).
Qed.

Lemma add_record_dup {A} r rs (m m' : gmap Z A) msg : add_record r m msg = Done m' →
  fresh_records rs m' → fresh_records (option_list r ++ rs) m.
Proof.
  destruct r as [[k v]|]; cbn [option_list app add_record]; [|by intros [= <-]].
  destruct (m !! k) eqn:E; cbn; [done|]. intros [= <-] Hf. by apply fresh_records_cons.
Qed.

Lemma option_list_omap {A B} (f : A → option B) x l : omap f (x :: l) = option_list (f x) ++ omap f l.
Proof. cbn. by destruct (f x). Qed.

Lemma srat_log_all es ad md :
  let ra := omap apic_record es in let rm := omap mem_record es in
  (fresh_records ra ad ∧ fresh_records rm md →
    log_all sra_log es (ad, md) = Done (list_to_map ra ∪ ad, list_to_map rm ∪ md)) ∧
  (~ (fresh_records ra ad ∧ fresh_records rm md) → ∃ msg, log_all sra_log es (ad, md) = Panic msg).
Proof.
  cbn zeta. revert ad md. induction es as [|e es IH]; intros ad md.
  { cbn. split; [by rewrite !(left_id_L ∅ (∪))|]. intros []. split; (split; [constructor|]); intros k Hk; by inversion Hk. }
  rewrite !option_list_omap. cbn [log_all].
  change (sra_log e (ad, md)) with (ad' ← add_record (apic_record e) ad (dup_msg e);
    md' ← add_record (mem_record e) md "Duplicate memory affinity domain"; Done (ad', md')). split.
  - intros [Ha Hm]. destruct (add_record_fresh _ _ _ (dup_msg e) Ha) as (ad' & -> & Ha' & ->).
    destruct (add_record_fresh _ _ _ "Duplicate memory affinity domain" Hm) as (md' & -> & Hm' & ->). cbn. by apply IH.
  - intros Hn.
    assert (∀ B (r : option (Z * B)) m msg, (∃ m', add_record r m msg = Done m') ∨ add_record r m msg = Panic msg) as Hd.
    { intros B [[k v]|] m msg'; cbn; [|eauto]. destruct (m !! k); cbn; eauto. }
    destruct (Hd _ (apic_record e) ad (dup_msg e)) as [[ad' Ea]|Ea]; rewrite Ea; cbn; [|eauto].
    destruct (Hd _ (mem_record e) md "Duplicate memory affinity domain") as [[md' Em]|Em]; rewrite Em; cbn; [|eauto].
    apply IH. intros [Ha Hm]. apply Hn. split; by eapply add_record_dup.
Qed.

(** An SRAT: 12 reserved bytes, then the entries. *)
Definition srat_table (s : Kernel) (ptr : Z) (es : list Sra) : Prop :=
  Forall sra_ok es ∧ ∃ pre tail, length pre = 12%nat ∧ entry_tail tail ∧
    table s ptr SRAT_SIG (pre ++ concat (sra_bytes <$> es) ++ tail).

Lemma parse_srat_log s ptr es : srat_table s ptr es → parse_srat ptr s = log_all sra_log es (∅, ∅).
Proof.
  intros (Hok & pre & tail & Hl & Ht & Htab). destruct (parse_header_table _ _ _ _ Htab) as (Hh & h & Hp & _).
  unfold parse_srat. rewrite Hp, bind_Done_l. destruct (holds_app _ _ _ _ Hh) as [_ He].
  pose proof Hh as (H1 & H2 & _). unfold KERNEL_PHYS_WINDOW_SIZE in H2. rewrite length_app, Hl in *.
  rewrite (add64_small (ptr + 36) 4), (add64_small _ 8), (add64_small _ (Z.of_nat _)) by lia.
  replace (ptr + 36 + 4 + 8) with (ptr + 36 + Z.of_nat 12) by lia.
  replace (ptr + 36 + Z.of_nat (12 + length (concat (sra_bytes <$> es) ++ tail)))
    with (ptr + 36 + Z.of_nat 12 + Z.of_nat (length (concat (sra_bytes <$> es) ++ tail))) by lia.
  unfold srat_loop. rewrite (entry_loop_holds srat_entry sra_bytes sra_log sra_ok s
    (λ e aff ptr, sra_entry s e aff ptr)); try done.
  rewrite length_app. lia.
Qed.

(** ** The search for the RSDP *)

Definition rsdp_bytes (s : Kernel) (p : Z) : list Z := read_bytes (k_mem s) p 36.

Definition valid_rsdp (s : Kernel) (p : Z) : Prop :=
  field (rsdp_bytes s p) 0 8 = RSD_PTR ∧ sum8 (rsdp_bytes s p) = 0.
#[export] Instance valid_rsdp_dec s p : Decision (valid_rsdp s p).
Proof. apply and_dec; solve_decision. Defined.

(** Where the RSDP may be, in the order of the search. *)
Definition scan_addrs (ebda : Z) : list Z :=
  step_by_16 (Z.land (ebda + 0xf) (bnot 64 0xf)) (ebda + 1023) ++ step_by_16 0xe0000 0xfffff.

Lemma read_phys_in_window s p n : 0 ≤ p → 0 < n → p + n ≤ KERNEL_PHYS_WINDOW_SIZE →
  read_phys p n s = Done (read_bytes (k_mem s) p (Z.to_nat n)).
Proof. intros. unfold read_phys. by rewrite phys_check_ok by lia. Qed.

Lemma scan_region_spec start end_ l s : start + 35 ≤ end_ →
  Forall (λ p, 0 ≤ p ∧ p + 36 ≤ KERNEL_PHYS_WINDOW_SIZE) l →
  scan_region start end_ l s = Done ((λ p, rsdp_of_bytes (rsdp_bytes s p)) <$> head (filter (valid_rsdp s) l)).
Proof.
  intros He. induction 1 as [|p l [Hp Hw] _ IH]; cbn [scan_region]; [done|].
  rewrite (proj2 (Z.ltb_ge _ _)) by lia. rewrite read_phys_in_window, bind_Done_l by lia.
  change (Z.to_nat 36) with 36%nat. fold (rsdp_bytes s p). cbn zeta.
  assert (r_signature (rsdp_of_bytes (rsdp_bytes s p)) = field (rsdp_bytes s p) 0 8) as -> by reflexivity.
  rewrite filter_cons. destruct (decide (field (rsdp_bytes s p) 0 8 ≠ RSD_PTR)) as [Hn|Hy].
  { rewrite decide_False by (intros [H _]; by apply Hn). apply IH. }
  rewrite bind_Done_l. destruct (decide (field (rsdp_bytes s p) 0 8 = RSD_PTR)) as [Hs|]; [|tauto].
  destruct (Z.eqb_spec (sum8 (rsdp_bytes s p)) 0) as [Hz|Hz].
  - by rewrite decide_True by (by split).
  - rewrite decide_False by (by intros [_ H]). apply IH.
Qed.

Lemma step_by_16_window start end_ : 0 ≤ start → end_ ≤ 0xfffff →
  Forall (λ p, 0 ≤ p ∧ p + 36 ≤ KERNEL_PHYS_WINDOW_SIZE) (step_by_16 start end_).
Proof.
  intros Hs He. unfold step_by_16. apply Forall_fmap, Forall_forall. intros i Hi%elem_of_seqZ.
  cbn. unfold KERNEL_PHYS_WINDOW_SIZE. assert ((end_ - start) / 16 * 16 ≤ end_ - start)
    by (rewrite Z.mul_comm; apply Z.mul_div_le; lia). lia.
Qed.

Lemma rsdp_search_spec s ebda : is_uint 16 ebda →
  rsdp_search [(ebda, ebda + 1024 - 1); (0xe0000, 0xfffff)] s =
  Done ((λ p, rsdp_of_bytes (rsdp_bytes s p)) <$> head (filter (valid_rsdp s) (scan_addrs ebda))).
Proof.
  intros He. unfold is_uint in He. cbn [rsdp_search]. cbn zeta. unfold scan_addrs.
  replace (ebda + 1024 - 1) with (ebda + 1023) by lia. set (start := Z.land (ebda + 0xf) (bnot 64 0xf)).
  assert (0 ≤ start ≤ ebda + 15) as Hst.
  { assert (start = ebda + 15 - (ebda + 15) mod 16) as ->.
    { unfold start. apply (align_down 64 (ebda + 15) 4); unfold is_uint; lia. }
    pose proof (Z.mod_pos_bound (ebda + 15) 16 ltac:(lia)). pose proof (Z.mod_le (ebda + 15) 16 ltac:(lia) ltac:(lia)). lia. }
  rewrite (scan_region_spec start (ebda + 1023)), bind_Done_l by (lia || (apply step_by_16_window; lia)). rewrite filter_app.
  destruct (filter (valid_rsdp s) (step_by_16 start (ebda + 1023))) as [|p l]; cbn [head fmap option_fmap option_map app]; [|done].
  assert (Z.land (0xe0000 + 0xf) (bnot 64 0xf) = 0xe0000) as -> by reflexivity.
  rewrite scan_region_spec, bind_Done_l by (lia || (apply step_by_16_window; lia)). by destruct (head _).
Qed.

(** ** From the RSDP to the tables *)

Inductive Table :=
| TMadt (es : list Ics)
| TSrat (es : list Sra)
| TOther (signature : list Z).

(** The domains of an SRAT in which no processor and no domain has two records. *)
Definition unique_records (es : list Sra) : Prop :=
  NoDup (omap apic_record es).*1 ∧ NoDup (omap mem_record es).*1.

Definition affinities_of (es : list Sra) : Affinities :=
  (list_to_map (omap apic_record es), list_to_map (omap mem_record es)).

Definition table_at (s : Kernel) (ptr : Z) (t : Table) : Prop :=
  is_uint 32 ptr ∧
  match t with
  | TMadt es => madt_table s ptr es
  | TSrat es => srat_table s ptr es ∧ unique_records es
  | TOther signature => holds s ptr signature ∧ length signature = 4%nat ∧ signature ≠ APIC_SIG ∧ signature ≠ SRAT_SIG
  end.

Definition madts (ts : list Table) : list (list Z) :=
  omap (λ t, match t with TMadt es => Some (omap usable es) | _ => None end) ts.
Definition srats (ts : list Table) : list Affinities :=
  omap (λ t, match t with TSrat es => Some (affinities_of es) | _ => None end) ts.

Lemma fresh_records_empty {A} (rs : list (Z * A)) : fresh_records rs ∅ ↔ NoDup rs.*1.
Proof. unfold fresh_records. split; [by intros []|]. intros Hn. split; [done|]. intros k _. apply lookup_empty. Qed.

Lemma parse_srat_table s ptr es : srat_table s ptr es →
  (unique_records es → parse_srat ptr s = Done (affinities_of es)) ∧
  (~ unique_records es → ∃ msg, parse_srat ptr s = Panic msg).
Proof.
  intros Ht. rewrite (parse_srat_log s ptr es Ht). destruct (srat_log_all es ∅ ∅) as [H1 H2].
  unfold unique_records. rewrite <- !fresh_records_empty. split; [|done].
  intros Hu. rewrite H1 by done. unfold affinities_of. by rewrite !(right_id_L ∅ (∪)).
Qed.

(** A table starts with its signature. *)
Lemma holds_prefix s ptr b n : holds s ptr b → (n ≤ length b)%nat → holds s ptr (take n b).
Proof. intros Hh Hn. rewrite <- (take_drop n b) in Hh. by apply holds_app in Hh as [Hh _]. Qed.

Lemma table_signature s ptr signature payload : table s ptr signature payload →
  holds s ptr signature ∧ length signature = 4%nat.
Proof.
  intros (hdr & Hl & Hs & _ & _ & Hh). apply holds_app in Hh as [Hh _]. subst signature.
  unfold field. rewrite drop_0, length_take. split; [apply holds_prefix; [done|lia]|lia].
Qed.

Lemma read_signature s ptr b : holds s ptr b → length b = 4%nat → read_phys ptr 4 s = Done b.
Proof.
  intros (H1 & H2 & H3) Hl. rewrite Hl in *. rewrite read_phys_in_window by lia.
  by change (Z.to_nat 4) with 4%nat; rewrite H3.
Qed.

Definition is_none {A} (o : option A) : bool := match o with None => true | Some _ => false end.

(** One entry of the RSDT, when the table it names is the first of its kind. *)
Lemma rsdt_step s ptr t entry n payload f :
  table_at s ptr t → read_int 4 (add64 payload (Z.of_nat entry * 4)) s = Done ptr →
  (length (option_list (f_apics f) ++ madts [t]) ≤ 1)%nat →
  (length (option_list (f_affinities f) ++ srats [t]) ≤ 1)%nat →
  rsdt_loop entry (S n) payload f s = rsdt_loop (S entry) n payload
    (mkFound (head (option_list (f_apics f) ++ madts [t])) (head (option_list (f_affinities f) ++ srats [t]))) s.
Proof.
  intros [Hp Ht] Hr Hm Hs. cbn [rsdt_loop]. rewrite Hr, bind_Done_l.
  assert (∀ X (o : option X), head (option_list o) = o) as Ho by (by intros X []).
  destruct f as [fa ff]. cbn [f_apics f_affinities] in *. destruct t as [es|es|sg].
  - destruct Ht as (Hok & pre & tail & Hl & Htl & Htab).
    destruct (table_signature _ _ _ _ Htab) as [Hh H4]. rewrite (read_signature _ _ _ Hh H4), bind_Done_l.
    rewrite decide_True by done. destruct fa as [l|]; [cbn in Hm; lia|]. cbn [assert]. rewrite bind_Done_l.
    rewrite (parse_madt_table s ptr es) by (split; eauto). cbn. by rewrite app_nil_r, Ho.
  - destruct Ht as [Hst Hu]. pose proof Hst as (Hok & pre & tail & Hl & Htl & Htab).
    destruct (table_signature _ _ _ _ Htab) as [Hh H4]. rewrite (read_signature _ _ _ Hh H4), bind_Done_l.
    rewrite decide_False, decide_True by done. destruct ff as [l|]; [cbn in Hs; lia|]. cbn [assert]. rewrite bind_Done_l.
    rewrite (proj1 (parse_srat_table s ptr es Hst) Hu). cbn. by rewrite app_nil_r, Ho.
  - destruct Ht as (Hh & H4 & Hn1 & Hn2). rewrite (read_signature _ _ _ Hh H4), bind_Done_l.
    rewrite !decide_False by done. cbn. by rewrite !app_nil_r, !Ho.
Qed.

Lemma head_option_list {A} (l : list A) : (length l ≤ 1)%nat → option_list (head l) = l.
Proof. destruct l as [|x [|]]; cbn; (done || lia). Qed.

Lemma rsdt_loop_spec s payload ptrs ts entry f : 0 ≤ payload → Forall2 (table_at s) ptrs ts →
  holds s (payload + Z.of_nat entry * 4) (concat (to_le_bytes 4 <$> ptrs)) →
  (length (option_list (f_apics f) ++ madts ts) ≤ 1)%nat →
  (length (option_list (f_affinities f) ++ srats ts) ≤ 1)%nat →
  rsdt_loop entry (length ptrs) payload f s =
    Done (mkFound (head (option_list (f_apics f) ++ madts ts)) (head (option_list (f_affinities f) ++ srats ts))).
Proof.
  intros Hp Ht. revert entry f. induction Ht as [|ptr t ptrs ts Hpt _ IH]; intros entry f Hh Hm Hs; cbn [length].
  { cbn. rewrite !app_nil_r. destruct f as [[|] [|]]; done. }
  cbn [fmap list_fmap concat] in Hh. destruct (holds_app _ _ _ _ Hh) as [Hh1 Hh2].
  assert (madts (t :: ts) = madts [t] ++ madts ts) as E1 by apply (omap_app _ [t] ts).
  assert (srats (t :: ts) = srats [t] ++ srats ts) as E2 by apply (omap_app _ [t] ts).
  rewrite E1, app_assoc in *. rewrite E2, app_assoc in *. pose proof Hm as Hm'. pose proof Hs as Hs'.
  rewrite length_app in Hm', Hs'. rewrite (rsdt_step s ptr t); [|done| |lia|lia].
  - pose proof (IH (S entry) (mkFound (head (option_list (f_apics f) ++ madts [t]))
      (head (option_list (f_affinities f) ++ srats [t])))) as IH1.
    cbn [f_apics f_affinities] in IH1. rewrite !head_option_list in IH1 by lia. apply IH1; [|done..].
    rewrite length_to_le_bytes in Hh2. by replace (payload + Z.of_nat (S entry) * 4)
      with (payload + Z.of_nat entry * 4 + Z.of_nat 4) by lia.
  - pose proof Hh1 as (_ & Hw & _). unfold KERNEL_PHYS_WINDOW_SIZE in Hw. rewrite length_to_le_bytes in Hw.
    replace (add64 payload (Z.of_nat entry * 4)) with (add64 (payload + Z.of_nat entry * 4) 0)
      by (rewrite !add64_small; lia). rewrite (read_int_holds s _ _ 0 4 Hh1) by (rewrite ?length_to_le_bytes; lia).
    f_equal. apply field_le_int; [apply Hpt|reflexivity].
Qed.

Lemma length_concat_le4 l : length (concat (to_le_bytes 4 <$> l)) = (4 * length l)%nat.
Proof. induction l as [|x l IH]; cbn [fmap list_fmap concat length]; [done|]. rewrite length_app, IH, length_to_le_bytes. lia. Qed.

(** The EBDA pointer of the BIOS data area *)
Definition ebda_of (s : Kernel) : Z := from_le_bytes (read_bytes (k_mem s) 0x40e 2).

Lemma find_tables_correct s p ptrs ts : mem_ok (k_mem s) →
  head (filter (valid_rsdp s) (scan_addrs (ebda_of s))) = Some p →
  table s (rsdt_addr (rsdp_of_bytes (rsdp_bytes s p))) RSDT_SIG (concat (to_le_bytes 4 <$> ptrs)) →
  Forall2 (table_at s) ptrs ts → (length (madts ts) ≤ 1)%nat → (length (srats ts) ≤ 1)%nat →
  find_tables s = Done (mkFound (head (madts ts)) (head (srats ts))).
Proof.
  intros Hm Hf Ht Hts H1 H2. unfold find_tables, read_int at 1.
  rewrite read_phys_in_window, bind_Done_l by (unfold KERNEL_PHYS_WINDOW_SIZE; lia). rewrite bind_Done_l.
  change (Z.to_nat 2) with 2%nat. fold (ebda_of s).
  rewrite rsdp_search_spec, Hf, bind_Done_l by apply (from_le_bytes_mem _ _ 2 Hm). cbn [fmap option_fmap option_map expect].
  rewrite bind_Done_l. destruct (parse_header_table _ _ _ _ Ht) as (Hh & h & -> & Hsig). rewrite bind_Done_l, Hsig.
  rewrite bool_decide_true by done. cbn [assert]. rewrite bind_Done_l, length_concat_le4.
  replace (Z.of_nat (4 * length ptrs)) with (Z.of_nat (length ptrs) * 4) by lia.
  rewrite Z.mod_mul, Z.div_mul, Nat2Z.id by lia. cbn [Z.eqb assert]. rewrite bind_Done_l.
  rewrite (rsdt_loop_spec s _ ptrs ts 0 (mkFound None None)); try done; [apply Hh|by rewrite Z.mul_0_l, Z.add_0_r].
Qed.

(** ** The search terminates *)

Lemma terminates_scan_region start end_ l s : terminates (scan_region start end_ l s).
Proof.
  induction l as [|p l IH]; cbn; [done|]. destruct (_ <? _); [done|]. apply terminates_bind; [auto with terminates|].
  intros b _. destruct (decide _); [done|]. apply terminates_bind; [auto with terminates|]. intros tb _. by destruct (_ =? _).
Qed.

Lemma terminates_rsdp_search l s : terminates (rsdp_search l s).
Proof.
  induction l as [|[a e] l IH]; cbn; [done|]. apply terminates_bind; [apply terminates_scan_region|]. by intros [] _.
Qed.

Lemma terminates_rsdt_loop entry n payload f s : mem_ok (k_mem s) → terminates (rsdt_loop entry n payload f s).
Proof.
  intros Hm. revert entry f. induction n as [|n IH]; intros entry f; cbn [rsdt_loop]; [done|].
  apply terminates_bind; [auto with terminates|]. intros ptr (_ & _ & Hptr)%read_int_Done.
  assert (is_uint 64 ptr) as Hu.
  { pose proof (from_le_bytes_mem (k_mem s) (add64 payload (Z.of_nat entry * 4)) 4 Hm) as H.
    change (Z.to_nat 4) with 4%nat in Hptr. rewrite <- Hptr in H. unfold is_uint in *. cbn in H. lia. }
  apply terminates_bind; [auto with terminates|]. intros sg _.
  pose proof (parse_madt_terminates ptr s Hm Hu). pose proof (parse_srat_terminates ptr s Hm Hu).
  apply terminates_bind; [|intros; apply IH]. solve_terminates; done.
Qed.

Lemma find_tables_total s : mem_ok (k_mem s) → terminates (find_tables s).
Proof.
  intros Hm. unfold find_tables. apply terminates_bind; [auto with terminates|]. intros ebda _.
  apply terminates_bind; [apply terminates_rsdp_search|]. intros r _.
  apply terminates_bind; [auto with terminates|]. intros rsdp _.
  apply terminates_bind; [auto with terminates|]. intros [[h p] n] _.
  apply terminates_bind; [auto with terminates|]. intros [] _.
  apply terminates_bind; [auto with terminates|]. intros [] _. by apply terminates_rsdt_loop.
Qed.

(** ** The theorems *)

(** C29: whatever bytes are in memory, the search for the tables ends: every
    loop of it either makes progress through its table or panics on the first
    entry or address that is not sane. *)
Theorem find_tables_terminates s : mem_ok (k_mem s) → terminates (find_tables s).
Proof. apply find_tables_total. Qed.

(** C30: on memory in which the first RSDP of the scan leads to an RSDT with at
    most one MADT and one SRAT, the tables are read back as they were written:
    the usable processors in the order of their entries, and the enabled records
    of processors and memory, of either format. *)
Theorem find_tables_spec s p ptrs ts : mem_ok (k_mem s) →
  head (filter (valid_rsdp s) (scan_addrs (ebda_of s))) = Some p →
  table s (rsdt_addr (rsdp_of_bytes (rsdp_bytes s p))) RSDT_SIG (concat (to_le_bytes 4 <$> ptrs)) →
  Forall2 (table_at s) ptrs ts → (length (madts ts) ≤ 1)%nat → (length (srats ts) ≤ 1)%nat →
  find_tables s = Done (mkFound (head (madts ts)) (head (srats ts))).
Proof. apply find_tables_correct. Qed.

(** an SRAT is accepted exactly when no two enabled records are for the same
    processor, and no two are for the same domain: a domain whose memory is in
    two ranges stops the kernel. *)
Theorem parse_srat_spec s ptr es : srat_table s ptr es →
  (unique_records es → parse_srat ptr s = Done (affinities_of es)) ∧
  (~ unique_records es → ∃ msg, parse_srat ptr s = Panic msg).
Proof. apply parse_srat_table. Qed.

(** ** On a small machine *)

(** A table with its length and its checksum filled in. *)
Definition demo_header (signature payload : list Z) : list Z :=
  let pre := signature ++ to_le_bytes 4 (36 + Z.of_nat (length payload)) in
  pre ++ [1; (- foldr Z.add 0 (pre ++ [1] ++ payload)) mod 256] ++ replicate 26 0.

Definition demo_rsdp (addr : Z) : list Z :=
  let b := to_le_bytes 4 addr in
  RSD_PTR ++ [(- foldr Z.add 0 (RSD_PTR ++ b)) mod 256] ++ replicate 7 0 ++ b ++ replicate 16 0.

Definition demo_ics : list Ics := [Lapic 0 0 1; Lapic 1 1 0; OtherIcs 1 [7; 7]; X2Apic 0 300 2 9].
Definition demo_sra : list Sra :=
  [SraLapic 0x102 0 1 0 0; SraMem 0x102 0 0 0x80000000 0 1 0; SraX2Apic 0 1 300 1 0 0; SraMem 1 0 0x80000000 0x1000 0 0 0].

Definition demo_madt : list Z := replicate 8 0 ++ concat (ics_bytes <$> demo_ics) ++ [5; 9].
Definition demo_srat : list Z := replicate 12 0 ++ concat (sra_bytes <$> demo_sra).
Definition demo_ptrs : list Z := [0x101000; 0x102000; 0x103000].

Definition demo_memory : mem :=
  write_bytes (write_bytes (write_bytes (write_bytes (write_bytes ∅
    0xe0010 (demo_rsdp 0x100000))
    0x100000 (demo_header RSDT_SIG (concat (to_le_bytes 4 <$> demo_ptrs)) ++ concat (to_le_bytes 4 <$> demo_ptrs)))
    0x101000 (demo_header SRAT_SIG demo_srat ++ demo_srat))
    0x102000 [0x46; 0x41; 0x43; 0x50])
    0x103000 (demo_header APIC_SIG demo_madt ++ demo_madt).

Definition demo_machine : Kernel := mkKernel demo_memory None 0 [] None 0xffffffff None 0.

Lemma demo_mem_ok : mem_ok demo_memory.
Proof.
  assert (mem_ok ∅) as H0 by (intros x; unfold mem_byte; rewrite lookup_empty; by_decide).
  unfold demo_memory. do 5 (apply write_bytes_ok; [|by_decide]). exact H0.
Qed.

Lemma demo_holds a b : bool_decide (0 ≤ a ∧ a + Z.of_nat (length b) ≤ KERNEL_PHYS_WINDOW_SIZE ∧
  read_bytes demo_memory a (length b) = b) = true → holds demo_machine a b.
Proof. intros H. exact (proj1 (bool_decide_eq_true _) H). Qed.

Lemma demo_table a signature payload :
  bool_decide (length (demo_header signature payload) = 36%nat ∧ field (demo_header signature payload) 0 4 = signature ∧
    field_le (demo_header signature payload) 4 4 = 36 + Z.of_nat (length payload) ∧
    sum8 (demo_header signature payload ++ payload) = 0) = true →
  holds demo_machine a (demo_header signature payload ++ payload) → table demo_machine a signature payload.
Proof.
  intros (H1 & H2 & H3 & H4)%bool_decide_eq_true Hh. exists (demo_header signature payload). auto.
Qed.

Lemma demo_srat_table : srat_table demo_machine 0x101000 demo_sra.
Proof.
  split; [repeat constructor; by_decide || (cbn; unfold is_uint; lia)|]. exists (replicate 12 0), [].
  split; [reflexivity|]. split; [left; cbn; lia|]. rewrite app_nil_r.
  apply demo_table; [vm_compute; reflexivity|]. apply demo_holds. vm_compute. reflexivity.
Qed.

Lemma demo_madt_table : madt_table demo_machine 0x103000 demo_ics.
Proof.
  split; [repeat constructor; by_decide || (cbn; unfold is_uint; lia)|]. exists (replicate 8 0), [5; 9].
  split; [reflexivity|]. split; [right; cbn; lia|].
  apply demo_table; [vm_compute; reflexivity|]. apply demo_holds. vm_compute. reflexivity.
Qed.

Lemma demo_rsdp_found : head (filter (valid_rsdp demo_machine) (scan_addrs (ebda_of demo_machine))) = Some 0xe0010.
Proof. vm_compute. reflexivity. Qed.

Lemma demo_unique : unique_records demo_sra.
Proof. split; apply (bool_decide_unpack _); vm_compute; exact I. Qed.

Lemma find_tables_terminates_witness : terminates (find_tables demo_machine).
Proof. apply find_tables_terminates. exact demo_mem_ok. Defined.

Lemma find_tables_spec_witness :
  find_tables demo_machine = Done (mkFound (Some [0; 300]) (Some (affinities_of demo_sra))).
Proof.
  apply (find_tables_spec demo_machine 0xe0010 demo_ptrs [TSrat demo_sra; TOther [0x46; 0x41; 0x43; 0x50]; TMadt demo_ics]).
  - exact demo_mem_ok.
  - exact demo_rsdp_found.
  - apply demo_table; [vm_compute; reflexivity|]. apply demo_holds. vm_compute. reflexivity.
  - apply Forall2_cons. split; [split; [by_decide|exact (conj demo_srat_table demo_unique)]|].
    apply Forall2_cons. split; [split; [by_decide|]|].
    { split; [apply demo_holds; vm_compute; reflexivity|]. split; [reflexivity|]. split; discriminate. }
    apply Forall2_cons. split; [split; [by_decide|exact demo_madt_table]|constructor].
  - vm_compute. lia.
  - vm_compute. lia.
Defined.

(** A second range of the same domain. *)
Definition demo_two_ranges : list Sra := [SraMem 0 0 0 0xa0000 0 1 0; SraMem 0 0 0x100000 0x1000 0 1 0].
Definition demo_machine2 : Kernel :=
  let b := replicate 12 0 ++ concat (sra_bytes <$> demo_two_ranges) in
  mkKernel (write_bytes ∅ 0x101000 (demo_header SRAT_SIG b ++ b)) None 0 [] None 0xffffffff None 0.

Lemma parse_srat_spec_witness : ∃ msg, parse_srat 0x101000 demo_machine2 = Panic msg.
Proof.
  apply (parse_srat_spec demo_machine2 0x101000 demo_two_ranges).
  - split; [repeat constructor; cbn; unfold is_uint; lia|]. exists (replicate 12 0), [].
    split; [reflexivity|]. split; [left; cbn; lia|]. rewrite app_nil_r.
    eexists (demo_header SRAT_SIG (replicate 12 0 ++ concat (sra_bytes <$> demo_two_ranges))).
    split; [reflexivity|]. split; [reflexivity|]. split; [reflexivity|]. split; [vm_compute; reflexivity|].
    apply (bool_decide_unpack _). vm_compute. exact I.
  - intros [_ H]. assert (~ NoDup [0; 0]) as Hn by (intros Hd; by apply NoDup_cons in Hd as [[]%not_elem_of_cons _]).
    apply Hn. exact H.
Defined.
