(* ===== verification/Interrupts.v ===== *)
(** * Interrupts (kernel/src/interrupts.rs)

    The handler tables and the EOI table, the GDT with its TSS and the IDT that
    [init] builds, and the dispatch of an interrupt.  The tables are read back
    the way the processor decodes them. *)

From stdpp Require Import base tactics option list numbers strings.
From Stdlib Require Import ZArith Lia.
From S2P Require Import Prelude MachineInt Bytes KernelMm CoreLocals Acpi.

Local Open Scope Z_scope.

Definition X64_INTERRUPT_GATE : Z := 0xe.

(** ** Handlers *)

(** [dispatch]: the address of the routine of each vector. *)
Abbreviation Interrupts := (list (option Z)).

Definition add_handler (num handler : Z) (needs_eoi : bool) (dispatch : Interrupts) (eoi : list bool)
    : outcome (Interrupts * list bool) :=
  h ← index dispatch (Z.to_nat num);
  assert (match h with None => true | Some _ => false end) "Interrupt handler already installed";;
  dispatch ← index_set dispatch (Z.to_nat num) (Some handler);
  eoi ← index_set eoi (Z.to_nat num) needs_eoi;
  Done (dispatch, eoi).

Definition remove_handler (num handler : Z) (dispatch : Interrupts) (eoi : list bool)
    : outcome (Interrupts * list bool) :=
  h ← index dispatch (Z.to_nat num);
  assert (bool_decide (h = Some handler)) "Handler not installed or did not match for deregister";;
  dispatch ← index_set dispatch (Z.to_nat num) None;
  eoi ← index_set eoi (Z.to_nat num) false;
  Done (dispatch, eoi).

(** [ret[idx] |= (val as u128) << bit] for each vector *)
Fixpoint eoi_loop (ii n : nat) (eoi : list bool) (ret : list Z) : outcome (list Z) :=
  match n with
  | O => Done ret
  | S n =>
      let idx := (ii / 128)%nat in
      let bit := (ii mod 128)%nat in
      v ← index eoi ii;
      r ← index ret idx;
      ret ← index_set ret idx (Z.lor r (shl 128 (Z.b2z v) (Z.of_nat bit)));
      eoi_loop (S ii) n eoi ret
  end.
Definition eoi_required (eoi : list bool) : outcome (list Z) := eoi_loop 0 256 eoi [0; 0].

(** ** Descriptor tables *)

Record IDTEntry := mkIDTEntry { idt0 : Z; idt1 : Z; idt2 : Z; idt3 : Z }.

Definition idt_entry_new (cs offset ist typ dpl : Z) : outcome IDTEntry :=
  assert (ist <? 8) "Invalid IDTEntry IST";;
  assert (typ <? 32) "Invalid IDTEntry type";;
  assert (dpl <? 4) "Invalid IDTEntry dpl";;
  Done (mkIDTEntry
    (Z.lor (shl 32 cs 16) (wrap 32 (Z.land offset 0xffff)))
    (Z.lor (Z.lor (Z.lor (Z.lor (wrap 32 (Z.land offset 0xffff0000)) (Z.shiftl 1 15)) (shl 32 dpl 13)) (shl 32 typ 8)) ist)
    (wrap 32 (Z.shiftr offset 32))
    0).

(** [size_of::<Tss>()] and the offset of [ist[0]] *)
Definition TSS_SIZE : Z := 104.

(** The TSS of [init]: [Default] with the end of the critical stack in [ist[0]] *)
Definition tss_bytes (ist0 : Z) : list Z := replicate 36 0 ++ to_le_bytes 8 ist0 ++ replicate 60 0.

Definition tss_low (tss_base : Z) : Z :=
  Z.lor (Z.lor (Z.lor 0x890000000000 (shl 64 (Z.land (Z.shiftr tss_base 24) 0xff) 56))
    (shl 64 (Z.land tss_base 0xffffff) 16)) (TSS_SIZE - 1).
Definition tss_high (tss_base : Z) : Z := Z.shiftr tss_base 32.

Definition gdt_entries (tss_base : Z) : list Z :=
  [0x0000000000000000; 0x00009a007c00ffff; 0x000092000000ffff; 0x00cf9a000000ffff; 0x00cf92000000ffff;
   0x00209a0000000000; 0x0000920000000000] ++ [tss_low tss_base; tss_high tss_base].

(** [TablePtr]: the limit and the address [lgdt] and [lidt] load *)
Record TablePtr := mkTablePtr { limit : Z; base : Z }.

Definition ist_for (int_id : nat) : Z := if decide (int_id = 2 ∨ int_id = 8 ∨ int_id = 18)%nat then 1 else 0.

Fixpoint idt_loop (int_id n : nat) (handlers : list Z) (idt : list IDTEntry) : outcome (list IDTEntry) :=
  match n with
  | O => Done idt
  | S n =>
      h ← index handlers int_id;
      e ← idt_entry_new 0x28 h (ist_for int_id) X64_INTERRUPT_GATE 0;
      idt_loop (S int_id) n handlers (idt ++ [e])
  end.

(** What [init] loads into the processor, and leaves in memory. *)
Record Tables := mkTables {
  gdt : list Z; gdt_ptr : TablePtr; tr : Z; tss : list Z; idt : list IDTEntry; idt_ptr : TablePtr; dispatch : Interrupts }.

(** [init], with the addresses its allocations got; [handlers] is
    [INT_HANDLERS]. *)
Definition init (tss_base crit_stack crit_capacity gdt_addr idt_addr : Z) (handlers : list Z)
    (interrupts : option Interrupts) : outcome Tables :=
  assert (match interrupts with None => true | Some _ => false end) "Interrupts have already been initialized";;
  let tss := tss_bytes (wrapping_add 64 crit_stack crit_capacity) in
  let gdt := gdt_entries tss_base in
  let gdt_ptr := mkTablePtr (wrapping_sub 16 (wrap 16 (Z.of_nat (length gdt) * 8)) 1) gdt_addr in
  idt ← idt_loop 0 256 handlers [];
  assert (Z.of_nat (length idt) * 16 =? 4096) "assertion failed";;
  Done (mkTables gdt gdt_ptr 0x38 tss idt (mkTablePtr 0xfff idt_addr) (replicate 256 None)).

(** [INT_HANDLERS]: the entry points in the order of the vectors;
    [vec_interrupt n] is the address of [vec_interrupt_n]. *)
Definition INT_HANDLERS (vec_interrupt : nat → Z) : list Z := vec_interrupt <$> seq 0 256.

(** ** Dispatch *)

Record InterruptFrame := mkInterruptFrame { i_rip : Z; i_cs : Z; i_rflags : Z; i_rsp : Z; i_ss : Z }.

(** [AllRegs], in the order of the declaration *)
Record AllRegs := mkAllRegs { xmms : list Z; gprs : list Z }.

Section dispatch.
Context {W : Type}.

(** The state a handler runs on: the core, [APICS] and the rest of [acpi.rs],
    this core's table ([i_locked]: its lock is taken), the EOI tables, and the
    rest of the machine, on which [Apic::eoi] and the routines act. *)
Record IntState := mkIntState {
  i_core : CoreLocals; i_cores : Cores; i_table : option Interrupts; i_locked : bool;
  i_eoi : list bool; i_draining : bool; i_world : W }.

Definition set_core (l : CoreLocals) (s : IntState) : IntState :=
  mkIntState l (i_cores s) (i_table s) (i_locked s) (i_eoi s) (i_draining s) (i_world s).
Definition set_cores (c : Cores) (s : IntState) : IntState :=
  mkIntState (i_core s) c (i_table s) (i_locked s) (i_eoi s) (i_draining s) (i_world s).
Definition set_world (w : W) (s : IntState) : IntState :=
  mkIntState (i_core s) (i_cores s) (i_table s) (i_locked s) (i_eoi s) (i_draining s) w.

Variable apic_eoi : W → W.
(** The routine at an address, on (number, frame, error code, registers) *)
Variable invoke : Z → Z → InterruptFrame → Z → AllRegs → IntState → outcome (IntState * InterruptFrame * AllRegs * bool).

Inductive handler_result :=
| Returned (s : IntState) (frame : InterruptFrame) (regs : AllRegs)
| HaltedForever (s : IntState).

(** The end of the function: the guards are dropped. *)
Definition return_handler (number : Z) (frame : InterruptFrame) (regs : AllRegs) (s : IntState) : outcome handler_result :=
  l ← leave (number <? 32) (i_core s); Done (Returned (set_core l s) frame regs).

(** The part after the routine: the EOI, and the fatal case. *)
Definition finish (number : Z) (frame : InterruptFrame) (regs : AllRegs) (handled draining_eois : bool) (s : IntState)
    : outcome handler_result :=
  required ← index (i_eoi s) (Z.to_nat number);
  let s := if required : bool then set_world (apic_eoi (i_world s)) s else s in
  if required && draining_eois then return_handler number frame regs s else
  if handled then return_handler number frame regs s else
  Panic "Interrupt".

Definition interrupt_handler (number : Z) (frame : InterruptFrame) (error : Z) (regs : AllRegs) (s : IntState)
    : outcome handler_result :=
  l ← enter (number <? 32) (i_core s);
  let s := set_core l s in
  if number =? 2 then
    if cl_id (i_core s) =? 0 then Panic "Panic occured on another core" else
    own ← unwrap (apic_id (cl_apic_id (i_core s)));
    c ← set_core_state own Halted (i_cores s);
    Done (HaltedForever (set_cores c s))
  else
  let draining_eois := i_draining s in
  '(s, frame, regs, handled) ←
    (if draining_eois then Done (s, frame, regs, false) else
     assert (negb (i_locked s)) "Failed to get interrupts lock";;
     table ← unwrap (i_table s);
     handler ← index table (Z.to_nat number);
     match handler with
     | Some handler => invoke handler number frame error regs s
     | None => Done (s, frame, regs, false)
     end);
  finish number frame regs handled draining_eois s.
End dispatch.

(** ** How the processor reads the tables *)

(** A gate: the selector and the offset of the routine, the stack, the type (with
    the system bit), the privilege level, the present bit. *)
Record Gate := mkGate { g_selector : Z; g_offset : Z; g_ist : Z; g_type : Z; g_dpl : Z; g_present : bool }.

Definition decode_gate (e : IDTEntry) : Gate :=
  mkGate (idt0 e / 2 ^ 16) (idt0 e mod 2 ^ 16 + idt1 e / 2 ^ 16 * 2 ^ 16 + idt2 e * 2 ^ 32)
    (idt1 e mod 2 ^ 3) ((idt1 e / 2 ^ 8) mod 2 ^ 5) ((idt1 e / 2 ^ 13) mod 2 ^ 2) (Z.testbit (idt1 e) 15).

Lemma idt_entry_words cs offset ist typ dpl :
  is_uint 16 cs → is_uint 64 offset → 0 ≤ ist < 8 → 0 ≤ typ < 32 → 0 ≤ dpl < 4 →
  idt_entry_new cs offset ist typ dpl = Done (mkIDTEntry (cs * 2 ^ 16 + offset mod 2 ^ 16)
    ((offset / 2 ^ 16) mod 2 ^ 16 * 2 ^ 16 + 2 ^ 15 + dpl * 2 ^ 13 + typ * 2 ^ 8 + ist) (offset / 2 ^ 32) 0).
Proof.
  unfold is_uint. intros Hcs Hoff Hist Htyp Hdpl. unfold idt_entry_new.
  rewrite !(proj2 (Z.ltb_lt _ _)) by lia. cbn [assert]. rewrite !bind_Done_l. unfold shl.
  rewrite !Z.shiftl_mul_pow2, Z.shiftr_div_pow2 by lia.
  change 0xffff with (2 ^ 16 - 1). rewrite land_mask_mod by lia.
  change 0xffff0000 with (Z.shiftl (2 ^ 16 - 1) 16). rewrite land_field by lia.
  pose proof (Z.mod_pos_bound offset (2 ^ 16) ltac:(lia)). pose proof (Z.mod_pos_bound (offset / 2 ^ 16) (2 ^ 16) ltac:(lia)).
  assert (0 ≤ offset / 2 ^ 32 < 2 ^ 32) by (split; [apply Z.div_pos; lia|apply Z.div_lt_upper_bound; lia]).
  rewrite !wrap_small by (unfold is_uint; lia). do 2 f_equal.
  - rewrite (lor_disjoint _ _ 16); [lia..|]. apply Z.mod_mul. lia.
  - set (o := (offset / 2 ^ 16) mod 2 ^ 16) in *.
    rewrite (lor_disjoint (o * 2 ^ 16) _ 16) by (lia || (apply Z.mod_mul; lia)).
    rewrite (lor_disjoint _ (dpl * 2 ^ 13) 15) by (lia || (Z.to_euclidean_division_equations; lia)).
    rewrite (lor_disjoint _ (typ * 2 ^ 8) 13) by (lia || (Z.to_euclidean_division_equations; lia)).
    rewrite (lor_disjoint _ ist 8) by (lia || (Z.to_euclidean_division_equations; lia)). lia.
Qed.

Lemma decode_gate_new cs offset ist typ dpl :
  is_uint 16 cs → is_uint 64 offset → 0 ≤ ist < 8 → 0 ≤ typ < 32 → 0 ≤ dpl < 4 →
  ∃ e, idt_entry_new cs offset ist typ dpl = Done e ∧ decode_gate e = mkGate cs offset ist typ dpl true.
Proof.
  intros Hcs Hoff Hist Htyp Hdpl. rewrite idt_entry_words by done. eexists. split; [done|].
  unfold decode_gate, is_uint in *. cbn [idt0 idt1 idt2]. f_equal.
  - Z.to_euclidean_division_equations; lia.
  - Z.to_euclidean_division_equations; lia.
  - Z.to_euclidean_division_equations; lia.
  - Z.to_euclidean_division_equations; lia.
  - Z.to_euclidean_division_equations; lia.
  - apply Z.testbit_true; [lia|]. Z.to_euclidean_division_equations; lia.
Qed.

(** A system descriptor of 16 bytes: base, limit, type, present bit. *)
Definition decode_system (low high : Z) : Z * Z * Z * bool :=
  ((low / 2 ^ 16) mod 2 ^ 24 + low / 2 ^ 56 * 2 ^ 24 + high mod 2 ^ 32 * 2 ^ 32,
   low mod 2 ^ 16 + (low / 2 ^ 48) mod 2 ^ 4 * 2 ^ 16, (low / 2 ^ 40) mod 2 ^ 5, Z.testbit low 47).

Lemma tss_low_sum b : is_uint 64 b →
  tss_low b = (b / 2 ^ 24) mod 2 ^ 8 * 2 ^ 56 + 0x89 * 2 ^ 40 + b mod 2 ^ 24 * 2 ^ 16 + 103.
Proof.
  unfold is_uint. intros Hb. unfold tss_low, shl, TSS_SIZE. rewrite !Z.shiftl_mul_pow2, Z.shiftr_div_pow2 by lia.
  change 0xff with (2 ^ 8 - 1). change 0xffffff with (2 ^ 24 - 1). rewrite !land_mask_mod by lia.
  pose proof (Z.mod_pos_bound (b / 2 ^ 24) (2 ^ 8) ltac:(lia)) as H1. pose proof (Z.mod_pos_bound b (2 ^ 24) ltac:(lia)) as H2.
  set (x := (b / 2 ^ 24) mod 2 ^ 8) in *. set (y := b mod 2 ^ 24) in *. clearbody x y.
  rewrite !wrap_small by (unfold is_uint; lia). rewrite (Z.lor_comm 0x890000000000).
  rewrite (lor_disjoint (x * 2 ^ 56) _ 56) by (lia || (apply Z.mod_mul; lia)).
  rewrite (lor_disjoint _ (y * 2 ^ 16) 40) by (lia || (Z.to_euclidean_division_equations; lia)).
  rewrite (lor_disjoint _ (104 - 1) 16) by (lia || (Z.to_euclidean_division_equations; lia)). lia.
Qed.

Lemma decode_tss b : is_uint 64 b → decode_system (tss_low b) (tss_high b) = (b, TSS_SIZE - 1, 9, true).
Proof.
  intros Hb. unfold decode_system, tss_high, TSS_SIZE. rewrite (tss_low_sum b Hb), Z.shiftr_div_pow2 by lia. unfold is_uint in Hb.
  pose proof (Z.mod_pos_bound (b / 2 ^ 24) (2 ^ 8) ltac:(lia)) as H1. pose proof (Z.mod_pos_bound b (2 ^ 24) ltac:(lia)) as H2.
  assert (b = b mod 2 ^ 24 + (b / 2 ^ 24) mod 2 ^ 8 * 2 ^ 24 + (b / 2 ^ 32) mod 2 ^ 32 * 2 ^ 32) as Hdec
    by (Z.to_euclidean_division_equations; lia).
  set (x := (b / 2 ^ 24) mod 2 ^ 8) in *. set (y := b mod 2 ^ 24) in *. set (z := (b / 2 ^ 32) mod 2 ^ 32) in *.
  clearbody x y z. f_equal; [f_equal; [f_equal|]|].
  - rewrite Hdec. Z.to_euclidean_division_equations; lia.
  - Z.to_euclidean_division_equations; lia.
  - Z.to_euclidean_division_equations; lia.
  - apply Z.testbit_true; [lia|]. Z.to_euclidean_division_equations; lia.
Qed.

(** The gates that are pushed. *)
Lemma idt_loop_spec int_id n handlers acc : (int_id + n ≤ length handlers)%nat → Forall (is_uint 64) handlers →
  ∃ l, idt_loop int_id n handlers acc = Done (acc ++ l) ∧ length l = n ∧
    ∀ i h, (i < n)%nat → handlers !! (int_id + i)%nat = Some h →
      decode_gate <$> l !! i = Some (mkGate 0x28 h (ist_for (int_id + i)) X64_INTERRUPT_GATE 0 true).
Proof.
  intros Hl Hu. revert int_id acc Hl. induction n as [|n IH]; intros int_id acc Hl; cbn [idt_loop].
  { exists []. rewrite app_nil_r. split; [done|]. split; [done|]. intros i h Hi. lia. }
  destruct (lookup_lt_is_Some_2 handlers int_id ltac:(lia)) as [h Hh]. rewrite (index_eq _ _ _ Hh), bind_Done_l.
  assert (0 ≤ ist_for int_id < 8) as Hist by (unfold ist_for; case_decide; lia).
  destruct (decode_gate_new 0x28 h (ist_for int_id) X64_INTERRUPT_GATE 0) as (e & -> & He);
    [by_decide|by eapply Forall_lookup_1|done|unfold X64_INTERRUPT_GATE; lia|lia|]. rewrite bind_Done_l.
  destruct (IH (S int_id) (acc ++ [e]) ltac:(lia)) as (l & -> & Hlen & Hi). exists (e :: l).
  split; [by rewrite <- app_assoc|]. split; [cbn; lia|]. intros [|i] h' Hlt Hh'.
  - rewrite Nat.add_0_r in *. rewrite Hh in Hh'. injection Hh' as <-. cbn. by rewrite He.
  - replace (int_id + S i)%nat with (S int_id + i)%nat in * by lia. by apply (Hi i h'); [lia|].
Qed.

(** [init] builds tables the processor reads as intended: each of the 256
    vectors has a present interrupt gate of the kernel's code segment to its
    entry point, on the critical stack exactly for NMI, double fault and machine
    check; the task register's descriptor is the TSS, present and available, at
    its address and with its size, and its first stack is the end of the critical
    stack.  A second call panics. *)
Theorem descriptors_roundtrip tss_base crit_stack crit_capacity gdt_addr idt_addr handlers interrupts :
  length handlers = 256%nat → Forall (is_uint 64) handlers → is_uint 64 tss_base →
  is_uint 64 (crit_stack + crit_capacity) →
  let o := init tss_base crit_stack crit_capacity gdt_addr idt_addr handlers interrupts in
  match interrupts with
  | Some _ => o = Panic "Interrupts have already been initialized"
  | None => ∃ t, o = Done t ∧ limit (idt_ptr t) = Z.of_nat (length (idt t)) * 16 - 1 ∧ dispatch t = replicate 256 None ∧
      (∀ n h, handlers !! n = Some h → decode_gate <$> idt t !! n =
         Some (mkGate 0x28 h (if decide (n = 2 ∨ n = 8 ∨ n = 18)%nat then 1 else 0) X64_INTERRUPT_GATE 0 true)) ∧
      limit (gdt_ptr t) = Z.of_nat (length (gdt t)) * 8 - 1 ∧
      (∃ low high, gdt t !! Z.to_nat (tr t / 8) = Some low ∧ gdt t !! S (Z.to_nat (tr t / 8)) = Some high ∧
         decode_system low high = (tss_base, Z.of_nat (length (tss t)) - 1, 9, true)) ∧
      from_le_bytes (field (tss t) 36 8) = crit_stack + crit_capacity
  end.
Proof.
  intros Hl Hu Ht Hc. cbn zeta. unfold init. destruct interrupts as [d|]; [done|]. cbn [assert]. rewrite bind_Done_l.
  destruct (idt_loop_spec 0 256 handlers []) as (l & -> & Hlen & Hi); [lia|done|]. rewrite bind_Done_l. cbn [app].
  rewrite Hlen. cbn [assert Z.eqb]. change (Z.of_nat 256 * 16 =? 4096) with true. cbn [assert]. rewrite bind_Done_l.
  eexists. split; [done|]. cbn [idt_ptr limit idt gdt gdt_ptr tr tss dispatch]. rewrite Hlen.
  split; [done|]. split; [done|]. split; [|split; [done|split]].
  - intros n h Hn. rewrite (Hi n h); [done| |done]. apply lookup_lt_Some in Hn. lia.
  - eexists _, _. split; [done|]. split; [done|]. rewrite decode_tss by done. reflexivity.
  - rewrite wrapping_add_small by done. change (field (tss_bytes ?x) 36 8) with (to_le_bytes 8 x).
    by apply from_to_le_bytes.
Qed.

(** ** The dispatch *)

Lemma enter_returns exc l : 0 ≤ interrupt_depth l < 2 ^ 64 - 1 → 0 ≤ exception_depth l < 2 ^ 64 - 1 →
  enter exc l = Done (set_depths (interrupt_depth l + 1) (if exc then exception_depth l + 1 else exception_depth l) l).
Proof.
  intros Hi He. assert (∀ c, 0 ≤ c < 2 ^ 64 - 1 → increment c = Done (c + 1)) as Hinc.
  { intros c Hc. unfold increment, checked_add. rewrite (proj2 (Z.ltb_lt _ _)) by lia. cbn [expect]. rewrite bind_Done_l.
    by rewrite wrapping_add_small by (unfold is_uint; lia). }
  unfold enter, enter_interrupt, enter_exception. rewrite (Hinc (interrupt_depth l)) by done. rewrite !bind_Done_l.
  destruct exc; [|done]. cbn [exception_depth set_depths]. by rewrite (Hinc (exception_depth l)) by done.
Qed.

(** The guards give the counters back. *)
Lemma leave_enter exc l l' : 0 ≤ interrupt_depth l < 2 ^ 64 - 1 → 0 ≤ exception_depth l < 2 ^ 64 - 1 →
  enter exc l = Done l' → leave exc l' = Done l.
Proof.
  intros Hi He. rewrite enter_returns by done. intros <-%Done_inj.
  assert (∀ c, 0 ≤ c < 2 ^ 64 - 1 → guard_drop (c + 1) = Done c) as Hg.
  { intros c Hc. unfold guard_drop, checked_sub. rewrite (proj2 (Z.leb_le _ _)) by lia. cbn [expect]. rewrite bind_Done_l.
    rewrite wrapping_sub_small by (unfold is_uint; lia). f_equal. lia. }
  unfold leave, exit_exception, exit_interrupt. destruct exc; cbn [exception_depth interrupt_depth set_depths];
    rewrite ?(Hg (exception_depth l)), ?bind_Done_l by done; cbn [exception_depth interrupt_depth set_depths];
    rewrite (Hg (interrupt_depth l)), bind_Done_l by done; by destruct l.
Qed.

Section dispatch_spec.
Context {W : Type} (apic_eoi : W → W).
Context (invoke : Z → Z → InterruptFrame → Z → AllRegs → IntState (W := W) → outcome (IntState (W := W) * InterruptFrame * AllRegs * bool)).
Implicit Types s : IntState (W := W).

(** A routine drops the guards it takes, and the EOI table keeps its size. *)
Definition balanced : Prop := ∀ h number frame error regs s s' frame' regs' b,
  invoke h number frame error regs s = Done (s', frame', regs', b) → i_core s' = i_core s ∧ length (i_eoi s') = length (i_eoi s).

(** The vector is EOIed where it has to be. *)
Definition after_eoi (number : Z) s : IntState (W := W) :=
  if nth (Z.to_nat number) (i_eoi s) false then set_world (apic_eoi (i_world s)) s else s.

Lemma set_core_id s : set_core (i_core s) s = s.
Proof. by destruct s. Qed.

Lemma index_nth {A} (l : list A) i d : (i < length l)%nat → index l i = Done (nth i l d).
Proof.
  intros Hi. apply index_eq. destruct (lookup_lt_is_Some_2 l i Hi) as [x Hx]. by rewrite Hx, (nth_lookup_Some _ _ d x Hx).
Qed.

Lemma finish_eq l number frame regs s handled draining : length (i_eoi s) = 256%nat → 0 ≤ number < 256 →
  leave (number <? 32) (i_core s) = Done l →
  finish apic_eoi number frame regs handled draining s =
  if (nth (Z.to_nat number) (i_eoi s) false && draining) || handled
  then Done (Returned (set_core l (after_eoi number s)) frame regs) else Panic "Interrupt".
Proof.
  intros He Hn Hl. unfold finish. rewrite (index_nth _ _ false), bind_Done_l by lia. unfold return_handler, after_eoi.
  destruct (nth (Z.to_nat number) (i_eoi s) false); cbn zeta; cbn [i_core set_world andb]; rewrite ?Hl, ?bind_Done_l;
    by destruct draining, handled.
Qed.

End dispatch_spec.

(** ** The EOI bitmap *)

Lemma testbit_shl_bool (v : bool) b i : (b < 128)%nat → 0 ≤ i →
  Z.testbit (shl 128 (Z.b2z v) (Z.of_nat b)) i = (i =? Z.of_nat b) && v.
Proof.
  intros Hb Hi. unfold shl. rewrite Z.shiftl_mul_pow2 by lia.
  destruct v; [|by rewrite andb_false_r, Z.mul_0_l, wrap_small, Z.bits_0 by (unfold is_uint; lia)].
  rewrite Z.mul_1_l, wrap_small by (unfold is_uint; pose proof (Z.pow_lt_mono_r 2 (Z.of_nat b) 128); lia).
  rewrite andb_true_r. destruct (Z.eqb_spec i (Z.of_nat b)) as [->|Hne]; [by rewrite Z.pow2_bits_true by lia|].
  by rewrite Z.pow2_bits_false by lia.
Qed.

(** After the first [ii] vectors, the bits of exactly those are in place. *)
Lemma eoi_loop_spec ii n eoi lo hi : length eoi = (ii + n)%nat → (ii + n ≤ 256)%nat →
  (∀ i, (i < 128)%nat → Z.testbit lo (Z.of_nat i) = (i <? ii)%nat && nth i eoi false) →
  (∀ i, (i < 128)%nat → Z.testbit hi (Z.of_nat i) = (128 + i <? ii)%nat && nth (128 + i) eoi false) →
  ∃ lo' hi', eoi_loop ii n eoi [lo; hi] = Done [lo'; hi'] ∧
    (∀ i, (i < 128)%nat → Z.testbit lo' (Z.of_nat i) = (i <? ii + n)%nat && nth i eoi false) ∧
    (∀ i, (i < 128)%nat → Z.testbit hi' (Z.of_nat i) = (128 + i <? ii + n)%nat && nth (128 + i) eoi false).
Proof.
  revert ii lo hi. induction n as [|n IH]; intros ii lo hi Hl Hn H1 H2; cbn [eoi_loop].
  { exists lo, hi. by rewrite Nat.add_0_r. }
  rewrite (index_nth eoi ii false), bind_Done_l by lia. replace (ii + S n)%nat with (S ii + n)%nat in * by lia.
  assert (ii mod 128 < 128)%nat as Hb by (apply Nat.mod_upper_bound; lia).
  pose proof (Nat.div_mod_eq ii 128) as Hdm. set (v := nth ii eoi false).
  assert (ii / 128 = 0 ∨ ii / 128 = 1)%nat as [E|E].
  { assert (ii / 128 < 2)%nat by (apply Nat.Div0.div_lt_upper_bound; lia). lia. }
  - rewrite E in *. cbn [index lookup list_lookup expect]. rewrite bind_Done_l.
    unfold index_set. rewrite decide_True by (cbn; lia). rewrite bind_Done_l. cbn [insert list_insert].
    apply IH; [lia|lia| |].
    + intros i Hi. rewrite Z.lor_spec, testbit_shl_bool, H1 by lia. unfold v.
      destruct (Z.eqb_spec (Z.of_nat i) (Z.of_nat (ii mod 128))) as [Ei|Ei].
      * replace i with ii by lia. rewrite (proj2 (Nat.ltb_ge ii ii)), (proj2 (Nat.ltb_lt ii (S ii))) by lia. done.
      * cbn [andb]. rewrite orb_false_r. f_equal.
        destruct (Nat.ltb_spec i ii), (Nat.ltb_spec i (S ii)); lia || done.
    + intros i Hi. rewrite H2 by lia. rewrite !(proj2 (Nat.ltb_ge (128 + i) _)) by lia. done.
  - rewrite E in *. cbn [index lookup list_lookup expect]. rewrite bind_Done_l.
    unfold index_set. rewrite decide_True by (cbn; lia). rewrite bind_Done_l. cbn [insert list_insert].
    apply IH; [lia|lia| |].
    + intros i Hi. rewrite H1 by lia. rewrite !(proj2 (Nat.ltb_lt i _)) by lia. done.
    + intros i Hi. rewrite Z.lor_spec, testbit_shl_bool, H2 by lia. unfold v.
      destruct (Z.eqb_spec (Z.of_nat i) (Z.of_nat (ii mod 128))) as [Ei|Ei].
      * replace (128 + i)%nat with ii by lia. rewrite (proj2 (Nat.ltb_ge ii ii)), (proj2 (Nat.ltb_lt ii (S ii))) by lia. done.
      * cbn [andb]. rewrite orb_false_r. f_equal.
        destruct (Nat.ltb_spec (128 + i) ii), (Nat.ltb_spec (128 + i) (S ii)); lia || done.
Qed.

Lemma eoi_required_spec eoi : length eoi = 256%nat → ∃ lo hi, eoi_required eoi = Done [lo; hi] ∧
  (∀ i, (i < 128)%nat → Z.testbit lo (Z.of_nat i) = nth i eoi false ∧ Z.testbit hi (Z.of_nat i) = nth (128 + i) eoi false).
Proof.
  intros Hl. destruct (eoi_loop_spec 0 256 eoi 0 0) as (lo & hi & E & H1 & H2); [lia|lia|..].
  { intros i _. by rewrite Z.bits_0. }
  { intros i _. rewrite Z.bits_0. by rewrite (proj2 (Nat.ltb_ge _ _)) by lia. }
  exists lo, hi. split; [exact E|]. intros i Hi. rewrite H1, H2 by lia.
  rewrite (proj2 (Nat.ltb_lt i _)), (proj2 (Nat.ltb_lt (128 + i) _)) by lia. done.
Qed.

(** ** Witnesses *)

Definition demo_handlers : list Z := INT_HANDLERS (λ n, 0xffffcafe00200000 + 16 * Z.of_nat n).

Lemma descriptors_roundtrip_witness : ∃ t, init 0xffff900000001000 0x1000 0x8000 0x2000 0x3000 demo_handlers None = Done t ∧
  decode_gate <$> idt t !! 8%nat = Some (mkGate 0x28 0xffffcafe00200080 1 14 0 true).
Proof.
  destruct (descriptors_roundtrip 0xffff900000001000 0x1000 0x8000 0x2000 0x3000 demo_handlers None eq_refl) as (t & E & _ & _ & Hg & _);
    [by_decide..|]. exists t. split; [exact E|]. rewrite (Hg 8%nat 0xffffcafe00200080 eq_refl). reflexivity.
Defined.

(** A timer vector with a routine that counts. *)
Definition demo_state : IntState (W := Z) :=
  mkIntState (mkCoreLocals 0 0 0 0 0 0) cores_init (Some (<[224%nat := Some 0x1234]> (replicate 256 None))) false
    (<[224%nat := true]> (replicate 256 false)) false 0.
Definition demo_invoke (h number : Z) (frame : InterruptFrame) (error : Z) (regs : AllRegs) (s : IntState (W := Z))
    : outcome (IntState (W := Z) * InterruptFrame * AllRegs * bool) :=
  Done (set_world (i_world s + h) s, frame, regs, true).
Definition demo_frame : InterruptFrame := mkInterruptFrame 1 2 3 4 5.

