(* ===== verification/IntStub.v ===== *)
(** * Interrupt entry points (kernel/src/interrupts.rs, [global_asm!])

    The assembly between an interrupt and [interrupt_handler]: the stubs
    [vec_interrupt_n] and [enter_rust], on a small machine with the registers
    and the stack.  The code is run by symbolic execution relative to the stack
    pointer the processor left; the execution is proved to simulate the machine. *)

From stdpp Require Import base tactics option list numbers strings gmap functions.
From Stdlib Require Import ZArith Lia.
From S2P Require Import Prelude MachineInt Interrupts.

Local Open Scope Z_scope.

(** ** The machine *)

Inductive Reg := RAX | RBX | RCX | RDX | RSI | RDI | RBP | RSP | R8 | R9 | R10 | R11 | R12 | R13 | R14 | R15.
#[export] Instance Reg_eq_dec : EqDecision Reg.
Proof. solve_decision. Defined.

(** Memory in words of 64 bits by address: every access of this code is at a
    multiple of eight from the stack pointer. *)
Record Machine := mkMachine { regs : Reg → Z; xmm : nat → Z; mem : Z → Z }.

Inductive instr :=
| PushR (r : Reg)                 (** [push r] *)
| PushM (b : Reg) (off : Z)       (** [push qword ptr [b + off]] *)
| PopR (r : Reg)
| PopM (b : Reg) (off : Z)
| SubSp (n : Z)                   (** [sub rsp, n] *)
| AddSp (n : Z)
| MovRR (d s : Reg)               (** [mov d, s] *)
| MovRI (d : Reg) (z : Z)
| Lea (d b : Reg) (off : Z)       (** [lea d, [b + off]] *)
| Load (d b : Reg) (off : Z)      (** [mov d, [b + off]] *)
| StoreX (i : nat)                (** [movdqu [rsp], xmm_i] *)
| LoadX (i : nat).                (** [movdqu xmm_i, [rsp]] *)

Definition set_reg (r : Reg) (z : Z) (m : Machine) : Machine := mkMachine (<[r := z]> (regs m)) (xmm m) (mem m).
Definition set_mem (a z : Z) (m : Machine) : Machine := mkMachine (regs m) (xmm m) (<[a := z]> (mem m)).
Definition set_xmm (i : nat) (z : Z) (m : Machine) : Machine := mkMachine (regs m) (<[i := z]> (xmm m)) (mem m).

Definition add64 : Z → Z → Z := wrapping_add 64.

(** The halves of an SSE register *)
Definition lo64 (z : Z) : Z := z mod 2 ^ 64.
Definition hi64 (z : Z) : Z := z / 2 ^ 64.
Definition join64 (lo hi : Z) : Z := lo + hi * 2 ^ 64.

Definition push (z : Z) (m : Machine) : Machine :=
  let sp := add64 (regs m RSP) (-8) in set_mem sp z (set_reg RSP sp m).
Definition pop (m : Machine) : Z * Machine := (mem m (regs m RSP), set_reg RSP (add64 (regs m RSP) 8) m).

Definition step (i : instr) (m : Machine) : Machine :=
  match i with
  | PushR r => push (regs m r) m
  | PushM b off => push (mem m (add64 (regs m b) off)) m
  | PopR r => let '(z, m) := pop m in set_reg r z m
  | PopM b off => let '(z, m) := pop m in set_mem (add64 (regs m b) off) z m
  | SubSp n => set_reg RSP (add64 (regs m RSP) (- n)) m
  | AddSp n => set_reg RSP (add64 (regs m RSP) n) m
  | MovRR d s => set_reg d (regs m s) m
  | MovRI d z => set_reg d z m
  | Lea d b off => set_reg d (add64 (regs m b) off) m
  | Load d b off => set_reg d (mem m (add64 (regs m b) off)) m
  | StoreX i => set_mem (add64 (regs m RSP) 8) (hi64 (xmm m i)) (set_mem (regs m RSP) (lo64 (xmm m i)) m)
  | LoadX i => set_xmm i (join64 (mem m (regs m RSP)) (mem m (add64 (regs m RSP) 8))) m
  end.

Definition exec (l : list instr) (m : Machine) : Machine := foldl (λ m i, step i m) m l.

(** ** The code *)

Definition XMMPUSH (i : nat) : list instr := [SubSp 16; StoreX i].
Definition XMMPOP (i : nat) : list instr := [LoadX i; AddSp 16].

(** [enter_rust] up to the alignment of the stack, and from [mov rsp, rbp] to [ret] *)
Definition enter_rust_pre : list instr :=
  [PushR RAX; PushR RBX; PushM R15 0x10; PushM R15 0x08; PushR RSI; PushR RDI; PushR RBP; PushM R15 0x00;
   PushR R9; PushR R10; PushR R11; PushR R12; PushR R13; PushR R14; PushM R15 0x18] ++
  mjoin (XMMPUSH <$> seq 0 16) ++
  [MovRR R9 RSP; MovRR RBP RSP; SubSp 0x20].

Definition enter_rust_post : list instr :=
  [MovRR RSP RBP] ++ mjoin (XMMPOP <$> reverse (seq 0 16)) ++
  [PopM R15 0x18; PopR R14; PopR R13; PopR R12; PopR R11; PopR R10; PopR R9; PopM R15 0x00; PopR RBP; PopR RDI;
   PopR RSI; PopM R15 0x08; PopM R15 0x10; PopR RBX; PopR RAX].

(** The macro [define_int_handler int_id, has_error_code], up to its call and
    after it up to [iretq] *)
Definition stub_pre (int_id : Z) (err : bool) : list instr :=
  [PushR R15; PushR RCX; PushR RDX; PushR R8; MovRR R15 RSP] ++
  (if err then [MovRI RCX int_id; Lea RDX RSP 0x28; Load R8 RSP 0x20; SubSp 8]
   else [MovRI RCX int_id; Lea RDX RSP 0x20; MovRI R8 0]).

Definition stub_post (err : bool) : list instr :=
  (if err then [AddSp 8] else []) ++ [PopR R8; PopR RDX; PopR RCX; PopR R15] ++ (if err then [AddSp 8] else []).

(** The second argument of each [define_int_handler] *)
Definition has_error_code (n : nat) : bool := bool_decide (n ∈ [8; 10; 11; 12; 13; 14; 17]%nat).

(** [and rsp, ~0xf] *)
Definition align_sp (m : Machine) : Machine := set_reg RSP (Z.land (regs m RSP) (bnot 64 0xf)) m.

(** The machine as [interrupt_handler] gets it; [ra1] and [ra2] are the return
    addresses the two calls push. *)
Definition handler_entry (n : nat) (ra1 ra2 : Z) (m : Machine) : Machine :=
  let m := exec (stub_pre (Z.of_nat n) (has_error_code n)) m in
  let m := push ra1 m in
  let m := align_sp (exec enter_rust_pre m) in
  push ra2 m.

(** [iretq] *)
Definition iretq (m : Machine) : InterruptFrame :=
  let sp := regs m RSP in
  mkInterruptFrame (mem m sp) (mem m (add64 sp 8)) (mem m (add64 sp 16)) (mem m (add64 sp 24)) (mem m (add64 sp 32)).

(** From the return of [interrupt_handler] to the interrupted code; [None] if
    [ret] would go elsewhere than back to the stub. *)
Definition handler_exit (n : nat) (ra1 : Z) (m : Machine) : option (InterruptFrame * Machine) :=
  let '(ra, m) := pop (exec enter_rust_post m) in
  if ra =? ra1 then let m := exec (stub_post (has_error_code n)) m in Some (iretq m, m) else None.

(** ** Symbolic execution *)

(** The words of an SSE register are kept as applications of these functions. *)
Section executor.
Variables (lo64 hi64 : Z → Z) (join64 : Z → Z → Z).

(** A number, or an offset from the stack pointer at the entry of the stub. *)
Inductive val := V (z : Z) | P (k : Z).
Record Sym := mkSym { s_regs : Reg → val; s_xmm : nat → Z; s_mem : gmap Z val }.

Definition in_reach (k : Z) : bool := (-1024 <=? k) && (k <=? 1024).

Definition s_addr (v : val) (off : Z) : option Z :=
  match v with P k => if in_reach (k + off) then Some (k + off) else None | V _ => None end.

Definition s_set_reg (r : Reg) (v : val) (s : Sym) : Sym := mkSym (<[r := v]> (s_regs s)) (s_xmm s) (s_mem s).
Definition s_set_mem (k : Z) (v : val) (s : Sym) : Sym := mkSym (s_regs s) (s_xmm s) (<[k := v]> (s_mem s)).

Definition s_push (v : val) (s : Sym) : option Sym :=
  k ← s_addr (s_regs s RSP) (-8); Some (s_set_mem k v (s_set_reg RSP (P k) s)).
Definition s_pop (s : Sym) : option (val * Sym) :=
  k ← s_addr (s_regs s RSP) 0; v ← s_mem s !! k; k' ← s_addr (s_regs s RSP) 8; Some (v, s_set_reg RSP (P k') s).
Definition s_load (b : Reg) (off : Z) (s : Sym) : option val := k ← s_addr (s_regs s b) off; s_mem s !! k.

Definition s_step (i : instr) (s : Sym) : option Sym :=
  match i with
  | PushR r => s_push (s_regs s r) s
  | PushM b off => v ← s_load b off s; s_push v s
  | PopR r => '(v, s) ← s_pop s; Some (s_set_reg r v s)
  | PopM b off => '(v, s) ← s_pop s; k ← s_addr (s_regs s b) off; Some (s_set_mem k v s)
  | SubSp n => k ← s_addr (s_regs s RSP) (- n); Some (s_set_reg RSP (P k) s)
  | AddSp n => k ← s_addr (s_regs s RSP) n; Some (s_set_reg RSP (P k) s)
  | MovRR d r => Some (s_set_reg d (s_regs s r) s)
  | MovRI d z => Some (s_set_reg d (V z) s)
  | Lea d b off => k ← s_addr (s_regs s b) off; Some (s_set_reg d (P k) s)
  | Load d b off => v ← s_load b off s; Some (s_set_reg d v s)
  | StoreX i =>
      k ← s_addr (s_regs s RSP) 0; k' ← s_addr (s_regs s RSP) 8;
      Some (s_set_mem k' (V (hi64 (s_xmm s i))) (s_set_mem k (V (lo64 (s_xmm s i))) s))
  | LoadX i =>
      lo ← s_load RSP 0 s; hi ← s_load RSP 8 s;
      match lo, hi with
      | V lo, V hi => Some (mkSym (s_regs s) (<[i := join64 lo hi]> (s_xmm s)) (s_mem s))
      | _, _ => None
      end
  end.

Fixpoint s_exec (l : list instr) (s : Sym) : option Sym :=
  match l with [] => Some s | i :: l => s ← s_step i s; s_exec l s end.
End executor.

Section simulation.
Variable T : Z.
Hypothesis T_range : 1024 ≤ T < 2 ^ 64 - 1024.

Definition interp (v : val) : Z := match v with V z => z | P k => T + k end.

Record rel (m : Machine) (s : Sym) : Prop := {
  rel_regs r : regs m r = interp (s_regs s r);
  rel_xmm i : xmm m i = s_xmm s i;
  rel_mem k v : s_mem s !! k = Some v → mem m (T + k) = interp v;
}.

Lemma s_addr_sound v off k : s_addr v off = Some k → add64 (interp v) off = T + k.
Proof.
  unfold s_addr, in_reach. destruct v as [z|j]; [done|]. destruct (_ && _) eqn:E; [|done]. intros [= <-].
  apply andb_true_iff in E as [H1%Z.leb_le H2%Z.leb_le]. cbn. unfold add64.
  rewrite wrapping_add_small by (unfold is_uint; lia). lia.
Qed.

Lemma rel_addr m s b off k : rel m s → s_addr (s_regs s b) off = Some k → add64 (regs m b) off = T + k.
Proof. intros H Hk. rewrite (rel_regs _ _ H). by apply s_addr_sound. Qed.

(** Without an offset *)
Lemma rel_addr_0 m s b k : rel m s → s_addr (s_regs s b) 0 = Some k → regs m b = T + k.
Proof.
  intros H Hk. rewrite (rel_regs _ _ H). unfold s_addr in Hk. destruct (s_regs s b) as [|j]; [done|].
  destruct (in_reach _); [|done]. injection Hk as <-. cbn. lia.
Qed.

Lemma rel_set_reg m s r v : rel m s → rel (set_reg r (interp v) m) (s_set_reg r v s).
Proof.
  intros [H1 H2 H3]. split; cbn; [|done..]. intros r'. destruct (decide (r = r')) as [->|].
  - by rewrite !fn_lookup_insert.
  - by rewrite !fn_lookup_insert_ne.
Qed.

Lemma rel_set_mem m s k v : rel m s → rel (set_mem (T + k) (interp v) m) (s_set_mem k v s).
Proof.
  intros [H1 H2 H3]. split; cbn; [done..|]. intros k' v'. destruct (decide (k = k')) as [->|].
  - rewrite lookup_insert_eq, fn_lookup_insert. by intros [= <-].
  - rewrite lookup_insert_ne, fn_lookup_insert_ne by lia. apply H3.
Qed.

Lemma rel_push m s v s' : rel m s → s_push v s = Some s' → rel (push (interp v) m) s'.
Proof.
  intros H (k & Hk & [= <-])%bind_Some. unfold push. rewrite (rel_addr _ _ _ _ _ H Hk).
  by apply rel_set_mem, (rel_set_reg m s RSP (P k)).
Qed.

Lemma rel_pop m s v s' : rel m s → s_pop s = Some (v, s') → ∃ m', pop m = (interp v, m') ∧ rel m' s'.
Proof.
  intros H (k & Hk & (w & Hw & (k' & Hk' & [= <- <-])%bind_Some)%bind_Some)%bind_Some. unfold pop.
  rewrite (rel_addr _ _ _ _ _ H Hk'), (rel_addr_0 _ _ _ _ H Hk), (rel_mem _ _ H _ _ Hw). eexists. split; [done|].
  by apply (rel_set_reg m s RSP (P k')).
Qed.

Lemma rel_load m s b off v : rel m s → s_load b off s = Some v → mem m (add64 (regs m b) off) = interp v.
Proof. intros H (k & Hk & Hv)%bind_Some. rewrite (rel_addr _ _ _ _ _ H Hk). by apply (rel_mem _ _ H). Qed.

Lemma s_step_sound i m s s' : rel m s → s_step lo64 hi64 join64 i s = Some s' → rel (step i m) s'.
Proof.
  intros H. destruct i; cbn [step s_step].
  - intros Hp. rewrite (rel_regs _ _ H). by apply (rel_push m s).
  - intros (v & Hv & Hp)%bind_Some. rewrite (rel_load _ _ _ _ _ H Hv). by apply (rel_push m s).
  - intros ([v s1] & Hp & [= <-])%bind_Some. destruct (rel_pop _ _ _ _ H Hp) as (m1 & -> & H1). by apply rel_set_reg.
  - intros ([v s1] & Hp & (k & Hk & [= <-])%bind_Some)%bind_Some. destruct (rel_pop _ _ _ _ H Hp) as (m1 & -> & H1).
    rewrite (rel_addr _ _ _ _ _ H1 Hk). by apply rel_set_mem.
  - intros (k & Hk & [= <-])%bind_Some. rewrite (rel_addr _ _ _ _ _ H Hk). by apply (rel_set_reg m s RSP (P k)).
  - intros (k & Hk & [= <-])%bind_Some. rewrite (rel_addr _ _ _ _ _ H Hk). by apply (rel_set_reg m s RSP (P k)).
  - intros [= <-]. rewrite (rel_regs _ _ H). by apply rel_set_reg.
  - intros [= <-]. by apply (rel_set_reg m s d (V z)).
  - intros (k & Hk & [= <-])%bind_Some. rewrite (rel_addr _ _ _ _ _ H Hk). by apply (rel_set_reg m s d (P k)).
  - intros (v & Hv & [= <-])%bind_Some. rewrite (rel_load _ _ _ _ _ H Hv). by apply rel_set_reg.
  - intros (k & Hk & (k' & Hk' & [= <-])%bind_Some)%bind_Some.
    rewrite (rel_addr _ _ _ _ _ H Hk'), (rel_addr_0 _ _ _ _ H Hk), (rel_xmm _ _ H).
    by apply (rel_set_mem _ _ _ (V _)), (rel_set_mem _ _ _ (V _)).
  - intros (lo & Hlo & (hi & Hhi & Hs)%bind_Some)%bind_Some. destruct lo as [lo|], hi as [hi|]; [|done..].
    injection Hs as <-. assert (mem m (regs m RSP) = lo) as El.
    { destruct (proj1 (bind_Some _ _ _) Hlo) as (k & Hk & Hv). rewrite (rel_addr_0 _ _ _ _ H Hk). by apply (rel_mem _ _ H _ (V lo)). }
    rewrite El, (rel_load _ _ _ _ _ H Hhi). cbn [interp]. destruct H as [H1 H2 H3]. split; cbn; [done| |done].
    intros j. destruct (decide (i = j)) as [->|]; [by rewrite !fn_lookup_insert|by rewrite !fn_lookup_insert_ne].
Qed.

Lemma s_exec_sound l m s s' : rel m s → s_exec lo64 hi64 join64 l s = Some s' → rel (exec l m) s'.
Proof.
  revert m s. induction l as [|i l IH]; intros m s H; cbn; [by intros [= <-]|].
  intros (s1 & Hs & Hl)%bind_Some. by apply (IH _ s1); [apply (s_step_sound i m s)|].
Qed.
End simulation.

(** ** What the stubs save and restore *)

(** [AllRegs] and [InterruptFrame], in the order of their fields *)
Definition GPRS : list Reg := [R15; R14; R13; R12; R11; R10; R9; R8; RBP; RDI; RSI; RDX; RCX; RBX; RAX].
Definition XMMS : list nat := reverse (seq 0 16).

Definition machine_regs (m : Machine) : AllRegs := mkAllRegs (xmm m <$> XMMS) (regs m <$> GPRS).

Definition saved_regs (f : Z → Z) (a : Z) : AllRegs :=
  mkAllRegs ((λ i, f (a + 16 * i) + f (a + 16 * i + 8) * 2 ^ 64) <$> seqZ 0 16)
    ((λ j, f (a + 256 + 8 * j)) <$> seqZ 0 15).

Definition frame_at (f : Z → Z) (a : Z) : InterruptFrame :=
  mkInterruptFrame (f a) (f (a + 8)) (f (a + 16)) (f (a + 24)) (f (a + 32)).

(** Offsets from the entry stack pointer: the frame (above the error code, if
    there is one) and the saved registers. *)
Definition frame_off (err : bool) : Z := if err then 8 else 0.
Definition regs_off (err : bool) : Z := if err then -424 else -416.

Section symbolic.
Variables (lo hi : Z → Z) (join : Z → Z → Z) (rv : Reg → Z) (xv : nat → Z) (mv : Z → Z) (id ra1 : Z).

Definition entry_sym (err : bool) : option Sym :=
  s ← s_exec lo hi join (stub_pre id err) (mkSym (λ r, if decide (r = RSP) then P 0 else V (rv r)) xv
    (list_to_map ((λ k, (k, V (mv k))) <$> [0; 8; 16; 24; 32; 40])));
  s ← s_push (V ra1) s;
  s_exec lo hi join enter_rust_pre s.

Definition view (k : Z) (n : nat) (s : Sym) : list (option val) :=
  (λ j, s_mem s !! (k + 8 * Z.of_nat j)) <$> seq 0 n.

(** The words of the saved registers, and the return address above them. *)
Definition saved_words : list val :=
  mjoin ((λ i, [V (lo (xv i)); V (hi (xv i))]) <$> XMMS) ++ (V ∘ rv <$> GPRS) ++ [V ra1].

Lemma entry_sym_view err :
  (λ s, (s_regs s <$> [RCX; RDX; R8; R9; RBP; RSP; R15], view (regs_off err) 48 s, view (frame_off err) 5 s)) <$> entry_sym err =
  Some ([V id; P (frame_off err); (if err then V (mv 0) else V 0); P (regs_off err); P (regs_off err);
         P (regs_off err - 32); P (-32)], Some <$> saved_words,
        (λ j, Some (V (mv (frame_off err + 8 * j)))) <$> seqZ 0 5).
Proof. destruct err; vm_compute; reflexivity. Qed.

(** After the handler: the registers its caller relies on, and the words of the
    saved registers, the return address and the frame as they are then. *)
Definition exit_sym (err : bool) : option (val * Sym) :=
  s ← s_exec lo hi join enter_rust_post (mkSym (<[RBP := P (regs_off err)]> (<[R15 := P (-32)]> (λ r, V (rv r)))) xv
    (list_to_map (((λ j, (regs_off err + 8 * j, V (mv (regs_off err + 8 * j)))) <$> seqZ 0 47) ++
      [(regs_off err + 376, V ra1)] ++ ((λ j, (frame_off err + 8 * j, V (mv (frame_off err + 8 * j)))) <$> seqZ 0 5))));
  '(ra, s) ← s_pop s;
  s ← s_exec lo hi join (stub_post err) s;
  Some (ra, s).

Lemma exit_sym_view err :
  (λ '(ra, s), (ra, s_regs s RSP, s_regs s <$> GPRS, s_xmm s <$> XMMS, view (frame_off err) 5 s)) <$> exit_sym err =
  Some (V ra1, P (frame_off err), (λ j, V (mv (regs_off err + 256 + 8 * j))) <$> seqZ 0 15,
        (λ i, join (mv (regs_off err + 16 * i)) (mv (regs_off err + 16 * i + 8))) <$> seqZ 0 16,
        (λ j, Some (V (mv (frame_off err + 8 * j)))) <$> seqZ 0 5).
Proof. destruct err; vm_compute; reflexivity. Qed.
End symbolic.

(** ** The theorem *)

(** What a call of [interrupt_handler] may do under the calling convention: it
    returns with the stack pointer above the return address, the non-volatile
    registers are kept, and of the memory above its home space it changes only
    the frame and the saved registers, which it has by reference. *)
Definition abi (m m' : Machine) : Prop :=
  regs m' RSP = add64 (regs m RSP) 8 ∧
  (∀ r, r ∈ [RBX; RBP; RDI; RSI; R12; R13; R14; R15] → regs m' r = regs m r) ∧
  ∀ a, regs m RSP + 0x28 ≤ a → ~ (regs m R9 ≤ a < regs m R9 + 376) → ~ (regs m RDX ≤ a < regs m RDX + 40) →
    mem m' a = mem m a.

Lemma view_lookup k n s l j v : view k n s = Some <$> l → l !! j = Some v → s_mem s !! (k + 8 * Z.of_nat j) = Some v.
Proof.
  intros H Hj. apply (f_equal (λ x, x !! j)) in H. unfold view in H. rewrite !list_lookup_fmap, Hj in H. cbn in H.
  destruct (seq 0 n !! j) as [i|] eqn:E; [|done]. apply lookup_seq in E as [-> _]. by injection H.
Qed.

Section theorem.
Variables (m : Machine) (n : nat) (ra1 ra2 : Z).
Abbreviation T := (regs m RSP).
Abbreviation err := (has_error_code n).
Hypothesis T_range : 1024 ≤ T < 2 ^ 64 - 1024.

Lemma entry_rel : ∃ s, entry_sym lo64 hi64 join64 (regs m) (xmm m) (λ k, mem m (T + k)) (Z.of_nat n) ra1 err = Some s ∧
  rel T (exec enter_rust_pre (push ra1 (exec (stub_pre (Z.of_nat n) err) m))) s.
Proof.
  pose proof (entry_sym_view lo64 hi64 join64 (regs m) (xmm m) (λ k, mem m (T + k)) (Z.of_nat n) ra1 err) as Hv.
  apply fmap_Some in Hv as (s & Hs & _). exists s. split; [done|]. unfold entry_sym in Hs.
  apply bind_Some in Hs as (s1 & H1 & Hs). apply bind_Some in Hs as (s2 & H2 & H3).
  apply (s_exec_sound T T_range _ _ s2); [|done]. apply (rel_push T T_range _ s1 (V ra1)); [|done].
  eapply s_exec_sound; [done| |exact H1]. split; cbn [s_regs s_xmm s_mem]; [|done|].
  - intros r. case_decide; [subst; cbn; lia|done].
  - intros k v Hk. apply elem_of_list_to_map_2 in Hk. apply list_elem_of_fmap in Hk as (k' & [= -> ->] & _). done.
Qed.

(** The machine at the entry of the handler, from the one before the stack is
    aligned. *)
Record entry_ok (b m1 : Machine) : Prop := {
  eo_regs r : r ≠ RSP → regs m1 r = regs b r;
  eo_sp : regs m1 RSP + 8 ≤ regs b RSP ∧ (regs m1 RSP + 8) mod 16 = 0 ∧ 0 ≤ regs m1 RSP;
  eo_ra : mem m1 (regs m1 RSP) = ra2;
  eo_mem a : regs b RSP ≤ a → mem m1 a = mem b a;
}.

Lemma align_push_ok b : 64 ≤ regs b RSP < 2 ^ 64 → entry_ok b (push ra2 (align_sp b)).
Proof.
  intros Hsp. unfold push, align_sp, set_reg. cbn [regs mem set_mem]. rewrite fn_lookup_insert.
  pose proof (Z.mod_pos_bound (regs b RSP) 16 ltac:(lia)) as Hm.
  assert (add64 (Z.land (regs b RSP) (bnot 64 15)) (-8) = regs b RSP - regs b RSP mod 16 - 8) as ->.
  { assert (Z.land (regs b RSP) (bnot 64 15) = regs b RSP - regs b RSP mod 16) as ->
      by (apply (align_down 64 _ 4); [lia..|unfold is_uint; lia]).
    unfold add64. rewrite wrapping_add_small by (unfold is_uint; lia). lia. }
  split; cbn [regs mem set_mem].
  - intros r Hne. by rewrite !fn_lookup_insert_ne by done.
  - rewrite fn_lookup_insert. split; [lia|]. split; [Z.to_euclidean_division_equations; lia|lia].
  - rewrite (fn_lookup_insert (A := Reg)). by rewrite fn_lookup_insert.
  - intros a Ha. by rewrite fn_lookup_insert_ne by lia.
Qed.

Lemma regs_off_range : -424 ≤ regs_off err ≤ -416.
Proof. unfold regs_off. destruct err; lia. Qed.

Lemma saved_regs_ext f g a : (∀ x, a ≤ x → f x = g x) → saved_regs f a = saved_regs g a.
Proof.
  intros H. unfold saved_regs. f_equal; apply list_fmap_ext; intros i x [-> Hx]%lookup_seqZ.
  - rewrite !H by lia. done.
  - apply H. lia.
Qed.

Lemma XMMS_lookup i : (i < 16)%nat → XMMS !! i = Some (15 - i)%nat.
Proof.
  intros Hi. assert (Forall (λ i, XMMS !! i = Some (15 - i)%nat) (seq 0 16)) as H by by_decide.
  apply (proj1 (Forall_seq _ _ _) H). lia.
Qed.

(** The words of [AllRegs], read back. *)
Lemma saved_words_regs f a : (∀ j v, saved_words lo64 hi64 (regs m) (xmm m) ra1 !! j = Some v → f (a + 8 * Z.of_nat j) = interp T v) →
  saved_regs f a = machine_regs m ∧ f (a + 376) = ra1.
Proof.
  intros H. split; [|exact (H 47%nat (V ra1) eq_refl)].
  assert (∀ x, lo64 x + hi64 x * 2 ^ 64 = x) as Hx by (intros x; unfold lo64, hi64; Z.to_euclidean_division_equations; lia).
  unfold saved_regs, machine_regs. f_equal.
  - apply list_eq_same_length with (n := 16%nat); [rewrite length_fmap; reflexivity..|]. intros i y z Hi Hy Hz.
    rewrite list_lookup_fmap in Hy. rewrite list_lookup_fmap in Hz. apply fmap_Some in Hy as (k & [-> _]%lookup_seqZ & ->).
    apply fmap_Some in Hz as (k & Hk & ->).
    rewrite XMMS_lookup in Hk by done. injection Hk as <-.
    rewrite <- (Hx (xmm m (15 - i)%nat)). f_equal; [|f_equal].
    + replace (a + 16 * (0 + Z.of_nat i)) with (a + 8 * Z.of_nat (2 * i)) by lia. rewrite (H _ (V (lo64 (xmm m (15 - i)%nat)))); [reflexivity|].
      do 16 (destruct i as [|i]; [reflexivity|]). lia.
    + replace (a + 16 * (0 + Z.of_nat i) + 8) with (a + 8 * Z.of_nat (2 * i + 1)) by lia.
      rewrite (H _ (V (hi64 (xmm m (15 - i)%nat)))); [reflexivity|]. do 16 (destruct i as [|i]; [reflexivity|]). lia.
  - apply list_eq_same_length with (n := 15%nat); [rewrite length_fmap; reflexivity..|]. intros i y z Hi Hy Hz.
    rewrite list_lookup_fmap in Hy. rewrite list_lookup_fmap in Hz. apply fmap_Some in Hy as (k & [-> _]%lookup_seqZ & ->).
    apply fmap_Some in Hz as (r & Hr & ->). replace (a + 256 + 8 * (0 + Z.of_nat i)) with (a + 8 * Z.of_nat (32 + i)) by lia.
    apply (H _ (V (regs m r))). change (32 + i)%nat with (length (mjoin ((λ i, [V (lo64 (xmm m i)); V (hi64 (xmm m i))]) <$> XMMS)) + i)%nat.
    unfold saved_words. rewrite lookup_app_r by lia. replace (_ + i - _)%nat with i by lia.
    apply lookup_app_l_Some. by rewrite list_lookup_fmap, Hr.
Qed.

(** A frame whose words the symbolic memory knows. *)
Lemma frame_at_rel f g k : (∀ j, 0 ≤ j < 5 → f (T + (k + 8 * j)) = g (T + (k + 8 * j))) →
  frame_at f (T + k) = frame_at g (T + k).
Proof.
  intros H. unfold frame_at. f_equal; [specialize (H 0)|specialize (H 1)|specialize (H 2)|specialize (H 3)|specialize (H 4)];
    match type of H with _ → f ?x = _ => match goal with |- f ?y = _ => replace y with x by lia end end; apply H; lia.
Qed.

Lemma entry_correct : let m1 := handler_entry n ra1 ra2 m in
  regs m1 RCX = Z.of_nat n ∧ regs m1 RDX = T + frame_off err ∧ regs m1 R8 = (if err then mem m T else 0) ∧
  regs m1 R9 = T + regs_off err ∧ regs m1 RBP = T + regs_off err ∧ regs m1 R15 = T - 32 ∧
  saved_regs (mem m1) (T + regs_off err) = machine_regs m ∧ mem m1 (T + regs_off err + 376) = ra1 ∧
  frame_at (mem m1) (T + frame_off err) = frame_at (mem m) (T + frame_off err) ∧
  regs m1 RSP + 8 ≤ T + regs_off err - 32 ∧ (regs m1 RSP + 8) mod 16 = 0 ∧ mem m1 (regs m1 RSP) = ra2.
Proof.
  cbn zeta. destruct entry_rel as (s & Hs & Hrel). pose proof regs_off_range as Hr.
  pose proof (entry_sym_view lo64 hi64 join64 (regs m) (xmm m) (λ k, mem m (T + k)) (Z.of_nat n) ra1 err) as Hv.
  rewrite Hs in Hv. cbn [fmap option_fmap option_map] in Hv. apply (inj Some) in Hv.
  apply pair_eq in Hv as [[Hregs Hwords]%pair_eq Hframe]. injection Hregs as E1 E2 E3 E4 E5 E6 E7.
  unfold handler_entry. cbn zeta. set (b := exec enter_rust_pre _) in *. clearbody b.
  pose proof (rel_regs _ _ _ Hrel) as Hreg. assert (regs b RSP = T + regs_off err - 32) as Hsp by (rewrite Hreg, E6; cbn; lia).
  pose proof (align_push_ok b ltac:(lia)) as [R1 (R2 & R3 & R4) R5 R6]. set (m1 := push ra2 (align_sp b)) in *. clearbody m1.
  destruct (saved_words_regs (mem m1) (T + regs_off err)) as [Hw Hra].
  { intros j v Hj. rewrite R6 by lia. replace (T + regs_off err + 8 * Z.of_nat j) with (T + (regs_off err + 8 * Z.of_nat j)) by lia.
    apply (rel_mem _ _ _ Hrel). by apply (view_lookup _ 48 _ (saved_words lo64 hi64 (regs m) (xmm m) ra1)). }
  rewrite !R1, !Hreg, E1, E2, E3, E4, E5, E7 by done. split_and!; try done; try (cbn; lia).
  - destruct err; [cbn; by rewrite Z.add_0_r|done].
  - apply frame_at_rel. intros j Hj. rewrite R6 by (unfold frame_off, regs_off in *; destruct err; lia).
    rewrite (rel_mem _ _ _ Hrel _ (V (mem m (T + (frame_off err + 8 * j))))); [done|].
    replace j with (Z.of_nat (Z.to_nat j)) by lia. eapply (view_lookup _ 5 _ ((λ j, V (mem m (T + (frame_off err + 8 * j)))) <$> seqZ 0 5)).
    + rewrite Hframe. by rewrite <- list_fmap_compose.
    + rewrite list_lookup_fmap. rewrite lookup_seqZ_lt by lia. cbn. do 3 f_equal; lia.
Qed.

(** The symbolic state at the return of the handler. *)
Lemma exit_rel m2 : regs m2 RBP = T + regs_off err → regs m2 R15 = T - 32 → mem m2 (T + regs_off err + 376) = ra1 →
  ∃ ra m3 s, exit_sym lo64 hi64 join64 (regs m2) (xmm m2) (λ k, mem m2 (T + k)) ra1 err = Some (ra, s) ∧
    pop (exec enter_rust_post m2) = (interp T ra, m3) ∧ rel T (exec (stub_post err) m3) s.
Proof.
  intros Hbp H15 Hra.
  pose proof (exit_sym_view lo64 hi64 join64 (regs m2) (xmm m2) (λ k, mem m2 (T + k)) ra1 err) as Hv.
  apply fmap_Some in Hv as ([ra s] & Hs & _). pose proof Hs as Hs'. unfold exit_sym in Hs.
  apply bind_Some in Hs as (s1 & H1 & Hs). apply bind_Some in Hs as ([ra' s2] & H2 & Hs).
  apply bind_Some in Hs as (s3 & H3 & [= -> ->]).
  eapply (s_exec_sound T T_range _ m2) in H1.
  - destruct (rel_pop T T_range _ _ _ _ H1 H2) as (m3 & Hpop & H4). exists ra, m3, s.
    split; [done|]. split; [done|]. by eapply s_exec_sound.
  - split; cbn [s_regs s_xmm s_mem]; [|done|].
    + intros r. destruct (decide (RBP = r)) as [<-|]; [by rewrite fn_lookup_insert|rewrite fn_lookup_insert_ne by done].
      destruct (decide (R15 = r)) as [<-|]; [by rewrite fn_lookup_insert|by rewrite fn_lookup_insert_ne].
    + intros k v Hk%elem_of_list_to_map_2. rewrite !elem_of_app in Hk.
      destruct Hk as [Hk|[Hk|Hk]]; [|apply list_elem_of_singleton in Hk as [= -> ->]; rewrite Z.add_assoc; exact Hra|].
      all: apply list_elem_of_fmap in Hk as (j & [= -> ->] & _); done.
Qed.

Lemma exit_correct m2 : abi (handler_entry n ra1 ra2 m) m2 →
  ∃ m3, handler_exit n ra1 m2 = Some (frame_at (mem m2) (T + frame_off err), m3) ∧
    machine_regs m3 = saved_regs (mem m2) (T + regs_off err).
Proof.
  intros (_ & Hnv & Hmem). destruct entry_correct as (_ & Hdx & _ & H9 & Hbp & H15 & _ & Hra & _ & Hsp & _ & _).
  pose proof regs_off_range as Hr. set (m1 := handler_entry n ra1 ra2 m) in *. clearbody m1.
  rewrite <- (Hnv RBP) in Hbp by by_decide. rewrite <- (Hnv R15) in H15 by by_decide.
  rewrite <- Hmem in Hra by (rewrite ?H9, ?Hdx; unfold frame_off, regs_off in *; destruct err; lia).
  destruct (exit_rel m2 Hbp H15 Hra) as (ra & m3 & s & Hs & Hpop & Hrel).
  pose proof (exit_sym_view lo64 hi64 join64 (regs m2) (xmm m2) (λ k, mem m2 (T + k)) ra1 err) as Hv.
  rewrite Hs in Hv. cbn [fmap option_fmap option_map] in Hv. apply (inj Some) in Hv.
  apply pair_eq in Hv as [[[[-> Esp]%pair_eq Eg]%pair_eq Ex]%pair_eq Ef].
  unfold handler_exit. rewrite Hpop. cbn [interp]. rewrite Z.eqb_refl.
  set (m4 := exec (stub_post err) m3) in *. clearbody m4. exists m4.
  assert (regs m4 RSP = T + frame_off err) as Hsp4 by (by rewrite (rel_regs _ _ _ Hrel), Esp).
  assert (∀ j, 0 ≤ j < 5 → mem m4 (T + (frame_off err + 8 * j)) = mem m2 (T + (frame_off err + 8 * j))) as Hf.
  { intros j Hj. rewrite (rel_mem _ _ _ Hrel _ (V (mem m2 (T + (frame_off err + 8 * j))))); [done|].
    replace j with (Z.of_nat (Z.to_nat j)) by lia. eapply (view_lookup _ 5 _ ((λ j, V (mem m2 (T + (frame_off err + 8 * j)))) <$> seqZ 0 5)).
    - rewrite Ef. by rewrite <- list_fmap_compose.
    - rewrite list_lookup_fmap, lookup_seqZ_lt by lia. cbn. do 3 f_equal; lia. }
  split.
  - do 2 f_equal. rewrite <- (frame_at_rel _ _ _ Hf). unfold iretq, frame_at. rewrite Hsp4.
    assert (0 ≤ frame_off err ≤ 8) by (unfold frame_off; destruct err; lia).
    unfold add64. rewrite !wrapping_add_small by (unfold is_uint; lia). reflexivity.
  - unfold machine_regs, saved_regs. f_equal.
    + transitivity (s_xmm s <$> XMMS); [apply list_fmap_ext; intros i x _; apply (rel_xmm _ _ _ Hrel)|]. rewrite Ex.
      apply list_fmap_ext. intros i x _. unfold join64. by rewrite !Z.add_assoc.
    + transitivity (interp T <$> (s_regs s <$> GPRS)).
      { rewrite <- list_fmap_compose. apply list_fmap_ext. intros i x _. apply (rel_regs _ _ _ Hrel). }
      rewrite Eg, <- list_fmap_compose. apply list_fmap_ext. intros i x _. cbn. by rewrite !Z.add_assoc.
Qed.
End theorem.


(** A page fault whose handler returns at once. *)
Definition demo_machine : Machine := mkMachine (λ r, if decide (r = RSP) then 0x10000 else 7) (λ i, Z.of_nat i) (λ a, a * 3).
Definition demo_entry : Machine := handler_entry 14 0x1111 0x2222 demo_machine.
Definition demo_return : Machine := snd (pop demo_entry).

Lemma pop_abi m : abi m (snd (pop m)).
Proof.
  unfold pop, set_reg. split; [apply fn_lookup_insert|]. split; [|done]. intros r Hr. cbn [snd regs].
  apply fn_lookup_insert_ne. intros <-. revert Hr. by_decide.
Qed.

Lemma pop_mem m : mem (snd (pop m)) = mem m.
Proof. done. Qed.

