(* ===== verification/Apic.v ===== *)
(** * Local APIC (kernel/src/apic.rs)

    Register access in both modes, IPIs, the timer, the initialisation and the
    teardown.  The processor's side (registers, MSRs, I/O ports, the delivery of
    interrupts) is the interface [Lapic]; [ApicProps] has what the code relies on. *)

From stdpp Require Import base tactics option list numbers strings gmap.
From Stdlib Require Import ZArith Lia.
From S2P Require Import Prelude MachineInt Bytes RangeSet Cpu PhysMem PageTable KernelMm CoreLocals Acpi Interrupts.

Local Open Scope Z_scope.

Definition IA32_APIC_BASE_EXTD : Z := Z.shiftl 1 10.
Definition IA32_APIC_BASE_EN : Z := Z.shiftl 1 11.
Definition IA32_APIC_BASE : Z := 0x1b.
Definition APIC_BASE : Z := 0xfee00000.
Definition APIC_TIMER_VECTOR : Z := 0xe0.
Definition LVT_MASK : Z := Z.shiftl 1 16.

(** [Register] *)
Inductive Register :=
| ApicId | EndOfInterrupt | SpuriousInterruptVector | Isr (i : nat) | Irr (i : nat) | LvtTimer | InitialCount | DivideConfiguration.
#[export] Instance Register_eq_dec : EqDecision Register.
Proof. solve_decision. Defined.

(** [register as usize] *)
Definition offset_of (r : Register) : Z :=
  match r with
  | ApicId => 0x20 | EndOfInterrupt => 0xb0 | SpuriousInterruptVector => 0xf0
  | Isr i => 0x100 + 0x10 * Z.of_nat i | Irr i => 0x200 + 0x10 * Z.of_nat i
  | LvtTimer => 0x320 | InitialCount => 0x380 | DivideConfiguration => 0x3e0
  end.

Record TimerState := mkTimerState { dcr : Z; icr : Z; lvt : Z }.

(** [Apic(mapping)] has the virtual address of the registers. *)
Inductive ApicMode := XApic (mapping : Z) | X2Apic.

Record Apic := mkApic {
  mode : ApicMode;
  orig_ia32_apic_base : Z;
  orig_svr : Z;
  orig_pic_a1 : Z;
  orig_pic_21 : Z;
  orig_timer_state : TimerState;
}.

(** The processor: the registers as an array of words, MSRs, ports, and [sti] and
    [cli].  Time may pass in a read; between [sti] and the next access pending
    interrupts are delivered. *)
Class Lapic (H : Type) := {
  lapic_read : Z → H → H * Z;
  lapic_write : Z → Z → H → H;
  msr_read : Z → H → H * Z;
  msr_write : Z → Z → H → H;
  port_in8 : Z → H → H * Z;
  port_out8 : Z → Z → H → H;
  sti : H → H;
  cli : H → H;
}.

Section apic.
Context {H : Type} `{HL : Lapic H}.
Implicit Types h : H.

Definition read_apic (m : ApicMode) (r : Register) h : H * Z :=
  match m with
  | XApic _ => lapic_read (offset_of r / 4) h
  | X2Apic => let '(h, v) := msr_read (0x800 + offset_of r / 16) h in (h, wrap 32 v)
  end.

Definition write_apic (m : ApicMode) (r : Register) (val : Z) h : H :=
  match m with
  | XApic _ => lapic_write (offset_of r / 4) val h
  | X2Apic => msr_write (0x800 + offset_of r / 16) val h
  end.

Definition apic_id (m : ApicMode) h : H * Z :=
  let '(h, v) := read_apic m ApicId h in
  (h, match m with XApic _ => Z.shiftr v 24 | X2Apic => v end).

Definition write_icr (m : ApicMode) (val : Z) h : H :=
  match m with
  | XApic _ => lapic_write (0x300 / 4) (wrap 32 (Z.shiftr val 0)) (lapic_write (0x310 / 4) (wrap 32 (Z.shiftr val 32)) h)
  | X2Apic => msr_write 0x830 val h
  end.

Definition ipi (m : ApicMode) (dest_apic_id ipi : Z) h : H :=
  let dest := match m with XApic _ => shl 32 dest_apic_id 24 | X2Apic => dest_apic_id end in
  write_icr m (Z.lor (shl 64 dest 32) ipi) h.

(** The loop of [irr] and [isr]: eight registers, as bytes. *)
Fixpoint read_bits (m : ApicMode) (reg : nat → Register) (ii n : nat) h : H * list Z :=
  match n with
  | O => (h, [])
  | S n =>
      let '(h, v) := read_apic m (reg ii) h in
      let '(h, l) := read_bits m reg (S ii) n h in
      (h, to_le_bytes 4 v ++ l)
  end.

Definition bits_256 (m : ApicMode) (reg : nat → Register) h : H * list Z :=
  let '(h, b) := read_bits m reg 0 8 h in
  (h, [from_le_bytes (take 16 b); from_le_bytes (drop 16 b)]).
Definition irr (m : ApicMode) h : H * list Z := bits_256 m Irr h.
Definition isr (m : ApicMode) h : H * list Z := bits_256 m Isr h.

(** [Apic::eoi], on the core's APIC *)
Definition eoi (apic : option Apic) h : H :=
  match apic with Some a => write_apic (mode a) EndOfInterrupt 0 h | None => h end.

(** ** Timer *)

Definition PERIODIC_MODE : Z := Z.shiftl 1 17.

(** [timer_interrupt] is the address of the routine. *)
Definition enable_timer (timer_interrupt : Z) (m : ApicMode) (interrupts : option Interrupts) (eois : list bool) h
    : outcome (H * Interrupts * list bool) :=
  let h := write_apic m InitialCount 0 h in
  d ← unwrap interrupts;
  '(d, eois) ← add_handler APIC_TIMER_VECTOR timer_interrupt true d eois;
  let h := write_apic m DivideConfiguration 0 h in
  let h := write_apic m LvtTimer (Z.lor PERIODIC_MODE APIC_TIMER_VECTOR) h in
  let h := write_apic m InitialCount 10000000 h in
  Done (h, d, eois).

(** [locked]: the [interrupts] lock is taken *)
Definition disable_timer (timer_interrupt : Z) (m : ApicMode) (locked : bool) (interrupts : option Interrupts)
    (eois : list bool) h : outcome (H * Interrupts * list bool) :=
  let '(h, v) := read_apic m LvtTimer h in
  let h := write_apic m LvtTimer (Z.lor LVT_MASK v) h in
  let h := write_apic m InitialCount 0 h in
  assert (negb locked) "Failed to get interrupt lock to disable APIC timer";;
  d ← unwrap interrupts;
  '(d, eois) ← remove_handler APIC_TIMER_VECTOR timer_interrupt d eois;
  Done (h, d, eois).

(** ** Teardown *)

(** EOIs until nothing is in service.  The APIC is dropped in place, so the core's
    APIC, to which [Apic::eoi] goes, is still [a]. *)
Fixpoint eoi_all (fuel : nat) (a : Apic) h : outcome H :=
  match fuel with
  | O => OutOfFuel
  | S fuel =>
      let '(h, b) := isr (mode a) h in
      lo ← index b 0; hi ← index b 1;
      if (lo =? 0) && (hi =? 0) then Done h else eoi_all fuel a (eoi (Some a) h)
  end.

(** Interrupts are enabled until none that takes an EOI is pending. *)
Fixpoint drain (fuel : nat) (a : Apic) (eois : list bool) h : outcome H :=
  match fuel with
  | O => OutOfFuel
  | S fuel =>
      let '(h, b) := irr (mode a) h in
      can_eoi ← eoi_required eois;
      lo ← index b 0; clo ← index can_eoi 0; hi ← index b 1; chi ← index can_eoi 1;
      if negb (negb (Z.land lo clo =? 0) || negb (Z.land hi chi =? 0)) then Done h
      else drain fuel a eois (sti h)
  end.

Definition restore_timer (a : Apic) h : H :=
  let h := write_apic (mode a) DivideConfiguration (dcr (orig_timer_state a)) h in
  let h := write_apic (mode a) LvtTimer (lvt (orig_timer_state a)) h in
  write_apic (mode a) InitialCount (icr (orig_timer_state a)) h.

(** [drop]; the store to [DRAINING_EOIS] is the [true] it returns. *)
Definition drop_apic (fuel : nat) (a : Apic) (eois : list bool) h : outcome (H * bool) :=
  let '(h, v) := read_apic (mode a) LvtTimer h in
  let h := write_apic (mode a) LvtTimer (Z.lor LVT_MASK v) h in
  h ← eoi_all fuel a h;
  h ← drain fuel a eois h;
  let h := cli h in
  let h := restore_timer a h in
  let h := write_apic (mode a) SpuriousInterruptVector (orig_svr a) h in
  assert (negb (Z.land (orig_ia32_apic_base a) IA32_APIC_BASE_EN =? 0)) "Disabling the APIC is not supported";;
  let h := msr_write IA32_APIC_BASE
    (Z.lor (orig_ia32_apic_base a) (match mode a with X2Apic => IA32_APIC_BASE_EXTD | XApic _ => 0 end)) h in
  let h := port_out8 0xa1 (orig_pic_a1 a) h in
  let h := port_out8 0x21 (orig_pic_21 a) h in
  Done (h, true).

(** ** Initialisation *)

(** The registers are mapped uncacheable at a fresh address. *)
Definition map_apic (s : Kernel) : outcome (Kernel * Z) :=
  '(s, vaddr) ← alloc_virt_addr_4k 4096 s;
  root ← unwrap (k_table s);
  '(s, r) ← map_raw root vaddr Page4K
    (Z.lor (Z.lor (Z.lor (Z.lor APIC_BASE PAGE_NX) PAGE_WRITE) PAGE_CACHE_DISABLE) PAGE_PRESENT) s;
  _ ← expect r "Failed to map in APIC to virtual memory";
  Done (s, vaddr).

(** The base MSR and the PIC: the originals, and what is set. *)
Definition enable_apic (features : CPUFeatures) h : outcome (H * (Z * Z * Z)) :=
  let '(h, orig) := msr_read IA32_APIC_BASE h in
  assert (negb (Z.land orig IA32_APIC_BASE_EN =? 0)) "APIC was disabled during BIOS";;
  let apic_base := Z.land orig (bnot 64 0x0000000ffffff000) in
  let apic_base := Z.lor apic_base APIC_BASE in
  let apic_base := Z.lor apic_base IA32_APIC_BASE_EN in
  let apic_base := Z.lor apic_base (if x2apic features then IA32_APIC_BASE_EXTD else 0) in
  let '(h, orig_pic_a1) := port_in8 0xa1 h in
  let '(h, orig_pic_21) := port_in8 0x21 h in
  let h := port_out8 0xa1 0xff h in
  let h := port_out8 0x21 0xff h in
  let h := msr_write IA32_APIC_BASE apic_base h in
  Done (h, (orig, orig_pic_a1, orig_pic_21)).

Definition init (features : CPUFeatures) (apic : option Apic) (l : CoreLocals) (s : Kernel) h
    : outcome (H * Kernel * CoreLocals * Apic) :=
  assert ((0 <? APIC_BASE) && (APIC_BASE =? Z.land APIC_BASE 0x0000000ffffff000)) "Invalid APIC base address";;
  assert (match apic with None => true | Some _ => false end) "APIC was already initialized";;
  assert (Cpu.apic features) "APIC is not available on this system";;
  '(h, (orig, pic_a1, pic_21)) ← enable_apic features h;
  '(s, m) ← (if negb (x2apic features) then '(s, vaddr) ← map_apic s; Done (s, XApic vaddr) else Done (s, X2Apic));
  let '(h, svr) := read_apic m SpuriousInterruptVector h in
  let '(h, odcr) := read_apic m DivideConfiguration h in
  let '(h, oicr) := read_apic m InitialCount h in
  let '(h, olvt) := read_apic m LvtTimer h in
  let new_apic := mkApic m orig svr pic_a1 pic_21 (mkTimerState odcr oicr olvt) in
  let h := write_apic m SpuriousInterruptVector (Z.lor (Z.shiftl 1 8) 0xff) h in
  let '(h, id) := apic_id m h in
  Done (h, s, CoreLocals.set_apic_id id l, new_apic).
End apic.
