(* ===== verification/ApicProps.v ===== *)
(** * What the local APIC driver restores

    The contract of the processor as the class [LapicLaws], and the claim that
    [drop] undoes [init]: it terminates with nothing in service, and the registers,
    the base MSR and the masks of the PICs as they were. *)

From stdpp Require Import base tactics option list numbers strings gmap.
From Stdlib Require Import ZArith Lia.
From S2P Require Import Prelude MachineInt Bytes RangeSet Cpu PhysMem PageTable KernelMm CoreLocals Acpi Interrupts Apic.

Local Open Scope Z_scope.

(** The registers that hold what is written to them: SVR, LVT timer, initial
    count and divide configuration, by their offset. *)
Definition plain : list Z := [0xf0; 0x320; 0x380; 0x3e0].

(** [reg] are the registers by offset, [base] the base MSR, [pic] the masks
    of the PICs by port; [in_service] counts the interrupts in service, [backlog]
    those that take an EOI and are pending or still to come once the timer
    is masked.  In xAPIC mode the register at offset [o] is the word [o / 4] of the
    mapping, in x2APIC mode the MSR [0x800 + o / 16].  An EOI ends one interrupt in
    service; [sti] lets a pending interrupt in, whose handler ends it. *)
Class LapicView (H : Type) := {
  reg : H → Z → Z;
  base_msr : H → Z;
  pic : H → Z → Z;
  in_service : H → nat;
  backlog : list bool → H → nat;
}.

Section view.
Context {H : Type} `{LapicView H}.
Definition same (h h' : H) : Prop :=
  (∀ o, o ∈ plain → reg h' o = reg h o) ∧ base_msr h' = base_msr h ∧ pic h' = pic h.
Definition calm (h h' : H) : Prop := in_service h' = in_service h ∧ ∀ e, (backlog e h' ≤ backlog e h)%nat.
Definition looked (h h' : H) : Prop := same h h' ∧ calm h h' ∧ ∀ o, reg h' o = reg h o.
(** A masked timer brings no new interrupts. *)
Definition wrote (o v : Z) (h h' : H) : Prop :=
  reg h' o = v ∧ (∀ o', o' ∈ plain → o' ≠ o → reg h' o' = reg h o') ∧ base_msr h' = base_msr h ∧ pic h' = pic h ∧
  in_service h' = in_service h ∧ (o = 0x320 → Z.testbit v 16 = true → ∀ e, (backlog e h' ≤ backlog e h)%nat).
Definition ended (h h' : H) : Prop :=
  same h h' ∧ in_service h' = pred (in_service h) ∧ ∀ e, (backlog e h' ≤ backlog e h)%nat.
End view.

Class LapicLaws (H : Type) `{Lapic H, LapicView H} : Prop := {
  in_service_isr (h : H) : in_service h = 0%nat ↔ ∀ k, 0 ≤ k < 8 → reg h (0x100 + 0x10 * k) = 0;
  reg_uint (h : H) o : is_uint 32 (reg h o);
  lapic_read_law i (h h' : H) v : Z.testbit (base_msr h) 10 = false → lapic_read i h = (h', v) →
    v = reg h (4 * i) ∧ looked h h';
  lapic_write_law o v (h : H) : Z.testbit (base_msr h) 10 = false → o ∈ plain → is_uint 32 v →
    wrote o v h (lapic_write (o / 4) v h);
  lapic_eoi_law (h : H) : Z.testbit (base_msr h) 10 = false → ended h (lapic_write (0xb0 / 4) 0 h);
  msr_read_law n (h h' : H) v : Z.testbit (base_msr h) 10 = true → 0x800 ≤ n < 0x900 → msr_read n h = (h', v) →
    v = reg h (16 * (n - 0x800)) ∧ looked h h';
  msr_write_law o v (h : H) : Z.testbit (base_msr h) 10 = true → o ∈ plain → is_uint 32 v →
    wrote o v h (msr_write (0x800 + o / 16) v h);
  msr_eoi_law (h : H) : Z.testbit (base_msr h) 10 = true → ended h (msr_write (0x800 + 0xb0 / 16) 0 h);
  base_read_law (h h' : H) v : msr_read IA32_APIC_BASE h = (h', v) → v = base_msr h ∧ same h h';
  base_write_law v (h : H) : let h' := msr_write IA32_APIC_BASE v h in
    base_msr h' = v ∧ (∀ o, o ∈ plain → reg h' o = reg h o) ∧ pic h' = pic h ∧ in_service h' = in_service h;
  port_in8_law p (h h' : H) v : p = 0xa1 ∨ p = 0x21 → port_in8 p h = (h', v) → v = pic h p ∧ same h h';
  port_out8_law p v (h : H) : p = 0xa1 ∨ p = 0x21 → let h' := port_out8 p v h in
    (∀ q, pic h' q = if decide (q = p) then v else pic h q) ∧ base_msr h' = base_msr h ∧
    (∀ o, o ∈ plain → reg h' o = reg h o) ∧ in_service h' = in_service h;
  sti_law (h : H) : same h (sti h) ∧ in_service (sti h) = in_service h ∧
    ∀ e k b, 0 ≤ k < 8 → 0 ≤ b < 32 → Z.testbit (reg h (0x200 + 0x10 * k)) b = true →
      nth (Z.to_nat (32 * k + b)) e false = true → (backlog e (sti h) < backlog e h)%nat;
  cli_law (h : H) : same h (cli h) ∧ in_service (cli h) = in_service h;
}.

(** ** Words of a bitmap *)

Definition words (ws : list Z) : Z := from_le_bytes (ws ≫= to_le_bytes 4).

Lemma words_cons w ws : is_uint 32 w → words (w :: ws) = w + 2 ^ 32 * words ws.
Proof.
  intros Hw. unfold words, is_uint in *. cbn [mbind list_bind to_le_bytes app from_le_bytes].
  set (x := from_le_bytes _). Z.to_euclidean_division_equations; lia.
Qed.

Lemma words_nonneg ws : Forall (is_uint 32) ws → 0 ≤ words ws.
Proof.
  induction 1 as [|w ws Hw _ IH]; [done|]. rewrite words_cons by done. unfold is_uint in Hw. lia.
Qed.

Lemma words_zero ws : Forall (is_uint 32) ws → words ws = 0 ↔ Forall (eq 0) ws.
Proof.
  induction 1 as [|w ws Hw Hws IH]; [by split|]. rewrite words_cons, Forall_cons, <- IH by done.
  pose proof (words_nonneg _ Hws). unfold is_uint in Hw. lia.
Qed.

Lemma words_testbit ws n : Forall (is_uint 32) ws → 0 ≤ n →
  Z.testbit (words ws) n = Z.testbit (nth (Z.to_nat (n / 32)) ws 0) (n mod 32).
Proof.
  intros Hws. revert n. induction Hws as [|w ws Hw Hws IH]; intros n Hn.
  { unfold words. cbn. rewrite !Z.bits_0. destruct (Z.to_nat _); by rewrite Z.bits_0. }
  rewrite words_cons by done. destruct (decide (n < 32)).
  - rewrite (Z.div_small n 32), (Z.mod_small n 32) by lia. cbn [Z.to_nat nth].
    rewrite <- (Z.mod_pow2_bits_low _ 32 n) by lia. f_equal. rewrite Z.mul_comm, Z.mod_add by lia.
    apply Z.mod_small. done.
  - replace (Z.to_nat (n / 32)) with (S (Z.to_nat ((n - 32) / 32))) by (Z.to_euclidean_division_equations; lia).
    cbn [nth]. replace (n mod 32) with ((n - 32) mod 32) by (Z.to_euclidean_division_equations; lia).
    rewrite <- IH by lia. replace n with ((n - 32) + 32) at 1 by lia. rewrite <- Z.div_pow2_bits by lia. f_equal.
    unfold is_uint in Hw. Z.to_euclidean_division_equations; lia.
Qed.

(** ** Register access *)

Section laws.
Context {H : Type} `{HL : Lapic H} `{HV : LapicView H} `{HLL : !LapicLaws H}.
Implicit Types h : H.

(** The mode the driver uses is the one the processor is in. *)
Definition mode_ok (m : ApicMode) h : Prop :=
  Z.testbit (base_msr h) 10 = match m with XApic _ => false | X2Apic => true end.

Lemma same_refl h : same h h.
Proof. by split_and!. Qed.
Lemma same_trans h1 h2 h3 : same h1 h2 → same h2 h3 → same h1 h3.
Proof. intros (A1 & A2 & A3) (B1 & B2 & B3). split; [|split; congruence]. intros o Ho. by rewrite B1, A1. Qed.
Lemma same_mode m h h' : same h h' → mode_ok m h → mode_ok m h'.
Proof. intros (_ & E & _). unfold mode_ok. by rewrite E. Qed.
Lemma looked_refl h : looked h h.
Proof. split; [apply same_refl|]. by repeat split. Qed.
Lemma looked_trans h1 h2 h3 : looked h1 h2 → looked h2 h3 → looked h1 h3.
Proof.
  intros (A & [A1 A2] & A3) (B & [B1 B2] & B3). split; [by eapply same_trans|]. split.
  - split; [congruence|]. intros e. etrans; [apply B2|apply A2].
  - intros o. by rewrite B3, A3.
Qed.

Lemma read_apic_law m r h h' v : mode_ok m h → read_apic m r h = (h', v) → offset_of r < 0x1000 →
  v = reg h (offset_of r) ∧ looked h h'.
Proof.
  intros Hm Hr Ho. assert (offset_of r mod 16 = 0 ∧ 0 ≤ offset_of r) as [Hal H0].
  { destruct r; cbn [offset_of]; split; try done; Z.to_euclidean_division_equations; lia. }
  assert (offset_of r / 16 < 0x100 ∧ 0 ≤ offset_of r / 16 ∧ 16 * (offset_of r / 16) = offset_of r ∧ 4 * (offset_of r / 4) = offset_of r)
    as (H1 & H2 & E16 & E4) by (Z.to_euclidean_division_equations; lia).
  unfold read_apic, mode_ok in *. destruct m as [v0|].
  - destruct (lapic_read_law _ _ _ _ Hm Hr) as (-> & Hs). split; [|done]. by rewrite E4.
  - destruct (msr_read _ h) as [h1 v1] eqn:E. injection Hr as <- <-.
    destruct (msr_read_law (0x800 + offset_of r / 16) _ _ _ Hm ltac:(lia) E) as (-> & Hs). split; [|done].
    rewrite wrap_small by apply reg_uint. f_equal. lia.
Qed.

Lemma write_apic_law m r v h : mode_ok m h → offset_of r ∈ plain → is_uint 32 v →
  wrote (offset_of r) v h (write_apic m r v h).
Proof. intros Hm Hp Hv. unfold mode_ok in Hm. destruct m; [by apply lapic_write_law|by apply msr_write_law]. Qed.

Lemma wrote_mode m o v h h' : wrote o v h h' → mode_ok m h → mode_ok m h'.
Proof. intros (_ & _ & E & _). unfold mode_ok. by rewrite E. Qed.

Lemma eoi_law a h : mode_ok (mode a) h → ended h (eoi (Some a) h).
Proof. intros Hm. unfold mode_ok in Hm. cbn. destruct (mode a); [by apply lapic_eoi_law|by apply msr_eoi_law]. Qed.

Lemma read_bits_law m rg ii n h h' l : (∀ k, (k < ii + n)%nat → offset_of (rg k) < 0x1000) → mode_ok m h →
  read_bits m rg ii n h = (h', l) →
  l = ((λ k, reg h (offset_of (rg k))) <$> seq ii n) ≫= to_le_bytes 4 ∧ looked h h'.
Proof.
  revert ii h h' l. induction n as [|n IH]; intros ii h h' l Ho Hm E; cbn [read_bits] in E.
  { injection E as <- <-. split; [done|apply looked_refl]. }
  destruct (read_apic m (rg ii) h) as [h1 v] eqn:E1. destruct (read_bits m rg (S ii) n h1) as [h2 l2] eqn:E2.
  injection E as <- <-. destruct (read_apic_law _ _ _ _ _ Hm E1) as (-> & L1); [apply Ho; lia|].
  destruct (IH (S ii) h1 h2 l2) as (-> & L2); [intros; apply Ho; lia|by eapply same_mode; [apply L1|]|done|].
  split; [|by eapply looked_trans]. destruct L1 as (_ & _ & Lr). 
  rewrite <- cons_seq, fmap_cons, bind_cons.
  by rewrite (list_fmap_ext (λ k, reg h1 (offset_of (rg k))) (λ k, reg h (offset_of (rg k)))) by (intros; apply Lr).
Qed.

(** What [irr] and [isr] read. *)
Lemma bits_256_law m rg h h' b : (∀ k, (k < 8)%nat → offset_of (rg k) < 0x1000) → mode_ok m h →
  bits_256 m rg h = (h', b) →
  b = [words ((λ k, reg h (offset_of (rg k))) <$> seq 0 4); words ((λ k, reg h (offset_of (rg k))) <$> seq 4 4)] ∧ looked h h'.
Proof.
  intros Ho Hm E. unfold bits_256 in E. destruct (read_bits m rg 0 8 h) as [h1 l] eqn:E1. injection E as <- <-.
  apply read_bits_law in E1 as (-> & Hl); [|done|done]. split; [|done]. reflexivity.
Qed.

Lemma reg_words h f n k : Forall (is_uint 32) ((λ k, reg h (f k)) <$> seq k n).
Proof. apply Forall_fmap, Forall_seq. intros. apply reg_uint. Qed.

(** ** Loops of the teardown *)

Lemma isr_zero h : words ((λ k, reg h (offset_of (Isr k))) <$> seq 0 4) = 0 ∧ words ((λ k, reg h (offset_of (Isr k))) <$> seq 4 4) = 0 ↔
  in_service h = 0%nat.
Proof.
  rewrite !words_zero by apply reg_words. rewrite in_service_isr, !Forall_fmap, !Forall_seq. cbn [offset_of]. split.
  - intros [A B] k Hk. destruct (decide (k < 4)).
    + specialize (A (Z.to_nat k) ltac:(lia)). cbn in A. rewrite Z2Nat.id in A by lia. done.
    + specialize (B (Z.to_nat k) ltac:(lia)). cbn in B. rewrite Z2Nat.id in B by lia. done.
  - intros A. split; intros j Hj; cbn; symmetry; apply A; lia.
Qed.

(** The EOIs stop, with nothing in service. *)
Lemma eoi_all_spec fuel a h : mode_ok (mode a) h → (in_service h < fuel)%nat →
  ∃ h', eoi_all fuel a h = Done h' ∧ same h h' ∧ in_service h' = 0%nat ∧ ∀ e, (backlog e h' ≤ backlog e h)%nat.
Proof.
  revert h. induction fuel as [|fuel IH]; intros h Hm Hf; [lia|]. cbn [eoi_all].
  destruct (isr (mode a) h) as [h1 b] eqn:E1. apply bits_256_law in E1 as (-> & L1); [|cbn; lia|done].
  destruct L1 as (S1 & (I1 & B1) & _). cbn [index nth_error mbind]. unfold index. cbn.
  destruct ((_ =? 0) && (_ =? 0)) eqn:Ez.
  - exists h1. apply andb_true_iff in Ez as [Z1%Z.eqb_eq Z2%Z.eqb_eq]. split_and!; [done|apply S1..| |done].
    rewrite I1. apply isr_zero. by split.
  - assert (in_service h ≠ 0%nat) as Hnz.
    { intros Hz. apply isr_zero in Hz as [Z1 Z2]. cbn in Z1, Z2. rewrite Z1, Z2 in Ez. done. }
    pose proof (same_mode _ _ _ S1 Hm) as Hm1. destruct (eoi_law a h1 Hm1) as (S2 & I2 & B2).
    destruct (IH (eoi (Some a) h1)) as (h' & E & S3 & I3 & B3); [by eapply same_mode|lia|].
    exists h'. split; [done|]. split; [by do 2 (eapply same_trans; [done|])|]. split; [done|].
    intros e. etrans; [apply B3|]. etrans; [apply B2|apply B1].
Qed.

(** A bit that is set in a word of the IRR and in [can_eoi]. *)
Lemma irr_pending h eois c j : (j = 0 ∨ j = 4)%nat →
  (∀ i, (i < 128)%nat → Z.testbit c (Z.of_nat i) = nth (32 * j + i) eois false) →
  Z.land (words ((λ k, reg h (offset_of (Irr k))) <$> seq j 4)) c ≠ 0 →
  ∃ k b, 0 ≤ k < 8 ∧ 0 ≤ b < 32 ∧ Z.testbit (reg h (0x200 + 0x10 * k)) b = true ∧
    nth (Z.to_nat (32 * k + b)) eois false = true.
Proof.
  intros Hj Hc Hnz. set (ws := _ <$> seq j 4) in *.
  assert (Forall (is_uint 32) ws) as Hws by apply reg_words. assert (length ws = 4%nat) as Hl by done.
  assert (0 < Z.land (words ws) c) as Hpos.
  { enough (0 ≤ Z.land (words ws) c) by lia. apply Z.land_nonneg. left. by apply words_nonneg. }
  pose proof (Z.bit_log2 _ Hpos) as Hb. set (n := Z.log2 _) in Hb. assert (0 ≤ n) by apply Z.log2_nonneg.
  rewrite Z.land_spec, andb_true_iff, words_testbit in Hb by done. destruct Hb as [Hb Hcb].
  assert (n / 32 < 4) as H4.
  { destruct (decide (n / 32 < 4)); [done|]. rewrite nth_overflow, Z.bits_0 in Hb by lia. done. }
  exists (Z.of_nat j + n / 32), (n mod 32). split; [Z.to_euclidean_division_equations; lia|].
  split; [apply Z.mod_pos_bound; lia|]. split.
  - rewrite <- Hb. f_equal. rewrite (nth_lookup_Some _ _ _ (reg h (offset_of (Irr (j + Z.to_nat (n / 32)))))).
    + cbn [offset_of]. f_equal. Z.to_euclidean_division_equations; lia.
    + unfold ws. rewrite list_lookup_fmap, lookup_seq_lt by (Z.to_euclidean_division_equations; lia). done.
  - specialize (Hc (Z.to_nat n)). rewrite Z2Nat.id, Hcb in Hc by done.
    rewrite Hc by (Z.to_euclidean_division_equations; lia). f_equal. Z.to_euclidean_division_equations; lia.
Qed.

(** The drain stops. *)
Lemma drain_spec fuel a eois h : length eois = 256%nat → mode_ok (mode a) h → (backlog eois h < fuel)%nat →
  ∃ h', drain fuel a eois h = Done h' ∧ same h h' ∧ in_service h' = in_service h.
Proof.
  intros Hl. destruct (eoi_required_spec eois Hl) as (lo & hi & Er & Hbits).
  revert h. induction fuel as [|fuel IH]; intros h Hm Hf; [lia|]. cbn [drain].
  destruct (irr (mode a) h) as [h1 b] eqn:E1. apply bits_256_law in E1 as (-> & L1); [|cbn; lia|done].
  destruct L1 as (S1 & (I1 & B1) & R1). rewrite Er.
  remember (words (_ <$> seq 0 4)) as x eqn:Ex. remember (words (_ <$> seq 4 4)) as y eqn:Ey.
  unfold index. cbn. destruct (negb (_ || _)) eqn:Ez.
  { exists h1. split; [done|]. split; [done|]. by rewrite I1. }
  assert (∃ k b, 0 ≤ k < 8 ∧ 0 ≤ b < 32 ∧ Z.testbit (reg h (0x200 + 0x10 * k)) b = true ∧
    nth (Z.to_nat (32 * k + b)) eois false = true) as (k & b & Hk & Hb & Hr & He).
  { apply negb_false_iff, orb_true_iff in Ez as [Ez|Ez]; apply negb_true_iff, Z.eqb_neq in Ez; subst x y.
    - apply (irr_pending h eois lo 0); [lia|intros i Hi; apply Hbits; lia|done].
    - apply (irr_pending h eois hi 4); [lia|intros i Hi; apply Hbits; lia|done]. }
  destruct (sti_law h1) as (S2 & I2 & B2).
  assert (backlog eois (sti h1) < backlog eois h1)%nat by (eapply B2; [done|done|by rewrite R1|done]).
  specialize (B1 eois). pose proof (same_trans _ _ _ S1 S2) as S12.
  destruct (IH (sti h1)) as (h' & E & S3 & I3); [by eapply same_mode|lia|].
  exists h'. split; [done|]. split; [by eapply same_trans|congruence].
Qed.

(** ** Teardown *)

(** What [drop] puts back. *)
Definition saved (a : Apic) (o : Z) : Z :=
  if o =? 0xf0 then orig_svr a else if o =? 0x320 then lvt (orig_timer_state a)
  else if o =? 0x380 then icr (orig_timer_state a) else dcr (orig_timer_state a).

Definition saved_ok (a : Apic) : Prop :=
  (∀ o, is_uint 32 (saved a o)) ∧ Z.land (orig_ia32_apic_base a) IA32_APIC_BASE_EN ≠ 0.

Lemma restore_timer_law a h : saved_ok a → mode_ok (mode a) h →
  let h' := write_apic (mode a) SpuriousInterruptVector (orig_svr a) (restore_timer a h) in
  (∀ o, o ∈ plain → reg h' o = saved a o) ∧ base_msr h' = base_msr h ∧ in_service h' = in_service h.
Proof.
  intros [Hs _] Hm. unfold restore_timer.
  pose proof (write_apic_law (mode a) DivideConfiguration _ h Hm ltac:(set_solver) (Hs 0x3e0)) as W1.
  pose proof (wrote_mode (mode a) _ _ _ _ W1 Hm) as Hm1.
  pose proof (write_apic_law (mode a) LvtTimer _ _ Hm1 ltac:(set_solver) (Hs 0x320)) as W2.
  pose proof (wrote_mode (mode a) _ _ _ _ W2 Hm1) as Hm2.
  pose proof (write_apic_law (mode a) InitialCount _ _ Hm2 ltac:(set_solver) (Hs 0x380)) as W3.
  pose proof (wrote_mode (mode a) _ _ _ _ W3 Hm2) as Hm3.
  pose proof (write_apic_law (mode a) SpuriousInterruptVector _ _ Hm3 ltac:(set_solver) (Hs 0xf0)) as W4.
  destruct W1 as (V1 & K1 & B1 & _ & I1 & _), W2 as (V2 & K2 & B2 & _ & I2 & _), W3 as (V3 & K3 & B3 & _ & I3 & _),
    W4 as (V4 & K4 & B4 & _ & I4 & _). cbn in *.
  split; [|split; congruence]. intros o Ho. repeat (apply elem_of_cons in Ho as [->|Ho]); [..|by apply not_elem_of_nil in Ho].
  - done.
  - rewrite K4, K3 by first [set_solver|lia]. done.
  - rewrite K4 by first [set_solver|lia]. done.
  - rewrite K4, K3, K2 by first [set_solver|lia]. done.
Qed.

Lemma mask_testbit v : Z.testbit (Z.lor LVT_MASK v) 16 = true.
Proof. by rewrite Z.lor_spec. Qed.

Lemma drop_apic_law fuel a eois h : saved_ok a → mode_ok (mode a) h → length eois = 256%nat →
  (in_service h < fuel)%nat → (backlog eois h < fuel)%nat →
  ∃ h', drop_apic fuel a eois h = Done (h', true) ∧ (∀ o, o ∈ plain → reg h' o = saved a o) ∧
    base_msr h' = Z.lor (orig_ia32_apic_base a) (match mode a with X2Apic => IA32_APIC_BASE_EXTD | XApic _ => 0 end) ∧
    pic h' 0xa1 = orig_pic_a1 a ∧ pic h' 0x21 = orig_pic_21 a ∧ in_service h' = 0%nat.
Proof.
  intros Hs Hm Hl Hi Hb. unfold drop_apic. destruct (read_apic (mode a) LvtTimer h) as [h1 v] eqn:E1.
  apply read_apic_law in E1 as (-> & S1 & (I1 & B1) & _); [|done|done].
  pose proof (same_mode _ _ _ S1 Hm) as Hm1.
  pose proof (write_apic_law (mode a) LvtTimer (Z.lor LVT_MASK (reg h 0x320)) h1 Hm1 ltac:(set_solver)
    ltac:(apply lor_uint; [done|done|apply reg_uint])) as W2.
  pose proof (wrote_mode _ _ _ _ _ W2 Hm1) as Hm2. destruct W2 as (_ & _ & _ & _ & I2 & B2).
  specialize (B2 eq_refl (mask_testbit _) eois). specialize (B1 eois). cbn [offset_of] in *.
  set (h2 := write_apic _ _ _ h1) in *.
  destruct (eoi_all_spec fuel a h2) as (h3 & -> & S3 & I3 & B3); [done|lia|]. cbn [mbind outcome_bind]. specialize (B3 eois).
  pose proof (same_mode _ _ _ S3 Hm2) as Hm3.
  destruct (drain_spec fuel a eois h3) as (h4 & -> & S4 & I4); [done|done|lia|]. cbn [mbind outcome_bind].
  destruct (cli_law h4) as [S5 I5]. pose proof (same_mode _ _ _ S5 (same_mode _ _ _ S4 Hm3)) as Hm5.
  destruct (restore_timer_law a (cli h4) Hs Hm5) as (V6 & _ & I6). set (h6 := write_apic _ _ _ (restore_timer _ _)) in *.
  rewrite (proj2 (Z.eqb_neq _ _) (proj2 Hs)). cbn [negb assert mbind outcome_bind]. set (b := Z.lor (orig_ia32_apic_base a) _).
  destruct (base_write_law b h6) as (V7 & R7 & _ & I7). set (h7 := msr_write _ _ _) in *.
  destruct (port_out8_law 0xa1 (orig_pic_a1 a) h7) as (P8 & V8 & R8 & I8); [auto|].
  destruct (port_out8_law 0x21 (orig_pic_21 a) (port_out8 0xa1 (orig_pic_a1 a) h7)) as (P9 & V9 & R9 & I9); [auto|].
  eexists. split; [done|]. rewrite !P9, !P8. split; [|split; [congruence|]].
  { intros o Ho. by rewrite R9, R8, R7, V6. }
  split; [done|]. split; [done|]. congruence.
Qed.

(** ** Initialisation *)

Lemma enable_apic_law features h h' orig p q :
  (x2apic features = false → Z.testbit (base_msr h) 10 = false) →
  enable_apic features h = Done (h', (orig, p, q)) →
  orig = base_msr h ∧ Z.land orig IA32_APIC_BASE_EN ≠ 0 ∧ p = pic h 0xa1 ∧ q = pic h 0x21 ∧
  (∀ o, o ∈ plain → reg h' o = reg h o) ∧ Z.testbit (base_msr h') 10 = x2apic features ∧
  pic h' 0xa1 = 0xff ∧ pic h' 0x21 = 0xff.
Proof.
  intros Hx E. unfold enable_apic in E. destruct (msr_read IA32_APIC_BASE h) as [h1 o1] eqn:E1.
  apply base_read_law in E1 as (-> & (R1 & B1 & P1)).
  apply bind_Done in E as ([] & EN%assert_Done & E). apply negb_true_iff, Z.eqb_neq in EN.
  destruct (port_in8 0xa1 h1) as [h2 v2] eqn:E2. apply port_in8_law in E2 as (-> & (R2 & B2 & P2)); [|auto].
  destruct (port_in8 0x21 h2) as [h3 v3] eqn:E3. apply port_in8_law in E3 as (-> & (R3 & B3 & P3)); [|auto].
  destruct (port_out8_law 0xa1 0xff h3) as (P4 & B4 & R4 & _); [auto|]. set (h4 := port_out8 0xa1 _ _) in *.
  destruct (port_out8_law 0x21 0xff h4) as (P5 & B5 & R5 & _); [auto|]. set (h5 := port_out8 0x21 _ _) in *.
  set (b := Z.lor (Z.lor _ _) _) in E. destruct (base_write_law b h5) as (B6 & R6 & P6 & _).
  apply Done_inj in E. injection E as <- <- <- <-.
  split; [done|]. split; [done|]. split; [congruence|]. split; [congruence|]. split.
  { intros o Ho. by rewrite R6, R5, R4, R3, R2, R1. }
  rewrite P6, B6, !P5, P4. split; [|done]. unfold b. rewrite !Z.lor_spec, Z.land_spec.
  destruct (x2apic features); [by rewrite !orb_true_r|]. by rewrite Hx.
Qed.

(** A read in [E], at a state in the mode: its value, and the state after it is
    in the mode, with the same registers. *)
Ltac apic_read E :=
  let S := fresh "S" in let R := fresh "R" in let Hm := fresh "Hm" in
  apply read_apic_law in E as (-> & (S & _ & R)); [|done|done];
  match type of S with same ?h ?h' =>
    match goal with M : mode_ok ?m h |- _ => pose proof (same_mode m h h' S M) as Hm end
  end.

Lemma init_law features l s h0 h1 s1 l1 a :
  (x2apic features = false → Z.testbit (base_msr h0) 10 = false) →
  init features None l s h0 = Done (h1, s1, l1, a) →
  saved_ok a ∧ mode_ok (mode a) h1 ∧ (∀ o, o ∈ plain → saved a o = reg h0 o) ∧
  orig_ia32_apic_base a = base_msr h0 ∧ orig_pic_a1 a = pic h0 0xa1 ∧ orig_pic_21 a = pic h0 0x21 ∧
  (mode a = X2Apic ↔ x2apic features = true) ∧
  reg h1 0xf0 = 0x1ff ∧ pic h1 0xa1 = 0xff ∧ pic h1 0x21 = 0xff ∧
  (∀ o, o ∈ plain → o ≠ 0xf0 → reg h1 o = reg h0 o).
Proof.
  intros Hx E. unfold init in E. do 3 (apply bind_Done in E as ([] & _ & E)).
  apply bind_Done in E as ([h2 [[orig p] q]] & Ee & E).
  destruct (enable_apic_law _ _ _ _ _ _ Hx Ee) as (-> & EN & -> & -> & R2 & B2 & Pa & Pb).
  apply bind_Done in E as ([s2 m] & Em & E).
  assert ((m = X2Apic ↔ x2apic features = true) ∧ mode_ok m h2) as [Hmode Hm].
  { unfold mode_ok. rewrite B2. destruct (x2apic features); cbn [negb] in Em; outcome_inv; [done|].
    destruct a0 as [s3 v]. outcome_inv. done. }
  destruct (read_apic m SpuriousInterruptVector h2) as [h3 v3] eqn:E3. apic_read E3.
  destruct (read_apic m DivideConfiguration h3) as [h4 v4] eqn:E4. apic_read E4.
  destruct (read_apic m InitialCount h4) as [h5 v5] eqn:E5. apic_read E5.
  destruct (read_apic m LvtTimer h5) as [h6 v6] eqn:E6. apic_read E6.
  pose proof (write_apic_law m SpuriousInterruptVector (Z.lor (Z.shiftl 1 8) 0xff) h6 ltac:(done) ltac:(set_solver) ltac:(done)) as W7.
  assert (mode_ok m h6) as Hm6 by done.
  pose proof (wrote_mode _ _ _ _ _ W7 Hm6) as Hm7. set (h7 := write_apic _ _ _ h6) in *.
  destruct (apic_id m h7) as [h8 id] eqn:E8. unfold apic_id in E8.
  destruct (read_apic m ApicId h7) as [h8' v8] eqn:E8'. apic_read E8'.
  injection E8 as <- <-. apply Done_inj in E. injection E as <- <- <- <-. cbn [mode orig_ia32_apic_base orig_pic_a1 orig_pic_21].
  assert (∀ o, o ∈ plain → reg h6 o = reg h0 o) as R6 by (intros o Ho; repeat (match goal with R : ∀ o, reg _ o = _ |- _ => rewrite R; clear R end); auto).
  destruct W7 as (V7 & K7 & _ & P7 & _). cbn [offset_of] in *.
  assert (pic h8' = pic h2) as -> by (destruct S as (_ & _ & ?), S0 as (_ & _ & ?), S1 as (_ & _ & ?), S2 as (_ & _ & ?), S3 as (_ & _ & ?); congruence).
  split; [split; [|done]|]. { intros o. unfold saved. repeat case_match; apply reg_uint. }
  split; [done|]. split.
  { intros o Ho. repeat (apply elem_of_cons in Ho as [->|Ho]); [..|by apply not_elem_of_nil in Ho]; cbn;
      rewrite <- ?R2 by set_solver; congruence. }
  do 4 (split; [done|]). split; [by rewrite R4|]. do 2 (split; [done|]). intros o Ho Hne. by rewrite R4, K7, R6.
Qed.

End laws.

(** ** A simulated processor *)

Module Sim.
Record state := mk { regs : Z → Z; base : Z; ports : Z → Z; serv : nat; pend : nat }.

Definition read (o : Z) (h : state) : Z :=
  if bool_decide (o ∈ plain) then wrap 32 (regs h o)
  else if o =? 0x170 then Z.ones (Z.of_nat (Nat.min (serv h) 32))
  else if o =? 0x270 then Z.ones (Z.of_nat (Nat.min (pend h) 32)) else 0.
Definition write (o v : Z) (h : state) : state :=
  if o =? 0xb0 then mk (regs h) (base h) (ports h) (pred (serv h)) (pend h)
  else mk (λ p, if p =? o then v else regs h p) (base h) (ports h) (serv h) (pend h).

#[global] Instance sim_lapic : Lapic state := {
  lapic_read i h := (h, read (4 * i) h);
  lapic_write i v h := write (4 * i) v h;
  msr_read n h := (h, if n =? IA32_APIC_BASE then base h else read (16 * (n - 0x800)) h);
  msr_write n v h :=
    if n =? IA32_APIC_BASE then mk (regs h) v (ports h) (serv h) (pend h) else write (16 * (n - 0x800)) v h;
  port_in8 p h := (h, ports h p);
  port_out8 p v h := mk (regs h) (base h) (λ q, if decide (q = p) then v else ports h q) (serv h) (pend h);
  sti h := mk (regs h) (base h) (ports h) (serv h) (pred (pend h));
  cli h := h;
}.

#[global] Instance sim_view : LapicView state := {
  reg h o := read o h; base_msr := base; pic := ports; in_service := serv; backlog _ := pend;
}.

Lemma read_uint h o : is_uint 32 (read o h).
Proof.
  unfold read. case_match; [by apply wrap_uint|]. repeat case_match; try done; rewrite Z.ones_equiv; unfold is_uint;
    (split; [|apply Z.lt_pred_le; apply Z.pow_le_mono_r; lia]); pose proof (Z.pow_pos_nonneg 2 (Z.of_nat (Nat.min (serv h) 32)));
    pose proof (Z.pow_pos_nonneg 2 (Z.of_nat (Nat.min (pend h) 32))); lia.
Qed.

Lemma write_wrote o v h : o ∈ plain → is_uint 32 v → wrote o v h (write o v h).
Proof.
  intros Ho Hv. assert (o ≠ 0xb0) by (intros ->; set_solver). unfold write. rewrite (proj2 (Z.eqb_neq _ _)) by done.
  split; [|split; [|by repeat split]].
  - cbn. unfold read. rewrite bool_decide_true by done. cbn. by rewrite Z.eqb_refl, wrap_small.
  - intros o' Ho' Hne. cbn. unfold read. rewrite bool_decide_true by done. cbn. by rewrite (proj2 (Z.eqb_neq _ _)).
Qed.

Lemma same_regs h h' : regs h' = regs h → base h' = base h → ports h' = ports h → same h h'.
Proof.
  intros Er Eb Ep. split; [|done]. intros o Ho. cbn. unfold read. rewrite bool_decide_true by done. by rewrite Er.
Qed.

Lemma write_ended h : ended h (write 0xb0 0 h).
Proof. split; [by apply same_regs|]. by cbn. Qed.

Lemma looked_refl' h : looked h h.
Proof. split; [by apply same_regs|]. by repeat split. Qed.

Lemma plain_offset o : o ∈ plain → 4 * (o / 4) = o ∧ 16 * (0x800 + o / 16 - 0x800) = o ∧ 0x800 + o / 16 ≠ IA32_APIC_BASE.
Proof. intros Ho. unfold plain in Ho. repeat (apply elem_of_cons in Ho as [->|Ho]); [..|by apply not_elem_of_nil in Ho]; done. Qed.

(** A bit of the IRR is set only if something is pending. *)
Lemma irr_pend h k b : 0 ≤ k < 8 → 0 ≤ b < 32 → Z.testbit (read (0x200 + 0x10 * k) h) b = true → pend h ≠ 0%nat.
Proof.
  intros Hk Hb Ht Hp. unfold read in Ht. rewrite Hp, bool_decide_false in Ht by (unfold plain; set_solver by lia).
  rewrite (proj2 (Z.eqb_neq _ _)) in Ht by lia. case_match; by rewrite Z.bits_0 in Ht.
Qed.

Lemma isr_serv h : serv h = 0%nat ↔ ∀ k, 0 ≤ k < 8 → read (0x100 + 0x10 * k) h = 0.
Proof.
  split.
  - intros Hs k Hk. unfold read. rewrite Hs, bool_decide_false by (unfold plain; set_solver by lia).
    case_match; [done|]. by rewrite (proj2 (Z.eqb_neq _ _)) by lia.
  - intros H. specialize (H 7 ltac:(lia)). unfold read in H. rewrite bool_decide_false in H by (unfold plain; set_solver).
    change (0x100 + 0x10 * 7 =? 0x170) with true in H. cbn iota in H.
    destruct (decide (serv h = 0%nat)) as [|Hn]; [done|]. rewrite Z.ones_equiv in H.
    assert (2 ^ 1 ≤ 2 ^ Z.of_nat (Nat.min (serv h) 32)) by (apply Z.pow_le_mono_r; lia). lia.
Qed.

#[global] Instance sim_laws : LapicLaws state.
Proof.
  split.
  - apply isr_serv.
  - intros. apply read_uint.
  - intros i h h' v _ E. cbn in E. injection E as <- <-. split; [done|apply looked_refl'].
  - intros o v h _ Ho Hv. cbn. rewrite (proj1 (plain_offset o Ho)). by apply write_wrote.
  - intros h _. apply write_ended.
  - intros n h h' v _ Hn E. cbn in E. rewrite (proj2 (Z.eqb_neq _ _)) in E by (unfold IA32_APIC_BASE; lia).
    injection E as <- <-. split; [done|apply looked_refl'].
  - intros o v h _ Ho Hv. destruct (plain_offset o Ho) as (_ & E & Hne). cbn [msr_write sim_lapic].
    rewrite (proj2 (Z.eqb_neq _ _)), E by done. by apply write_wrote.
  - intros h _. apply write_ended.
  - intros h h' v E. cbn in E. injection E as <- <-. split; [done|by apply same_regs].
  - intros v h. cbn. by repeat split.
  - intros p h h' v _ E. cbn in E. injection E as <- <-. split; [done|by apply same_regs].
  - intros p v h _. cbn. by repeat split.
  - intros h. split; [by apply same_regs|]. split; [done|]. intros e k b Hk Hb Ht _. cbn in *.
    pose proof (irr_pend h k b Hk Hb Ht). lia.
  - intros h. split; [by apply same_regs|done].
Qed.
End Sim.

(** A core with x2APIC, whose timer's divide configuration was 11, and which is
    torn down from the timer's handler with another timer interrupt pending. *)
Definition demo_features : CPUFeatures :=
  get_cpu_features (λ leaf _, if leaf =? 1 then (0, 0, 2 ^ 21, 2 ^ 9) else (1, 0, 0, 0)).
Definition demo_boot : Sim.state :=
  Sim.mk (λ o, if o =? 0x3e0 then 11 else 0) 0xfee00900 (λ p, if p =? 0xa1 then 0x8f else 0xb8) 0 0.
Definition demo_core : CoreLocals := mkCoreLocals 0 0 0 0 1 0xffffffff.
Definition demo_up : outcome (Sim.state * Kernel * CoreLocals * Apic) :=
  init demo_features None demo_core demo_kernel demo_boot.
Definition demo_apic : Apic := mkApic X2Apic 0xfee00900 0 0x8f 0xb8 (mkTimerState 11 0 0).
Definition demo_timer : Sim.state :=
  Sim.mk (λ o, if o =? 0x320 then 0x200e0 else if o =? 0x380 then 10000000 else 0) 0xfee00d00 (λ _, 0xff) 1 1.

Lemma demo_up_eq : ∃ h1 l1, demo_up = Done (h1, demo_kernel, l1, demo_apic).
Proof. eexists _, _. reflexivity. Qed.

