(* ===== verification/AcpiBoot.v ===== *)
(** * Starting the processors (kernel/src/acpi.rs)

    The last part of [init], in which the boot processor starts the others one
    by one, and [core_checkin], in which every processor reports and waits for
    all.  The processors run concurrently: a step relation interleaves their
    accesses to [APICS] and [CORES_CHECKED_IN]. *)

From stdpp Require Import base tactics option list numbers strings gmap relations.
From Stdlib Require Import ZArith Lia.
From S2P Require Import Prelude MachineInt Bytes RangeSet PhysMem KernelMm Acpi.

Local Open Scope Z_scope.

(** Where a processor is in [core_checkin]: not started, before the exchange of
    its state, before the increment, at the wait, through, or in a panic. *)
Inductive CorePc := Off | Cas | Add | Wait | Through | Dead.

#[export] Instance CorePc_eq_dec : EqDecision CorePc.
Proof. solve_decision. Defined.

(** Where the boot processor is in the launch loop: before an element of
    [valid_apics], between the store of [Launched] and the IPIs, at the wait for
    [Online], or past the loop. *)
Inductive BspPc := Launch (todo : list Z) | Ipi (id : Z) (todo : list Z) | Await (id : Z) (todo : list Z) | Checking.

Record Boot := mkBoot { b_cores : Cores; b_bsp : BspPc; b_pcs : gmap Z CorePc }.

Definition pc_of (b : Boot) (id : Z) : CorePc := default Off (b_pcs b !! id).

(** One atomic access of [core_checkin] on the processor [apic_id]; [is_bsp] is
    [core!().id == 0]. *)
Definition checkin (is_bsp : bool) (apic_id : Z) (pc : CorePc) (c : Cores) : CorePc * Cores :=
  match pc with
  | Cas =>
      match apics c !! Z.to_nat apic_id with
      | None => (Dead, c)
      | Some old =>
          let c := if old =? apic_state_u8 Launched
            then mkCores (total_cores c) (<[Z.to_nat apic_id := apic_state_u8 Online]> (apics c)) (checked_in c)
            else c in
          if is_bsp then if old =? apic_state_u8 Online then (Add, c) else (Dead, c)
          else if old =? apic_state_u8 Launched then (Add, c) else (Dead, c)
      end
  | Add => (Wait, mkCores (total_cores c) (apics c) (wrapping_add 32 (checked_in c) 1))
  | Wait =>
      match num_cores c with
      | Done n => if checked_in c =? n then (Through, c) else (Wait, c)
      | _ => (Dead, c)
      end
  | _ => (pc, c)
  end.

Section boot.
Variable own : Z.

Definition set_pc (id : Z) (pc : CorePc) (c : Cores) (b : Boot) : Boot :=
  mkBoot c (b_bsp b) (<[id := pc]> (b_pcs b)).

(** One access of the launch loop.  The IPIs reset the processor and start it
    at the kernel's entry. *)
Definition launch (b : Boot) : Boot :=
  match b_bsp b with
  | Launch [] => mkBoot (b_cores b) Checking (<[own := Cas]> (b_pcs b))
  | Launch (id :: todo) =>
      if own =? id then mkBoot (b_cores b) (Launch todo) (b_pcs b) else
      match set_core_state id Launched (b_cores b) with
      | Done c => mkBoot c (Ipi id todo) (b_pcs b)
      | _ => mkBoot (b_cores b) Checking (<[own := Dead]> (b_pcs b))
      end
  | Ipi id todo => mkBoot (b_cores b) (Await id todo) (<[id := Cas]> (b_pcs b))
  | Await id todo =>
      match core_state id (b_cores b) with
      | Done st => if decide (st ≠ Online) then b else mkBoot (b_cores b) (Launch todo) (b_pcs b)
      | _ => mkBoot (b_cores b) Checking (<[own := Dead]> (b_pcs b))
      end
  | Checking => b
  end.

Definition checkin_at (id : Z) (b : Boot) : Boot :=
  let '(pc, c) := checkin (id =? own) id (pc_of b id) (b_cores b) in set_pc id pc c b.

(** The launch loop, and any processor that is in [core_checkin]. *)
Inductive boot_step : Boot → Boot → Prop :=
| step_launch b : b_bsp b ≠ Checking → boot_step b (launch b)
| step_checkin b id : pc_of b id ≠ Off → boot_step b (checkin_at id b).

(** ** Invariant *)

Variable ids : list Z.
Hypothesis ids_nodup : NoDup ids.
Hypothesis ids_range : ∀ id, id ∈ ids → 0 ≤ id < Z.of_nat MAX_CORES.
Hypothesis own_in : own ∈ ids.

(** [b] is what [register_tables] leaves: every processor [Offline], this one
    [Online], and nobody has checked in. *)
Definition boot_init (b : Boot) : Prop :=
  total_cores (b_cores b) = Z.of_nat (length ids) ∧ length (apics (b_cores b)) = MAX_CORES ∧
  checked_in (b_cores b) = 0 ∧ b_bsp b = Launch ids ∧ b_pcs b = ∅ ∧
  ∀ id, id ∈ ids → apics (b_cores b) !! Z.to_nat id = Some (apic_state_u8 (if decide (id = own) then Online else Offline)).

(** It has incremented the counter. *)
Definition counted (pc : CorePc) : Prop := pc = Wait ∨ pc = Through.
#[local] Instance counted_dec pc : Decision (counted pc).
Proof. unfold counted. apply _. Defined.

(** The processors that are still to be launched. *)
Definition todo_of (p : BspPc) : list Z :=
  match p with Launch todo | Ipi _ todo | Await _ todo => todo | Checking => [] end.
Definition current (p : BspPc) : list Z :=
  match p with Ipi id _ | Await id _ => [id] | _ => [] end.

(** The state of another processor. *)
Definition ap_ok (p : BspPc) (id : Z) (pc : CorePc) (st : option Z) : Prop :=
  if decide (id ∈ todo_of p) then pc = Off ∧ st = Some (apic_state_u8 Offline)
  else if decide (id ∈ current p) then
    match p with
    | Ipi _ _ => pc = Off ∧ st = Some (apic_state_u8 Launched)
    | _ => (pc = Cas ∧ st = Some (apic_state_u8 Launched)) ∨
           ((pc = Add ∨ counted pc) ∧ st = Some (apic_state_u8 Online))
    end
  else (pc = Add ∨ counted pc) ∧ st = Some (apic_state_u8 Online).

Record boot_inv (b : Boot) : Prop := {
  bi_total : total_cores (b_cores b) = Z.of_nat (length ids);
  bi_len : length (apics (b_cores b)) = MAX_CORES;
  bi_todo : NoDup (current (b_bsp b) ++ todo_of (b_bsp b));
  bi_sub : ∀ id, id ∈ current (b_bsp b) ++ todo_of (b_bsp b) → id ∈ ids;
  bi_cur : ~ own ∈ current (b_bsp b);
  bi_ap id : id ∈ ids → id ≠ own → ap_ok (b_bsp b) id (pc_of b id) (apics (b_cores b) !! Z.to_nat id);
  bi_own : apics (b_cores b) !! Z.to_nat own = Some (apic_state_u8 Online);
  bi_own_pc : match b_bsp b with
              | Checking => pc_of b own = Cas ∨ pc_of b own = Add ∨ counted (pc_of b own)
              | _ => pc_of b own = Off
              end;
  bi_out id : ~ id ∈ ids → pc_of b id = Off;
  bi_count : checked_in (b_cores b) = Z.of_nat (length (filter (λ id, counted (pc_of b id)) ids));
  bi_barrier id : id ∈ ids → pc_of b id = Through → ∀ id', id' ∈ ids → counted (pc_of b id');
}.

Lemma pc_of_insert c p m id pc id' :
  pc_of (mkBoot c p (<[id := pc]> m)) id' = if decide (id = id') then pc else default Off (m !! id').
Proof.
  unfold pc_of. cbn. destruct (decide (id = id')) as [->|]; [by rewrite lookup_insert_eq|by rewrite lookup_insert_ne].
Qed.

(** One processor more is counted, or as many. *)
Lemma count_same (f g : Z → CorePc) : (∀ id, id ∈ ids → counted (f id) ↔ counted (g id)) →
  length (filter (λ id, counted (f id)) ids) = length (filter (λ id, counted (g id)) ids).
Proof.
  clear ids_nodup ids_range own_in. induction ids as [|x l IH]; intros H; [done|]. rewrite !filter_cons.
  pose proof (H x ltac:(by left)). destruct (decide (counted (f x))), (decide (counted (g x))); try tauto;
    cbn; rewrite IH; try done; intros id Hid; apply H; by right.
Qed.

Lemma count_up (f g : Z → CorePc) id : id ∈ ids → ~ counted (f id) → counted (g id) →
  (∀ id', id' ≠ id → counted (f id') ↔ counted (g id')) →
  length (filter (λ id, counted (g id)) ids) = S (length (filter (λ id, counted (f id)) ids)).
Proof.
  intros Hid Hf Hg H. destruct (list_elem_of_split _ _ Hid) as (l1 & l2 & E).
  assert (~ id ∈ l1 ∧ ~ id ∈ l2) as [H1 H2].
  { rewrite E in ids_nodup. apply NoDup_app in ids_nodup as (_ & Hd & Hn). apply NoDup_cons in Hn as [Hn _].
    split; [|done]. intros Hin. by apply (Hd id Hin); left. }
  rewrite E, !filter_app, !length_app, !filter_cons. rewrite decide_True, decide_False by done. cbn.
  assert (∀ l, ~ id ∈ l → length (filter (λ id, counted (g id)) l) = length (filter (λ id, counted (f id)) l)) as Hl.
  { induction l as [|x l IH]; [done|]. rewrite not_elem_of_cons, !filter_cons. intros [Hx Hl].
    pose proof (H x ltac:(done)). destruct (decide (counted (f x))), (decide (counted (g x))); try tauto; cbn; by rewrite IH. }
  rewrite (Hl l1 H1), (Hl l2 H2). lia.
Qed.

(** The counter reaches the number of processors when all have incremented it. *)
Lemma count_all (f : Z → CorePc) : length (filter (λ id, counted (f id)) ids) = length ids →
  ∀ id, id ∈ ids → counted (f id).
Proof.
  clear ids_nodup ids_range own_in. induction ids as [|x l IH]; intros Hl id Hid; [by inversion Hid|].
  rewrite filter_cons in Hl. pose proof (length_filter (λ id, counted (f id)) l) as Hle.
  destruct (decide (counted (f x))); cbn in Hl; [|lia]. apply elem_of_cons in Hid as [->|Hid]; [done|].
  apply IH; [lia|done].
Qed.

Lemma boot_inv_ext b b' : b_cores b' = b_cores b → b_bsp b' = b_bsp b → (∀ id, pc_of b' id = pc_of b id) →
  boot_inv b → boot_inv b'.
Proof.
  intros Ec Eb Ep [H1 H2 H3 H4 H5 H6 H7 H8 H9 H10 H11].
  split; rewrite ?Ec, ?Eb, ?Ep; try done.
  - intros id. rewrite Ep. by apply H6.
  - intros id Hid. rewrite Ep. by apply H9.
  - rewrite H10. f_equal. apply count_same. intros id _. by rewrite Ep.
  - intros id Hid. rewrite Ep. intros Ht id' Hid'. rewrite Ep. by apply (H11 id).
Qed.

Lemma boot_inv_init b : boot_init b → boot_inv b.
Proof.
  intros (H1 & H2 & H3 & H4 & H5 & H6).
  assert (∀ id, pc_of b id = Off) as Hoff by (intros id; unfold pc_of; by rewrite H5, lookup_empty).
  split; rewrite ?H4, ?Hoff; cbn [current todo_of app]; try done.
  - apply not_elem_of_nil.
  - intros id Hid Hne. unfold ap_ok. cbn [todo_of]. by rewrite decide_True, Hoff, (H6 id Hid), decide_False by done.
  - by rewrite (H6 own own_in), decide_True.
  - rewrite H3. destruct (filter (λ id, counted (pc_of b id)) ids) as [|x l] eqn:E; [done|].
    assert (x ∈ filter (λ id, counted (pc_of b id)) ids) as Hx by (rewrite E; by left).
    apply list_elem_of_filter in Hx as [[Hx|Hx] _]; by rewrite Hoff in Hx.
  - intros id _. by rewrite Hoff.
Qed.

Lemma set_core_state_ok id st c : (Z.to_nat id < length (apics c))%nat →
  set_core_state id st c = Done (mkCores (total_cores c) (<[Z.to_nat id := apic_state_u8 st]> (apics c)) (checked_in c)).
Proof. intros H. unfold set_core_state, index_set. by rewrite decide_True. Qed.

Lemma core_state_ok id st c : apics c !! Z.to_nat id = Some (apic_state_u8 st) → core_state id c = Done st.
Proof. intros H. unfold core_state, index. rewrite H. by destruct st. Qed.

Lemma to_nat_ne id id' : id ∈ ids → id' ∈ ids → id ≠ id' → Z.to_nat id ≠ Z.to_nat id'.
Proof. intros H1%ids_range H2%ids_range. lia. Qed.

(** The store of [Launched], and the loop skipping this processor. *)
Lemma boot_inv_launch_next b id todo : boot_inv b → b_bsp b = Launch (id :: todo) → boot_inv (launch b).
Proof.
  intros Hi Eb. pose proof Hi as [H1 H2 H3 H4 H5 H6 H7 H8 H9 H10 H11]. rewrite Eb in *. cbn [current todo_of app] in *.
  assert (id ∈ ids) as Hid by (apply H4; by left). apply NoDup_cons in H3 as [Hnt Hnd].
  unfold launch. rewrite Eb. destruct (Z.eqb_spec own id) as [<-|Hne].
  - split; cbn [b_cores b_bsp b_pcs current todo_of app]; try done.
    + intros x Hx. apply H4. by right.
    + intros x Hx Hxo. specialize (H6 x Hx Hxo). unfold ap_ok in *. cbn [todo_of current] in *.
      rewrite (decide_ext (x ∈ own :: todo) (x ∈ todo)) in H6 by (rewrite elem_of_cons; naive_solver). done.
  - pose proof (ids_range id Hid). rewrite set_core_state_ok by (rewrite H2; lia).
    split; cbn [b_cores b_bsp b_pcs current todo_of app total_cores apics checked_in]; try done.
    + by rewrite length_insert.
    + by apply NoDup_cons.
    + rewrite list_elem_of_singleton. done.
    + intros x Hx Hxo. specialize (H6 x Hx Hxo). unfold ap_ok in *. cbn [todo_of current] in *.
      change (pc_of (mkBoot _ _ (b_pcs b)) x) with (pc_of b x). destruct (decide (x = id)) as [->|Hxi].
      * rewrite decide_True in H6 by (by left). rewrite decide_False by done. rewrite decide_True by (by apply list_elem_of_singleton).
        rewrite list_lookup_insert_eq by (rewrite H2; lia). naive_solver.
      * rewrite list_lookup_insert_ne by (by apply to_nat_ne; naive_solver).
        rewrite (decide_ext (x ∈ id :: todo) (x ∈ todo)) in H6 by (rewrite elem_of_cons; naive_solver).
        rewrite decide_False in H6 at 2 || idtac. case_decide; [done|].
        rewrite decide_False by (by rewrite list_elem_of_singleton). by rewrite decide_False in H6 by apply not_elem_of_nil.
    + rewrite list_lookup_insert_ne by (by apply to_nat_ne; naive_solver). done.
Qed.

(** The end of the loop. *)
Lemma boot_inv_launch_end b : boot_inv b → b_bsp b = Launch [] → boot_inv (launch b).
Proof.
  intros Hi Eb. pose proof Hi as [H1 H2 H3 H4 H5 H6 H7 H8 H9 H10 H11]. rewrite Eb in *. cbn [current todo_of app] in *.
  unfold launch. rewrite Eb. split; cbn [b_cores b_bsp b_pcs current todo_of app]; try done.
  - intros x Hx Hxo. rewrite pc_of_insert, decide_False by done. by apply H6.
  - rewrite pc_of_insert, decide_True by done. by left.
  - intros x Hx. rewrite pc_of_insert, decide_False by (intros ->; done). by apply H9.
  - rewrite H10. f_equal. apply count_same. intros x Hx. rewrite pc_of_insert. fold (pc_of b x).
    case_decide; [subst; rewrite H8; unfold counted; naive_solver|done].
  - intros x Hx. rewrite pc_of_insert. case_decide; [done|]. fold (pc_of b x). intros Ht.
    specialize (H11 x Hx Ht own own_in). rewrite H8 in H11. by destruct H11.
Qed.

(** The IPIs *)
Lemma boot_inv_ipi b id todo : boot_inv b → b_bsp b = Ipi id todo → boot_inv (launch b).
Proof.
  intros Hi Eb. pose proof Hi as [H1 H2 H3 H4 H5 H6 H7 H8 H9 H10 H11]. rewrite Eb in *. cbn [current todo_of app] in *.
  assert (id ∈ ids) as Hid by (apply H4; by left). rewrite list_elem_of_singleton in H5.
  pose proof H3 as [Hnt _]%NoDup_cons. pose proof (H6 id Hid ltac:(done)) as Hpc. unfold ap_ok in Hpc. cbn [todo_of current] in Hpc.
  rewrite decide_False, decide_True in Hpc by (done || by apply list_elem_of_singleton). destruct Hpc as [Hpc Hst].
  unfold launch. rewrite Eb. split; cbn [b_cores b_bsp b_pcs current todo_of app]; try done.
  - by rewrite list_elem_of_singleton.
  - intros x Hx Hxo. rewrite pc_of_insert. specialize (H6 x Hx Hxo). unfold ap_ok in *. cbn [todo_of current] in *.
    destruct (decide (id = x)) as [<-|Hne].
    + rewrite decide_False, decide_True by (done || by apply list_elem_of_singleton). by left.
    + fold (pc_of b x). case_decide; [done|]. rewrite decide_False by (by rewrite list_elem_of_singleton).
      by rewrite decide_False in H6 by (by rewrite list_elem_of_singleton).
  - rewrite pc_of_insert, decide_False by naive_solver. done.
  - intros x Hx. rewrite pc_of_insert, decide_False by (intros ->; done). by apply H9.
  - rewrite H10. f_equal. apply count_same. intros x Hx. rewrite pc_of_insert. fold (pc_of b x).
    case_decide; [subst; rewrite Hpc; unfold counted; naive_solver|done].
  - intros x Hx. rewrite pc_of_insert. case_decide; [done|]. fold (pc_of b x). intros Ht.
    specialize (H11 x Hx Ht id Hid). rewrite Hpc in H11. by destruct H11.
Qed.

(** The wait for [Online] *)
Lemma boot_inv_await b id todo : boot_inv b → b_bsp b = Await id todo → boot_inv (launch b).
Proof.
  intros Hi Eb. pose proof Hi as [H1 H2 H3 H4 H5 H6 H7 H8 H9 H10 H11]. rewrite Eb in *. cbn [current todo_of app] in *.
  assert (id ∈ ids) as Hid by (apply H4; by left). rewrite list_elem_of_singleton in H5.
  pose proof H3 as [Hnt Hnd]%NoDup_cons. pose proof (H6 id Hid ltac:(done)) as Hpc. unfold ap_ok in Hpc. cbn [todo_of current] in Hpc.
  rewrite decide_False, decide_True in Hpc by (done || by apply list_elem_of_singleton).
  unfold launch. rewrite Eb. destruct Hpc as [[Hpc Hst]|[Hpc Hst]]; rewrite (core_state_ok _ _ _ Hst).
  - by rewrite decide_True by done.
  - rewrite decide_False by (intros H; by apply H).
    split; cbn [b_cores b_bsp b_pcs current todo_of app]; try done.
    + intros x Hx. apply H4. by right.
    + apply not_elem_of_nil.
    + intros x Hx Hxo. specialize (H6 x Hx Hxo). unfold ap_ok in *. cbn [todo_of current] in *.
      change (pc_of (mkBoot _ _ (b_pcs b)) x) with (pc_of b x). case_decide; [done|].
      rewrite (decide_False (P := x ∈ [])) by apply not_elem_of_nil. case_decide as Hd; [|done].
      apply list_elem_of_singleton in Hd as ->. done.
Qed.

Lemma boot_inv_launch b : boot_inv b → boot_inv (launch b).
Proof.
  intros Hi. destruct (b_bsp b) as [[|id todo]|id todo|id todo|] eqn:Eb.
  - by apply boot_inv_launch_end.
  - by eapply boot_inv_launch_next.
  - by eapply boot_inv_ipi.
  - by eapply boot_inv_await.
  - unfold launch. by rewrite Eb.
Qed.

(** A processor that has started, and is not yet counted, goes from one place of
    [core_checkin] to another; only its own state may change. *)
Lemma boot_inv_move b id pc l n : boot_inv b → id ∈ ids → pc ≠ Off → pc ≠ Through → ~ counted (pc_of b id) →
  length l = MAX_CORES → (∀ x, x ∈ ids → x ≠ id → l !! Z.to_nat x = apics (b_cores b) !! Z.to_nat x) →
  (id ≠ own → ap_ok (b_bsp b) id pc (l !! Z.to_nat id)) →
  (id = own → b_bsp b = Checking ∧ l !! Z.to_nat own = Some (apic_state_u8 Online) ∧ (pc = Cas ∨ pc = Add ∨ counted pc)) →
  n = (if decide (counted pc) then checked_in (b_cores b) + 1 else checked_in (b_cores b)) →
  boot_inv (set_pc id pc (mkCores (total_cores (b_cores b)) l n) b).
Proof.
  intros [H1 H2 H3 H4 H5 H6 H7 H8 H9 H10 H11] Hid Hoff Hthr Hnc Hl Hx Hap Hown ->.
  unfold set_pc. split; cbn [b_cores b_bsp b_pcs total_cores apics checked_in]; try done.
  - intros x Hxi Hxo. rewrite pc_of_insert. fold (pc_of b x). destruct (decide (id = x)) as [<-|]; [by apply Hap|].
    rewrite Hx by done. by apply H6.
  - destruct (decide (id = own)) as [E|]; [by apply Hown|]. by rewrite Hx.
  - rewrite pc_of_insert. fold (pc_of b own). destruct (decide (id = own)) as [E|]; [|done].
    destruct (Hown E) as (-> & _ & Hpc). done.
  - intros x Hxn. rewrite pc_of_insert, decide_False by (intros ->; done). by apply H9.
  - rewrite H10. case_decide as Hc.
    + match goal with |- _ = Z.of_nat (length (filter (λ id, counted (pc_of ?b' id)) ids)) =>
        rewrite (count_up (pc_of b) (pc_of b') id Hid Hnc) end; [lia| |].
      * by rewrite pc_of_insert, decide_True.
      * intros x Hne. by rewrite pc_of_insert, decide_False by done.
    + f_equal. apply count_same. intros x _. rewrite pc_of_insert. fold (pc_of b x). by case_decide; [subst|].
  - intros x Hxi. rewrite pc_of_insert. case_decide; [done|]. fold (pc_of b x). intros Ht.
    by specialize (H11 x Hxi Ht id Hid).
Qed.

Lemma cores_eta c : mkCores (total_cores c) (apics c) (checked_in c) = c.
Proof. by destruct c. Qed.

Lemma length_ids : (length ids ≤ MAX_CORES)%nat.
Proof.
  rewrite <- (length_seqZ 0 (Z.of_nat MAX_CORES)) || idtac.
  assert (ids ⊆+ seqZ 0 (Z.of_nat MAX_CORES)) as Hs.
  { apply NoDup_submseteq; [done|]. intros x Hx%ids_range. apply elem_of_seqZ. lia. }
  apply submseteq_length in Hs. rewrite length_seqZ in Hs. lia.
Qed.

Lemma pc_in b id : boot_inv b → pc_of b id ≠ Off → id ∈ ids.
Proof. intros Hi Hpc. destruct (decide (id ∈ ids)) as [|Hn]; [done|]. by apply (bi_out _ Hi) in Hn. Qed.

Lemma own_pc b : boot_inv b → pc_of b own ≠ Off →
  b_bsp b = Checking ∧ (pc_of b own = Cas ∨ pc_of b own = Add ∨ counted (pc_of b own)).
Proof. intros Hi Hpc. pose proof (bi_own_pc _ Hi) as H. by destruct (b_bsp b). Qed.

(** Another processor is where its state says. *)
Lemma ap_pc b id : boot_inv b → id ∈ ids → id ≠ own → pc_of b id ≠ Off →
  (∃ todo, b_bsp b = Await id todo ∧ pc_of b id = Cas ∧ apics (b_cores b) !! Z.to_nat id = Some (apic_state_u8 Launched)) ∨
  ((pc_of b id = Add ∨ counted (pc_of b id)) ∧ apics (b_cores b) !! Z.to_nat id = Some (apic_state_u8 Online)).
Proof.
  intros Hi Hid Hne Hpc. pose proof (bi_ap _ Hi id Hid Hne) as H. unfold ap_ok in H.
  case_decide; [naive_solver|]. case_decide as Hc; [|by right].
  destruct (b_bsp b) as [todo|x todo|x todo|]; cbn [current] in Hc; [by apply not_elem_of_nil in Hc|naive_solver| |by apply not_elem_of_nil in Hc].
  apply list_elem_of_singleton in Hc as ->. destruct H as [[H1 H2]|H]; [left; eauto|by right].
Qed.

(** It stays right when the processor goes from [Add] to the wait, and from its
    exchange to [Add]. *)
Lemma ap_ok_moves b id pc : boot_inv b → id ∈ ids → id ≠ own → pc_of b id ≠ Off → (pc = Add ∨ counted pc) →
  ap_ok (b_bsp b) id pc (Some (apic_state_u8 Online)).
Proof.
  intros Hi Hid Hne Hpc Hn. pose proof (bi_ap _ Hi id Hid Hne) as H. unfold ap_ok in *.
  case_decide; [naive_solver|]. case_decide; [|done]. destruct (b_bsp b); [by right|naive_solver|by right|by right].
Qed.

Lemma boot_inv_cas b id : boot_inv b → pc_of b id = Cas → boot_inv (checkin_at id b).
Proof.
  intros Hi Hpc. assert (id ∈ ids) as Hid by (apply (pc_in b); [done|by rewrite Hpc]).
  pose proof (ids_range id Hid). pose proof (bi_len _ Hi) as Hl. unfold checkin_at. rewrite Hpc. unfold checkin.
  assert (~ counted (pc_of b id)) as Hnc by (rewrite Hpc; intros []; done).
  destruct (Z.eqb_spec id own) as [->|Hne].
  - rewrite (bi_own _ Hi). cbn [apic_state_u8 Z.eqb Pos.eqb]. rewrite <- (cores_eta (b_cores b)).
    destruct (own_pc b Hi ltac:(by rewrite Hpc)) as [Eb _].
    apply boot_inv_move; try done.
    intros _. split; [done|]. split; [apply Hi|auto].
  - destruct (ap_pc b id Hi Hid Hne ltac:(by rewrite Hpc)) as [(todo & Eb & _ & Hst)|[Hx _]]; [|unfold counted in Hx; rewrite Hpc in Hx; naive_solver].
    rewrite Hst. cbn [apic_state_u8 Z.eqb Pos.eqb].
    apply boot_inv_move; try done; [by rewrite length_insert|..].
    + intros x Hx Hxi. by rewrite list_lookup_insert_ne by (apply not_eq_sym, to_nat_ne; done).
    + intros _. rewrite list_lookup_insert_eq by (rewrite Hl; lia). apply ap_ok_moves; try done; [by rewrite Hpc|auto].
Qed.

Lemma boot_inv_add b id : boot_inv b → pc_of b id = Add → boot_inv (checkin_at id b).
Proof.
  intros Hi Hpc. assert (id ∈ ids) as Hid by (apply (pc_in b); [done|by rewrite Hpc]).
  unfold checkin_at. rewrite Hpc. cbn [checkin].
  assert (~ counted (pc_of b id)) as Hnc by (rewrite Hpc; intros []; done).
  assert (wrapping_add 32 (checked_in (b_cores b)) 1 = checked_in (b_cores b) + 1) as ->.
  { apply wrapping_add_small. rewrite (bi_count _ Hi). pose proof length_ids.
    pose proof (length_filter (λ id, counted (pc_of b id)) ids). unfold is_uint, MAX_CORES in *. lia. }
  apply boot_inv_move; try done; [apply Hi|..].
  - intros Hne. destruct (ap_pc b id Hi Hid Hne ltac:(by rewrite Hpc)) as [(todo & _ & Hx & _)|[_ ->]]; [congruence|].
    apply ap_ok_moves; try done; [by rewrite Hpc|right; by left].
  - intros ->. destruct (own_pc b Hi ltac:(by rewrite Hpc)) as [Eb _]. split; [done|]. split; [apply Hi|right; right; by left].
Qed.

Lemma set_pc_same b id : ∀ x, pc_of (set_pc id (pc_of b id) (b_cores b) b) x = pc_of b x.
Proof. intros x. unfold set_pc. rewrite pc_of_insert. by case_decide; [subst|]. Qed.

(** The wait ends when everybody has been counted. *)
Lemma wait_cases b id : boot_inv b → pc_of b id = Wait →
  checkin_at id b = set_pc id Wait (b_cores b) b ∧ checked_in (b_cores b) ≠ Z.of_nat (length ids) ∨
  checkin_at id b = set_pc id Through (b_cores b) b ∧ ∀ x, x ∈ ids → counted (pc_of b x).
Proof.
  intros Hi Hpc. unfold checkin_at. rewrite Hpc. cbn [checkin]. unfold num_cores. rewrite (bi_total _ Hi).
  assert (0 < length ids)%nat by (destruct ids; [by apply not_elem_of_nil in own_in|cbn; lia]).
  rewrite (proj2 (Z.ltb_lt _ _)) by lia. cbn [assert]. rewrite bind_Done_l.
  destruct (Z.eqb_spec (checked_in (b_cores b)) (Z.of_nat (length ids))) as [E|]; [right|by left].
  split; [done|]. rewrite (bi_count _ Hi) in E. apply count_all. lia.
Qed.

Lemma boot_inv_through b id : boot_inv b → pc_of b id = Wait → (∀ x, x ∈ ids → counted (pc_of b x)) →
  boot_inv (set_pc id Through (b_cores b) b).
Proof.
  intros Hi Hpc Hall. assert (id ∈ ids) as Hid by (apply (pc_in b); [done|by rewrite Hpc]).
  pose proof Hi as [H1 H2 H3 H4 H5 H6 H7 H8 H9 H10 H11].
  assert (∀ x, x ∈ ids → counted (pc_of (set_pc id Through (b_cores b) b) x)) as Hall'.
  { intros x Hx. unfold set_pc. rewrite pc_of_insert. case_decide; [by right|by apply Hall]. }
  split; try done.
  - intros x Hx Hne. specialize (H6 x Hx Hne). unfold set_pc. rewrite pc_of_insert. fold (pc_of b x).
    destruct (decide (id = x)) as [<-|]; [|done]. cbn [b_bsp b_cores].
    destruct (ap_pc b id Hi Hid Hne ltac:(by rewrite Hpc)) as [(todo & _ & Hc & _)|[_ E]]; [congruence|].
    rewrite E. apply ap_ok_moves; try done; [by rewrite Hpc|right; by right].
  - unfold set_pc. cbn [b_bsp]. rewrite pc_of_insert. fold (pc_of b own). destruct (decide (id = own)) as [->|]; [|done].
    destruct (own_pc b Hi ltac:(by rewrite Hpc)) as [-> _]. right. right. by right.
  - intros x Hx. unfold set_pc. rewrite pc_of_insert, decide_False by (intros ->; done). by apply H9.
  - cbn [set_pc b_cores]. rewrite H10. f_equal. apply count_same. intros x Hx. split; intros _; [by apply Hall'|by apply Hall].
Qed.

Lemma boot_inv_checkin b id : boot_inv b → pc_of b id ≠ Off → boot_inv (checkin_at id b).
Proof.
  intros Hi Hoff. destruct (pc_of b id) eqn:Hpc; [done|..].
  - by apply boot_inv_cas.
  - by apply boot_inv_add.
  - destruct (wait_cases b id Hi Hpc) as [[-> _]|[-> Hall]]; [|by apply boot_inv_through].
    apply (boot_inv_ext b); try done. rewrite <- Hpc. apply set_pc_same.
  - unfold checkin_at. rewrite Hpc. cbn [checkin]. apply (boot_inv_ext b); try done. rewrite <- Hpc. apply set_pc_same.
  - exfalso. pose proof (pc_in b id Hi ltac:(by rewrite Hpc)) as Hid. destruct (decide (id = own)) as [->|Hne].
    + destruct (own_pc b Hi ltac:(by rewrite Hpc)) as [_ H]. unfold counted in H. rewrite Hpc in H. naive_solver.
    + destruct (ap_pc b id Hi Hid Hne ltac:(by rewrite Hpc)) as [(? & _ & H & _)|[H _]]; unfold counted in H; rewrite Hpc in H; naive_solver.
Qed.

Lemma boot_inv_step b b' : boot_inv b → boot_step b b' → boot_inv b'.
Proof. intros Hi Hs. inversion Hs; subst; [by apply boot_inv_launch|by apply boot_inv_checkin]. Qed.

Lemma boot_inv_reachable b b' : boot_init b → rtc boot_step b b' → boot_inv b'.
Proof.
  intros Hb. apply boot_inv_init in Hb. induction 1 as [|x y z Hs _ IH]; [done|]. by apply IH, (boot_inv_step x).
Qed.

(** ** Progress *)

Definition weight (pc : CorePc) : nat := match pc with Off => 4 | Cas => 3 | Add => 2 | Wait => 1 | _ => 0 end.

Definition bsp_weight (p : BspPc) : nat :=
  match p with
  | Launch todo => 3 * length todo + 1
  | Ipi _ todo => 3 * length todo + 3
  | Await _ todo => 3 * length todo + 2
  | Checking => 0
  end.

Definition measure (b : Boot) : nat := bsp_weight (b_bsp b) + sum_list ((λ id, weight (pc_of b id)) <$> ids).

Definition unchanged (b b' : Boot) : Prop :=
  b_cores b' = b_cores b ∧ b_bsp b' = b_bsp b ∧ ∀ id, pc_of b' id = pc_of b id.

Definition all_through (b : Boot) : Prop := ∀ id, id ∈ ids → pc_of b id = Through.

Lemma sum_move (f g : Z → nat) id : id ∈ ids → (∀ x, x ≠ id → f x = g x) →
  (sum_list (f <$> ids) + g id = sum_list (g <$> ids) + f id)%nat.
Proof.
  intros Hid H. destruct (list_elem_of_split _ _ Hid) as (l1 & l2 & E).
  assert (~ id ∈ l1 ∧ ~ id ∈ l2) as [H1 H2].
  { rewrite E in ids_nodup. apply NoDup_app in ids_nodup as (_ & Hd & Hn). apply NoDup_cons in Hn as [Hn _].
    split; [|done]. intros Hin. by apply (Hd id Hin); left. }
  assert (∀ l : list Z, ~ id ∈ l → f <$> l = g <$> l) as Hl.
  { intros l Hn. apply list_fmap_ext. intros i x Hx. apply H. intros ->. by apply Hn, (list_elem_of_lookup_2 _ i). }
  rewrite E, !fmap_app, !fmap_cons, (Hl l1 H1), (Hl l2 H2). clear.
  generalize (g <$> l1) as k. intros k. induction k as [|x k IH]; cbn in *; lia.
Qed.

Lemma measure_set c p id pc b : id ∈ ids →
  (measure (mkBoot c p (<[id := pc]> (b_pcs b))) + weight (pc_of b id) + bsp_weight (b_bsp b)
    = measure b + weight pc + bsp_weight p)%nat.
Proof.
  intros Hid. unfold measure. cbn [b_bsp].
  pose proof (sum_move (λ x, weight (pc_of (mkBoot c p (<[id := pc]> (b_pcs b))) x)) (λ x, weight (pc_of b x)) id Hid) as H.
  cbn beta in H. rewrite pc_of_insert, decide_True in H by done.
  assert (∀ x, x ≠ id → weight (pc_of (mkBoot c p (<[id := pc]> (b_pcs b))) x) = weight (pc_of b x)) as Hx.
  { intros x Hx. by rewrite pc_of_insert, decide_False by done. }
  specialize (H Hx). lia.
Qed.

Lemma measure_bsp c p b : (measure (mkBoot c p (b_pcs b)) + bsp_weight (b_bsp b) = measure b + bsp_weight p)%nat.
Proof. unfold measure, pc_of. cbn [b_bsp b_pcs]. lia. Qed.

Lemma checkin_measure b id : boot_inv b → pc_of b id ≠ Off →
  (measure (checkin_at id b) < measure b)%nat ∨ unchanged b (checkin_at id b).
Proof.
  intros Hi Hoff. pose proof (pc_in b id Hi Hoff) as Hid. destruct (pc_of b id) eqn:Hpc; [done|..].
  - left. unfold checkin_at. rewrite Hpc. destruct (checkin (id =? own) id Cas (b_cores b)) as [pc c] eqn:E.
    assert (pc = Add ∨ pc = Dead) as Hn.
    { unfold checkin in E. destruct (apics _ !! _); [|naive_solver]. destruct (id =? own); cbn zeta in E;
        [destruct (_ =? apic_state_u8 Online)|destruct (_ =? apic_state_u8 Launched)]; naive_solver. }
    pose proof (measure_set c (b_bsp b) id pc b Hid) as H. rewrite Hpc in H. unfold set_pc. destruct Hn as [-> | ->]; cbn [weight] in H; lia.
  - left. unfold checkin_at. rewrite Hpc. cbn [checkin]. unfold set_pc.
    match goal with |- (measure (mkBoot ?c _ _) < _)%nat => pose proof (measure_set c (b_bsp b) id Wait b Hid) as H end.
    rewrite Hpc in H. cbn [bsp_weight weight length] in H. lia.
  - destruct (wait_cases b id Hi Hpc) as [[-> _]|[-> Hall]].
    + right. split; [done|]. split; [done|]. rewrite <- Hpc. apply set_pc_same.
    + left. pose proof (measure_set (b_cores b) (b_bsp b) id Through b Hid) as H. rewrite Hpc in H. cbn [bsp_weight weight length] in H. unfold set_pc. lia.
  - right. unfold checkin_at. rewrite Hpc. cbn [checkin]. split; [done|]. split; [done|]. rewrite <- Hpc. apply set_pc_same.
  - right. unfold checkin_at. rewrite Hpc. cbn [checkin]. split; [done|]. split; [done|]. rewrite <- Hpc. apply set_pc_same.
Qed.

Lemma launch_measure b : boot_inv b → b_bsp b ≠ Checking →
  (measure (launch b) < measure b)%nat ∨
  (unchanged b (launch b) ∧ ∃ id todo, b_bsp b = Await id todo ∧ pc_of b id = Cas).
Proof.
  intros Hi Hn. destruct (b_bsp b) as [[|id todo]|id todo|id todo|] eqn:Eb; [..|done].
  - left. unfold launch. rewrite Eb. pose proof (measure_set (b_cores b) Checking own Cas b own_in) as H.
    pose proof (bi_own_pc _ Hi) as Ho. rewrite Eb in *. rewrite Ho in H. cbn [bsp_weight weight length] in H. lia.
  - left. unfold launch. rewrite Eb. assert (id ∈ ids) as Hid by (apply (bi_sub _ Hi); rewrite Eb; by left).
    pose proof (ids_range id Hid). destruct (own =? id).
    + pose proof (measure_bsp (b_cores b) (Launch todo) b) as H1. rewrite Eb in H1. cbn [bsp_weight length] in H1. lia.
    + rewrite set_core_state_ok by (rewrite (bi_len _ Hi); lia).
      match goal with |- (measure (mkBoot ?c ?p _) < _)%nat => pose proof (measure_bsp c p b) as H1 end.
      rewrite Eb in H1. cbn [bsp_weight length] in H1. lia.
  - left. unfold launch. rewrite Eb. assert (id ∈ ids) as Hid by (apply (bi_sub _ Hi); rewrite Eb; by left).
    pose proof (measure_set (b_cores b) (Await id todo) id Cas b Hid) as H.
    assert (pc_of b id = Off) as Ho.
    { assert (id ≠ own) as Hne by (intros ->; apply (bi_cur _ Hi); rewrite Eb; by left).
      pose proof (bi_ap _ Hi id Hid Hne) as Ha. pose proof (bi_todo _ Hi) as Hnd. unfold ap_ok in Ha. rewrite Eb in Ha, Hnd.
      cbn [todo_of current app] in *. apply NoDup_cons in Hnd as [Hnt _].
      rewrite decide_False, decide_True in Ha by (done || by left). apply Ha. }
    rewrite Ho, Eb in H. cbn [bsp_weight weight length] in H. lia.
  - unfold launch. rewrite Eb. assert (id ∈ ids) as Hid by (apply (bi_sub _ Hi); rewrite Eb; by left).
    assert (id ≠ own) as Hne by (intros ->; apply (bi_cur _ Hi); rewrite Eb; by left).
    pose proof (bi_ap _ Hi id Hid Hne) as Ha. pose proof (bi_todo _ Hi) as Hnd. unfold ap_ok in Ha. rewrite Eb in Ha, Hnd.
    cbn [todo_of current app] in *. apply NoDup_cons in Hnd as [Hnt _].
    rewrite decide_False, decide_True in Ha by (done || by left). destruct Ha as [[Hc Hst]|[_ Hst]]; rewrite (core_state_ok _ _ _ Hst).
    + right. rewrite decide_True by done. split; [by split|]. eauto.
    + left. rewrite decide_False by (intros H; by apply H).
      pose proof (measure_bsp (b_cores b) (Launch todo) b) as H1. rewrite Eb in H1. cbn [bsp_weight length] in H1. lia.
Qed.

Lemma step_measure b b' : boot_inv b → boot_step b b' → (measure b' < measure b)%nat ∨ unchanged b b'.
Proof.
  intros Hi Hs. inversion Hs as [? Hb|? id Hpc]; subst; [|by apply checkin_measure].
  destruct (launch_measure b Hi Hb) as [|[? _]]; auto.
Qed.

Lemma filter_all {A} (P : A → Prop) `{∀ x, Decision (P x)} l : Forall P l → filter P l = l.
Proof. induction 1 as [|x l Hx _ IH]; [done|]. by rewrite filter_cons, decide_True, IH by done. Qed.

(** While somebody waits, somebody can go on. *)
Lemma boot_progress b : boot_inv b → all_through b ∨ ∃ b', boot_step b b' ∧ (measure b' < measure b)%nat.
Proof.
  intros Hi. assert (∀ id, pc_of b id = Cas ∨ pc_of b id = Add → ∃ b', boot_step b b' ∧ (measure b' < measure b)%nat) as Hmove.
  { intros id Hpc. assert (pc_of b id ≠ Off) as Hoff by (destruct Hpc as [-> | ->]; done).
    exists (checkin_at id b). split; [by constructor|].
    destruct (checkin_measure b id Hi Hoff) as [|(_ & _ & Hu)]; [done|]. exfalso. specialize (Hu id).
    pose proof (boot_inv_checkin b id Hi Hoff) as Hi'. unfold checkin_at, set_pc in *.
    destruct (checkin _ _ _ _) as [pc c] eqn:E. rewrite pc_of_insert, decide_True in Hu by done. subst pc.
    unfold checkin in E. destruct Hpc as [Hpc|Hpc]; rewrite Hpc in E; [|done].
    destruct (apics _ !! _); [|done]. destruct (id =? own); cbn zeta in E;
      [destruct (_ =? apic_state_u8 Online)|destruct (_ =? apic_state_u8 Launched)]; done. }
  assert (b_bsp b = Checking ∨ b_bsp b ≠ Checking) as [Eb|Hb] by (destruct (b_bsp b); auto).
  - destruct (decide (Forall (λ id, counted (pc_of b id)) ids)) as [Hall|Hex].
    + destruct (decide (Forall (λ id, pc_of b id = Through) ids)) as [Ht|Hn].
      { left. intros id Hid. by apply (proj1 (Forall_forall _ _) Ht). }
      apply not_Forall_Exists in Hn; [|apply _]. apply Exists_exists in Hn as (id & Hid & Hn). right. cbn in Hn.
      destruct (proj1 (Forall_forall _ _) Hall id Hid) as [Hw|]; [|done].
      exists (checkin_at id b). split; [constructor; by rewrite Hw|]. destruct (wait_cases b id Hi Hw) as [[_ Hne]|[-> _]].
      * exfalso. apply Hne. rewrite (bi_count _ Hi). do 2 f_equal. by apply filter_all.
      * pose proof (measure_set (b_cores b) (b_bsp b) id Through b Hid) as H. rewrite Hw in H. cbn [weight] in H. unfold set_pc. lia.
    + right. apply not_Forall_Exists in Hex; [|apply _]. apply Exists_exists in Hex as (id & Hid & Hn).
      cbn in Hn. apply (Hmove id). destruct (decide (id = own)) as [->|Hne].
      * pose proof (bi_own_pc _ Hi) as Ho. rewrite Eb in Ho. naive_solver.
      * pose proof (bi_ap _ Hi id Hid Hne) as Ha. unfold ap_ok in Ha. rewrite Eb in Ha. cbn [todo_of current] in Ha.
        rewrite !decide_False in Ha by apply not_elem_of_nil. naive_solver.
  - right. destruct (launch_measure b Hi Hb) as [Hm|(_ & id & todo & _ & Hc)]; [|apply (Hmove id); auto].
    exists (launch b). split; [by constructor|done].
Qed.

Lemma boot_finishes b : boot_inv b → ∃ b', rtc boot_step b b' ∧ all_through b'.
Proof.
  remember (measure b) as m eqn:Em. revert b Em. induction (lt_wf m) as [m _ IH]. intros b -> Hi.
  destruct (boot_progress b Hi) as [Ht|(b1 & Hs & Hm)]; [by exists b; split|].
  destruct (IH _ Hm b1 eq_refl (boot_inv_step _ _ Hi Hs)) as (b' & Hr & Ht). exists b'. split; [by eapply rtc_l|done].
Qed.

Lemma boot_no_panic b id : boot_inv b → pc_of b id ≠ Dead.
Proof.
  intros Hi Hd. pose proof (pc_in b id Hi ltac:(by rewrite Hd)) as Hid. destruct (decide (id = own)) as [->|Hne].
  - destruct (own_pc b Hi ltac:(by rewrite Hd)) as [_ H]. unfold counted in H. rewrite Hd in H. naive_solver.
  - destruct (ap_pc b id Hi Hid Hne ltac:(by rewrite Hd)) as [(? & _ & H & _)|[H _]]; unfold counted in H; rewrite Hd in H; naive_solver.
Qed.

Lemma boot_launched b id : boot_inv b → id ∈ ids → core_state id (b_cores b) = Done Launched → current (b_bsp b) = [id].
Proof.
  intros Hi Hid Hs. assert (∀ st, apics (b_cores b) !! Z.to_nat id = Some (apic_state_u8 st) → st = Launched) as Hst.
  { intros st H. apply core_state_ok in H. congruence. }
  destruct (decide (id = own)) as [->|Hne]; [by specialize (Hst Online (bi_own _ Hi))|].
  pose proof (bi_ap _ Hi id Hid Hne) as Ha. unfold ap_ok in Ha. case_decide; [destruct Ha as [_ Ha]; by specialize (Hst Offline Ha)|].
  case_decide as Hc; [|destruct Ha as [_ Ha]; by specialize (Hst Online Ha)].
  destruct (b_bsp b) as [todo|x todo|x todo|]; cbn [current] in *; try by apply not_elem_of_nil in Hc.
  all: by apply list_elem_of_singleton in Hc as ->.
Qed.

Lemma boot_online b id id' : boot_inv b → id ∈ ids → id' ∈ ids → pc_of b id = Through →
  counted (pc_of b id') ∧ core_state id' (b_cores b) = Done Online.
Proof.
  intros Hi Hid Hid' Ht. pose proof (bi_barrier _ Hi id Hid Ht id' Hid') as Hc. split; [done|].
  apply core_state_ok. destruct (decide (id' = own)) as [->|Hne]; [apply Hi|].
  assert (pc_of b id' ≠ Off) as Hoff by (destruct Hc as [-> | ->]; done).
  destruct (ap_pc b id' Hi Hid' Hne Hoff) as [(? & _ & H & _)|[_ H]]; [|done].
  rewrite H in Hc. by destruct Hc.
Qed.

(** ** What [register_tables] leaves *)

Lemma mark_offline_spec l c c' : (∀ id, id ∈ l → 0 ≤ id < Z.of_nat MAX_CORES) → length (apics c) = MAX_CORES →
  mark_offline l c = Done c' →
  total_cores c' = total_cores c ∧ checked_in c' = checked_in c ∧ length (apics c') = MAX_CORES ∧
  ∀ id, 0 ≤ id < Z.of_nat MAX_CORES → apics c' !! Z.to_nat id =
    if decide (id ∈ l) then Some (apic_state_u8 Offline) else apics c !! Z.to_nat id.
Proof.
  revert c. induction l as [|x l IH]; intros c Hr Hl Hm; cbn in Hm.
  { apply Done_inj in Hm as <-. by split_and!. }
  pose proof (Hr x ltac:(by left)). rewrite set_core_state_ok, bind_Done_l in Hm by (rewrite Hl; lia).
  apply IH in Hm as (H1 & H2 & H3 & H4); [|intros id Hin; apply Hr; by right|cbn; by rewrite length_insert].
  split_and!; try done. intros id Hid. rewrite (H4 id Hid). cbn [apics].
  rewrite (decide_ext (id ∈ x :: l) (id = x ∨ id ∈ l)) by apply elem_of_cons.
  destruct (decide (id ∈ l)); [by rewrite decide_True by auto|]. destruct (decide (id = x)) as [->|].
  - rewrite list_lookup_insert_eq by (rewrite Hl; lia). by rewrite decide_True by auto.
  - rewrite list_lookup_insert_ne by lia. by rewrite decide_False by naive_solver.
Qed.

Lemma register_tables_init f s s' c : f_apics f = Some ids → apic_id (k_apic_id s) = Some own →
  register_tables f s cores_init = Done (s', c) → boot_init (mkBoot c (Launch ids) ∅).
Proof.
  intros Hf Ho H. unfold register_tables in H. apply bind_Done in H as (s1 & Hs & H). rewrite Hf in H. cbn zeta in H.
  apply bind_Done in H as (c1 & Hm & H). apply bind_Done in H as (own' & Hu%unwrap_Done & H).
  assert (k_apic_id s1 = k_apic_id s) as Ek.
  { destruct (f_affinities f) as [[ad md]|]; [|by apply Done_inj in Hs as <-].
    unfold register_numa_nodes in Hs. by apply bind_Done in Hs as (l & _ & <-%Done_inj). }
  rewrite Ek, Ho in Hu. injection Hu as <-. apply bind_Done in H as (c2 & Hc & H). apply Done_pair_inj in H as [_ <-].
  apply mark_offline_spec in Hm as (H1 & H2 & H3 & H4); [|done|vm_compute; reflexivity].
  pose proof (ids_range own own_in). rewrite set_core_state_ok in Hc by (rewrite H3; lia). apply Done_inj in Hc as <-.
  split; cbn [b_cores total_cores apics checked_in b_bsp b_pcs].
  { rewrite H1. cbn [total_cores]. pose proof length_ids. apply wrap_small. unfold is_uint, MAX_CORES in *. lia. }
  split; [by rewrite length_insert|]. split; [by rewrite H2|]. split; [done|]. split; [done|]. intros id Hid.
  pose proof (ids_range id Hid). destruct (decide (id = own)) as [->|Hne].
  - by rewrite list_lookup_insert_eq by (rewrite H3; lia).
  - rewrite list_lookup_insert_ne by lia. rewrite (H4 id) by done. by rewrite decide_True.
Qed.

(** ** The theorems *)

(** C17: when the MADT lists each processor once, the boot processor among them,
    no processor panics in the launch or the check-in, at most one is being
    launched at a time, and [core_checkin] is a barrier: nobody is through
    before everybody has checked in. *)
Theorem boot_barrier f s s' c b' : f_apics f = Some ids → apic_id (k_apic_id s) = Some own →
  register_tables f s cores_init = Done (s', c) → rtc boot_step (mkBoot c (Launch ids) ∅) b' →
  (∀ id, pc_of b' id ≠ Dead) ∧
  (∀ id id', id ∈ ids → id' ∈ ids → core_state id (b_cores b') = Done Launched →
     core_state id' (b_cores b') = Done Launched → id = id') ∧
  (∀ id id', id ∈ ids → id' ∈ ids → pc_of b' id = Through →
     counted (pc_of b' id') ∧ core_state id' (b_cores b') = Done Online).
Proof.
  intros Hf Ho Hb%register_tables_init Hr; [|done..]. pose proof (boot_inv_reachable _ b' Hb Hr) as Hi. split; [|split].
  - intros id Hd. by apply (boot_no_panic b' id).
  - intros id id' H1 H2 L1 L2. pose proof (boot_launched b' id Hi H1 L1).
    pose proof (boot_launched b' id' Hi H2 L2). congruence.
  - intros id id' H1 H2 Ht. by apply (boot_online b' id id').
Qed.

End boot.

(** ** Three processors *)

Definition demo_found : Found := mkFound (Some [2; 4; 9]) (Some ({[4 := 1]}, {[1 := (0, 0x1000)]})).
Definition demo_kernel : Kernel := mkKernel ∅ None 0 [] None 4 None 0.

Definition demo_kernel' : Kernel :=
  match register_tables demo_found demo_kernel cores_init with Done (s, _) => s | _ => demo_kernel end.
Definition demo_cores : Cores :=
  match register_tables demo_found demo_kernel cores_init with Done (_, c) => c | _ => cores_init end.

Lemma demo_registered : register_tables demo_found demo_kernel cores_init = Done (demo_kernel', demo_cores).
Proof. vm_compute. reflexivity. Qed.

Lemma demo_ids : NoDup [2; 4; 9] ∧ (∀ id, id ∈ [2; 4; 9] → 0 ≤ id < Z.of_nat MAX_CORES) ∧ 4 ∈ [2; 4; 9].
Proof.
  split; [by_decide|]. split; [|by_decide]. apply Forall_forall. by_decide.
Qed.

(** The first processor has been launched and has checked in. *)
Definition demo_boot : Boot :=
  checkin_at 4 2 (checkin_at 4 2 (launch 4 (launch 4 (mkBoot demo_cores (Launch [2; 4; 9]) ∅)))).

Lemma demo_boot_run : rtc (boot_step 4) (mkBoot demo_cores (Launch [2; 4; 9]) ∅) demo_boot.
Proof.
  unfold demo_boot. eapply rtc_l; [apply step_launch; vm_compute; discriminate|]. eapply rtc_l; [apply step_launch; vm_compute; discriminate|].
  eapply rtc_l; [apply (step_checkin 4 _ 2); vm_compute; discriminate|].
  eapply rtc_l; [apply (step_checkin 4 _ 2); vm_compute; discriminate|]. apply rtc_refl.
Qed.

Lemma boot_barrier_witness : pc_of demo_boot 2 = Wait ∧ (∀ id, pc_of demo_boot id ≠ Dead).
Proof.
  split; [vm_compute; reflexivity|]. destruct demo_ids as (H1 & H2 & H3).
  apply (boot_barrier 4 [2; 4; 9] H1 H2 H3 demo_found demo_kernel demo_kernel' demo_cores demo_boot
    eq_refl eq_refl demo_registered demo_boot_run).
Defined.

