(* ===== verification/Serial.v ===== *)
(** * Serial ports (shared/serial)

    The driver of the four COM ports over I/O ports ([Ports]).  The UARTs behind
    them are the 8250 of [Uart]: registers by offset, the bytes that have come in
    and those that went out, and how often its status is read before it can send
    again. *)

From stdpp Require Import base tactics option list numbers strings gmap.
From Stdlib Require Import ZArith Lia.
From S2P Require Import Prelude MachineInt.

Local Open Scope Z_scope.

(** [cpu::in8] and [cpu::out8] *)
Class Ports (H : Type) := {
  in8 : Z → H → H * Z;
  out8 : Z → Z → H → H;
}.

(** [SerialPort]: the four devices *)
Definition SerialPort : Type := list (option Z).

Section serial.
Context {H : Type} `{HP : Ports H}.
Implicit Types h : H.

(** [port + i] on a [u16] *)
Definition reg_port (port i : Z) : Z := wrapping_add 16 port i.

(** The known state a port is put in. *)
Definition init_port (port : Z) h : H :=
  let h := out8 (reg_port port 1) 0x00 h in
  let h := out8 (reg_port port 3) 0x80 h in
  let h := out8 (reg_port port 0) 0x01 h in
  let h := out8 (reg_port port 1) 0x00 h in
  let h := out8 (reg_port port 3) 0x03 h in
  out8 (reg_port port 4) 0x03 h.

(** The loop of [new] over the words of the BIOS data area. *)
Fixpoint init_ports (bda : list Z) h : H * SerialPort :=
  match bda with
  | [] => (h, [])
  | port :: bda =>
      if port =? 0 then let '(h, devices) := init_ports bda h in (h, None :: devices)
      else let '(h, devices) := init_ports bda (init_port port h) in (h, Some port :: devices)
  end.

Fixpoint read_byte (devices : SerialPort) h : H * option Z :=
  match devices with
  | [] => (h, None)
  | None :: devices => read_byte devices h
  | Some port :: devices =>
      let '(h, status) := in8 (reg_port port 5) h in
      if Z.land status 1 =? 0 then read_byte devices h
      else let '(h, b) := in8 port h in (h, Some b)
  end.

(** [while let Some(_) = ret.read_byte() {}] *)
Fixpoint drain (fuel : nat) (devices : SerialPort) h : outcome H :=
  match fuel with
  | O => OutOfFuel
  | S fuel =>
      let '(h, b) := read_byte devices h in
      match b with Some _ => drain fuel devices h | None => Done h end
  end.

(** [new]; [bda] are the four words at [bda_base]. *)
Definition new (fuel : nat) (bda : list Z) h : outcome (H * SerialPort) :=
  let '(h, devices) := init_ports bda h in
  h ← drain fuel devices h;
  Done (h, devices).

(** The wait for the output buffer. *)
Fixpoint wait_ready (fuel : nat) (port : Z) h : outcome H :=
  match fuel with
  | O => OutOfFuel
  | S fuel =>
      let '(h, status) := in8 (reg_port port 5) h in
      if Z.land status 0x20 =? 0 then wait_ready fuel port h else Done h
  end.

(** [write_byte] of a byte that is not a line feed *)
Definition put_byte (fuel : nat) (devices : SerialPort) (com_id : nat) (byte : Z) h : outcome H :=
  match devices !! com_id with
  | Some (Some port) => h ← wait_ready fuel port h; Done (out8 port byte h)
  | _ => Done h
  end.

(** [write_byte]; the recursive call is for a carriage return, which is not a
    line feed. *)
Definition write_byte (fuel : nat) (devices : SerialPort) (com_id : nat) (byte : Z) h : outcome H :=
  h ← (if byte =? 0x0a then put_byte fuel devices com_id 0x0d h else Done h);
  put_byte fuel devices com_id byte h.

Fixpoint broadcast (fuel : nat) (devices : SerialPort) (coms : list nat) (byte : Z) h : outcome H :=
  match coms with
  | [] => Done h
  | com_id :: coms => h ← write_byte fuel devices com_id byte h; broadcast fuel devices coms byte h
  end.

Fixpoint write (fuel : nat) (devices : SerialPort) (bytes : list Z) h : outcome H :=
  match bytes with
  | [] => Done h
  | byte :: bytes => h ← broadcast fuel devices (seq 0 (length devices)) byte h; write fuel devices bytes h
  end.
End serial.

(** ** The 8250 *)

(** The registers the driver programs, the bytes received and not yet read, what
    comes in at the next reads of the status, the bytes sent, and the reads of
    the status until the transmitter is free, now and after each byte. *)
Record Uart := mkUart {
  ier : Z; lcr : Z; mcr : Z; dll : Z; dlm : Z;
  rx : list Z; later : list (list Z); tx : list Z; wait : nat; delays : list nat }.

Definition dlab (u : Uart) : bool := Z.testbit (lcr u) 7.

Definition status_of (u : Uart) : Z :=
  (match rx u with [] => 0 | _ => 1 end) + (if (wait u =? 0)%nat then 0x20 else 0).

(** A byte is taken from the receiver; reading the status takes time. *)
Definition uart_in (o : Z) (u : Uart) : Uart * Z :=
  if o =? 0 then
    if dlab u then (u, dll u)
    else (mkUart (ier u) (lcr u) (mcr u) (dll u) (dlm u) (tail (rx u)) (later u) (tx u) (wait u) (delays u), default 0 (head (rx u)))
  else if o =? 5 then
    let u := mkUart (ier u) (lcr u) (mcr u) (dll u) (dlm u) (rx u ++ default [] (head (later u))) (tail (later u)) (tx u)
      (wait u) (delays u) in
    (mkUart (ier u) (lcr u) (mcr u) (dll u) (dlm u) (rx u) (later u) (tx u) (pred (wait u)) (delays u), status_of u)
  else (u, 0).

(** A byte is sent only when the transmitter is free. *)
Definition uart_out (o v : Z) (u : Uart) : Uart :=
  if o =? 0 then
    if dlab u then mkUart (ier u) (lcr u) (mcr u) v (dlm u) (rx u) (later u) (tx u) (wait u) (delays u)
    else mkUart (ier u) (lcr u) (mcr u) (dll u) (dlm u) (rx u) (later u)
      (if (wait u =? 0)%nat then tx u ++ [v] else tx u) (default O (head (delays u))) (tail (delays u))
  else if o =? 1 then
    if dlab u then mkUart (ier u) (lcr u) (mcr u) (dll u) v (rx u) (later u) (tx u) (wait u) (delays u)
    else mkUart v (lcr u) (mcr u) (dll u) (dlm u) (rx u) (later u) (tx u) (wait u) (delays u)
  else if o =? 3 then mkUart (ier u) v (mcr u) (dll u) (dlm u) (rx u) (later u) (tx u) (wait u) (delays u)
  else if o =? 4 then mkUart (ier u) (lcr u) v (dll u) (dlm u) (rx u) (later u) (tx u) (wait u) (delays u)
  else u.

(** The UARTs of the machine, each at eight ports of its own. *)
Class UartView (H : Type) := { uarts : list Z; uart : H → Z → Uart }.

Class UartLaws (H : Type) `{Ports H, UartView H} : Prop := {
  uarts_u16 p : p ∈ uarts → 0 ≤ p ∧ p + 8 ≤ 2 ^ 16;
  in8_law p o (h h' : H) v : p ∈ uarts → 0 ≤ o < 8 → in8 (p + o) h = (h', v) →
    uart_in o (uart h p) = (uart h' p, v) ∧ ∀ q, q ≠ p → uart h' q = uart h q;
  out8_law p o (h : H) v : p ∈ uarts → 0 ≤ o < 8 →
    uart (out8 (p + o) v h) p = uart_out o v (uart h p) ∧ ∀ q, q ≠ p → uart (out8 (p + o) v h) q = uart h q;
}.

(** ** The driver on 8250s *)

Section laws.
Context {H : Type} `{HP : Ports H} `{HV : UartView H} `{HL : !UartLaws H}.
Implicit Types h : H.

Definition present (devices : SerialPort) : list Z := omap id devices.

Definition devices_ok (devices : SerialPort) : Prop :=
  NoDup (present devices) ∧ ∀ p, p ∈ present devices → p ∈ uarts (H := H).

(** Only the ports in [ps] have changed. *)
Definition only (ps : list Z) h h' : Prop := ∀ q, q ∉ ps → uart h' q = uart h q.

(** Nothing was sent or programmed. *)
Definition quiet (u u' : Uart) : Prop :=
  ier u' = ier u ∧ lcr u' = lcr u ∧ mcr u' = mcr u ∧ dll u' = dll u ∧ dlm u' = dlm u ∧
  tx u' = tx u ∧ (wait u' ≤ wait u)%nat ∧ delays u' = delays u.

(** What is still to be read. *)
Definition input (u : Uart) : list Z := rx u ++ mjoin (later u).

Lemma quiet_refl u : quiet u u.
Proof. by repeat split. Qed.
Lemma quiet_trans u1 u2 u3 : quiet u1 u2 → quiet u2 u3 → quiet u1 u3.
Proof. unfold quiet. intros. destruct_and!. split_and!; try congruence. lia. Qed.

Lemma reg_port_eq p o : p ∈ uarts (H := H) → 0 ≤ o < 8 → reg_port p o = p + o.
Proof. intros Hp Ho. destruct (uarts_u16 p Hp). apply wrapping_add_small. unfold is_uint. lia. Qed.

Lemma out8_reg p o v h : p ∈ uarts (H := H) → 0 ≤ o < 8 →
  uart (out8 (reg_port p o) v h) p = uart_out o v (uart h p) ∧ only [p] h (out8 (reg_port p o) v h).
Proof.
  intros Hp Ho. rewrite reg_port_eq by done. destruct (out8_law p o h v Hp Ho) as [E Q]. split; [done|].
  intros q Hq. apply Q. set_solver.
Qed.

Lemma in8_reg p o h h' v : p ∈ uarts (H := H) → 0 ≤ o < 8 → in8 (reg_port p o) h = (h', v) →
  uart_in o (uart h p) = (uart h' p, v) ∧ only [p] h h'.
Proof.
  intros Hp Ho E. rewrite reg_port_eq in E by done. destruct (in8_law p o h h' v Hp Ho E) as [E' Q]. split; [done|].
  intros q Hq. apply Q. set_solver.
Qed.

Lemma only_trans ps h1 h2 h3 : only ps h1 h2 → only ps h2 h3 → only ps h1 h3.
Proof. intros A B q Hq. by rewrite B, A. Qed.
Lemma only_mono ps ps' h h' : ps ⊆ ps' → only ps h h' → only ps' h h'.
Proof. intros Hs A q Hq. apply A. set_solver. Qed.

(** A programmed port: 115200 baud, 8n1, no interrupts (if the divisor latch was
    closed before). *)
Definition programmed (u u' : Uart) : Prop :=
  u' = mkUart (if dlab u then ier u else 0) 3 3 1 0 (rx u) (later u) (tx u) (wait u) (delays u).

Lemma programmed_out u :
  programmed u (uart_out 4 3 (uart_out 3 3 (uart_out 1 0 (uart_out 0 1 (uart_out 3 0x80 (uart_out 1 0 u)))))).
Proof.
  assert (uart_out 1 0 u = mkUart (if dlab u then ier u else 0) (lcr u) (mcr u) (dll u) (if dlab u then 0 else dlm u)
    (rx u) (later u) (tx u) (wait u) (delays u)) as -> by (unfold uart_out; cbn [Z.eqb Pos.eqb]; by destruct u, (dlab _)).
  unfold programmed. generalize (if dlab u then ier u else 0) (if dlab u then 0 else dlm u). intros i d. by destruct u.
Qed.

Lemma init_port_spec p h : p ∈ uarts (H := H) → programmed (uart h p) (uart (init_port p h) p) ∧ only [p] h (init_port p h).
Proof.
  intros Hp. unfold init_port.
  destruct (out8_reg p 1 0 h Hp ltac:(lia)) as [E1 O1]. set (h1 := out8 _ _ h) in *.
  destruct (out8_reg p 3 0x80 h1 Hp ltac:(lia)) as [E2 O2]. set (h2 := out8 _ _ h1) in *.
  destruct (out8_reg p 0 1 h2 Hp ltac:(lia)) as [E3 O3]. set (h3 := out8 _ _ h2) in *.
  destruct (out8_reg p 1 0 h3 Hp ltac:(lia)) as [E4 O4]. set (h4 := out8 _ _ h3) in *.
  destruct (out8_reg p 3 3 h4 Hp ltac:(lia)) as [E5 O5]. set (h5 := out8 _ _ h4) in *.
  destruct (out8_reg p 4 3 h5 Hp ltac:(lia)) as [E6 O6]. split.
  - rewrite E6, E5, E4, E3, E2, E1. apply programmed_out.
  - do 5 (eapply only_trans; [done|]). done.
Qed.

(** The ports the BIOS reports: a zero means that there is none. *)
Definition reported (bda : list Z) : list Z := filter (λ p, p ≠ 0) bda.

Lemma init_ports_spec bda h h' devices :
  NoDup (reported bda) → (∀ p, p ∈ bda → p ≠ 0 → p ∈ uarts (H := H)) → init_ports bda h = (h', devices) →
  devices = (λ p, if p =? 0 then None else Some p) <$> bda ∧ present devices = reported bda ∧
  only (present devices) h h' ∧ ∀ p, p ∈ present devices → programmed (uart h p) (uart h' p).
Proof.
  revert h h' devices. induction bda as [|p bda IH]; intros h h' devices Hnd Hu E; cbn [init_ports] in E.
  { injection E as <- <-. split_and!; try done. set_solver. }
  destruct (p =? 0) eqn:Ep.
  - apply Z.eqb_eq in Ep as ->. destruct (init_ports bda h) as [h1 ds] eqn:E1. injection E as <- <-.
    unfold reported in *. rewrite filter_cons_False in Hnd |- * by naive_solver.
    destruct (IH _ _ _ Hnd ltac:(set_solver) E1) as (-> & Hp & Ho & Hq). cbn. split_and!; try done.
  - apply Z.eqb_neq in Ep. destruct (init_ports bda (init_port p h)) as [h1 ds] eqn:E1. injection E as <- <-.
    unfold reported in *. rewrite filter_cons_True in Hnd |- * by done. apply NoDup_cons in Hnd as [Hnin Hnd].
    destruct (IH _ _ _ Hnd ltac:(set_solver) E1) as (-> & Hp & Ho & Hq).
    destruct (init_port_spec p h) as [Hpr Hon]; [set_solver|].
    cbn [present omap list_omap id fmap list_fmap]. fold (present ((λ p, if p =? 0 then None else Some p) <$> bda)).
    cbn. rewrite (proj2 (Z.eqb_neq _ _) Ep). cbn. split; [done|]. split; [by rewrite <- Hp|].
    unfold present in *. split.
    + eapply only_trans; [eapply only_mono; [|exact Hon]; set_solver|eapply only_mono; [|exact Ho]; set_solver].
    + intros q [->|Hin]%elem_of_cons.
      * unfold programmed in *. rewrite Ho; [done|]. by rewrite Hp.
      * rewrite <- (Hon q); [by apply Hq|]. rewrite Hp in Hin. set_solver.
Qed.

(** Reading the status: what has come in shows, and time passes. *)
Lemma status_spec u u' v : uart_in 5 u = (u', v) →
  quiet u u' ∧ input u' = input u ∧ wait u' = pred (wait u) ∧
  (Z.land v 1 = 0 ↔ rx u' = []) ∧ (Z.land v 0x20 = 0 ↔ wait u ≠ 0%nat).
Proof.
  intros E. unfold uart_in in E. cbn [Z.eqb Pos.eqb] in E. injection E as <- <-. cbn [rx wait].
  split; [repeat split; cbn; lia|]. split.
  { unfold input. cbn. rewrite <- (assoc_L (++)). f_equal. by destruct (later u). }
  split; [done|]. unfold status_of. cbn [rx wait].
  destruct (rx u ++ _), (wait u) as [|n]; cbn; split; split; done.
Qed.

Lemma take_spec u u' v : dlab u = false → rx u ≠ [] → uart_in 0 u = (u', v) → quiet u u' ∧ input u = v :: input u'.
Proof.
  intros Hd Hr E. unfold uart_in in E. cbn [Z.eqb] in E. rewrite Hd in E. injection E as <- <-.
  split; [by repeat split|]. unfold input. cbn. by destruct (rx u).
Qed.

(** [read_byte] takes the oldest byte of one port, or finds every port empty. *)
Lemma read_byte_spec devices h h' b : devices_ok devices → (∀ p, p ∈ present devices → dlab (uart h p) = false) →
  read_byte devices h = (h', b) →
  only (present devices) h h' ∧ (∀ p, p ∈ present devices → quiet (uart h p) (uart h' p)) ∧
  match b with
  | None => ∀ p, p ∈ present devices → rx (uart h' p) = [] ∧ input (uart h' p) = input (uart h p)
  | Some v => ∃ p, p ∈ present devices ∧ input (uart h p) = v :: input (uart h' p) ∧
      ∀ q, q ∈ present devices → q ≠ p → input (uart h' q) = input (uart h q)
  end.
Proof.
  revert h. induction devices as [|[p|] devices IH]; intros h Hd Hl E; cbn [read_byte] in E.
  { injection E as <- <-. repeat split; try set_solver. }
  2:{ by apply IH. }
  destruct Hd as [Hnd Hu]. cbn [present omap list_omap id] in *. change (omap id devices) with (present devices) in *.
  apply NoDup_cons in Hnd as [Hnin Hnd].
  assert (∀ q, q ∈ present devices → q ≠ p) as Hne by (intros q Hq ->; done).
  assert (p ∈ uarts (H := H)) as Hp by set_solver.
  destruct (in8 (reg_port p 5) h) as [h1 st] eqn:E1. destruct (in8_reg p 5 h h1 st Hp ltac:(lia) E1) as [S1 O1].
  destruct (status_spec _ _ _ S1) as (Q1 & I1 & _ & R1 & _).
  assert (∀ q, q ∈ present devices → uart h1 q = uart h q) as O1' by (intros q Hq; apply O1; set_solver).
  destruct (Z.land st 1 =? 0) eqn:Es.
  - apply Z.eqb_eq, R1 in Es. destruct (IH h1) as (O2 & Q2 & B2); [split; set_solver|intros q Hq; rewrite O1' by done; set_solver|done|].
    assert (uart h' p = uart h1 p) as Ep by (apply O2; done).
    split; [eapply only_trans; [eapply only_mono; [|exact O1]|eapply only_mono; [|exact O2]]; set_solver|]. split.
    { intros q [->|Hq]%elem_of_cons; [by rewrite Ep|]. rewrite <- O1' by done. by apply Q2. }
    destruct b as [v|].
    + destruct B2 as (q & Hq & Eq & Rest). exists q. split; [set_solver|]. rewrite <- O1' by done. split; [done|].
      intros q' [->|Hq']%elem_of_cons Hn; [by rewrite Ep|]. rewrite <- O1' by done. by apply Rest.
    + intros q [->|Hq]%elem_of_cons; [by rewrite Ep|]. rewrite <- O1' by done. by apply B2.
  - destruct (in8 p h1) as [h2 v] eqn:E2. injection E as <- <-. rewrite <- (Z.add_0_r p) in E2.
    destruct (in8_law p 0 h1 h2 v Hp ltac:(lia) E2) as [S2 O2].
    destruct (take_spec (uart h1 p) (uart h2 p) v) as [Q2 I2]; [|intros Hr; apply R1 in Hr; rewrite Hr in Es; done|done|].
    { destruct Q1 as (_ & Elcr & _). unfold dlab. rewrite Elcr. apply Hl. set_solver. }
    assert (∀ q, q ≠ p → uart h2 q = uart h q) as O3 by (intros q Hq; rewrite O2 by done; apply O1; set_solver).
    split; [intros q Hq; apply O3; set_solver|]. split.
    { intros q [->|Hq]%elem_of_cons; [by eapply quiet_trans|]. rewrite O3 by set_solver. apply quiet_refl. }
    exists p. split; [set_solver|]. rewrite <- I1. split; [done|]. intros q _ Hq. by rewrite O3.
Qed.

(** ** Draining *)

Definition outstanding (ps : list Z) h : nat := sum_list_with (λ p, length (input (uart h p))) ps.

Lemma outstanding_ext ps h h' : (∀ p, p ∈ ps → input (uart h' p) = input (uart h p)) → outstanding ps h' = outstanding ps h.
Proof.
  intros He. unfold outstanding. induction ps as [|p ps IH]; [done|]. cbn. rewrite He by set_solver. f_equal. apply IH. set_solver.
Qed.

Lemma outstanding_less ps p v h h' : NoDup ps → p ∈ ps → input (uart h p) = v :: input (uart h' p) →
  (∀ q, q ∈ ps → q ≠ p → input (uart h' q) = input (uart h q)) → outstanding ps h = S (outstanding ps h').
Proof.
  intros Hnd Hp Ei Hq. apply list_elem_of_split in Hp as (l1 & l2 & ->). apply NoDup_app in Hnd as (_ & Hd & [Hn _]%NoDup_cons).
  assert (outstanding l1 h' = outstanding l1 h ∧ outstanding l2 h' = outstanding l2 h) as [E1 E2].
  { split; apply outstanding_ext; intros q Hin; (apply Hq; [set_solver|]); intros ->; [apply (Hd p); set_solver|done]. }
  unfold outstanding in *. rewrite !sum_list_with_app. cbn. rewrite E1, E2, Ei. cbn. lia.
Qed.

(** The drain ends, with nothing left in the receivers. *)
Lemma drain_rx_spec fuel devices h : devices_ok devices → (∀ p, p ∈ present devices → dlab (uart h p) = false) →
  (outstanding (present devices) h < fuel)%nat →
  ∃ h', drain fuel devices h = Done h' ∧ only (present devices) h h' ∧
    ∀ p, p ∈ present devices → quiet (uart h p) (uart h' p) ∧ rx (uart h' p) = [].
Proof.
  intros Hd. revert h. induction fuel as [|fuel IH]; intros h Hl Hf; [lia|]. cbn [drain].
  destruct (read_byte devices h) as [h1 b] eqn:E. destruct (read_byte_spec _ _ _ _ Hd Hl E) as (O1 & Q1 & B1).
  destruct b as [v|].
  - destruct B1 as (p & Hp & Ei & Rest). pose proof (outstanding_less _ _ _ _ _ (proj1 Hd) Hp Ei Rest).
    destruct (IH h1) as (h' & -> & O2 & Q2); [|lia|].
    { intros q Hq. destruct (Q1 q Hq) as (_ & Elcr & _). unfold dlab. rewrite Elcr. by apply Hl. }
    exists h'. split; [done|]. split; [by eapply only_trans|]. intros q Hq. destruct (Q2 q Hq) as [Q R].
    split; [|done]. eapply quiet_trans; [by apply Q1|done].
  - exists h1. split; [done|]. split; [done|]. intros q Hq. split; [by apply Q1|by apply B1].
Qed.

(** ** Sending *)

(** Every wait takes fewer than [fuel] reads of the status. *)
Definition patient (fuel : nat) (u : Uart) : Prop := (wait u < fuel)%nat ∧ Forall (λ n, (n < fuel)%nat) (delays u).

(** [u] has sent [l] in addition, and is programmed as before. *)
Definition sent (l : list Z) (u u' : Uart) : Prop :=
  ier u' = ier u ∧ lcr u' = lcr u ∧ mcr u' = mcr u ∧ dll u' = dll u ∧ dlm u' = dlm u ∧ tx u' = tx u ++ l.

Lemma sent_trans l1 l2 u1 u2 u3 : sent l1 u1 u2 → sent l2 u2 u3 → sent (l1 ++ l2) u1 u3.
Proof.
  unfold sent. intros. destruct_and!. split_and!; try congruence. rewrite (assoc_L (++)). congruence.
Qed.
Lemma sent_nil u : sent [] u u.
Proof. repeat split. by rewrite app_nil_r. Qed.
Lemma sent_dlab l u u' : sent l u u' → dlab u' = dlab u.
Proof. unfold sent, dlab. intros. destruct_and!. congruence. Qed.

Lemma wait_ready_spec fuel n p h : p ∈ uarts (H := H) → patient n (uart h p) → (wait (uart h p) < fuel)%nat →
  ∃ h', wait_ready fuel p h = Done h' ∧ only [p] h h' ∧ quiet (uart h p) (uart h' p) ∧ wait (uart h' p) = 0%nat.
Proof.
  intros Hp. revert h. induction fuel as [|fuel IH]; intros h Hn Hf; [lia|]. cbn [wait_ready].
  destruct (in8 (reg_port p 5) h) as [h1 st] eqn:E1. destruct (in8_reg p 5 h h1 st Hp ltac:(lia) E1) as [S1 O1].
  destruct (status_spec _ _ _ S1) as (Q1 & _ & W1 & _ & R1). destruct (Z.land st 0x20 =? 0) eqn:Es.
  - apply Z.eqb_eq, R1 in Es. destruct (IH h1) as (h' & -> & O2 & Q2 & W2).
    { split; [destruct Hn; lia|]. destruct Q1 as (_ & _ & _ & _ & _ & _ & _ & ->). apply Hn. }
    { lia. }
    exists h'. split; [done|]. split; [by eapply only_trans|]. split; [by eapply quiet_trans|done].
  - apply Z.eqb_neq in Es. exists h1. split; [done|]. split; [done|]. split; [done|].
    destruct (wait (uart h p)); [done|]. exfalso. apply Es, R1. done.
Qed.

Lemma put_byte_spec fuel devices i b h p : devices_ok devices → devices !! i = Some (Some p) →
  dlab (uart h p) = false → patient fuel (uart h p) →
  ∃ h', put_byte fuel devices i b h = Done h' ∧ only [p] h h' ∧ sent [b] (uart h p) (uart h' p) ∧ patient fuel (uart h' p).
Proof.
  intros [_ Hu] Hi Hl Hw. assert (p ∈ uarts (H := H)) as Hp.
  { apply Hu. apply list_elem_of_omap. exists (Some p). split; [by eapply list_elem_of_lookup_2|done]. }
  unfold put_byte. rewrite Hi. destruct (wait_ready_spec fuel fuel p h Hp Hw (proj1 Hw)) as (h1 & -> & O1 & Q1 & W1).
  cbn [mbind outcome_bind]. exists (out8 p b h1). split; [done|].
  destruct (out8_law p 0 h1 b Hp ltac:(lia)) as [E2 O2]. rewrite Z.add_0_r in E2, O2.
  unfold quiet in Q1. destruct Q1 as (Q1 & Q2 & Q3 & Q4 & Q5 & Q6 & _ & Q8).
  assert (dlab (uart h1 p) = false) as Hl1 by (unfold dlab in *; by rewrite Q2).
  unfold uart_out in E2. cbn [Z.eqb] in E2. rewrite Hl1, W1 in E2. cbn [Nat.eqb] in E2.
  split; [intros q Hq; rewrite O2 by set_solver; apply O1; set_solver|]. rewrite E2. split.
  - repeat split; cbn; congruence.
  - rewrite Q8. destruct Hw as [Hw Hds]. split; cbn; destruct Hds; cbn; try done. lia.
Qed.

(** A carriage return goes before every line feed. *)
Definition crlf (b : Z) : list Z := if b =? 0x0a then [0x0d; 0x0a] else [b].

(** Ports that are ready to be written to. *)
Definition ready (fuel : nat) (ps : list Z) h : Prop :=
  ∀ p, p ∈ ps → dlab (uart h p) = false ∧ patient fuel (uart h p).

Lemma write_byte_spec fuel devices i b h p : devices_ok devices → devices !! i = Some (Some p) → ready fuel [p] h →
  ∃ h', write_byte fuel devices i b h = Done h' ∧ only [p] h h' ∧ sent (crlf b) (uart h p) (uart h' p) ∧ ready fuel [p] h'.
Proof.
  intros Hd Hi Hr. destruct (Hr p ltac:(set_solver)) as [Hl Hw]. unfold write_byte, crlf. destruct (b =? 0x0a) eqn:Eb.
  - apply Z.eqb_eq in Eb as ->. destruct (put_byte_spec fuel devices i 0x0d h p Hd Hi Hl Hw) as (h1 & -> & O1 & S1 & W1).
    cbn [mbind outcome_bind]. destruct (put_byte_spec fuel devices i 0x0a h1 p Hd Hi) as (h2 & -> & O2 & S2 & W2); [|done|].
    { by rewrite (sent_dlab _ _ _ S1). }
    exists h2. split; [done|]. split; [by eapply only_trans|]. split; [exact (sent_trans _ _ _ _ _ S1 S2)|].
    intros q ->%list_elem_of_singleton. split; [|done]. by rewrite (sent_dlab _ _ _ S2), (sent_dlab _ _ _ S1).
  - cbn [mbind outcome_bind]. destruct (put_byte_spec fuel devices i b h p Hd Hi Hl Hw) as (h1 & -> & O1 & S1 & W1).
    exists h1. split; [done|]. split; [done|]. split; [done|].
    intros q ->%list_elem_of_singleton. split; [|done]. by rewrite (sent_dlab _ _ _ S1).
Qed.

Lemma present_cons o devices : present (o :: devices) = match o with Some p => p :: present devices | None => present devices end.
Proof. by destruct o. Qed.

Lemma broadcast_spec fuel devices b pre suf h : devices_ok devices → devices = pre ++ suf → ready fuel (present suf) h →
  ∃ h', broadcast fuel devices (seq (length pre) (length suf)) b h = Done h' ∧ only (present suf) h h' ∧
    (∀ p, p ∈ present suf → sent (crlf b) (uart h p) (uart h' p)) ∧ ready fuel (present suf) h'.
Proof.
  intros Hd. revert pre h. induction suf as [|o suf IH]; intros pre h Ed Hr.
  { exists h. split; [done|]. split; [done|]. split; [intros p Hp; by apply not_elem_of_nil in Hp|done]. }
  assert (devices !! length pre = Some o) as Hi by (rewrite Ed; by apply list_lookup_middle).
  specialize (IH (pre ++ [o])). rewrite length_app in IH. cbn [length] in IH. rewrite Nat.add_1_r in IH.
  assert (devices = (pre ++ [o]) ++ suf) as Ed' by (by rewrite <- (assoc_L (++))).
  cbn [length seq broadcast]. rewrite present_cons in *. destruct o as [p|].
  - assert (p ∉ present suf) as Hnin.
    { destruct Hd as [Hnd _]. rewrite Ed in Hnd. unfold present in Hnd. rewrite omap_app in Hnd.
      apply NoDup_app in Hnd as (_ & _ & Hnd). cbn in Hnd. apply NoDup_cons in Hnd. apply Hnd. }
    destruct (write_byte_spec fuel devices _ b h p Hd Hi) as (h1 & -> & O1 & S1 & R1); [intros q Hq; apply Hr; set_solver|].
    cbn [mbind outcome_bind]. assert (∀ q, q ∈ present suf → uart h1 q = uart h q) as O1'.
    { intros q Hq. apply O1. intros ->%list_elem_of_singleton. done. }
    destruct (IH h1 Ed') as (h2 & -> & O2 & S2 & R2).
    { intros q Hq. rewrite O1' by done. apply Hr. by right. }
    exists h2. split; [done|]. split; [intros q Hq; rewrite O2, O1 by set_solver; done|].
    assert (uart h2 p = uart h1 p) as Ep by (by apply O2). split.
    + intros q [->|Hq]%elem_of_cons; [by rewrite Ep|]. rewrite <- O1' by done. by apply S2.
    + intros q [->|Hq]%elem_of_cons; [rewrite Ep; apply R1; by left|by apply R2].
  - unfold write_byte, put_byte at 2. rewrite Hi. unfold put_byte. rewrite Hi.
    destruct (b =? 0x0a); cbn [mbind outcome_bind]; by apply IH.
Qed.

Lemma write_law fuel devices bytes h : devices_ok devices → ready fuel (present devices) h →
  ∃ h', write fuel devices bytes h = Done h' ∧ only (present devices) h h' ∧
    ∀ p, p ∈ present devices → sent (bytes ≫= crlf) (uart h p) (uart h' p).
Proof.
  intros Hd. revert h. induction bytes as [|b bytes IH]; intros h Hr; cbn [write].
  { exists h. split; [done|]. split; [done|]. intros. apply sent_nil. }
  destruct (broadcast_spec fuel devices b [] devices h Hd eq_refl Hr) as (h1 & E1 & O1 & S1 & R1). cbn [length] in E1. rewrite E1.
  cbn [mbind outcome_bind]. destruct (IH h1 R1) as (h2 & -> & O2 & S2).
  exists h2. split; [done|]. split; [by eapply only_trans|]. intros p Hp. rewrite bind_cons. eapply sent_trans; [by apply S1|by apply S2].
Qed.

Lemma outstanding_programmed ps h h' : (∀ p, p ∈ ps → programmed (uart h p) (uart h' p)) → outstanding ps h' = outstanding ps h.
Proof. intros Hp. apply outstanding_ext. intros p Hin. by rewrite (Hp p Hin). Qed.

(** C32: the console: [new] on the ports the BIOS reports (each present and
    listed once) returns, with exactly those ports as devices, programmed to
    115200 baud, 8 bits, no parity, and nothing left in the receivers; [write] then
    returns and has sent, on each of them, the bytes in order with a carriage return
    before every line feed, and nothing else.  No other port is touched.
    The fuel covers the bytes that still come in and the longest wait for a
    transmitter. *)
Theorem serial_console fuel bda bytes h :
  NoDup (reported bda) → (∀ p, p ∈ bda → p ≠ 0 → p ∈ uarts (H := H) ∧ patient fuel (uart h p)) →
  (outstanding (reported bda) h < fuel)%nat →
  ∃ h1 h2, let devices := (λ p, if p =? 0 then None else Some p) <$> bda in
    new fuel bda h = Done (h1, devices) ∧ write fuel devices bytes h1 = Done h2 ∧
    only (reported bda) h h2 ∧
    ∀ p, p ∈ bda → p ≠ 0 →
      (dll (uart h2 p) = 1 ∧ dlm (uart h2 p) = 0 ∧ lcr (uart h2 p) = 3 ∧ mcr (uart h2 p) = 3) ∧
      rx (uart h1 p) = [] ∧ tx (uart h2 p) = tx (uart h p) ++ (bytes ≫= crlf).
Proof.
  intros Hnd Hu Hf. unfold new. destruct (init_ports bda h) as [h0 devices] eqn:E0.
  destruct (init_ports_spec bda h h0 devices Hnd ltac:(intros p Hp Hz; by apply (Hu p)) E0) as (Ed & Ep & O0 & P0).
  assert (∀ p, p ∈ present devices → p ∈ bda ∧ p ≠ 0) as Hin by (intros p; rewrite Ep; unfold reported; rewrite list_elem_of_filter; naive_solver).
  assert (devices_ok devices) as Hd by (split; [by rewrite Ep|intros p [Hp Hz]%Hin; by apply (Hu p)]).
  assert (∀ p, p ∈ present devices → dlab (uart h0 p) = false) as Hl by (intros p Hp; by rewrite (P0 p Hp)).
  destruct (drain_rx_spec fuel devices h0 Hd Hl) as (h1 & -> & O1 & Q1); [by rewrite (outstanding_programmed _ h h0 P0), Ep|].
  cbn [mbind outcome_bind]. destruct (write_law fuel devices bytes h1 Hd) as (h2 & E2 & O2 & S2).
  { intros p Hp. destruct (Q1 p Hp) as [(_ & Elcr & _ & _ & _ & _ & Ew & Ede) _]. split.
    - unfold dlab. rewrite Elcr. by apply Hl.
    - destruct (Hin p Hp) as [Hb Hz]. destruct (Hu p Hb Hz) as [_ [Hw Hds]]. rewrite (P0 p Hp) in Ew, Ede. cbn in Ew, Ede.
      split; [lia|by rewrite Ede]. }
  exists h1, h2. cbn zeta. rewrite Ed in E2 |- *. split; [done|]. split; [done|]. rewrite <- Ep. split.
  { eapply only_trans; [exact O0|]. by eapply only_trans. }
  intros p Hb Hz. assert (p ∈ present devices) as Hp by (rewrite Ep; by apply list_elem_of_filter).
  destruct (Q1 p Hp) as [Qu R]. destruct (S2 p Hp) as (_ & S3 & S4 & S5 & S6 & S7). destruct Qu as (_ & U3 & U4 & U5 & U6 & U7 & _).
  rewrite S7, U7, S3, S4, S5, S6, U3, U4, U5, U6, (P0 p Hp). cbn. done.
Qed.
End laws.

(** ** Two UARTs *)

Module Sim.
Definition state : Type := Uart * Uart.
Definition get (p : Z) (h : state) : Uart := if p =? 0x3f8 then fst h else snd h.
Definition set (p : Z) (u : Uart) (h : state) : state := if p =? 0x3f8 then (u, snd h) else (fst h, u).
(** The UART a port belongs to. *)
Definition base_of (port : Z) : option Z :=
  if (0x3f8 <=? port) && (port <? 0x400) then Some 0x3f8
  else if (0x2f8 <=? port) && (port <? 0x300) then Some 0x2f8 else None.

#[global] Instance sim_ports : Ports state := {
  in8 port h := match base_of port with Some p => let '(u, v) := uart_in (port - p) (get p h) in (set p u h, v) | None => (h, 0xff) end;
  out8 port v h := match base_of port with Some p => set p (uart_out (port - p) v (get p h)) h | None => h end;
}.
#[global] Instance sim_view : UartView state := {
  uarts := [0x3f8; 0x2f8];
  uart h p := if p =? 0x3f8 then fst h else if p =? 0x2f8 then snd h else mkUart 0 0 0 0 0 [] [] [] 0 [];
}.

Lemma base_of_eq p o : p ∈ [0x3f8; 0x2f8] → 0 ≤ o < 8 → base_of (p + o) = Some p.
Proof.
  intros Hp Ho. unfold base_of. repeat (apply elem_of_cons in Hp as [->|Hp]); [..|by apply not_elem_of_nil in Hp];
    repeat case_match; try done; lia.
Qed.

#[global] Instance sim_laws : UartLaws state.
Proof.
  split.
  - intros p Hp. cbn in Hp. repeat (apply elem_of_cons in Hp as [->|Hp]); [lia|lia|by apply not_elem_of_nil in Hp].
  - intros p o h h' v Hp Ho E. cbn in E, Hp. rewrite base_of_eq in E by done. replace (p + o - p) with o in E by lia.
    repeat (apply elem_of_cons in Hp as [->|Hp]); [..|by apply not_elem_of_nil in Hp]; cbn in E |- *;
      destruct (uart_in o _) as [u w]; injection E as <- <-; (split; [done|]); intros q Hq; cbn; repeat case_match; try done; lia.
  - intros p o h v Hp Ho. cbn in Hp |- *. rewrite base_of_eq by done. replace (p + o - p) with o by lia.
    repeat (apply elem_of_cons in Hp as [->|Hp]); [..|by apply not_elem_of_nil in Hp]; cbn;
      (split; [done|]); intros q Hq; cbn; repeat case_match; try done; lia.
Qed.
End Sim.

(** COM1, busy for two reads, with two bytes in its receiver and one that comes
    later; and COM2. *)
Definition demo_uarts : Sim.state :=
  (mkUart 1 3 0 12 0 [0x5a; 0x41] [[]; [0x42]] [] 2 [1%nat; 2%nat], mkUart 0 3 0 12 0 [] [] [0x20] 0 []).

Lemma serial_console_witness : ∃ h1 h2,
  new 4 [0x3f8; 0x2f8; 0; 0] demo_uarts = Done (h1, [Some 0x3f8; Some 0x2f8; None; None]) ∧
  write 4 [Some 0x3f8; Some 0x2f8; None; None] [0x48; 0x69; 0x0a] h1 = Done h2 ∧
  tx (fst h2) = [0x48; 0x69; 0x0d; 0x0a] ∧ tx (snd h2) = [0x20; 0x48; 0x69; 0x0d; 0x0a].
Proof.
  destruct (serial_console 4 [0x3f8; 0x2f8; 0; 0] [0x48; 0x69; 0x0a] demo_uarts) as (h1 & h2 & E1 & E2 & _ & T).
  - by_decide.
  - intros p Hp Hz. repeat (apply elem_of_cons in Hp as [->|Hp]); try lia; [..|by apply not_elem_of_nil in Hp];
      (split; [by_decide|split; [by_decide|cbn; repeat constructor]]).
  - by_decide.
  - exists h1, h2. split; [exact E1|]. split; [exact E2|]. split.
    + exact (proj2 (proj2 (T 0x3f8 ltac:(by_decide) ltac:(lia)))).
    + exact (proj2 (proj2 (T 0x2f8 ltac:(by_decide) ltac:(lia)))).
Defined.
