(* ===== verification/LockCell.v ===== *)
(** * Ticket spinlocks (shared/lockcell)

    A [LockCell] used by any number of calls at once.  A call is a control
    point in [lock_int], the use of the guard, or the guard's [drop]; one step
    of a call is one access to an atomic of the cell (all of them [SeqCst], so
    an execution is an interleaving of such steps).  Calls on the same core,
    such as the interrupt that preempts a lock holder, are different calls with
    the same core id.

    [taken] and [released] count tickets without wrapping; they, the numbers in
    the control points and the log are history, which no step reads. *)

From stdpp Require Import base tactics option list numbers strings.
From Stdlib Require Import ZArith Lia.
From S2P Require Import Prelude MachineInt.

Local Open Scope Z_scope.

Section lockcell.
Context {V : Type}.

(** What a call sees of its core through [InterruptState], and what it does
    with the value it locked. *)
Record Call := mkCall {
  core_id : Z;
  try_lock : bool;
  in_interrupt : bool;
  in_exception : bool;
  body : V → V;
}.

Record LockCell := mkLockCell {
  ticket : Z;
  release : Z;
  owner : Z;
  disables_interrupts : bool;
  val : V;
  depth : Z → Z;      (** calls of [enter_lock] less those of [exit_lock], per core *)
  taken : Z;
  released : Z;
  log : list nat;
}.

(** [LockCell::new] and [LockCell::new_no_preempt] *)
Definition new (v : V) : LockCell := mkLockCell 0 0 0 false v (λ _, 0) 0 0 [].
Definition new_no_preempt (v : V) : LockCell := mkLockCell 0 0 0 true v (λ _, 0) 0 0 [].

Inductive pc :=
| Start                        (** before the assertions *)
| Entered                      (** interrupts are disabled *)
| TryLoaded (current_release seen : Z)
| TryFailed                    (** lost: [exit_lock] is due *)
| Spinning (t n : Z)           (** has ticket [t]; about to load [release] *)
| Checking (t n : Z)           (** it was not [t]; about to load [owner] *)
| Won (n : Z)                  (** about to store [owner] *)
| Holding (n : Z)              (** has the guard *)
| Reading (n : Z) (v : V)      (** read the value through it *)
| Wrote (n : Z)                (** wrote it back; about to drop the guard *)
| Dropping (n : Z)             (** cleared [owner]; about to bump [release] *)
| Released                     (** [exit_lock] is due *)
| Finished (locked : bool)
| Refused (msg : string)       (** an assertion failed *)
| Deadlocked (n : Z).          (** "Deadlock detected" *)

Definition add_depth (core d : Z) (c : LockCell) : LockCell :=
  mkLockCell (ticket c) (release c) (owner c) (disables_interrupts c) (val c)
    (λ k, if k =? core then depth c k + d else depth c k) (taken c) (released c) (log c).

Definition enter_lock (k : Call) (c : LockCell) : LockCell :=
  if disables_interrupts c then add_depth (core_id k) 1 c else c.
Definition exit_lock (k : Call) (c : LockCell) : LockCell :=
  if disables_interrupts c then add_depth (core_id k) (-1) c else c.

Definition set_ticket (t : Z) (c : LockCell) : LockCell :=
  mkLockCell t (release c) (owner c) (disables_interrupts c) (val c) (depth c)
    (taken c + 1) (released c) (log c).
Definition set_release (r : Z) (c : LockCell) : LockCell :=
  mkLockCell (ticket c) r (owner c) (disables_interrupts c) (val c) (depth c)
    (taken c) (released c + 1) (log c).
Definition set_owner (o : Z) (c : LockCell) : LockCell :=
  mkLockCell (ticket c) (release c) o (disables_interrupts c) (val c) (depth c)
    (taken c) (released c) (log c).
Definition set_val (i : nat) (v : V) (c : LockCell) : LockCell :=
  mkLockCell (ticket c) (release c) (owner c) (disables_interrupts c) v (depth c)
    (taken c) (released c) (log c ++ [i]).

(** One step of call [i]: [lock_int] up to [Holding], the use of the value
    through [deref] and [deref_mut], and [drop] from [Wrote] on. *)
Definition call_step (i : nat) (k : Call) (c : LockCell) (p : pc) : LockCell * pc :=
  match p with
  | Start =>
      if negb (disables_interrupts c || negb (in_interrupt k)) then
        (c, Refused "Attempted to take a non-preemptable lock in an interrupt")
      else if negb (try_lock k || negb (in_exception k)) then
        (c, Refused "Attempted to take a blocking lock while in an exception")
      else (enter_lock k c, Entered)
  | Entered =>
      if try_lock k then (c, TryLoaded (release c) (released c))
      else (set_ticket (wrapping_add 32 (ticket c) 1) c, Spinning (ticket c) (taken c))
  | TryLoaded current_release _ =>
      if negb (ticket c =? current_release) then (c, TryFailed)
      else (set_ticket (wrapping_add 32 current_release 1) c, Won (taken c))
  | TryFailed => (exit_lock k c, Finished false)
  | Spinning t n => if release c =? t then (c, Won n) else (c, Checking t n)
  | Checking t n => if owner c =? core_id k then (c, Deadlocked n) else (c, Spinning t n)
  | Won n => (set_owner (core_id k) c, Holding n)
  | Holding n => (c, Reading n (val c))
  | Reading n v => (set_val i (body k v) c, Wrote n)
  | Wrote n => (set_owner (bnot 32 0) c, Dropping n)
  | Dropping n => (set_release (wrapping_add 32 (release c) 1) c, Released)
  | Released => (exit_lock k c, Finished true)
  | Finished _ => (c, Start)
  | Refused _ | Deadlocked _ => (c, p)
  end.

(** The cell and where every call is. *)
Record Config := mkConfig { cell : LockCell; pcs : list pc }.

Section system.
Context (calls : list Call).

(** Call [i] makes a step. *)
Definition step (i : nat) (s : Config) : option Config :=
  k ← calls !! i;
  p ← pcs s !! i;
  let '(c, p) := call_step i k (cell s) p in
  Some (mkConfig c (<[i := p]> (pcs s))).

Definition start (c : LockCell) : Config := mkConfig c (replicate (length calls) Start).

(** The calls step in the given order. *)
Fixpoint run (s : Config) (schedule : list nat) : option Config :=
  match schedule with
  | [] => Some s
  | i :: schedule => s ← step i s; run s schedule
  end.

(** No call sleeps between the load and the compare-and-swap of [try_lock]
    while 2^32 tickets are drawn. *)
Definition timely (s : Config) : Prop :=
  ∀ i r seen, pcs s !! i = Some (TryLoaded r seen) → taken (cell s) - seen < 2 ^ 32.

(** What is reached from a new cell in timely executions. *)
Inductive reachable (c0 : LockCell) : Config → Prop :=
| reachable_start : reachable c0 (start c0)
| reachable_step i s s' : reachable c0 s → timely s → step i s = Some s' → reachable c0 s'.

End system.
End lockcell.
Arguments pc V : clear implicits.
Arguments Call V : clear implicits.
Arguments LockCell V : clear implicits.
Arguments Config V : clear implicits.

Section proofs.
Context {V : Type} (calls : list (Call V)).
Implicit Types (c : LockCell V) (s : Config V) (p q : pc V).

(** The number of the ticket a call holds, counted without wrapping. *)
Definition number_of (p : pc V) : option Z :=
  match p with
  | Spinning _ n | Checking _ n | Won n | Holding n | Reading n _ | Wrote n | Dropping n
  | Deadlocked n => Some n
  | _ => None
  end.

(** Between winning the lock and releasing it; and with [owner] stored. *)
Definition owns (p : pc V) : bool :=
  match p with Won _ | Holding _ | Reading _ _ | Wrote _ | Dropping _ => true | _ => false end.

Definition guards (p : pc V) : bool :=
  match p with Holding _ | Reading _ _ | Wrote _ => true | _ => false end.

Definition pc_ok (c : LockCell V) (p : pc V) : Prop :=
  match p with
  | Spinning t n | Checking t n => t = wrap 32 n
  | TryLoaded r seen => r = wrap 32 seen ∧ 0 ≤ seen ≤ released c
  | Won n | Holding n | Wrote n | Dropping n => n = released c
  | Reading n v => n = released c ∧ v = val c
  | _ => True
  end.

Definition NO_OWNER : Z := bnot 32 0.

(** [owner] is the core of the call that has the guard.  When none has, it is
    cleared, or still has its initial value. *)
Definition owner_ok (c : LockCell V) (ps : list (pc V)) : Prop :=
  (∀ i p k, ps !! i = Some p → calls !! i = Some k → guards p = true → owner c = core_id k) ∧
  ((∀ i p, ps !! i = Some p → guards p = false) →
     owner c = NO_OWNER ∨ owner c = 0 ∧ released c = 0 ∧ ∀ i p n, ps !! i = Some p → p ≠ Dropping n).

Record inv (v0 : V) (s : Config V) : Prop := {
  i_len : length (pcs s) = length calls;
  i_ticket : ticket (cell s) = wrap 32 (taken (cell s));
  i_release : release (cell s) = wrap 32 (released (cell s));
  i_counts : 0 ≤ released (cell s) ≤ taken (cell s);
  i_pc i p : pcs s !! i = Some p → pc_ok (cell s) p;
  i_range i p n : pcs s !! i = Some p → number_of p = Some n →
    released (cell s) ≤ n < taken (cell s);
  i_inj i j p q n : pcs s !! i = Some p → pcs s !! j = Some q →
    number_of p = Some n → number_of q = Some n → i = j;
  i_all n : released (cell s) ≤ n < taken (cell s) →
    ∃ i p, pcs s !! i = Some p ∧ number_of p = Some n;
  i_owner : owner_ok (cell s) (pcs s);
  i_val : val (cell s) = foldl (λ v i, match calls !! i with Some k => body k v | None => v end)
    v0 (log (cell s));
}.

Lemma owns_number p c : pc_ok c p → owns p = true → number_of p = Some (released c).
Proof. destruct p; cbn; naive_solver. Qed.

Lemma guards_owns p : guards p = true → owns p = true.
Proof. by destruct p. Qed.

(** At most one call is between winning and releasing the lock. *)
Lemma inv_exclusive v0 s i j p q : inv v0 s →
  pcs s !! i = Some p → pcs s !! j = Some q → owns p = true → owns q = true → i = j.
Proof.
  intros Hi Hp Hq Ho1 Ho2. apply (i_inj _ _ Hi i j p q (released (cell s)) Hp Hq);
    apply owns_number; try done; [by apply (i_pc _ _ Hi i)|by apply (i_pc _ _ Hi j)].
Qed.

(** There are as many tickets out as calls that hold one. *)
Lemma outstanding v0 s : inv v0 s → taken (cell s) - released (cell s) ≤ Z.of_nat (length calls).
Proof.
  intros Hi. pose proof (i_counts _ _ Hi) as Hc.
  set (n := Z.to_nat (taken (cell s) - released (cell s))).
  assert (seqZ (released (cell s)) (Z.of_nat n) ⊆+ omap number_of (pcs s)) as Hs.
  { apply NoDup_submseteq; [apply NoDup_seqZ|]. intros x Hx%elem_of_seqZ.
    destruct (i_all _ _ Hi x) as (i & p & Hp & Hn); [lia|].
    apply list_elem_of_omap. exists p. split; [|done]. by apply list_elem_of_lookup_2 with i. }
  apply submseteq_length in Hs. rewrite length_seqZ in Hs.
  assert (length (omap number_of (pcs s)) ≤ length (pcs s))%nat as Hl.
  { clear. induction (pcs s) as [|p l IH]; cbn; [done|]. destruct (number_of p); cbn; lia. }
  rewrite (i_len _ _ Hi) in Hl. lia.
Qed.

Lemma wrap_eq_near a b : wrap 32 a = wrap 32 b → b ≤ a < b + 2 ^ 32 → a = b.
Proof.
  unfold wrap. intros He Hr.
  pose proof (Z.div_mod a (2 ^ 32) ltac:(lia)). pose proof (Z.div_mod b (2 ^ 32) ltac:(lia)).
  lia.
Qed.

(** ** Every step keeps the invariant *)

Section one_step.
Context (v0 : V) (s : Config V) (i : nat) (p : pc V) (k : Call V).
Context (Hinv : inv v0 s) (Hp : pcs s !! i = Some p) (Hk : calls !! i = Some k).
Context (c' : LockCell V) (p' : pc V).

Lemma updated j q : <[i := p']> (pcs s) !! j = Some q ↔
  i = j ∧ q = p' ∨ i ≠ j ∧ pcs s !! j = Some q.
Proof.
  rewrite list_lookup_insert_Some. apply lookup_lt_Some in Hp. naive_solver.
Qed.

Lemma owner_quiet : owner c' = owner (cell s) → released c' = released (cell s) →
  guards p' = guards p → (∀ n, p' ≠ Dropping n) → owner_ok c' (<[i := p']> (pcs s)).
Proof.
  intros Ho Hr Hg Hd. destruct (i_owner _ _ Hinv) as [H1 H2]. unfold owner_ok. rewrite Ho, Hr. split.
  - intros j q k' Hj%updated Hk' Hgq. destruct Hj as [[<- ->]|[_ Hj]]; [|by apply (H1 j q)].
    apply (H1 i p); [done|done|congruence].
  - intros Hall. destruct H2 as [|(? & ? & Hn)]; [|by left|right].
    + intros j q Hj. destruct (decide (i = j)) as [<-|Hne].
      * rewrite Hp in Hj. injection Hj as <-. rewrite <- Hg. apply (Hall i). apply updated. by left.
      * apply (Hall j). apply updated. by right.
    + split_and!; try done. intros j q n [[_ ->]|[_ Hj]]%updated; [apply Hd|by apply (Hn j)].
Qed.

Lemma others_unguarded j q : owns p = true → i ≠ j → pcs s !! j = Some q → guards q = false.
Proof.
  intros Ho Hne Hj. destruct (guards q) eqn:Hg; [|done]. exfalso. apply Hne.
  apply (inv_exclusive v0 s i j p q); try done. by apply guards_owns.
Qed.

Lemma owner_set : owner c' = core_id k → owns p = true → guards p' = true →
  owner_ok c' (<[i := p']> (pcs s)).
Proof.
  intros Ho Hown Hg. split.
  - intros j q k' [[<- ->]|[Hne Hj]]%updated Hk' Hgq; [congruence|].
    by rewrite (others_unguarded j q Hown Hne Hj) in Hgq.
  - intros Hall. assert (guards p' = false) by (apply (Hall i), updated; by left). congruence.
Qed.

Lemma owner_clear : owner c' = NO_OWNER → owns p = true → guards p' = false →
  owner_ok c' (<[i := p']> (pcs s)).
Proof.
  intros Ho Hown Hg. split; [|by left].
  intros j q k' [[<- ->]|[Hne Hj]]%updated Hk' Hgq; [congruence|].
  by rewrite (others_unguarded j q Hown Hne Hj) in Hgq.
Qed.

(** A step that takes and releases no ticket. *)
Lemma inv_quiet : ticket c' = ticket (cell s) → release c' = release (cell s) →
  taken c' = taken (cell s) → released c' = released (cell s) →
  number_of p' = number_of p → pc_ok c' p' →
  (val c' = val (cell s) ∧ log c' = log (cell s) ∨
   owns p = true ∧ val c' = body k (val (cell s)) ∧ log c' = log (cell s) ++ [i]) →
  owner_ok c' (<[i := p']> (pcs s)) → inv v0 (mkConfig c' (<[i := p']> (pcs s))).
Proof.
  intros Ht Hr Htk Hrl Hn Hok Hv Ho. split; cbn [cell pcs]; rewrite ?Ht, ?Hr, ?Htk, ?Hrl.
  - rewrite length_insert. apply (i_len _ _ Hinv).
  - apply (i_ticket _ _ Hinv).
  - apply (i_release _ _ Hinv).
  - apply (i_counts _ _ Hinv).
  - intros j q [[<- ->]|[Hne Hj]]%updated; [done|]. pose proof (i_pc _ _ Hinv j q Hj) as Hq.
    destruct q; cbn in *; rewrite ?Hrl; try done. split; [apply Hq|]. destruct Hq as [_ ->].
    destruct Hv as [[-> _]|[Hown _]]; [done|]. exfalso.
    apply (others_unguarded j) in Hj; done.
  - intros j q n [[<- ->]|[Hne Hj]]%updated Hnq; [|by apply (i_range _ _ Hinv j q)].
    apply (i_range _ _ Hinv i p); [done|congruence].
  - intros j j' q q' n [[<- ->]|[Hne Hj]]%updated [[<- ->]|[Hne' Hj']]%updated Hq Hq'; try done.
    + apply (i_inj _ _ Hinv i j' p q' n); congruence.
    + apply (i_inj _ _ Hinv j i q p n); congruence.
    + by apply (i_inj _ _ Hinv j j' q q' n).
  - intros n Hnr. destruct (i_all _ _ Hinv n Hnr) as (j & q & Hj & Hq).
    destruct (decide (i = j)) as [<-|Hne].
    + exists i, p'. rewrite updated. split; [by left|]. congruence.
    + exists j, q. rewrite updated. split; [by right|done].
  - done.
  - pose proof (i_val _ _ Hinv) as Hval. destruct Hv as [[-> ->]|(_ & -> & ->)]; [done|].
    rewrite foldl_app, <- Hval. cbn. by rewrite Hk.
Qed.

(** A step that draws the next ticket. *)
Lemma inv_take : ticket c' = wrap 32 (taken (cell s) + 1) → release c' = release (cell s) →
  taken c' = taken (cell s) + 1 → released c' = released (cell s) → val c' = val (cell s) →
  log c' = log (cell s) → owner c' = owner (cell s) → number_of p = None → guards p = false →
  number_of p' = Some (taken (cell s)) → pc_ok c' p' → guards p' = false → (∀ n, p' ≠ Dropping n) →
  inv v0 (mkConfig c' (<[i := p']> (pcs s))).
Proof.
  intros Ht Hr Htk Hrl Hv Hl Ho Hn0 Hg0 Hn Hok Hg Hd.
  pose proof (i_counts _ _ Hinv) as Hc. split; cbn [cell pcs]; rewrite ?Ht, ?Hr, ?Htk, ?Hrl, ?Hv, ?Hl.
  - rewrite length_insert. apply (i_len _ _ Hinv).
  - done.
  - apply (i_release _ _ Hinv).
  - lia.
  - intros j q [[<- ->]|[Hne Hj]]%updated; [done|]. pose proof (i_pc _ _ Hinv j q Hj) as Hq.
    destruct q; cbn in *; rewrite ?Hrl, ?Hv; done.
  - intros j q n [[<- ->]|[Hne Hj]]%updated Hnq.
    + rewrite Hn in Hnq. injection Hnq as <-. lia.
    + pose proof (i_range _ _ Hinv j q n Hj Hnq). lia.
  - intros j j' q q' n [[<- ->]|[Hne Hj]]%updated [[<- ->]|[Hne' Hj']]%updated Hq Hq'; try done.
    + pose proof (i_range _ _ Hinv j' q' n Hj' Hq'). assert (n = taken (cell s)) by congruence. lia.
    + pose proof (i_range _ _ Hinv j q n Hj Hq). assert (n = taken (cell s)) by congruence. lia.
    + by apply (i_inj _ _ Hinv j j' q q' n).
  - intros n Hnr. destruct (decide (n = taken (cell s))) as [->|Hne'].
    + exists i, p'. rewrite updated. split; [by left|done].
    + destruct (i_all _ _ Hinv n) as (j & q & Hj & Hq); [lia|]. exists j, q. rewrite updated.
      split; [right|done]. split; [|done]. intros <-. congruence.
  - apply owner_quiet; congruence.
  - apply (i_val _ _ Hinv).
Qed.

(** A step that releases the lock. *)
Lemma inv_release : ticket c' = ticket (cell s) → release c' = wrap 32 (released (cell s) + 1) →
  taken c' = taken (cell s) → released c' = released (cell s) + 1 → val c' = val (cell s) →
  log c' = log (cell s) → owner c' = owner (cell s) →
  p = Dropping (released (cell s)) → p' = Released →
  inv v0 (mkConfig c' (<[i := p']> (pcs s))).
Proof.
  intros Ht Hr Htk Hrl Hv Hl Ho Ep Ep'.
  assert (number_of p = Some (released (cell s))) as Hn by by rewrite Ep.
  pose proof (i_range _ _ Hinv i p _ Hp Hn) as Hrg. pose proof (i_counts _ _ Hinv) as Hc.
  split; cbn [cell pcs]; rewrite ?Ht, ?Hr, ?Htk, ?Hrl, ?Hv, ?Hl.
  - rewrite length_insert. apply (i_len _ _ Hinv).
  - apply (i_ticket _ _ Hinv).
  - done.
  - lia.
  - intros j q [[<- ->]|[Hne Hj]]%updated; [by rewrite Ep'|]. pose proof (i_pc _ _ Hinv j q Hj) as Hq.
    assert (owns q = false) as Hno.
    { destruct (owns q) eqn:E; [|done]. exfalso. apply Hne, (inv_exclusive v0 s i j p q); try done.
      by rewrite Ep. }
    destruct q; cbn in *; rewrite ?Hrl; try done. lia.
  - intros j q n [[<- ->]|[Hne Hj]]%updated Hnq; [by rewrite Ep' in Hnq|].
    pose proof (i_range _ _ Hinv j q n Hj Hnq). assert (n ≠ released (cell s)); [|lia].
    intros ->. apply Hne. by apply (i_inj _ _ Hinv i j p q (released (cell s))).
  - intros j j' q q' n [[<- ->]|[Hne Hj]]%updated [[<- ->]|[Hne' Hj']]%updated Hq Hq';
      rewrite ?Ep' in *; try done.
    by apply (i_inj _ _ Hinv j j' q q' n).
  - intros n Hnr. destruct (i_all _ _ Hinv n) as (j & q & Hj & Hq); [lia|]. exists j, q. rewrite updated.
    split; [right|done]. split; [|done]. intros <-. assert (n = released (cell s)) by congruence. lia.
  - destruct (i_owner _ _ Hinv) as [H1 H2]. split; rewrite Ho.
    + intros j q k' [[<- ->]|[Hne Hj]]%updated Hk' Hg; [by rewrite Ep' in Hg|by apply (H1 j q)].
    + intros Hall. left. destruct H2 as [|(_ & _ & Hn2)]; [|done|].
      * intros j q Hj. destruct (decide (i = j)) as [<-|Hne]; [|apply (Hall j), updated; by right].
        rewrite Hp in Hj. injection Hj as <-. by rewrite Ep.
      * by destruct (Hn2 i p (released (cell s)) Hp).
  - apply (i_val _ _ Hinv).
Qed.

End one_step.

Lemma add_depth_fields core d c :
  let c' := add_depth core d c in
  ticket c' = ticket c ∧ release c' = release c ∧ owner c' = owner c ∧ val c' = val c ∧
  taken c' = taken c ∧ released c' = released c ∧ log c' = log c.
Proof. done. Qed.

Lemma wrapping_succ a : wrapping_add 32 (wrap 32 a) 1 = wrap 32 (a + 1).
Proof. unfold wrapping_add, wrap. by rewrite Zplus_mod_idemp_l. Qed.

Lemma inv_step v0 s s' i : inv v0 s → timely s → Z.of_nat (length calls) < 2 ^ 32 →
  step calls i s = Some s' → inv v0 s'.
Proof.
  intros Hinv Htime Hfew Hs. unfold step in Hs. destruct (calls !! i) as [k|] eqn:Hk; [|done].
  cbn in Hs. destruct (pcs s !! i) as [p|] eqn:Hp; [|done]. cbn in Hs.
  destruct (call_step i k (cell s) p) as [c' p'] eqn:Hc. injection Hs as <-.
  pose proof (i_pc _ _ Hinv i p Hp) as Hok. pose proof (outstanding v0 s Hinv) as Hout.
  pose proof (i_counts _ _ Hinv) as Hcnt.
  pose proof (i_ticket _ _ Hinv) as Htk. pose proof (i_release _ _ Hinv) as Hrl.
  assert (∀ q, number_of q = number_of p → guards q = guards p → pc_ok (cell s) q →
    (∀ n, q ≠ Dropping n) → inv v0 (mkConfig (cell s) (<[i := q]> (pcs s)))) as Hstay.
  { intros q Hn Hg Hpc Hd. apply (inv_quiet v0 s i p k Hinv Hp Hk); try done; [by left|].
    by apply (owner_quiet v0 s i p k). }
  assert (∀ q d, number_of q = number_of p → guards q = guards p → pc_ok (cell s) q →
    (∀ n, q ≠ Dropping n) →
    inv v0 (mkConfig (if disables_interrupts (cell s) then add_depth (core_id k) d (cell s) else cell s)
      (<[i := q]> (pcs s)))) as Hdepth.
  { intros q d Hn Hg Hpc Hd. destruct (disables_interrupts (cell s)); [|by apply Hstay].
    apply (inv_quiet v0 s i p k Hinv Hp Hk); try done; [by left|].
    by apply (owner_quiet v0 s i p k). }
  destruct p as [| |r seen| |t n|t n|n|n|n v|n|n| |b|msg|n]; cbn [call_step] in Hc; cbn [pc_ok] in Hok.
  - destruct (negb _); [injection Hc as <- <-; by apply Hstay|].
    destruct (negb _); injection Hc as <- <-; [by apply Hstay|by apply Hdepth].
  - destruct (try_lock k); injection Hc as <- <-.
    + apply Hstay; try done. cbn. split; [done|lia].
    + apply (inv_take v0 s i Entered k Hinv Hp Hk); try done. cbn. by rewrite Htk, wrapping_succ.
  - destruct Hok as [-> Hseen]. destruct (Z.eqb_spec (ticket (cell s)) (wrap 32 seen)) as [E|E];
      cbn [negb] in Hc; injection Hc as <- <-; [|by apply Hstay].
    pose proof (Htime i _ seen Hp) as Hnear. rewrite Htk in E. apply wrap_eq_near in E; [|lia].
    apply (inv_take v0 s i _ k Hinv Hp Hk); try done; [|cbn; lia].
    cbn. by rewrite wrapping_succ, E.
  - injection Hc as <- <-. by apply Hdepth.
  - subst t. destruct (Z.eqb_spec (release (cell s)) (wrap 32 n)) as [E|E]; injection Hc as <- <-.
    + pose proof (i_range _ _ Hinv i _ n Hp eq_refl) as Hrg. rewrite Hrl in E.
      symmetry in E. apply wrap_eq_near in E; [|lia]. by apply Hstay.
    + by apply Hstay.
  - subst t. destruct (Z.eqb_spec (owner (cell s)) (core_id k)); injection Hc as <- <-; by apply Hstay.
  - injection Hc as <- <-. apply (inv_quiet v0 s i (Won n) k Hinv Hp Hk); try done; [by left|].
    by apply (owner_set v0 s i (Won n) k Hinv Hp Hk).
  - injection Hc as <- <-. by apply Hstay.
  - injection Hc as <- <-. destruct Hok as [-> ->].
    apply (inv_quiet v0 s i (Reading (released (cell s)) (val (cell s))) k Hinv Hp Hk); try done; [by right|].
    by apply (owner_quiet v0 s i (Reading (released (cell s)) (val (cell s))) k).
  - injection Hc as <- <-. apply (inv_quiet v0 s i (Wrote n) k Hinv Hp Hk); try done; [by left|].
    by apply (owner_clear v0 s i (Wrote n) k Hinv Hp).
  - injection Hc as <- <-. subst n. apply (inv_release v0 s i _ k Hinv Hp Hk); try done.
    cbn. by rewrite Hrl, wrapping_succ.
  - injection Hc as <- <-. by apply Hdepth.
  - injection Hc as <- <-. by apply Hstay.
  - injection Hc as <- <-. by apply Hstay.
  - injection Hc as <- <-. by apply Hstay.
Qed.

(** A cell before its first use. *)
Definition fresh_cell (c : LockCell V) : Prop :=
  ticket c = 0 ∧ release c = 0 ∧ owner c = 0 ∧ taken c = 0 ∧ released c = 0 ∧ log c = [].

Lemma inv_start c : fresh_cell c → inv (val c) (start calls c).
Proof.
  intros (Ht & Hr & Ho & Htk & Hrl & Hl).
  assert (∀ j q, replicate (length calls) (@Start V) !! j = Some q → q = Start) as Hst
    by (intros j q Hj; by apply lookup_replicate in Hj as [-> _]).
  split; cbn [start cell pcs]; rewrite ?Ht, ?Hr, ?Htk, ?Hrl, ?Hl; try done; try lia.
  - by rewrite length_replicate.
  - intros j q ->%Hst. done.
  - by intros j q n ->%Hst.
  - by intros j j' q q' n ->%Hst.
  - split; [by intros j q k ->%Hst|]. intros _. right. split_and!; try done. by intros j q n ->%Hst.
Qed.

Lemma reachable_inv c s : fresh_cell c → Z.of_nat (length calls) < 2 ^ 32 →
  reachable calls c s → inv (val c) s.
Proof.
  intros Hf Hfew. induction 1 as [|i s s' Hr IH Ht Hs]; [by apply inv_start|].
  by apply (inv_step _ s s' i).
Qed.

(** ** Properties *)

(** A waiting call: it has a ticket and has not won. *)
Definition waits (p : pc V) : bool :=
  match p with Spinning _ _ | Checking _ _ => true | _ => false end.



(** on a core whose id is neither 0 nor [!0], a call reports a deadlock
    exactly when another call on the same core has the guard. *)
Theorem deadlock_report c s i t n k :
  fresh_cell c → Z.of_nat (length calls) < 2 ^ 32 → reachable calls c s →
  pcs s !! i = Some (Checking t n) → calls !! i = Some k →
  core_id k ≠ 0 → core_id k ≠ NO_OWNER →
  (call_step i k (cell s) (Checking t n)).2 = Deadlocked n ↔
  ∃ j q k', i ≠ j ∧ pcs s !! j = Some q ∧ calls !! j = Some k' ∧ core_id k' = core_id k ∧
    guards q = true.
Proof.
  intros Hf Hfew Hr Hp Hk H0 H1. pose proof (reachable_inv c s Hf Hfew Hr) as Hi.
  destruct (i_owner _ _ Hi) as [Ho1 Ho2]. cbn [call_step]. split.
  - destruct (Z.eqb_spec (owner (cell s)) (core_id k)) as [E|E]; cbn; [intros _|done].
    destruct (decide (Exists (λ q, guards q = true) (pcs s))) as [Hex|Hno].
    + apply Exists_exists in Hex as (q & Hq & Hg). apply list_elem_of_lookup in Hq as [j Hj].
      assert (is_Some (calls !! j)) as [k' Hk'].
      { apply lookup_lt_is_Some. rewrite <- (i_len _ _ Hi). by apply lookup_lt_Some in Hj. }
      exists j, q, k'. rewrite <- E. split_and!; try done; [|by rewrite (Ho1 j q k')].
      intros <-. rewrite Hp in Hj. injection Hj as <-. done.
    + destruct Ho2 as [E'|[E' _]]; [|congruence..]. intros j q Hj. apply not_true_iff_false. intros Hg.
      apply Hno, Exists_exists. exists q. split; [by apply list_elem_of_lookup_2 with j|done].
  - intros (j & q & k' & _ & Hj & Hk' & Hc & Hg). rewrite (Ho1 j q k' Hj Hk' Hg), Hc, Z.eqb_refl. done.
Qed.

(** the lock is not lost: when tickets are out and nobody is between
    winning and releasing it, the call with the oldest ticket wins it with its
    next one or two steps, unless it has reported a deadlock. *)
Theorem lock_progress c s :
  fresh_cell c → Z.of_nat (length calls) < 2 ^ 32 → reachable calls c s →
  Forall (λ k, core_id k ≠ 0 ∧ core_id k ≠ NO_OWNER) calls →
  released (cell s) < taken (cell s) → Forall (λ p, owns p = false) (pcs s) →
  ∃ i p k, pcs s !! i = Some p ∧ calls !! i = Some k ∧
    number_of p = Some (released (cell s)) ∧
    (p = Deadlocked (released (cell s)) ∨
     call_step i k (cell s) p = (cell s, Won (released (cell s))) ∨
     ∃ p1, call_step i k (cell s) p = (cell s, p1) ∧
       call_step i k (cell s) p1 = (cell s, Won (released (cell s)))).
Proof.
  intros Hf Hfew Hr Hcores Hlt Hfree. pose proof (reachable_inv c s Hf Hfew Hr) as Hi.
  destruct (i_all _ _ Hi (released (cell s)) ltac:(lia)) as (i & p & Hp & Hn).
  assert (is_Some (calls !! i)) as [k Hk].
  { apply lookup_lt_is_Some. rewrite <- (i_len _ _ Hi). by apply lookup_lt_Some in Hp. }
  exists i, p, k. split_and!; try done. pose proof (i_pc _ _ Hi i p Hp) as Hok.
  rewrite Forall_lookup in Hfree. specialize (Hfree i p Hp) as Hnown.
  assert (release (cell s) = wrap 32 (released (cell s))) as Hrl by apply (i_release _ _ Hi).
  assert (owner (cell s) ≠ core_id k) as Hown.
  { rewrite Forall_lookup in Hcores. specialize (Hcores i k Hk).
    destruct (i_owner _ _ Hi) as [_ H2], Hcores as [Hc1 Hc2]. destruct H2 as [E|[E _]]; [|congruence..].
    intros j q Hj. destruct (guards q) eqn:Hg; [|done]. specialize (Hfree j q Hj).
    by rewrite (guards_owns q Hg) in Hfree. }
  destruct p; try done; cbn in Hn, Hok; injection Hn as ->.
  - right. left. cbn. by rewrite Hok, Hrl, Z.eqb_refl.
  - right. right. exists (Spinning t (released (cell s))). cbn. rewrite (proj2 (Z.eqb_neq _ _) Hown).
    split; [done|]. by rewrite Hok, Hrl, Z.eqb_refl.
  - by left.
Qed.

End proofs.

(** ** The first lock of core 0 *)

(** Two calls on different cores that add one and double. *)
Definition demo_call (core : Z) (f : Z → Z) : Call Z := mkCall core false false false f.
Definition demo_calls : list (Call Z) := [demo_call 1 (λ v, v + 1); demo_call 0 (λ v, v * 2)].

(** with nothing but one call on core 1 and one on core 0, the call on
    core 0 can report a deadlock: until the first winner has stored its id,
    [owner] has the initial value 0, which is a core id. *)
Theorem false_deadlock :
  ∃ s n, run demo_calls (start demo_calls (new 5)) [0; 0; 0; 1; 1; 1; 1]%nat = Some s ∧
    pcs s = [Won 0; Deadlocked n] ∧ timely s.
Proof.
  eexists _, 1. split; [vm_compute; reflexivity|]. split; [reflexivity|].
  intros [|[|i]] r seen Hp; cbn in Hp; discriminate || done.
Qed.

(** ** Witnesses *)

Definition timelyb {V} (s : Config V) : bool :=
  forallb (λ p, match p with TryLoaded _ seen => taken (cell s) - seen <? 2 ^ 32 | _ => true end) (pcs s).

Lemma timelyb_timely {V} (s : Config V) : timelyb s = true → timely s.
Proof.
  unfold timelyb. rewrite forallb_forall. intros Hall i r seen Hp.
  apply Z.ltb_lt. apply (Hall (TryLoaded r seen)). apply list_elem_of_In. by apply list_elem_of_lookup_2 with i.
Qed.

(** The configurations along a schedule, the last one excluded, are timely. *)
Fixpoint run_timely {V} (calls : list (Call V)) (s : Config V) (schedule : list nat) : bool :=
  match schedule with
  | [] => true
  | i :: schedule =>
      timelyb s && match step calls i s with Some s => run_timely calls s schedule | None => false end
  end.

Lemma run_reachable {V} (calls : list (Call V)) c schedule : ∀ s s',
  reachable calls c s → run_timely calls s schedule = true → run calls s schedule = Some s' →
  reachable calls c s'.
Proof.
  induction schedule as [|i schedule IH]; intros s s' Hr Ht Hs; cbn in Hs; [by injection Hs as <-|].
  cbn in Ht. apply andb_true_iff in Ht as [Ht1 Ht2].
  destruct (step calls i s) as [s1|] eqn:Hs1; [|done]. cbn in Hs.
  apply (IH s1 s'); [|done..]. apply (reachable_step _ _ i s); [done|by apply timelyb_timely|done].
Qed.

(** Core 2 holds the lock that core 1, and an interrupt on core 2, wait for. *)
Definition busy_calls : list (Call Z) :=
  [demo_call 1 (λ v, v + 1); demo_call 2 (λ v, v * 2); demo_call 2 (λ v, v - 1)].

Definition busy_at (schedule : list nat) : Config Z :=
  default (start busy_calls (new_no_preempt 5)) (run busy_calls (start busy_calls (new_no_preempt 5)) schedule).

Lemma busy_reachable schedule :
  run_timely busy_calls (start busy_calls (new_no_preempt 5)) schedule = true →
  bool_decide (is_Some (run busy_calls (start busy_calls (new_no_preempt 5)) schedule)) = true →
  reachable busy_calls (new_no_preempt 5) (busy_at schedule).
Proof.
  intros Ht [s Hs]%bool_decide_eq_true. unfold busy_at. rewrite Hs.
  apply (run_reachable _ _ schedule _ _ (reachable_start _ _) Ht Hs).
Qed.

Definition busy : list nat := [1; 1; 1; 1; 1; 0; 0; 2; 2; 2]%nat.

Ltac solve_busy := apply busy_reachable; vm_compute; reflexivity.



(** The interrupt on core 2 reports a deadlock, the call on core 1 does not. *)
Lemma deadlock_report_witness :
  (call_step 2 (demo_call 2 (λ v, v - 1)) (cell (busy_at (busy ++ [0]%nat))) (Checking 2 2)).2 = Deadlocked 2 ∧
  (call_step 0 (demo_call 1 (λ v, v + 1)) (cell (busy_at (busy ++ [0]%nat))) (Checking 1 1)).2 ≠ Deadlocked 1.
Proof.
  split.
  - apply (deadlock_report busy_calls (new_no_preempt 5) (busy_at (busy ++ [0]%nat)) 2 2 2 (demo_call 2 (λ v, v - 1)));
      [by split_and!|cbn; lia|solve_busy|reflexivity|reflexivity|done|done|].
    exists 1%nat, (Reading 0 5), (demo_call 2 (λ v, v * 2)). split_and!; done.
  - intros H. apply (deadlock_report busy_calls (new_no_preempt 5) (busy_at (busy ++ [0]%nat)) 0 1 1 (demo_call 1 (λ v, v + 1)))
      in H as (j & q & k' & Hne & Hq & Hk & Hc & Hg);
      [|by split_and!|cbn; lia|solve_busy|reflexivity|reflexivity|done|done].
    destruct j as [|[|[|j]]]; cbn in Hk; try done; injection Hk as <-; done.
Defined.

(** Core 2 has released the lock while core 1 was looking at the owner. *)
Lemma lock_progress_witness :
  let s := busy_at [1; 1; 1; 1; 0; 0; 0; 1; 1; 1; 1]%nat in
  pcs s !! 0%nat = Some (Checking 1 1) ∧
  ∃ i p k, pcs s !! i = Some p ∧ busy_calls !! i = Some k ∧ number_of p = Some (released (cell s)) ∧
    (p = Deadlocked (released (cell s)) ∨
     call_step i k (cell s) p = (cell s, Won (released (cell s))) ∨
     ∃ p1, call_step i k (cell s) p = (cell s, p1) ∧
       call_step i k (cell s) p1 = (cell s, Won (released (cell s)))).
Proof.
  split; [reflexivity|].
  apply (lock_progress busy_calls (new_no_preempt 5) (busy_at [1; 1; 1; 1; 0; 0; 0; 1; 1; 1; 1]%nat));
    [by split_and!|cbn; lia|solve_busy| |reflexivity|].
  - repeat (apply Forall_cons_2; [done|]). constructor.
  - repeat (apply Forall_cons_2; [done|]). constructor.
Defined.
