(* ===== verification/CoreReqs.v ===== *)
(** * The C memory routines (shared/core_reqs)

    [memcpy], [memmove], [memset] and [memcmp] on the bytes of memory, in the
    order in which the loops access them. *)

From stdpp Require Import base tactics option list numbers strings gmap.
From Stdlib Require Import ZArith Lia.
From S2P Require Import Prelude MachineInt Bytes PhysMem.

Local Open Scope Z_scope.

(** The loop that counts [ii] down from [n]. *)
Fixpoint copy_backwards (m : mem) (dest src : Z) (n : nat) : mem :=
  match n with
  | O => m
  | S ii => copy_backwards (<[dest + Z.of_nat ii := mem_byte m (src + Z.of_nat ii)]> m) dest src ii
  end.

(** The loop that counts up, with [todo] iterations left from [ii] on. *)
Fixpoint copy_forwards (m : mem) (dest src : Z) (ii todo : nat) : mem :=
  match todo with
  | O => m
  | S todo =>
      copy_forwards (<[dest + Z.of_nat ii := mem_byte m (src + Z.of_nat ii)]> m) dest src (S ii) todo
  end.

Definition memmove (m : mem) (dest src : Z) (n : nat) : mem * Z :=
  (if src <? dest then copy_backwards m dest src n else copy_forwards m dest src 0 n, dest).

Definition memcpy (m : mem) (dest src : Z) (n : nat) : mem * Z := memmove m dest src n.

(** [rep stosb]: stores [al], the low byte of [c], [n] times, upwards. *)
Definition memset (m : mem) (s c : Z) (n : nat) : mem * Z :=
  (write_bytes m s (replicate n (wrap 8 c)), s).

(** [a as i32 - b as i32] of the first bytes that differ. *)
Fixpoint memcmp_loop (m : mem) (s1 s2 : Z) (ii todo : nat) : Z :=
  match todo with
  | O => 0
  | S todo =>
      let a := mem_byte m (s1 + Z.of_nat ii) in
      let b := mem_byte m (s2 + Z.of_nat ii) in
      if negb (a =? b) then a - b else memcmp_loop m s1 s2 (S ii) todo
  end.

Definition memcmp (m : mem) (s1 s2 : Z) (n : nat) : Z := memcmp_loop m s1 s2 0 n.

(** ** Overlapping copies *)

Lemma mem_byte_insert (m : mem) a b x : mem_byte (<[a := b]> m) x = if decide (x = a) then b else mem_byte m x.
Proof.
  unfold mem_byte. case_decide as Hx; [subst; by rewrite lookup_insert_eq|].
  by rewrite lookup_insert_ne by congruence.
Qed.

Lemma copy_backwards_byte dest src n : src < dest → ∀ m x,
  mem_byte (copy_backwards m dest src n) x =
  if decide (in_block dest (Z.of_nat n) x) then mem_byte m (src + (x - dest)) else mem_byte m x.
Proof.
  intros Hlt. induction n as [|n IH]; intros m x; cbn [copy_backwards].
  { rewrite decide_False; [done|unfold in_block; lia]. }
  rewrite IH, !mem_byte_insert. unfold in_block.
  destruct (decide (x = dest + Z.of_nat n)) as [->|Hne].
  - rewrite decide_False, decide_True by lia. f_equal. lia.
  - destruct (decide (dest ≤ x < dest + Z.of_nat n)).
    + rewrite decide_False, decide_True by lia. done.
    + by rewrite decide_False by lia.
Qed.

Lemma copy_forwards_byte dest src todo : dest ≤ src → ∀ ii m x,
  mem_byte (copy_forwards m dest src ii todo) x =
  if decide (in_block (dest + Z.of_nat ii) (Z.of_nat todo) x) then mem_byte m (src + (x - dest))
  else mem_byte m x.
Proof.
  intros Hle. induction todo as [|todo IH]; intros ii m x; cbn [copy_forwards].
  { rewrite decide_False; [done|unfold in_block; lia]. }
  rewrite IH, !mem_byte_insert. unfold in_block.
  destruct (decide (x = dest + Z.of_nat ii)) as [->|Hne].
  - rewrite decide_False, decide_True by lia. f_equal. lia.
  - destruct (decide (dest + Z.of_nat (S ii) ≤ x < dest + Z.of_nat (S ii) + Z.of_nat todo)).
    + rewrite decide_False, decide_True by lia. done.
    + rewrite decide_False by lia. done.
Qed.

(** [memmove], and [memcpy] which is the same, copy the [n] bytes as they
    were before the call, however the two ranges overlap, change no other byte
    and return [dest]. *)
Theorem memmove_spec m dest src n : memcpy m dest src n = memmove m dest src n ∧
  ∃ m', memmove m dest src n = (m', dest) ∧ ∀ x, mem_byte m' x =
    if decide (in_block dest (Z.of_nat n) x) then mem_byte m (src + (x - dest)) else mem_byte m x.
Proof.
  split; [done|]. unfold memmove. eexists. split; [done|]. intros x.
  destruct (Z.ltb_spec src dest); [by apply copy_backwards_byte|].
  by rewrite copy_forwards_byte, Z.add_0_r by done.
Qed.

(** ** Comparison *)

(** The bytes at [s1] come before those at [s2], at the first difference. *)
Definition bytes_before (m : mem) (s1 s2 : Z) (n : nat) : Prop :=
  ∃ i, (i < n)%nat ∧ (∀ j, (j < i)%nat → mem_byte m (s1 + Z.of_nat j) = mem_byte m (s2 + Z.of_nat j)) ∧
    mem_byte m (s1 + Z.of_nat i) < mem_byte m (s2 + Z.of_nat i).

Lemma memcmp_loop_spec m s1 s2 todo : ∀ ii,
  (∀ j, (j < ii)%nat → mem_byte m (s1 + Z.of_nat j) = mem_byte m (s2 + Z.of_nat j)) →
  let r := memcmp_loop m s1 s2 ii todo in
  (r = 0 ∧ ∀ j, (j < ii + todo)%nat → mem_byte m (s1 + Z.of_nat j) = mem_byte m (s2 + Z.of_nat j)) ∨
  ∃ i, (i < ii + todo)%nat ∧
    (∀ j, (j < i)%nat → mem_byte m (s1 + Z.of_nat j) = mem_byte m (s2 + Z.of_nat j)) ∧
    mem_byte m (s1 + Z.of_nat i) ≠ mem_byte m (s2 + Z.of_nat i) ∧
    r = mem_byte m (s1 + Z.of_nat i) - mem_byte m (s2 + Z.of_nat i).
Proof.
  induction todo as [|todo IH]; intros ii Hpre; cbn zeta; cbn [memcmp_loop].
  { left. split; [done|]. intros j Hj. apply Hpre. lia. }
  destruct (Z.eqb_spec (mem_byte m (s1 + Z.of_nat ii)) (mem_byte m (s2 + Z.of_nat ii))) as [E|E]; cbn [negb].
  - replace (ii + S todo)%nat with (S ii + todo)%nat by lia. apply IH. intros j Hj.
    destruct (decide (j = ii)) as [->|]; [done|]. apply Hpre. lia.
  - right. exists ii. split_and!; [lia|done..].
Qed.

Lemma before_asym m s1 s2 i n :
  (∀ j, (j < i)%nat → mem_byte m (s1 + Z.of_nat j) = mem_byte m (s2 + Z.of_nat j)) →
  mem_byte m (s1 + Z.of_nat i) ≠ mem_byte m (s2 + Z.of_nat i) →
  bytes_before m s1 s2 n → mem_byte m (s1 + Z.of_nat i) < mem_byte m (s2 + Z.of_nat i).
Proof.
  intros Hpre Hd (k & Hk & Hkpre & Hlt). destruct (Nat.lt_trichotomy i k) as [Hik|[->|Hki]].
  - by rewrite (Hkpre i Hik) in Hd.
  - done.
  - specialize (Hpre k Hki). lia.
Qed.

(** [memcmp] returns 0 exactly for equal bytes, and a negative or positive
    number when the first range comes before or after the second in the order
    of unsigned bytes. *)
Theorem memcmp_spec m s1 s2 n :
  (memcmp m s1 s2 n = 0 ↔ ∀ j, (j < n)%nat → mem_byte m (s1 + Z.of_nat j) = mem_byte m (s2 + Z.of_nat j)) ∧
  (memcmp m s1 s2 n < 0 ↔ bytes_before m s1 s2 n) ∧
  (0 < memcmp m s1 s2 n ↔ bytes_before m s2 s1 n).
Proof.
  unfold memcmp. destruct (memcmp_loop_spec m s1 s2 n 0) as [[-> Heq]|(i & Hi & Hpre & Hd & ->)]; [lia|..].
  - split; [done|]. split; (split; [lia|]); intros (i & Hi & _ & Hlt); specialize (Heq i Hi); lia.
  - split; [split; [lia|intros Heq; by specialize (Heq i Hi)]|]. split; split.
    + intros Hlt. exists i. split_and!; [done..|lia].
    + intros Hb. apply (before_asym m s1 s2 i n Hpre Hd) in Hb. lia.
    + intros Hlt. exists i. split_and!; [done| |lia]. intros j Hj. symmetry. by apply Hpre.
    + intros Hb. apply (before_asym m s2 s1 i n) in Hb; [lia| |congruence].
      intros j Hj. symmetry. by apply Hpre.
Qed.
