(* ===== verification/PeParser.v ===== *)
(** * PE files (shared/pe_parser, flatten_pe of src/main.rs)

    [PeParser::parse] and [PeParser::sections], with the arithmetic at the width
    [w] of [usize] (32 bits in the bootloader, 64 in the build tool), and
    [flatten_pe] of the build tool, which makes a flat image and the data to
    reinitialise it from a PE file. *)

From stdpp Require Import base tactics option list numbers strings.
From Stdlib Require Import ZArith Lia.
From S2P Require Import Prelude MachineInt Bytes.

Local Open Scope Z_scope.

Definition IMAGE_FILE_MACHINE_I386 : Z := 0x014c.
Definition IMAGE_FILE_MACHINE_X86_64 : Z := 0x8664.
Definition IMAGE_SCN_MEM_EXECUTE : Z := 0x20000000.
Definition IMAGE_SCN_MEM_READ : Z := 0x40000000.
Definition IMAGE_SCN_MEM_WRITE : Z := 0x80000000.

Record PeParser := mkPeParser {
  bytes : list Z;
  num_sections : Z;
  section_off : Z;
  image_base : Z;
  entry_point : Z;
}.

Definition MZ : list Z := [77; 90].
Definition PE00 : list Z := [80; 69; 0; 0].

(** [bytes.get(a..b)] and [&bytes[a..b]] for offsets of type [usize] *)
Definition get_at (l : list Z) (a b : Z) : option (list Z) := get l (Z.to_nat a) (Z.to_nat b).
Definition slice_at (l : list Z) (a b : Z) : outcome (list Z) := slice l (Z.to_nat a) (Z.to_nat b).

(** [uN::from_le_bytes(x.try_into().ok()?)] *)
Definition le_int (n : nat) (x : list Z) : option Z := from_le_bytes <$> try_array n x.

Section parser.
Context (w : Z).
Local Notation "a +w b" := (wrapping_add w a b) (at level 50, left associativity).

Definition parse (bytes : list Z) : outcome (option PeParser) :=
  if negb (bool_decide (get_at bytes 0 2 = Some MZ)) then Done None else
  pe_offset ←? (x ← get_at bytes 0x3c 0x40; x ← le_int 4 x; try_into w x);
  sig_end ←? checked_add w pe_offset 4;
  if negb (bool_decide (get_at bytes pe_offset sig_end = Some PE00)) then Done None else
  coff_end ←? checked_add w pe_offset 0x18;
  if Z.of_nat (length bytes) <? coff_end then Done None else
  x ← slice_at bytes (pe_offset +w 4) (pe_offset +w 6);
  machine ←? le_int 2 x;
  if negb (machine =? IMAGE_FILE_MACHINE_I386) && negb (machine =? IMAGE_FILE_MACHINE_X86_64)
  then Done None else
  x ← slice_at bytes (pe_offset +w 6) (pe_offset +w 8);
  num_sections ←? (x ← le_int 2 x; try_into w x);
  x ← slice_at bytes (pe_offset +w 0x14) (pe_offset +w 0x16);
  opt_header_size ←? (x ← le_int 2 x; try_into w x);
  image_base ←? (if machine =? IMAGE_FILE_MACHINE_I386 then
                   x ← get_at bytes (pe_offset +w 0x34) (pe_offset +w 0x38); le_int 4 x
                 else
                   x ← get_at bytes (pe_offset +w 0x30) (pe_offset +w 0x38); le_int 8 x);
  entry ←? (x ← get_at bytes (pe_offset +w 0x28) (pe_offset +w 0x2c); le_int 4 x);
  entry_point ←? checked_add 64 image_base entry;
  header_size ←? (x ← checked_add w pe_offset 0x18;
                  x ← checked_add w x opt_header_size;
                  y ← checked_mul w num_sections 0x28;
                  checked_add w x y);
  if Z.of_nat (length bytes) <? header_size then Done None else
  Done (Some (mkPeParser bytes num_sections (pe_offset +w 0x18 +w opt_header_size)
                image_base entry_point)).

(** What the closure of [sections] is called with. *)
Record Section := mkSection {
  s_vaddr : Z; s_vsize : Z; s_raw : list Z; s_read : bool; s_write : bool; s_execute : bool;
}.

(** [sections]: the closure [func] works on a state of its own. *)
Fixpoint sections_loop {S} (pe : PeParser) (func : Section → S → outcome (S * option unit))
    (section : Z) (todo : nat) (s : S) : outcome (S * option unit) :=
  match todo with
  | O => Done (s, Some tt)
  | Datatypes.S todo =>
      let off := section_off pe +w wrapping_mul w section 0x28 in
      let stop := Done (s, None) in
      let field a b := slice_at (bytes pe) (off +w a) (off +w b) in
      let int x (k : Z → outcome (S * option unit)) :=
        match le_int 4 x with Some v => k v | None => stop end in
      x ← field 0x8 0xc; int x (λ virt_size,
      x ← field 0xc 0x10; int x (λ virt_addr,
      x ← field 0x10 0x14; int x (λ raw_size,
      x ← field 0x14 0x18; int x (λ raw_off,
      match try_into w raw_off with None => stop | Some raw_off =>
      x ← field 0x24 0x28; int x (λ characteristics,
      match try_into w (Z.min raw_size virt_size) with None => stop | Some raw_size =>
      match checked_add 64 (image_base pe) virt_addr with None => stop | Some vaddr =>
      match (e ← checked_add w raw_off raw_size; get_at (bytes pe) raw_off e) with
      | None => stop
      | Some raw =>
          let flag f := negb (Z.land characteristics f =? 0) in
          '(s, r) ← func (mkSection vaddr virt_size raw (flag IMAGE_SCN_MEM_READ)
                            (flag IMAGE_SCN_MEM_WRITE) (flag IMAGE_SCN_MEM_EXECUTE)) s;
          match r with
          | None => Done (s, None)
          | Some _ => sections_loop pe func (section + 1) todo s
          end
      end end end) end))))
  end.

Definition sections {S} (pe : PeParser) (func : Section → S → outcome (S * option unit)) (s : S)
    : outcome (S * option unit) :=
  sections_loop pe func 0 (Z.to_nat (num_sections pe)) s.

End parser.

(** ** [flatten_pe] *)

(** The closure of the first pass: image bounds and reinitialisation data. *)
Definition bounds_closure (sec : Section) (st : option Z * option Z * list Z)
    : outcome (option Z * option Z * list Z * option unit) :=
  let '(image_start, image_end, reinit) := st in
  match (n ← checked_sub (s_vsize sec) 1; checked_add 64 (s_vaddr sec) n) with
  | None => Done (st, None)
  | Some e =>
      let '(image_start, image_end) :=
        match image_start with
        | None => (Some (s_vaddr sec), Some e)
        | Some _ => (image_start, image_end)
        end in
      let data :=
        if s_write sec && (0 <? Z.of_nat (length (s_raw sec))) then
          base ← try_into 32 (s_vaddr sec);
          size ← try_into 32 (Z.of_nat (length (s_raw sec)));
          Some (reinit ++ to_le_bytes 4 base ++ to_le_bytes 4 size ++ s_raw sec)
        else Some reinit in
      match data with
      | None => Done ((image_start, image_end, reinit), None)
      | Some reinit =>
          Done ((Z.min (s_vaddr sec) <$> image_start, Z.max e <$> image_end, reinit), Some tt)
      end
  end.

(** The closure of the second pass, with the overflow check of the debug
    profile the build tool is compiled in. *)
Definition copy_closure (image_start : Z) (sec : Section) (flattened : list Z)
    : outcome (list Z * option unit) :=
  flat_off ← expect (checked_sub (s_vaddr sec) image_start) "attempt to subtract with overflow";
  match (flat_off ← try_into 64 flat_off; size ← try_into 64 (s_vsize sec); Some (flat_off, size)) with
  | None => Done (flattened, None)
  | Some (flat_off, size) =>
      let to_copy := Z.min size (Z.of_nat (length (s_raw sec))) in
      match checked_add 64 flat_off to_copy with
      | None => Done (flattened, None)
      | Some e =>
          flattened ← copy_from_slice flattened (Z.to_nat flat_off) (Z.to_nat e) (s_raw sec);
          Done (flattened, Some tt)
      end
  end.

(** [file] is what [std::fs::read] returned. *)
Definition flatten_pe (file : option (list Z)) : outcome (option (Z * Z * list Z * list Z)) :=
  pe ←? file;
  pe ← parse 64 pe;
  pe ←? pe;
  '(image_start, image_end, reinit, ok) ← sections 64 pe bounds_closure (None, None, []);
  _ ←? ok;
  image_start ←? image_start;
  image_end ←? image_end;
  image_size ←? (x ← checked_sub image_end image_start; x ← checked_add 64 x 1; try_into 64 x);
  '(flattened, ok) ← sections 64 pe (copy_closure image_start) (replicate (Z.to_nat image_size) 0);
  _ ←? ok;
  if (entry_point pe <? image_start) || (image_end <? entry_point pe) then Done None else
  entry ←? try_into 32 (entry_point pe);
  start ←? try_into 32 image_start;
  Done (Some (entry, start, flattened, reinit)).

(** ** The file format *)

(** A little-endian integer of [n] bytes inside the file. *)
Definition field (l : list Z) (off n : nat) : option Z := from_le_bytes <$> get l off (off + n).

(** [pe] describes the PE file [l]. *)
Definition valid_pe (l : list Z) (pe : PeParser) : Prop :=
  bytes pe = l ∧ ∃ off machine opt entry : Z, let o := Z.to_nat off in
    get l 0 2 = Some MZ ∧ field l 0x3c 4 = Some off ∧ get l o (o + 4) = Some PE00 ∧
    field l (o + 4) 2 = Some machine ∧ field l (o + 6) 2 = Some (num_sections pe) ∧
    field l (o + 0x14) 2 = Some opt ∧
    (machine = IMAGE_FILE_MACHINE_I386 ∧ field l (o + 0x34) 4 = Some (image_base pe) ∨
     machine = IMAGE_FILE_MACHINE_X86_64 ∧ field l (o + 0x30) 8 = Some (image_base pe)) ∧
    field l (o + 0x28) 4 = Some entry ∧
    entry_point pe = image_base pe + entry ∧ entry_point pe < 2 ^ 64 ∧
    section_off pe = off + 0x18 + opt ∧
    section_off pe + 0x28 * num_sections pe ≤ Z.of_nat (length l).

(** A check of the format. *)
Definition ensure (P : Prop) `{Decision P} {A} (x : option A) : option A :=
  if decide P then x else None.

Lemma ensure_True (P : Prop) `{Decision P} {A} (x : option A) : P → ensure P x = x.
Proof. intros. unfold ensure. by rewrite decide_True. Qed.

Lemma ensure_False (P : Prop) `{Decision P} {A} (x : option A) : ~ P → ensure P x = None.
Proof. intros. unfold ensure. by rewrite decide_False. Qed.

(** The section header [i], or [None] when its address or its bytes are out of
    range. *)
Definition section_at (pe : PeParser) (i : nat) : option Section :=
  let o := (Z.to_nat (section_off pe) + 0x28 * i)%nat in
  virt_size ← field (bytes pe) (o + 0x8) 4;
  virt_addr ← field (bytes pe) (o + 0xc) 4;
  raw_size ← field (bytes pe) (o + 0x10) 4;
  raw_off ← field (bytes pe) (o + 0x14) 4;
  characteristics ← field (bytes pe) (o + 0x24) 4;
  ensure (image_base pe + virt_addr < 2 ^ 64) $
  raw ← get (bytes pe) (Z.to_nat raw_off) (Z.to_nat (raw_off + Z.min raw_size virt_size));
  Some (mkSection (image_base pe + virt_addr) virt_size raw
          (Z.testbit characteristics 30) (Z.testbit characteristics 31) (Z.testbit characteristics 29)).

(** Calling the closure for one section after the other. *)
Fixpoint each_section {S} (func : Section → S → outcome (S * option unit))
    (l : list (option Section)) (s : S) : outcome (S * option unit) :=
  match l with
  | [] => Done (s, Some tt)
  | None :: _ => Done (s, None)
  | Some sec :: l =>
      '(s, r) ← func sec s;
      match r with None => Done (s, None) | Some _ => each_section func l s end
  end.

(** [parse] without the machine arithmetic. *)
Definition parse_format (l : list Z) : option PeParser :=
  ensure (get l 0 2 = Some MZ) $
  off ← field l 0x3c 4;
  let o := Z.to_nat off in
  ensure (get l o (o + 4) = Some PE00) $
  ensure (o + 0x18 ≤ length l)%nat $
  machine ← field l (o + 4) 2;
  ensure (machine = IMAGE_FILE_MACHINE_I386 ∨ machine = IMAGE_FILE_MACHINE_X86_64) $
  sections ← field l (o + 6) 2;
  opt ← field l (o + 0x14) 2;
  image ← (if decide (machine = IMAGE_FILE_MACHINE_I386) then field l (o + 0x34) 4
           else field l (o + 0x30) 8);
  entry ← field l (o + 0x28) 4;
  ensure (image + entry < 2 ^ 64) $
  ensure (off + 0x18 + opt + 0x28 * sections ≤ Z.of_nat (length l)) $
  Some (mkPeParser l sections (off + 0x18 + opt) image (image + entry)).

Lemma field_length l o n v : field l o n = Some v → (o + n ≤ length l)%nat.
Proof. unfold field. destruct (get l o (o + n)) eqn:E; [|done]. intros _. apply get_Some in E. lia. Qed.

Lemma field_uint l o n v : bytes_ok l → field l o n = Some v → is_uint (8 * Z.of_nat n) v.
Proof.
  unfold field. intros Hl Hf. destruct (get l o (o + n)) as [x|] eqn:E; [|done]. injection Hf as <-.
  pose proof (get_length _ _ _ _ E) as Hlen. replace n with (length x) by lia.
  apply from_le_bytes_uint. by apply (bytes_ok_get l x o (o + n)).
Qed.

Lemma field_Some l o n : (o + n ≤ length l)%nat → is_Some (field l o n).
Proof.
  intros H. unfold field. assert (get l o (o + n) = Some (take (o + n - o) (drop o l))) as ->
    by (apply get_Some; split; [lia|done]). by eexists.
Qed.

(** An optional field read with [get], and a field read by indexing. *)
Lemma get_le_int l a b o n : Z.to_nat a = o → Z.to_nat b = (o + n)%nat →
  (x ← get_at l a b; le_int n x) = field l o n.
Proof.
  intros Ha Hb. unfold get_at, field. rewrite Ha, Hb. destruct (get l o (o + n)) as [x|] eqn:E; [|done].
  cbn. unfold le_int, try_array. apply get_length in E. by rewrite decide_True by lia.
Qed.

Lemma get_le_int_bind {A} l a b o n (f : Z → option A) : Z.to_nat a = o → Z.to_nat b = (o + n)%nat →
  (x ← get_at l a b; y ← le_int n x; f y) = (y ← field l o n; f y).
Proof.
  intros Ha Hb. rewrite <- (get_le_int l a b o n Ha Hb). by destruct (get_at l a b).
Qed.

Lemma slice_le_int l a b o n v : Z.to_nat a = o → Z.to_nat b = (o + n)%nat → field l o n = Some v →
  ∃ x, slice_at l a b = Done x ∧ le_int n x = Some v.
Proof.
  intros Ha Hb Hf. pose proof (get_le_int l a b o n Ha Hb) as Hg. rewrite Hf in Hg.
  apply bind_Some in Hg as (x & Hg & Hi). exists x. split; [|done]. by apply slice_get.
Qed.

Section parser_proofs.
Context (w : Z) (Hw : 32 ≤ w).
Context (l : list Z) (Hl : bytes_ok l) (Hlen : Z.of_nat (length l) < 2 ^ (w - 1)).

Lemma width : 2 ^ w = 2 * 2 ^ (w - 1) ∧ 2 ^ 31 ≤ 2 ^ (w - 1).
Proof.
  split; [rewrite <- (Z.pow_succ_r 2 (w - 1)) by lia; f_equal; lia|].
  apply Z.pow_le_mono_r; lia.
Qed.

Lemma off_add off c : 0 ≤ off ≤ Z.of_nat (length l) → 0 ≤ c < 2 ^ 31 → wrapping_add w off c = off + c.
Proof. intros Ho Hc. pose proof width. apply wrapping_add_small. unfold is_uint. lia. Qed.

Lemma off_checked_add off c : 0 ≤ off ≤ Z.of_nat (length l) → 0 ≤ c < 2 ^ 31 → checked_add w off c = Some (off + c).
Proof. intros Ho Hc. pose proof width. apply checked_add_Some. split; [done|]. lia. Qed.

Lemma small_usize n z : (n ≤ 4)%nat → is_uint (8 * Z.of_nat n) z → try_into w z = Some z.
Proof.
  intros Hn Hz. apply try_into_Some. split; [done|]. unfold is_uint in Hz. destruct Hz as [_ Hz].
  eapply Z.lt_le_trans; [exact Hz|]. apply Z.pow_le_mono_r; lia.
Qed.

Lemma get_sig off n sig : 0 ≤ off → (1 ≤ length sig)%nat → n = Z.of_nat (length sig) →
  get_at l off (off + n) = Some sig →
  off ≤ Z.of_nat (length l) ∧ get l (Z.to_nat off) (Z.to_nat off + length sig) = Some sig.
Proof.
  intros Ho Hn -> Hg. unfold get_at in Hg. rewrite Z2Nat.inj_add, Nat2Z.id in Hg by lia.
  split; [|done]. apply get_Some in Hg as [Hg _]. lia.
Qed.

Lemma checked_sig off : is_uint 32 off →
  (match checked_add w off 4 with
   | Some e => get_at l off e = Some PE00
   | None => False
   end) ↔ get l (Z.to_nat off) (Z.to_nat off + 4) = Some PE00.
Proof.
  intros Ho. pose proof width. unfold is_uint in Ho. unfold checked_add.
  destruct (Z.ltb_spec (off + 4) (2 ^ w)) as [Hlt|Hge].
  - unfold get_at. by rewrite Z2Nat.inj_add by lia.
  - split; [done|]. intros Hg. apply get_Some in Hg as [Hg _]. lia.
Qed.

Lemma bool_decide_or_neg (m : Z) :
  negb (m =? IMAGE_FILE_MACHINE_I386) && negb (m =? IMAGE_FILE_MACHINE_X86_64) =
  negb (bool_decide (m = IMAGE_FILE_MACHINE_I386 ∨ m = IMAGE_FILE_MACHINE_X86_64)).
Proof.
  destruct (Z.eqb_spec m IMAGE_FILE_MACHINE_I386), (Z.eqb_spec m IMAGE_FILE_MACHINE_X86_64);
    case_bool_decide; naive_solver.
Qed.

(** Fields of a file whose COFF header is in bounds. *)
Lemma header_field off c d n : 0 ≤ off → off + 0x18 ≤ Z.of_nat (length l) →
  0 ≤ c → d = c + Z.of_nat n → d ≤ 0x40 →
  (x ← get_at l (wrapping_add w off c) (wrapping_add w off d); le_int n x) =
    field l (Z.to_nat off + Z.to_nat c) n ∧
  (d ≤ 0x18 → ∃ x v, slice_at l (wrapping_add w off c) (wrapping_add w off d) = Done x ∧
     le_int n x = Some v ∧ field l (Z.to_nat off + Z.to_nat c) n = Some v).
Proof.
  intros Hoff Hb Hc -> Hd. rewrite !off_add by lia. split; [apply get_le_int; lia|].
  intros Hd2. assert (is_Some (field l (Z.to_nat off + Z.to_nat c) n)) as [v Hv] by (apply field_Some; lia).
  destruct (slice_le_int l (off + c) (off + (c + Z.of_nat n)) (Z.to_nat off + Z.to_nat c) n v)
    as (x & Hs & Hx); [lia|lia|exact Hv|]. by exists x, v.
Qed.

Lemma parse_eq : parse w l = Done (parse_format l).
Proof.
  unfold parse, parse_format. change (get_at l 0 2) with (get l 0 2).
  destruct (decide (get l 0 2 = Some MZ)) as [Hmz|Hmz];
    [rewrite bool_decide_true, ensure_True by done|by rewrite bool_decide_false, ensure_False].
  cbn [negb]. rewrite (get_le_int_bind l 0x3c 0x40 0x3c 4) by done. cbn [mbind option_bind].
  destruct (field l 0x3c 4) as [off|] eqn:Hoff; [|done]. cbn [mbind option_bind].
  apply field_uint in Hoff as Hu; [|done]. rewrite (small_usize 4) by done. cbn [or_return].
  pose proof (checked_sig off Hu) as Hsig. pose proof width as Hwd. unfold is_uint in Hu.
  destruct (decide (get l (Z.to_nat off) (Z.to_nat off + 4) = Some PE00)) as [Hpe|Hpe].
  2:{ rewrite ensure_False by done. destruct (checked_add w off 4); [|done]. cbn [or_return].
      by rewrite bool_decide_false by (by rewrite Hsig). }
  rewrite ensure_True by done. destruct (checked_add w off 4) as [e|]; [|by destruct (proj2 Hsig Hpe)].
  cbn [or_return]. rewrite bool_decide_true by (by apply Hsig). cbn [negb].
  assert (off + 4 ≤ Z.of_nat (length l)) as Hin by (apply get_Some in Hpe as [? _]; lia).
  rewrite off_checked_add by lia. cbn [or_return].
  destruct (decide (Z.to_nat off + 0x18 ≤ length l)%nat) as [Hc|Hc].
  2:{ rewrite ensure_False by done. by rewrite (proj2 (Z.ltb_lt _ _)) by lia. }
  rewrite ensure_True by done. rewrite (proj2 (Z.ltb_ge _ _)) by lia.
  assert (off + 0x18 ≤ Z.of_nat (length l)) as Hc' by lia.
  destruct (proj2 (header_field off 4 6 2 ltac:(lia) Hc' ltac:(lia) ltac:(lia) ltac:(lia)) ltac:(lia))
    as (x1 & machine & -> & Hx1 & Hf1). change (Z.to_nat 4) with 4%nat in Hf1.
  cbn [mbind outcome_bind]. rewrite Hx1, Hf1. cbn [or_return mbind option_bind]. rewrite bool_decide_or_neg.
  destruct (decide (machine = IMAGE_FILE_MACHINE_I386 ∨ machine = IMAGE_FILE_MACHINE_X86_64)) as [Hm|Hm];
    [rewrite bool_decide_true, ensure_True by done|by rewrite bool_decide_false, ensure_False].
  cbn [negb].
  destruct (proj2 (header_field off 6 8 2 ltac:(lia) Hc' ltac:(lia) ltac:(lia) ltac:(lia)) ltac:(lia))
    as (x2 & num & -> & Hx2 & Hf2). change (Z.to_nat 6) with 6%nat in Hf2.
  pose proof (field_uint _ _ _ _ Hl Hf2) as Hu2.
  cbn [mbind outcome_bind]. rewrite Hx2, Hf2. cbn [or_return mbind option_bind]. rewrite (small_usize 2) by (done || lia).
  destruct (proj2 (header_field off 0x14 0x16 2 ltac:(lia) Hc' ltac:(lia) ltac:(lia) ltac:(lia)) ltac:(lia))
    as (x3 & opt & -> & Hx3 & Hf3). change (Z.to_nat 0x14) with 0x14%nat in Hf3.
  pose proof (field_uint _ _ _ _ Hl Hf3) as Hu3.
  cbn [mbind outcome_bind]. rewrite Hx3, Hf3. cbn [or_return mbind option_bind]. rewrite (small_usize 2) by (done || lia).
  rewrite (proj1 (header_field off 0x34 0x38 4 ltac:(lia) Hc' ltac:(lia) ltac:(lia) ltac:(lia))).
  rewrite (proj1 (header_field off 0x30 0x38 8 ltac:(lia) Hc' ltac:(lia) ltac:(lia) ltac:(lia))).
  rewrite (proj1 (header_field off 0x28 0x2c 4 ltac:(lia) Hc' ltac:(lia) ltac:(lia) ltac:(lia))).
  change (Z.to_nat 0x34) with 0x34%nat. change (Z.to_nat 0x30) with 0x30%nat. change (Z.to_nat 0x28) with 0x28%nat.
  cbn [or_return mbind option_bind].
  assert ((if machine =? IMAGE_FILE_MACHINE_I386 then field l (Z.to_nat off + 52) 4 else field l (Z.to_nat off + 48) 8)
    = (if decide (machine = IMAGE_FILE_MACHINE_I386) then field l (Z.to_nat off + 52) 4
       else field l (Z.to_nat off + 48) 8)) as ->
    by (case_decide as E; [by rewrite (proj2 (Z.eqb_eq _ _) E)|by rewrite (proj2 (Z.eqb_neq _ _) E)]).
  destruct (if decide _ then _ else _) as [image|]; [|done]. cbn [or_return mbind option_bind].
  destruct (field l (Z.to_nat off + 40) 4) as [entry|]; [|done]. cbn [or_return mbind option_bind].
  unfold checked_add at 1. destruct (Z.ltb_spec (image + entry) (2 ^ 64)) as [He|He];
    [rewrite ensure_True by done|by rewrite ensure_False by lia].
  cbn [or_return]. unfold is_uint in Hu2, Hu3. change (2 ^ (8 * Z.of_nat 2)) with 65536 in *.
  rewrite !off_checked_add by lia. cbn [mbind option_bind].
  unfold checked_mul. rewrite (proj2 (Z.ltb_lt (num * 40) _)) by lia. cbn [mbind option_bind].
  unfold checked_add.
  destruct (Z.ltb_spec (off + 24 + opt + num * 40) (2 ^ w)) as [Hfit|Hfit]; cbn [or_return];
    [|rewrite ensure_False by lia; done].
  destruct (Z.ltb_spec (Z.of_nat (length l)) (off + 24 + opt + num * 40));
    [by rewrite ensure_False by lia|rewrite ensure_True by lia].
  by rewrite (off_add off 24), (off_add (off + 24) opt) by lia.
Qed.

(** The format in terms of its fields. *)
Lemma parse_format_valid pe : parse_format l = Some pe ↔ valid_pe l pe.
Proof using Hl.
  clear Hlen Hw w.
  unfold parse_format, valid_pe. split.
  - unfold ensure. intros Hp. repeat ((case_decide; [|done]) || (apply bind_Some in Hp as (? & ? & Hp))).
    injection Hp as <-. cbn [bytes num_sections section_off image_base entry_point].
    split; [done|]. eexists _, _, _, _. split_and!; try eassumption; try done; try lia.
    case_decide; [by left|right]. split; [tauto|done].
  - intros (Hb & off & machine & opt & entry & Hmz & Ho & Hpe & Hm & Hn & Hopt & Hbase & He & Hep & Ht & Hso & Hfit).
    pose proof (field_uint _ _ _ _ Hl Ho) as Hu1. pose proof (field_uint _ _ _ _ Hl Hn) as Hu2.
    pose proof (field_uint _ _ _ _ Hl Hopt) as Hu3. unfold is_uint in *.
    rewrite ensure_True, Ho by done. cbn [mbind option_bind].
    rewrite ensure_True by done. rewrite ensure_True by lia.
    rewrite Hm. cbn [mbind option_bind]. rewrite ensure_True by tauto.
    rewrite Hn, Hopt. cbn [mbind option_bind].
    assert ((if decide (machine = IMAGE_FILE_MACHINE_I386) then field l (Z.to_nat off + 52) 4
      else field l (Z.to_nat off + 48) 8) = Some (image_base pe)) as ->
      by (destruct Hbase as [[-> ?]|[-> ?]]; [by rewrite decide_True|by rewrite decide_False]).
    cbn [mbind option_bind]. rewrite He. cbn [mbind option_bind].
    rewrite ensure_True by lia. rewrite ensure_True by lia. destruct pe. cbn in *. by subst.
Qed.

(** ** Sections *)

(** A field of a section header in bounds. *)
Lemma section_field off c d : 0 ≤ off → off + 0x28 ≤ Z.of_nat (length l) →
  0 ≤ c → d = c + 4 → d ≤ 0x28 →
  ∃ x v, slice_at l (wrapping_add w off c) (wrapping_add w off d) = Done x ∧
    le_int 4 x = Some v ∧ field l (Z.to_nat off + Z.to_nat c) 4 = Some v ∧ is_uint 32 v.
Proof.
  intros Hoff Hb Hc -> Hd. rewrite !off_add by lia.
  assert (is_Some (field l (Z.to_nat off + Z.to_nat c) 4)) as [v Hv] by (apply field_Some; lia).
  destruct (slice_le_int l (off + c) (off + (c + 4)) (Z.to_nat off + Z.to_nat c) 4 v)
    as (x & Hs & Hx); [lia|lia|exact Hv|]. exists x, v. split_and!; try done.
  apply (field_uint l (Z.to_nat off + Z.to_nat c) 4 v Hl Hv).
Qed.

Lemma sections_loop_eq {S} pe (func : Section → S → outcome (S * option unit)) todo : ∀ i s,
  bytes pe = l → 0 ≤ section_off pe → is_uint 64 (image_base pe) →
  section_off pe + 0x28 * Z.of_nat (i + todo) ≤ Z.of_nat (length l) →
  sections_loop w pe func (Z.of_nat i) todo s = each_section func (section_at pe <$> seq i todo) s.
Proof.
  induction todo as [|todo IH]; intros i s Hb Hso Hib Hin; [done|].
  cbn [sections_loop seq fmap list_fmap]. pose proof width as Hwd.
  assert (wrapping_mul w (Z.of_nat i) 40 = 40 * Z.of_nat i) as ->.
  { unfold wrapping_mul. rewrite wrap_small by (unfold is_uint; lia). lia. }
  rewrite (wrapping_add_small w (section_off pe)) by (unfold is_uint; lia).
  set (off := section_off pe + 40 * Z.of_nat i). rewrite Hb.
  assert (0 ≤ off ∧ off + 0x28 ≤ Z.of_nat (length l)) as [H0 H1] by (unfold off; lia).
  destruct (section_field off 0x8 0xc H0 H1) as (x1 & vs & -> & Hx1 & Hf1 & Hu1); [lia..|].
  destruct (section_field off 0xc 0x10 H0 H1) as (x2 & va & -> & Hx2 & Hf2 & Hu2); [lia..|].
  destruct (section_field off 0x10 0x14 H0 H1) as (x3 & rsz & -> & Hx3 & Hf3 & Hu3); [lia..|].
  destruct (section_field off 0x14 0x18 H0 H1) as (x4 & ro & -> & Hx4 & Hf4 & Hu4); [lia..|].
  destruct (section_field off 0x24 0x28 H0 H1) as (x5 & ch & -> & Hx5 & Hf5 & Hu5); [lia..|].
  cbn [mbind outcome_bind]. rewrite Hx1, Hx2, Hx3, Hx4, Hx5.
  assert (section_at pe i = (ensure (image_base pe + va < 2 ^ 64) $
    raw ← get l (Z.to_nat ro) (Z.to_nat (ro + Z.min rsz vs));
    Some (mkSection (image_base pe + va) vs raw (Z.testbit ch 30) (Z.testbit ch 31) (Z.testbit ch 29)))) as ->.
  { unfold section_at. rewrite Hb.
    replace (Z.to_nat (section_off pe) + 40 * i)%nat with (Z.to_nat off) by (unfold off; lia).
    change (Z.to_nat 0x8) with 0x8%nat in Hf1. change (Z.to_nat 0xc) with 0xc%nat in Hf2.
    change (Z.to_nat 0x10) with 0x10%nat in Hf3. change (Z.to_nat 0x14) with 0x14%nat in Hf4.
    change (Z.to_nat 0x24) with 0x24%nat in Hf5. by rewrite Hf1, Hf2, Hf3, Hf4, Hf5. }
  rewrite (small_usize 4 ro) by (done || lia).
  rewrite (small_usize 4 (Z.min rsz vs)) by (lia || (unfold is_uint in *; change (8 * Z.of_nat 4) with 32; lia)).
  unfold checked_add at 1. destruct (Z.ltb_spec (image_base pe + va) (2 ^ 64)) as [Hfit|Hfit];
    [rewrite ensure_True by done|by rewrite ensure_False by lia].
  unfold is_uint in *.
  assert ((e ← checked_add w ro (Z.min rsz vs); get_at l ro e) =
    get l (Z.to_nat ro) (Z.to_nat (ro + Z.min rsz vs))) as ->.
  { unfold checked_add, get_at. destruct (Z.ltb_spec (ro + Z.min rsz vs) (2 ^ w)) as [|Hov]; [done|]. cbn.
    symmetry. apply eq_None_not_Some. intros [raw [Hr _]%get_Some]. lia. }
  destruct (get l (Z.to_nat ro) _) as [raw|]; [|done]. cbn [mbind option_bind each_section].
  change IMAGE_SCN_MEM_READ with (2 ^ 30). change IMAGE_SCN_MEM_WRITE with (2 ^ 31).
  change IMAGE_SCN_MEM_EXECUTE with (2 ^ 29). rewrite !land_pow2_testbit, !negb_involutive by lia.
  destruct (func _ s) as [[s1 [u|]]| |]; try done. cbn [mbind outcome_bind].
  replace (Z.of_nat i + 1) with (Z.of_nat (Datatypes.S i)) by lia. apply IH; (done || lia).
Qed.

(** The section table of a file. *)
Definition section_table (pe : PeParser) : list (option Section) :=
  section_at pe <$> seq 0 (Z.to_nat (num_sections pe)).

Lemma valid_pe_bounds pe : valid_pe l pe →
  bytes pe = l ∧ 0 ≤ section_off pe ∧ 0 ≤ num_sections pe ∧ is_uint 64 (image_base pe).
Proof using Hl.
  clear Hlen Hw w.
  intros (Hb & off & machine & opt & entry & _ & Ho & _ & _ & Hn & Hopt & Hbase & _ & _ & _ & Hso & _).
  pose proof (field_uint _ _ _ _ Hl Ho). pose proof (field_uint _ _ _ _ Hl Hn).
  pose proof (field_uint _ _ _ _ Hl Hopt). unfold is_uint in *. split_and!; try lia; [done|..];
    destruct Hbase as [[_ Hf]|[_ Hf]]; apply field_uint in Hf; try done; unfold is_uint in Hf; lia.
Qed.

Lemma sections_eq {S} pe (func : Section → S → outcome (S * option unit)) s : valid_pe l pe →
  sections w pe func s = each_section func (section_table pe) s.
Proof.
  intros Hv. destruct (valid_pe_bounds pe Hv) as (Hb & Hso & Hn & Hib). unfold sections, section_table.
  apply (sections_loop_eq pe func _ 0 s); try done.
  destruct Hv as (_ & ? & ? & ? & ? & Hv). cbn in Hv. lia.
Qed.

End parser_proofs.

(** ** Flattening *)

(** What the sections of a file satisfy. *)
Definition section_ok (sec : Section) : Prop :=
  is_uint 64 (s_vaddr sec) ∧ is_uint 32 (s_vsize sec) ∧
  Z.of_nat (length (s_raw sec)) ≤ s_vsize sec ∧ bytes_ok (s_raw sec).

Lemma section_at_ok pe i sec : bytes_ok (bytes pe) → is_uint 64 (image_base pe) →
  section_at pe i = Some sec → section_ok sec.
Proof.
  intros Hb Hib Hs. unfold section_at, ensure in Hs.
  repeat ((case_decide; [|done]) || (apply bind_Some in Hs as (? & ? & Hs))). injection Hs as <-.
  repeat match goal with H : field _ _ 4 = Some _ |- _ => apply (field_uint _ _ 4 _ Hb) in H end.
  unfold section_ok, is_uint in *. cbn [s_vaddr s_vsize s_raw].
  match goal with H : get _ _ _ = Some ?r |- _ =>
    pose proof (get_length _ _ _ _ H); pose proof (bytes_ok_get _ _ _ _ Hb H) end.
  split_and!; (done || lia).
Qed.

(** Where a section ends, and the record [flatten_pe] makes to restore it. *)
Definition s_end (sec : Section) : Z := s_vaddr sec + s_vsize sec - 1.

Definition reinit_record (sec : Section) : list Z :=
  if s_write sec && (0 <? Z.of_nat (length (s_raw sec))) then
    to_le_bytes 4 (s_vaddr sec) ++ to_le_bytes 4 (Z.of_nat (length (s_raw sec))) ++ s_raw sec
  else [].

(** A section [flatten_pe] accepts. *)
Definition loadable (sec : Section) : Prop :=
  0 < s_vsize sec ∧ s_end sec < 2 ^ 64 ∧ (reinit_record sec ≠ [] → s_vaddr sec < 2 ^ 32).

#[export] Instance loadable_dec sec : Decision (loadable sec).
Proof. unfold loadable. apply _. Defined.

(** The bounds after one more section. *)
Definition grow (sec : Section) (b : option (Z * Z)) : Z * Z :=
  match b with
  | Some (lo, hi) => (Z.min (s_vaddr sec) lo, Z.max (s_end sec) hi)
  | None => (s_vaddr sec, s_end sec)
  end.

Lemma bounds_closure_eq sec b reinit : section_ok sec →
  ∃ st r, bounds_closure sec (fst <$> b, snd <$> b, reinit) = Done (st, r) ∧
    (r = None ∧ ~ loadable sec ∨ r = Some tt ∧ loadable sec ∧
     st = (Some (grow sec b).1, Some (grow sec b).2, reinit ++ reinit_record sec)).
Proof.
  intros (Hv & Hs & Hr & _). unfold bounds_closure, loadable, s_end, is_uint in *.
  unfold checked_sub at 1. destruct (Z.leb_spec 1 (s_vsize sec)); cbn [mbind option_bind].
  2:{ eexists _, _. split; [done|]. left. split; [done|lia]. }
  unfold checked_add at 1. destruct (Z.ltb_spec (s_vaddr sec + (s_vsize sec - 1)) (2 ^ 64)).
  2:{ eexists _, _. split; [done|]. left. split; [done|lia]. }
  replace (s_vaddr sec + (s_vsize sec - 1)) with (s_end sec) by (unfold s_end; lia).
  unfold reinit_record. destruct (s_write sec && (0 <? Z.of_nat (length (s_raw sec)))).
  - assert (try_into 32 (Z.of_nat (length (s_raw sec))) = Some (Z.of_nat (length (s_raw sec)))) as Hsz
      by (apply try_into_Some; split; [done|lia]).
    destruct (try_into 32 (s_vaddr sec)) as [a|] eqn:Ht; cbn [mbind option_bind].
    + apply try_into_Some in Ht as [-> Hlt]. rewrite Hsz. cbn [mbind option_bind].
      destruct b as [[lo hi]|]; cbn; eexists _, _; (split; [reflexivity|]); right;
        rewrite ?Z.min_id, ?Z.max_id; split_and!; (done || lia).
    + assert (2 ^ 32 ≤ s_vaddr sec) as Hge.
      { unfold try_into in Ht. destruct (Z.ltb_spec (s_vaddr sec) (2 ^ 32)); [done|lia]. }
      destruct b as [[lo hi]|]; cbn; eexists _, _; (split; [reflexivity|]); left; (split; [done|]);
        intros (_ & _ & Hl); specialize (Hl ltac:(done)); lia.
  - destruct b as [[lo hi]|]; cbn; eexists _, _; (split; [reflexivity|]); right; rewrite app_nil_r;
      rewrite ?Z.min_id, ?Z.max_id; split_and!; (done || lia).
Qed.

Definition grow_all (secs : list Section) (b : option (Z * Z)) : option (Z * Z) :=
  foldl (λ b sec, Some (grow sec b)) b secs.

(** The first pass: it gives up at a section that is not loadable. *)
Lemma bounds_pass tbl : (∀ sec, Some sec ∈ tbl → section_ok sec) → ∀ b reinit,
  ∃ st r, each_section bounds_closure tbl (fst <$> b, snd <$> b, reinit) = Done (st, r) ∧
    ((∃ secs, r = Some tt ∧ tbl = Some <$> secs ∧ Forall loadable secs ∧
       st = (fst <$> grow_all secs b, snd <$> grow_all secs b, reinit ++ concat (reinit_record <$> secs))) ∨
     r = None ∧ ~ ∃ secs, tbl = Some <$> secs ∧ Forall loadable secs).
Proof.
  induction tbl as [|[sec|] tbl IH]; intros Hok b reinit; cbn [each_section].
  - eexists _, _. split; [done|]. left. exists []. cbn. by rewrite app_nil_r.
  - destruct (bounds_closure_eq sec b reinit) as (st & r & -> & [[-> Hno]|(-> & Hload & ->)]);
      [apply Hok; left| |]; cbn [mbind outcome_bind].
    + eexists _, _. split; [done|]. right. split; [done|]. intros ([|sec' secs] & Ht & Hl); [done|].
      injection Ht as <- _. by apply Forall_cons in Hl as [? _].
    + destruct (IH ltac:(intros s Hs; apply Hok; by right) (Some (grow sec b)) (reinit ++ reinit_record sec))
        as (st & r & E & Hcase). cbn [fmap option_fmap option_map] in E. rewrite E.
      eexists _, _. split; [done|]. destruct Hcase as [(secs & -> & -> & Hl & ->)|[-> Hno]].
      * left. exists (sec :: secs). split_and!; [done|done|by constructor|]. cbn. by rewrite app_assoc.
      * right. split; [done|]. intros ([|sec' secs] & Ht & Hl); [done|]. injection Ht as <- Ht.
        apply Hno. exists secs. split; [done|]. by apply Forall_cons in Hl as [_ ?].
  - eexists _, _. split; [done|]. right. split; [done|]. intros ([|sec secs] & Ht & _); done.
Qed.

Lemma grow_all_spec secs : ∀ lo hi, (∀ sec, sec ∈ secs → s_vaddr sec ≤ s_end sec) →
  ∃ lo' hi', grow_all secs (Some (lo, hi)) = Some (lo', hi') ∧ lo' ≤ lo ∧ hi ≤ hi' ∧
    (∀ sec, sec ∈ secs → lo' ≤ s_vaddr sec ∧ s_end sec ≤ hi') ∧
    (lo' = lo ∨ ∃ sec, sec ∈ secs ∧ s_vaddr sec = lo') ∧ (hi' = hi ∨ ∃ sec, sec ∈ secs ∧ s_end sec = hi').
Proof.
  induction secs as [|sec secs IH]; intros lo hi Hle; cbn.
  { exists lo, hi. split_and!; try lia; [done|]. intros sec Hs. by apply elem_of_nil in Hs. }
  destruct (IH (Z.min (s_vaddr sec) lo) (Z.max (s_end sec) hi)) as (lo' & hi' & E & H1 & H2 & H3 & H4 & H5);
    [intros; apply Hle; by right|].
  exists lo', hi'. split_and!; try done; try lia.
  - intros s [->|Hs]%elem_of_cons; [lia|by apply H3].
  - destruct H4 as [->|(s & Hs & <-)]; [|right; exists s; split; [by right|done]].
    destruct (Z.min_spec (s_vaddr sec) lo) as [[_ ->]|[_ ->]]; [right; exists sec; split; [by left|done]|by left].
  - destruct H5 as [->|(s & Hs & <-)]; [|right; exists s; split; [by right|done]].
    destruct (Z.max_spec (s_end sec) hi) as [[_ ->]|[_ ->]]; [by left|right; exists sec; split; [by left|done]].
Qed.

(** The byte at address [a]: of the last section whose data covers it. *)
Definition image_byte (secs : list Section) (a : Z) (b : Z) : Z :=
  foldl (λ b sec, if decide (s_vaddr sec ≤ a)
                  then default b (s_raw sec !! Z.to_nat (a - s_vaddr sec)) else b) b secs.

Lemma lookup_copied {A} (l src : list A) a k : (a + length src ≤ length l)%nat →
  (take a l ++ src ++ drop (a + length src) l) !! k =
  if decide (a ≤ k < a + length src)%nat then src !! (k - a)%nat else l !! k.
Proof.
  intros Hl. destruct (decide (k < a)%nat) as [Hk|Hk].
  - rewrite decide_False by lia. rewrite lookup_app_l by (rewrite length_take; lia).
    by rewrite lookup_take_lt.
  - rewrite lookup_app_r by (rewrite length_take; lia). rewrite length_take, Nat.min_l by lia.
    case_decide as Hd.
    + by rewrite lookup_app_l by lia.
    + rewrite lookup_app_r by lia. rewrite lookup_drop. f_equal. lia.
Qed.

Lemma copy_closure_eq start sec flat : section_ok sec → 0 ≤ start ≤ s_vaddr sec →
  s_end sec < start + Z.of_nat (length flat) → Z.of_nat (length flat) < 2 ^ 64 →
  ∃ flat', copy_closure start sec flat = Done (flat', Some tt) ∧ length flat' = length flat ∧
    ∀ k, (k < length flat)%nat → flat' !! k =
      (λ b, if decide (s_vaddr sec ≤ start + Z.of_nat k)
            then default b (s_raw sec !! Z.to_nat (start + Z.of_nat k - s_vaddr sec)) else b) <$> flat !! k.
Proof.
  intros (Hv & Hs & Hr & _) Hlo Hhi Hlen. unfold copy_closure, s_end, is_uint in *.
  unfold checked_sub. rewrite (proj2 (Z.leb_le start (s_vaddr sec))) by lia. cbn [expect mbind outcome_bind].
  unfold try_into. rewrite (proj2 (Z.ltb_lt (s_vaddr sec - start) _)), (proj2 (Z.ltb_lt (s_vsize sec) _)) by lia.
  cbn [mbind option_bind]. rewrite Z.min_r by lia. unfold checked_add.
  rewrite (proj2 (Z.ltb_lt (s_vaddr sec - start + Z.of_nat (length (s_raw sec))) _)) by lia.
  set (o := Z.to_nat (s_vaddr sec - start)).
  replace (Z.to_nat (s_vaddr sec - start + Z.of_nat (length (s_raw sec)))) with (o + length (s_raw sec))%nat by lia.
  rewrite copy_from_slice_eq by lia. cbn [mbind outcome_bind]. eexists. split; [done|].
  split; [rewrite !length_app, length_take, length_drop; lia|]. intros k Hk.
  rewrite lookup_copied by lia. destruct (lookup_lt_is_Some_2 flat k Hk) as [b Hb]. rewrite Hb. cbn.
  destruct (decide (o ≤ k < o + length (s_raw sec))%nat) as [Hd|Hd].
  - rewrite decide_True by lia. replace (Z.to_nat (start + Z.of_nat k - s_vaddr sec)) with (k - o)%nat by lia.
    destruct (lookup_lt_is_Some_2 (s_raw sec) (k - o)) as [v ->]; [lia|]. done.
  - case_decide; [|done]. by rewrite (lookup_ge_None_2 (s_raw sec)) by lia.
Qed.

Lemma copy_pass start secs : Forall section_ok secs → ∀ flat, 0 ≤ start →
  Z.of_nat (length flat) < 2 ^ 64 →
  (∀ sec, sec ∈ secs → start ≤ s_vaddr sec ∧ s_end sec < start + Z.of_nat (length flat)) →
  ∃ flat', each_section (copy_closure start) (Some <$> secs) flat = Done (flat', Some tt) ∧
    length flat' = length flat ∧
    ∀ k b, flat !! k = Some b → flat' !! k = Some (image_byte secs (start + Z.of_nat k) b).
Proof.
  induction 1 as [|sec secs Hok Hoks IH]; intros flat H0 Hlen Hin.
  { exists flat. by split_and!. }
  destruct (Hin sec ltac:(by left)) as [Hlo Hhi]. cbn [fmap list_fmap each_section].
  destruct (copy_closure_eq start sec flat Hok) as (flat1 & -> & Hl1 & Hb1); [lia|done|done|].
  cbn [mbind outcome_bind].
  destruct (IH flat1) as (flat2 & E & Hl2 & Hb2); [done|lia|rewrite Hl1; intros; apply Hin; by right|].
  exists flat2. split; [exact E|]. split; [lia|]. intros k b Hk.
  erewrite Hb2; [|rewrite Hb1, Hk by (by apply lookup_lt_Some in Hk); reflexivity]. done.
Qed.

(** The flat image of a file and the data to restore it. *)
Record flat_image (l : list Z) (secs : list Section) (entry base : Z) (image reinit : list Z) : Prop := {
  fi_pe : ∃ pe, valid_pe l pe ∧ section_table pe = Some <$> secs ∧ entry = entry_point pe;
  fi_load : Forall loadable secs;
  fi_low : (∀ sec, sec ∈ secs → base ≤ s_vaddr sec) ∧ ∃ sec, sec ∈ secs ∧ s_vaddr sec = base;
  fi_high : (∀ sec, sec ∈ secs → s_end sec < base + Z.of_nat (length image)) ∧
    ∃ sec, sec ∈ secs ∧ s_end sec = base + Z.of_nat (length image) - 1;
  fi_entry : base ≤ entry < base + Z.of_nat (length image);
  fi_fits : entry < 2 ^ 32 ∧ base < 2 ^ 32 ∧ Z.of_nat (length image) < 2 ^ 64;
  fi_bytes k : (k < length image)%nat → image !! k = Some (image_byte secs (base + Z.of_nat k) 0);
  fi_reinit : reinit = concat (reinit_record <$> secs);
}.

Lemma table_ok l pe : bytes_ok l → valid_pe l pe → ∀ sec, Some sec ∈ section_table pe → section_ok sec.
Proof.
  intros Hl Hv sec Hs. destruct (valid_pe_bounds l Hl pe Hv) as (Hb & _ & _ & Hib).
  apply list_elem_of_fmap in Hs as (i & Hi & _). symmetry in Hi.
  apply (section_at_ok pe i); [by rewrite Hb|done|done].
Qed.

Lemma valid_pe_unique l pe pe' : bytes_ok l → valid_pe l pe → valid_pe l pe' → pe = pe'.
Proof.
  intros Hl H1%parse_format_valid H2%parse_format_valid; [congruence|done..].
Qed.

Lemma s_end_ge sec : loadable sec → s_vaddr sec ≤ s_end sec.
Proof. intros [H _]. unfold s_end. lia. Qed.

(** The bounds of a list of sections. *)
Lemma grow_all_bounds secs : secs ≠ [] → Forall loadable secs → ∃ lo hi,
  grow_all secs None = Some (lo, hi) ∧
  (∀ sec, sec ∈ secs → lo ≤ s_vaddr sec ∧ s_end sec ≤ hi) ∧
  (∃ sec, sec ∈ secs ∧ s_vaddr sec = lo) ∧ (∃ sec, sec ∈ secs ∧ s_end sec = hi).
Proof.
  destruct secs as [|sec secs]; [done|]. intros _ [Hl Hls]%Forall_cons.
  destruct (grow_all_spec secs (s_vaddr sec) (s_end sec)) as (lo & hi & E & H1 & H2 & H3 & H4 & H5).
  { intros s Hs. rewrite Forall_forall in Hls. by apply s_end_ge, Hls. }
  exists lo, hi. split; [exact E|]. split; [|split].
  - intros s [->|Hs]%elem_of_cons; [done|by apply H3].
  - destruct H4 as [->|(s & Hs & <-)]; [exists sec|exists s]; (split; [|done]); [by left|by right].
  - destruct H5 as [->|(s & Hs & <-)]; [exists sec|exists s]; (split; [|done]); [by left|by right].
Qed.

Lemma flatten_correct l : bytes_ok l → Z.of_nat (length l) < 2 ^ 63 →
  ∃ r, flatten_pe (Some l) = Done r ∧
    match r with
    | Some (entry, base, image, reinit) => ∃ secs, flat_image l secs entry base image reinit
    | None => ∀ secs entry base image reinit, ~ flat_image l secs entry base image reinit
    end.
Proof.
  intros Hl Hlen. unfold flatten_pe. cbn [or_return]. rewrite parse_eq by done. cbn [mbind outcome_bind].
  destruct (parse_format l) as [pe|] eqn:Hpf; cbn [or_return].
  2:{ exists None. split; [done|]. intros secs entry base image reinit [(pe & Hv & _) _ _ _ _ _ _ _].
      apply parse_format_valid in Hv; [congruence|done]. }
  apply parse_format_valid in Hpf as Hv; [|done].
  rewrite (sections_eq 64 ltac:(lia) l Hl Hlen) by done.
  destruct (bounds_pass (section_table pe) (table_ok l pe Hl Hv) None []) as (st & r & Hb & Hcase).
  cbn [fmap option_fmap option_map] in Hb. rewrite Hb. clear Hb.
  destruct Hcase as [(secs & -> & Htbl & Hload & ->)|[-> Hno]].
  2:{ destruct st as [[? ?] ?]. exists None. split; [done|].
      intros secs entry base image reinit [(pe' & Hv' & Htbl & _) Hload _ _ _ _ _ _]. apply Hno.
      rewrite (valid_pe_unique l pe pe' Hl Hv Hv'). by exists secs. }
  cbn [mbind outcome_bind or_return].
  assert (∀ secs' entry base image reinit, flat_image l secs' entry base image reinit → secs' = secs ∧ entry = entry_point pe) as Huniq.
  { intros secs' entry base image reinit [(pe' & Hv' & Htbl' & ->) _ _ _ _ _ _ _].
    rewrite (valid_pe_unique l pe' pe Hl Hv' Hv) in *. split; [|done].
    rewrite Htbl in Htbl'. by apply (inj (fmap Some)) in Htbl'. }
  destruct secs as [|sec0 secs0].
  { exists None. split; [done|]. intros secs' entry base image reinit Hf.
    destruct (Huniq _ _ _ _ _ Hf) as [-> _]. destruct (fi_low _ _ _ _ _ _ Hf) as (_ & sec & Hs & _). by apply elem_of_nil in Hs. }
  set (secs := sec0 :: secs0) in *. assert (secs ≠ []) as Hne by done. clearbody secs. clear sec0 secs0.
  destruct (grow_all_bounds secs Hne Hload) as (lo & hi & -> & Hin & (slo & Hslo & Elo) & (shi & Hshi & Ehi)).
  cbn [fmap option_fmap option_map or_return fst snd].
  assert (Forall section_ok secs) as Hoks.
  { apply Forall_forall. intros sec Hs. apply (table_ok l pe Hl Hv). rewrite Htbl. by apply list_elem_of_fmap_2. }
  assert (0 ≤ lo) as Hlo0.
  { rewrite Forall_forall in Hoks. destruct (Hoks slo Hslo) as ([? _] & _). lia. }
  assert (hi < 2 ^ 64) as Hhi. { rewrite Forall_forall in Hload. destruct (Hload shi Hshi) as (_ & ? & _). lia. }
  assert (lo ≤ hi) as Hlh.
  { pose proof (Hin slo Hslo). rewrite Forall_forall in Hload. pose proof (s_end_ge slo (Hload slo Hslo)). lia. }
  unfold checked_sub. rewrite (proj2 (Z.leb_le lo hi)) by lia. cbn [mbind option_bind].
  unfold checked_add. destruct (Z.ltb_spec (hi - lo + 1) (2 ^ 64)) as [Hsz|Hsz]; cbn [mbind option_bind or_return].
  2:{ exists None. split; [done|]. intros secs' entry base image reinit Hf.
      destruct (Huniq _ _ _ _ _ Hf) as [-> _]. destruct Hf as [_ _ [Hb1 (s1 & Hs1 & <-)] [Hh1 _] _ (_ & _ & Hfit) _ _].
      pose proof (Hh1 shi Hshi). pose proof (Hin s1 Hs1). pose proof (Hb1 slo Hslo). lia. }
  unfold try_into at 1. rewrite (proj2 (Z.ltb_lt (hi - lo + 1) _)) by lia. cbn [or_return].
  rewrite (sections_eq 64 ltac:(lia) l Hl Hlen), Htbl by done.
  set (n := Z.to_nat (hi - lo + 1)). assert (Z.of_nat n = hi - lo + 1) as En by lia.
  destruct (copy_pass lo secs Hoks (replicate n 0)) as (image & -> & Hil & Hib); [done|..].
  { rewrite length_replicate. lia. }
  { intros sec Hs. rewrite length_replicate. pose proof (Hin sec Hs). lia. }
  rewrite length_replicate in Hil. cbn [mbind outcome_bind or_return].
  assert (∀ secs' entry base image' reinit, flat_image l secs' entry base image' reinit →
    base = lo ∧ base + Z.of_nat (length image') - 1 = hi) as Hbounds.
  { intros secs' entry base image' reinit Hf. destruct (Huniq _ _ _ _ _ Hf) as [-> _].
    destruct Hf as [_ _ [Hb1 (s1 & Hs1 & E1)] [Hh1 (s2 & Hs2 & E2)] _ _ _ _].
    pose proof (Hin s1 Hs1). pose proof (Hb1 slo Hslo). pose proof (Hin s2 Hs2). pose proof (Hh1 shi Hshi). lia. }
  assert (∀ secs' entry base image' reinit, flat_image l secs' entry base image' reinit →
    lo ≤ entry_point pe ≤ hi ∧ entry_point pe < 2 ^ 32 ∧ lo < 2 ^ 32) as Hneed.
  { intros secs' entry base image' reinit Hf. destruct (Hbounds _ _ _ _ _ Hf) as [-> Eh].
    destruct (Huniq _ _ _ _ _ Hf) as [_ ->]. destruct Hf as [_ _ _ _ He Hfit _ _]. lia. }
  destruct (Z.ltb_spec (entry_point pe) lo) as [H1|H1], (Z.ltb_spec hi (entry_point pe)) as [H2|H2]; cbn [orb];
    try (exists None; split; [done|]; intros ? ? ? ? ? Hf; specialize (Hneed _ _ _ _ _ Hf); lia).
  unfold try_into. destruct (Z.ltb_spec (entry_point pe) (2 ^ 32)) as [H3|H3], (Z.ltb_spec lo (2 ^ 32)) as [H4|H4];
    cbn [or_return];
    try (exists None; split; [done|]; intros ? ? ? ? ? Hf; specialize (Hneed _ _ _ _ _ Hf); lia).
  eexists. split; [done|]. exists secs. split; try done; rewrite ?Hil; try lia.
  - exists pe. done.
  - split; [intros sec Hs; apply Hin; done|by exists slo].
  - split; [intros sec Hs; pose proof (Hin sec Hs); lia|exists shi; split; [done|lia]].
  - intros k Hk. apply Hib. by apply lookup_replicate_2.
Qed.

(** ** Properties *)

(** for a [usize] of at least 32 bits and a file no longer than
    [isize::MAX], [parse] never panics, and it returns exactly the description
    of the files that have the format [valid_pe]. *)
Theorem parse_spec w l : 32 ≤ w → bytes_ok l → Z.of_nat (length l) < 2 ^ (w - 1) →
  ∃ r, parse w l = Done r ∧ ∀ pe, r = Some pe ↔ valid_pe l pe.
Proof.
  intros Hw Hl Hlen. exists (parse_format l). split; [by apply parse_eq|].
  intros pe. by apply parse_format_valid.
Qed.

(** on a file that [parse] accepted, [sections] never panics of itself: it
    calls the closure once per entry of the section table, in order, with the
    address, size, raw bytes (cut to the virtual size) and permissions of the
    entry, until the closure or an entry out of range ends it. *)
Theorem sections_spec {S} w l pe (func : Section → S → outcome (S * option unit)) s :
  32 ≤ w → bytes_ok l → Z.of_nat (length l) < 2 ^ (w - 1) → parse w l = Done (Some pe) →
  sections w pe func s = each_section func (section_table pe) s.
Proof.
  intros Hw Hl Hlen Hp. apply (sections_eq w Hw l Hl Hlen). apply parse_format_valid; [done|].
  rewrite (parse_eq w Hw l Hl Hlen) in Hp. by apply Done_inj in Hp.
Qed.

(** [flatten_pe] never panics.  What it returns is the flat image from the
    lowest to the highest address of the sections: each byte that of the last
    section that initialises its address, or zero; the entry point lies inside;
    the second stream restores exactly the initialised writable sections.  It
    returns nothing only when there is no such image. *)
Theorem flatten_spec l : bytes_ok l → Z.of_nat (length l) < 2 ^ 63 →
  ∃ r, flatten_pe (Some l) = Done r ∧
    match r with
    | Some (entry, base, image, reinit) => ∃ secs, flat_image l secs entry base image reinit
    | None => ∀ secs entry base image reinit, ~ flat_image l secs entry base image reinit
    end.
Proof. apply flatten_correct. Qed.

(** ** Witnesses *)

(** An i386 file with one section of eight bytes, four of them initialised. *)
Definition demo_file : list Z :=
  MZ ++ replicate 58 0 ++ to_le_bytes 4 0x40 ++
  PE00 ++ to_le_bytes 2 0x14c ++ to_le_bytes 2 1 ++ replicate 12 0 ++ to_le_bytes 2 0x20 ++ [0; 0] ++
  replicate 16 0 ++ to_le_bytes 4 0x102 ++ replicate 8 0 ++ to_le_bytes 4 0x8000 ++
  replicate 8 0 ++ to_le_bytes 4 8 ++ to_le_bytes 4 0x100 ++ to_le_bytes 4 4 ++ to_le_bytes 4 0xa0 ++
  replicate 12 0 ++ to_le_bytes 4 0xe0000000 ++ [1; 2; 3; 4].

Definition demo_pe : PeParser := mkPeParser demo_file 1 0x78 0x8000 0x8102.

Definition demo_section : Section := mkSection 0x8100 8 [1; 2; 3; 4] true true true.

Lemma demo_file_ok : bytes_ok demo_file.
Proof. by_decide. Qed.

Lemma parse_spec_witness : valid_pe demo_file demo_pe.
Proof.
  destruct (parse_spec 32 demo_file) as (r & Hp & Hv); [lia|apply demo_file_ok|cbn; lia|].
  apply Hv. assert (parse 32 demo_file = Done (Some demo_pe)) as E by (vm_compute; reflexivity).
  rewrite E in Hp. by apply Done_inj in Hp.
Defined.

Lemma sections_spec_witness :
  sections 32 demo_pe (λ sec l, Done (l ++ [sec], Some tt)) [] = Done ([demo_section], Some tt).
Proof.
  rewrite (sections_spec 32 demo_file demo_pe (λ sec l, Done (l ++ [sec], Some tt)) []);
    [vm_compute; reflexivity|lia|apply demo_file_ok|cbn; lia|vm_compute; reflexivity].
Defined.

Lemma flatten_spec_witness :
  flatten_pe (Some demo_file) =
    Done (Some (0x8102, 0x8100, [1; 2; 3; 4; 0; 0; 0; 0], [0; 0x81; 0; 0; 4; 0; 0; 0; 1; 2; 3; 4])) ∧
  ∃ secs, flat_image demo_file secs 0x8102 0x8100 [1; 2; 3; 4; 0; 0; 0; 0]
    [0; 0x81; 0; 0; 4; 0; 0; 0; 1; 2; 3; 4].
Proof.
  assert (flatten_pe (Some demo_file) =
    Done (Some (0x8102, 0x8100, [1; 2; 3; 4; 0; 0; 0; 0], [0; 0x81; 0; 0; 4; 0; 0; 0; 1; 2; 3; 4]))) as E
    by (vm_compute; reflexivity).
  split; [exact E|].
  destruct (flatten_spec demo_file demo_file_ok) as (r & Hr & Hf); [cbn; lia|].
  rewrite E in Hr. apply Done_inj in Hr as <-. exact Hf.
Defined.
