(* ===== verification/Pxe.v ===== *)
(** * Downloads over PXE (bootloader/src/pxe.rs)

    [download] with every structure it exchanges with the PXE ROM, byte by byte
    in memory.  The ROM (behind [invoke_realmode] and [pxecall] of realmode.rs) is
    the interface [PxeRom]; the file's buffer comes from the bootloader's
    allocator. *)

From stdpp Require Import base tactics option list numbers strings gmap.
From Stdlib Require Import ZArith Lia.
From S2P Require Import Prelude MachineInt Bytes RangeSet PhysMem BootMm.

Local Open Scope Z_scope.

(** [RegisterState] of realmode.rs *)
Record RegisterState := mkRegisterState {
  eax : Z; ecx : Z; edx : Z; ebx : Z; esp : Z; ebp : Z; esi : Z; edi : Z; efl : Z;
  es : Z; ds : Z; fs : Z; gs : Z; ss : Z }.

Definition regs_default : RegisterState := mkRegisterState 0 0 0 0 0 0 0 0 0 0 0 0 0 0.
Definition set_eax (v : Z) (r : RegisterState) : RegisterState :=
  mkRegisterState v (ecx r) (edx r) (ebx r) (esp r) (ebp r) (esi r) (edi r) (efl r) (es r) (ds r) (fs r) (gs r) (ss r).

(** The real-mode side: the memory, [invoke_realmode int_number regs], and
    [pxecall seg off opcode param_seg param_off]. *)
Class PxeRom (W : Type) := {
  w_mem : W → mem;
  w_set_mem : mem → W → W;
  invoke_realmode : Z → RegisterState → W → W * RegisterState;
  pxecall : Z → Z → Z → Z → Z → W → W;
}.

Definition segoff_to_linear (seg off : Z) : Z := wrapping_add 32 (shl 32 seg 4) off.

Definition PXE_OPCODE_GET_CACHED_INFO : Z := 0x71.
Definition PXENV_PACKET_TYPE_DHCP_ACK : Z := 2.
Definition PXE_OPCODE_TFTP_GET_FILE_SIZE : Z := 0x25.
Definition PXE_OPCODE_TFTP_OPEN : Z := 0x20.
Definition PXE_OPCODE_TFTP_READ : Z := 0x22.
Definition PXE_OPCODE_TFTP_CLOSE : Z := 0x21.

(** A [u16] of a structure, at an offset *)
Definition u16_at (b : list Z) (a : nat) : Z := from_le_bytes (take 2 (drop a b)).
Definition u32_at (b : list Z) (a : nat) : Z := from_le_bytes (take 4 (drop a b)).

Definition sum8 (b : list Z) : Z := foldl (wrapping_add 8) 0 b.

(** The requests, as they are in memory. *)
Definition GetCachedInfo (packet_type : Z) : list Z :=
  to_le_bytes 2 0 ++ to_le_bytes 2 packet_type ++ to_le_bytes 2 0 ++ to_le_bytes 2 0 ++ to_le_bytes 2 0 ++ to_le_bytes 2 0.
Definition GetFileSize (server_ip filename : list Z) : list Z :=
  to_le_bytes 2 0 ++ server_ip ++ replicate 4 0 ++ filename ++ to_le_bytes 4 0.
Definition TftpOpen (server_ip filename : list Z) : list Z :=
  to_le_bytes 2 0 ++ server_ip ++ replicate 4 0 ++ filename ++ to_be_bytes 2 69 ++ to_le_bytes 2 512.
Definition TftpRead (buffer_off : Z) : list Z :=
  to_le_bytes 2 0 ++ to_le_bytes 2 0 ++ to_le_bytes 2 0 ++ to_le_bytes 2 buffer_off ++ to_le_bytes 2 0.

Section pxe.
Context {W : Type} `{HW : PxeRom W}.
Implicit Types w : W.

(** Where the compiler put the structure of a request and the read buffer. *)
Variable st_addr : Z → Z.
Variable buf_addr : Z.

(** A structure is passed by its address, cut to 16 bits, in segment 0, and holds
    the answer afterwards. *)
Definition request (ep_seg ep_off opcode : Z) (st : list Z) w : W * list Z :=
  let a := st_addr opcode in
  let w := w_set_mem (write_bytes (w_mem w) a st) w in
  let w := pxecall ep_seg ep_off opcode 0 (wrap 16 a) w in
  (w, read_bytes (w_mem w) a (length st)).

(** The checks of the installation, up to the entry point [(ep_seg, ep_off)] *)
Definition find_entry w : outcome (W * option (Z * Z)) :=
  let '(w, regs) := invoke_realmode 0x1a (set_eax 0x5650 regs_default) w in
  if negb (wrap 16 (eax regs) =? 0x564e) || negb (Z.land (efl regs) 1 =? 0) then Done (w, None) else
  let pxenv := read_bytes (w_mem w) (segoff_to_linear (es regs) (wrap 16 (ebx regs))) 0x2c in
  length_ ← index pxenv 0x8;
  if negb (bool_decide (take 6 pxenv = [0x50; 0x58; 0x45; 0x4e; 0x56; 0x2b])) || negb (length_ =? 0x2c) || negb (sum8 pxenv =? 0)
  then Done (w, None) else
  let pxe := read_bytes (w_mem w) (segoff_to_linear (u16_at pxenv 0x2a) (u16_at pxenv 0x28)) 0x58 in
  length_ ← index pxe 4;
  if negb (bool_decide (take 4 pxe = [0x21; 0x50; 0x58; 0x45])) || negb (length_ =? 0x58) || negb (sum8 pxe =? 0)
  then Done (w, None) else
  let ep_off := u16_at pxe 0x10 in
  let ep_seg := u16_at pxe 0x12 in
  if ep_seg =? 0 then Done (w, None) else Done (w, Some (ep_seg, ep_off)).

(** The server's address, from the cached DHCP ACK *)
Definition get_server_ip (ep_seg ep_off : Z) w : outcome (W * option (list Z)) :=
  let '(w, st) := request ep_seg ep_off PXE_OPCODE_GET_CACHED_INFO (GetCachedInfo PXENV_PACKET_TYPE_DHCP_ACK) w in
  if negb (u16_at st 0 =? 0) then Done (w, None) else
  let pkt_buf := read_bytes (w_mem w) (segoff_to_linear (u16_at st 8) (u16_at st 6)) (Z.to_nat (u16_at st 4)) in
  ip ← slice pkt_buf 0x14 0x18;
  Done (w, Some ip).

(** The name, in its field of 128 bytes *)
Definition copy_filename (filename : list Z) : outcome (list Z) :=
  copy_from_slice (replicate 128 0) 0 (length filename) filename.

Definition get_file_size (ep_seg ep_off : Z) (server_ip filename : list Z) w : outcome (W * option Z) :=
  if Nat.ltb 128 (length filename + 1) then Done (w, None) else
  name ← copy_filename filename;
  let '(w, st) := request ep_seg ep_off PXE_OPCODE_TFTP_GET_FILE_SIZE (GetFileSize server_ip name) w in
  if negb (u16_at st 0 =? 0) then Done (w, None) else Done (w, Some (u32_at st 138)).

Definition open (ep_seg ep_off : Z) (server_ip filename : list Z) w : outcome (W * bool) :=
  if Nat.ltb 128 (length filename + 1) then Done (w, false) else
  name ← copy_filename filename;
  let '(w, st) := request ep_seg ep_off PXE_OPCODE_TFTP_OPEN (TftpOpen server_ip name) w in
  Done (w, (u16_at st 0 =? 0) && (u16_at st 140 =? 512)).

(** The loop over the packets; each but the last fills the buffer. *)
Fixpoint read_file (fuel : nat) (ep_seg ep_off capacity : Z) (download : list Z) w : outcome (W * option (list Z)) :=
  match fuel with
  | O => OutOfFuel
  | S fuel =>
      let w := w_set_mem (write_bytes (w_mem w) buf_addr (replicate 512 0)) w in
      let '(w, st) := request ep_seg ep_off PXE_OPCODE_TFTP_READ (TftpRead (wrap 16 buf_addr)) w in
      let bread := u16_at st 4 in
      if negb (u16_at st 0 =? 0) || (512 <? bread) then Done (w, None) else
      if capacity <? Z.of_nat (length download) + bread then Done (w, None) else
      let download := download ++ read_bytes (w_mem w) buf_addr (Z.to_nat bread) in
      if bread <? 512 then Done (w, Some download) else read_file fuel ep_seg ep_off capacity download w
  end.

Definition close (ep_seg ep_off : Z) w : W * bool :=
  let '(w, st) := request ep_seg ep_off PXE_OPCODE_TFTP_CLOSE (to_le_bytes 2 0) w in
  (w, u16_at st 0 =? 0).

(** [Vec::with_capacity] of bytes, and the drop of the vector *)
Definition with_capacity (n : Z) (pmem : option RangeSet) : outcome (option RangeSet * Z) :=
  if 2 ^ 31 <=? n then Panic "capacity overflow" else
  if n =? 0 then Done (pmem, 1) else
  '(pmem, ptr) ← alloc pmem n 1;
  if ptr =? 0 then Panic "memory allocation failed" else Done (pmem, ptr).
Definition drop_vec (ptr n : Z) (pmem : option RangeSet) : outcome (option RangeSet) :=
  if n =? 0 then Done pmem else dealloc pmem ptr n.

(** [download]: the vector, as its address, capacity and contents.  Its memory is the
    caller's in the end, or given back. *)
Definition download (filename : list Z) (pmem : option RangeSet) w : outcome (W * option RangeSet * option (Z * Z * list Z)) :=
  '(w, ep) ← find_entry w;
  match ep with None => Done (w, pmem, None) | Some (ep_seg, ep_off) =>
  '(w, ip) ← get_server_ip ep_seg ep_off w;
  match ip with None => Done (w, pmem, None) | Some server_ip =>
  '(w, size) ← get_file_size ep_seg ep_off server_ip filename w;
  match size with None => Done (w, pmem, None) | Some file_size =>
  '(w, ok) ← open ep_seg ep_off server_ip filename w;
  if negb ok then Done (w, pmem, None) else
  '(pmem, ptr) ← with_capacity file_size pmem;
  '(w, file) ← read_file (S (Z.to_nat (file_size / 512))) ep_seg ep_off file_size [] w;
  match file with
  | None => pmem ← drop_vec ptr file_size pmem; Done (w, pmem, None)
  | Some f =>
      let '(w, ok) := close ep_seg ep_off w in
      if ok : bool then Done (w, pmem, Some (ptr, file_size, f))
      else pmem ← drop_vec ptr file_size pmem; Done (w, pmem, None)
  end end end end.
End pxe.

(** ** Any ROM *)

(** [n] bytes from [ptr] have gone from [rs] to leave [rs1]. *)
Definition taken (ptr n : Z) (rs rs1 : RangeSet) : Prop :=
  wf rs1 ∧ (∀ x, in_block ptr n x → x ∈ rs) ∧ ∀ x, x ∈ rs1 ↔ x ∈ rs ∧ ¬ in_block ptr n x.

Lemma with_capacity_spec n rs : wf rs → 0 ≤ n →
  terminates (with_capacity n (Some rs)) ∧
  ∀ pm ptr, with_capacity n (Some rs) = Done (pm, ptr) → ∃ rs1, pm = Some rs1 ∧ is_uint 64 ptr ∧ taken ptr n rs rs1.
Proof.
  intros Hwf Hn. unfold with_capacity. destruct (2 ^ 31 <=? n) eqn:E1; [done|]. apply Z.leb_gt in E1.
  destruct (n =? 0) eqn:E0.
  { apply Z.eqb_eq in E0 as ->. split; [done|]. intros pm ptr [= <- <-]. exists rs. split; [done|]. split; [by unfold is_uint|].
    split; [done|]. unfold in_block. split; [lia|]. intros x. split; [intros; split; [done|lia]|tauto]. }
  apply Z.eqb_neq in E0. destruct (allocate_returns usize_max rs n 0 Hwf) as [[p rs1] E]; [lia|lia|].
  unfold alloc. change 1 with (2 ^ 0) at 1 2. rewrite E. cbn [mbind outcome_bind].
  destruct p as [p|]; [|by split]. change (default 0 (Some p)) with p. split; [by destruct (p =? 0)|]. intros pm ptr H.
  destruct (p =? 0); [done|]. injection H as <- <-. exists rs1. split; [done|].
  destruct (allocate_prefer_correct usize_max rs n 0 None p rs1) as (base & Hwf1 & _ & _ & Hb & Hin & Hout); [done|lia|lia|done|done|].
  assert (base = p) as -> by lia. split; [apply (wf_uint rs _ Hwf), Hin; lia|]. split; [done|]. split; [intros x Hx; apply Hin; exact Hx|]. intros x. rewrite Hout. done.
Qed.

Lemma drop_vec_insert ptr n rs : wf rs → 0 ≤ n → is_uint 64 ptr → ptr + n ≤ 2 ^ 64 →
  terminates (drop_vec ptr n (Some rs)) ∧
  ∀ pm, drop_vec ptr n (Some rs) = Done pm → ∃ rs', pm = Some rs' ∧ wf rs' ∧ ∀ x, x ∈ rs' ↔ x ∈ rs ∨ in_block ptr n x.
Proof.
  intros Hwf Hn Hp He. unfold drop_vec. destruct (n =? 0) eqn:E0.
  { apply Z.eqb_eq in E0 as ->. split; [done|]. intros pm [= <-]. exists rs. split; [done|]. split; [done|].
    intros x. unfold in_block. split; [tauto|]. intros [?|?]; [done|lia]. }
  apply Z.eqb_neq in E0. unfold dealloc. cbn [expect mbind outcome_bind]. unfold checked_sub. rewrite (proj2 (Z.leb_le 1 n)) by lia.
  cbn [expect mbind outcome_bind].
  assert (checked_add 64 ptr (n - 1) = Some (ptr + (n - 1))) as -> by (apply checked_add_Some; unfold is_uint in *; lia).
  cbn [expect mbind outcome_bind].
  destruct (insert_correct rs (mkRange ptr (ptr + (n - 1))) Hwf) as [(rs2 & -> & Hwf2 & Hin2)|[-> _]];
    [unfold range_ok, is_uint in *; cbn; lia| |done].
  cbn [mbind outcome_bind]. split; [done|]. intros pm [= <-]. exists rs2. split; [done|]. split; [done|].
  intros x. rewrite Hin2, elem_of_mkRange. unfold in_block. split; (intros [?|?]; [by left|right; lia]).
Qed.

Lemma taken_uint ptr n rs rs1 : wf rs → 0 ≤ n → is_uint 64 ptr → taken ptr n rs rs1 → ptr + n ≤ 2 ^ 64.
Proof.
  intros Hwf Hn Hp (_ & Hin & _). destruct (decide (n = 0)) as [->|Hne]; [unfold is_uint in Hp; lia|].
  assert (is_uint 64 (ptr + (n - 1))) as [_ ?]; [|lia]. apply (wf_uint rs _ Hwf), Hin. unfold in_block. lia.
Qed.

Lemma drop_vec_spec ptr n rs rs1 : wf rs → 0 ≤ n → is_uint 64 ptr → taken ptr n rs rs1 →
  terminates (drop_vec ptr n (Some rs1)) ∧
  ∀ pm, drop_vec ptr n (Some rs1) = Done pm → ∃ rs2, pm = Some rs2 ∧ wf rs2 ∧ ∀ x, x ∈ rs2 ↔ x ∈ rs.
Proof.
  intros Hwf Hn Hp Htk. pose proof (taken_uint ptr n rs rs1 Hwf Hn Hp Htk) as He. destruct Htk as (Hwf1 & Hin & Hout).
  destruct (drop_vec_insert ptr n rs1 Hwf1 Hn Hp He) as [Ht Hd]. split; [done|]. intros pm (rs2 & -> & Hwf2 & Hx)%Hd.
  exists rs2. split; [done|]. split; [done|]. intros x. rewrite Hx, Hout. specialize (Hin x).
  destruct (decide (ptr ≤ x < ptr + n)); unfold in_block in *; tauto.
Qed.

Section safety.
Context {W : Type} `{HW : PxeRom W}.
Context (st_addr : Z → Z) (buf_addr : Z).
Hypothesis w_mem_ok : ∀ w : W, mem_ok (w_mem w).
Implicit Types w : W.

Lemma u32_at_uint m a n o : mem_ok m → is_uint 32 (u32_at (read_bytes m a n) o).
Proof.
  intros Hm. unfold u32_at.
  pose proof (from_le_bytes_uint (take 4 (drop o (read_bytes m a n))) ltac:(apply Forall_take, Forall_drop, read_bytes_ok, Hm)) as Hu.
  unfold is_uint in *. rewrite length_take in Hu.
  assert (2 ^ (8 * Z.of_nat (4 `min` length (drop o (read_bytes m a n)))) ≤ 2 ^ 32) by (apply Z.pow_le_mono_r; lia). lia.
Qed.

(** The loop ends: every packet but the last takes 512 bytes of the capacity. *)
Lemma read_file_safe fuel ep_seg ep_off cap download w : Z.of_nat (length download) ≤ cap →
  (cap - Z.of_nat (length download)) / 512 < Z.of_nat fuel →
  ∃ w' r, read_file st_addr buf_addr fuel ep_seg ep_off cap download w = Done (w', r) ∧
    ∀ f, r = Some f → Z.of_nat (length f) ≤ cap.
Proof.
  revert download w. induction fuel as [|fuel IH]; intros download w Hl Hf.
  { exfalso. assert (0 ≤ (cap - Z.of_nat (length download)) / 512) by (apply Z.div_pos; lia). lia. }
  cbn [read_file]. destruct (request _ _ _ _ _ _) as [w1 st]. set (bread := u16_at st 4).
  destruct (_ || _) eqn:E1; [by eexists _, _|]. apply orb_false_iff in E1 as [_ E1%Z.ltb_ge].
  destruct (cap <? _) eqn:E2; [by eexists _, _|]. apply Z.ltb_ge in E2.
  destruct (bread <? 512) eqn:E3.
  - eexists _, _. split; [done|]. intros f [= <-]. rewrite length_app, length_read_bytes. lia.
  - apply Z.ltb_ge in E3. apply IH; rewrite length_app, length_read_bytes; [lia|].
    replace (Z.to_nat bread) with 512%nat by lia. rewrite Nat2Z.inj_add.
    replace (cap - (Z.of_nat (length download) + Z.of_nat 512)) with (cap - Z.of_nat (length download) + (-1) * 512) by lia.
    rewrite Z.div_add by lia. lia.
Qed.

(** The parts of [download] before the buffer is allocated. *)
Lemma request_mem ep_seg ep_off opcode st w w' st' :
  request st_addr ep_seg ep_off opcode st w = (w', st') → st' = read_bytes (w_mem w') (st_addr opcode) (length st).
Proof. intros E. unfold request in E. by injection E as <- <-. Qed.

Lemma get_file_size_uint ep_seg ep_off ip name w w' n :
  get_file_size st_addr ep_seg ep_off ip name w = Done (w', Some n) → is_uint 32 n.
Proof.
  unfold get_file_size. intros E. case_match; [done|]. apply bind_Done in E as (nm & _ & E).
  destruct (request _ _ _ _ _ _) as [w1 st] eqn:Er. apply request_mem in Er. destruct (negb _); [done|].
  apply Done_pair_inj in E as [_ [= <-]]. rewrite Er. apply u32_at_uint, w_mem_ok.
Qed.

Lemma terminates_index {A} (l : list A) i : terminates (index l i).
Proof. apply terminates_expect. Qed.
Lemma terminates_slice {A} (l : list A) a b : terminates (slice l a b).
Proof. apply terminates_expect. Qed.
Lemma terminates_copy {A} (l : list A) a b src : terminates (copy_from_slice l a b src).
Proof. unfold copy_from_slice. by repeat case_decide. Qed.
#[local] Hint Resolve terminates_index terminates_slice terminates_copy : terminates.

Lemma find_entry_terminates w : terminates (find_entry w).
Proof. unfold find_entry. solve_terminates. Qed.
Lemma get_server_ip_terminates a b w : terminates (get_server_ip st_addr a b w).
Proof. unfold get_server_ip. solve_terminates. Qed.
Lemma get_file_size_terminates a b ip name w : terminates (get_file_size st_addr a b ip name w).
Proof. unfold get_file_size, copy_filename. solve_terminates. Qed.
Lemma open_terminates a b ip name w : terminates (open st_addr a b ip name w).
Proof. unfold open, copy_filename. solve_terminates. Qed.

(** What a download leaves of the free memory [rs]. *)
Definition accounted (rs : RangeSet) (r : W * option RangeSet * option (Z * Z * list Z)) : Prop :=
  let '(_, pm, file) := r in ∃ rs', pm = Some rs' ∧
  match file with
  | None => wf rs' ∧ ∀ x, x ∈ rs' ↔ x ∈ rs
  | Some (ptr, capacity, f) => Z.of_nat (length f) ≤ capacity ∧ taken ptr capacity rs rs'
  end.

Lemma download_total name rs w : wf rs → total (accounted rs) (download st_addr buf_addr name (Some rs) w).
Proof.
  intros Hwf. assert (∀ w, accounted rs (w, Some rs, None)) as Hnone by (intros; exists rs; done).
  unfold download. apply total_bind; [apply find_entry_terminates|]. intros [w1 [[a b]|]] _; [|by apply total_Done].
  apply total_bind; [apply get_server_ip_terminates|]. intros [w2 [ip|]] _; [|by apply total_Done].
  apply total_bind; [apply get_file_size_terminates|]. intros [w3 [n|]] En; [|by apply total_Done].
  apply get_file_size_uint in En as [Hn _]. apply total_bind; [apply open_terminates|]. intros [w4 ok] _.
  destruct ok; cbn [negb]; [|by apply total_Done].
  destruct (with_capacity_spec n rs Hwf Hn) as [Ht Hc]. apply total_bind; [done|]. intros [pm ptr] (rs1 & -> & Hp & Htk)%Hc.
  destruct (read_file_safe (S (Z.to_nat (n / 512))) a b n [] w4) as (w5 & r & -> & Hr); [done|cbn [length]; rewrite Z.sub_0_r; lia|].
  cbn [mbind outcome_bind]. destruct (drop_vec_spec ptr n rs rs1 Hwf Hn Hp Htk) as [Hdt Hd].
  assert (∀ w, total (accounted rs) (pmem ← drop_vec ptr n (Some rs1); Done (w, pmem, None))) as Hdrop.
  { intros w'. apply total_bind; [done|]. intros pm (rs2 & -> & Hrs2)%Hd. apply total_Done. by exists rs2. }
  destruct r as [f|]; [|apply Hdrop]. destruct (close _ _ _ _) as [w6 ok]. destruct ok; [|apply Hdrop].
  apply total_Done. exists rs1. split; [done|]. split; [by apply Hr|done].
Qed.

(** C33: whatever the PXE ROM answers, [download] ends: the packet loop cannot
    run past the size that was announced.  When it gives no file, the bootloader's
    free memory is what it was; when it gives one, the file is no longer than
    the block that was taken for it, and nothing else was taken. *)
Theorem download_safe name rs w : wf rs →
  terminates (download st_addr buf_addr name (Some rs) w) ∧
  ∀ w' pm file, download st_addr buf_addr name (Some rs) w = Done (w', pm, file) → accounted rs (w', pm, file).
Proof. intros Hwf. destruct (download_total name rs w Hwf) as [Ht Hp]. split; [done|]. intros w' pm file E. exact (Hp _ E). Qed.
End safety.

(** ** A ROM with a TFTP server *)

(** The packets of a file: the last one is shorter than 512 bytes. *)
Definition packet (file : list Z) (k : nat) : list Z := take 512 (drop (512 * k) file).

(** What PXE promises about the calls the code makes, when the server [ip] has
    [file] under [name] (padded to 128 bytes): [holds w a st] says that the
    structure [st] is at [a].  [pos] counts the packets read of the open file. *)
Class PxeServer (W : Type) `{PxeRom W} (ep_seg ep_off : Z) (ip name file : list Z) := {
  pos : W → option nat;
  rom_mem_ok (w : W) : mem_ok (w_mem w);
  rom_set_mem m (w : W) : mem_ok m → w_mem (w_set_mem m w) = m ∧ pos (w_set_mem m w) = pos w;
  rom_install (w : W) : let '(w', r) := invoke_realmode 0x1a (set_eax 0x5650 regs_default) w in
    wrap 16 (eax r) = 0x564e ∧ Z.land (efl r) 1 = 0 ∧
    let pxenv := read_bytes (w_mem w') (segoff_to_linear (es r) (wrap 16 (ebx r))) 0x2c in
    take 6 pxenv = [0x50; 0x58; 0x45; 0x4e; 0x56; 0x2b] ∧ pxenv !! 8%nat = Some 0x2c ∧ sum8 pxenv = 0 ∧
    let pxe := read_bytes (w_mem w') (segoff_to_linear (u16_at pxenv 0x2a) (u16_at pxenv 0x28)) 0x58 in
    take 4 pxe = [0x21; 0x50; 0x58; 0x45] ∧ pxe !! 4%nat = Some 0x58 ∧ sum8 pxe = 0 ∧
    u16_at pxe 0x12 = ep_seg ∧ u16_at pxe 0x10 = ep_off ∧ ep_seg ≠ 0;
  rom_cached_info a (w : W) : 0 ≤ a < 2 ^ 16 →
    read_bytes (w_mem w) a 12 = GetCachedInfo PXENV_PACKET_TYPE_DHCP_ACK →
    let w' := pxecall ep_seg ep_off PXE_OPCODE_GET_CACHED_INFO 0 a w in
    let st := read_bytes (w_mem w') a 12 in
    u16_at st 0 = 0 ∧ 0x18 ≤ u16_at st 4 ∧
    read_bytes (w_mem w') (segoff_to_linear (u16_at st 8) (u16_at st 6) + 0x14) 4 = ip;
  rom_file_size a (w : W) : 0 ≤ a < 2 ^ 16 → read_bytes (w_mem w) a 142 = GetFileSize ip name →
    let st := read_bytes (w_mem (pxecall ep_seg ep_off PXE_OPCODE_TFTP_GET_FILE_SIZE 0 a w)) a 142 in
    u16_at st 0 = 0 ∧ u32_at st 138 = Z.of_nat (length file);
  rom_open a (w : W) : 0 ≤ a < 2 ^ 16 → read_bytes (w_mem w) a 142 = TftpOpen ip name →
    let w' := pxecall ep_seg ep_off PXE_OPCODE_TFTP_OPEN 0 a w in
    let st := read_bytes (w_mem w') a 142 in
    u16_at st 0 = 0 ∧ u16_at st 140 = 512 ∧ pos w' = Some 0%nat;
  rom_read a buf k (w : W) : 0 ≤ a < 2 ^ 16 → 0 ≤ buf < 2 ^ 16 → a + 10 ≤ buf ∨ buf + 512 ≤ a →
    pos w = Some k → (512 * k ≤ length file)%nat → read_bytes (w_mem w) a 10 = TftpRead buf →
    let w' := pxecall ep_seg ep_off PXE_OPCODE_TFTP_READ 0 a w in
    let st := read_bytes (w_mem w') a 10 in
    u16_at st 0 = 0 ∧ u16_at st 4 = Z.of_nat (length (packet file k)) ∧
    read_bytes (w_mem w') buf (length (packet file k)) = packet file k ∧ pos w' = Some (S k);
  rom_close a k (w : W) : 0 ≤ a < 2 ^ 16 → pos w = Some k → read_bytes (w_mem w) a 2 = to_le_bytes 2 0 →
    u16_at (read_bytes (w_mem (pxecall ep_seg ep_off PXE_OPCODE_TFTP_CLOSE 0 a w)) a 2) 0 = 0;
}.

Section server.
Context {W : Type} `{HW : PxeRom W}.
Context (ep_seg ep_off : Z) (ip name file : list Z) `{HS : !PxeServer W ep_seg ep_off ip name file}.
Context (st_addr : Z → Z) (buf_addr : Z).
(** The stack is in the first 64 KiB, and the two locals of the loop do not
    overlap. *)
Hypothesis st_low : ∀ op, 0 ≤ st_addr op < 2 ^ 16.
Hypothesis buf_low : 0 ≤ buf_addr < 2 ^ 16.
Hypothesis apart : st_addr PXE_OPCODE_TFTP_READ + 10 ≤ buf_addr ∨ buf_addr + 512 ≤ st_addr PXE_OPCODE_TFTP_READ.
Hypothesis ip_bytes : bytes_ok ip ∧ length ip = 4%nat.
Hypothesis name_bytes : bytes_ok name ∧ length name = 128%nat.
Implicit Types w : W.

(** A request reaches the ROM as it was written. *)
Lemma request_eq op st w : bytes_ok st → ∃ w1, read_bytes (w_mem w1) (st_addr op) (length st) = st ∧ pos w1 = pos w ∧
  request st_addr ep_seg ep_off op st w =
    (let w' := pxecall ep_seg ep_off op 0 (st_addr op) w1 in (w', read_bytes (w_mem w') (st_addr op) (length st))).
Proof.
  intros Hst. exists (w_set_mem (write_bytes (w_mem w) (st_addr op) st) w).
  destruct (rom_set_mem (write_bytes (w_mem w) (st_addr op) st) w) as [E1 E2]; [by apply write_bytes_ok; [apply rom_mem_ok|]|].
  split; [by rewrite E1, read_write_bytes|]. split; [done|]. unfold request. rewrite (wrap_small 16) by apply st_low. done.
Qed.

Lemma find_entry_ok w : ∃ w', find_entry w = Done (w', Some (ep_seg, ep_off)).
Proof.
  unfold find_entry. pose proof (rom_install w) as Hi. destruct (invoke_realmode _ _ w) as [w' r].
  destruct Hi as (-> & -> & Hs & Hl & Hc & Hs' & Hl' & Hc' & E1 & E2 & Hz).
  rewrite (index_eq _ _ _ Hl). cbn [mbind outcome_bind]. rewrite (bool_decide_true _ Hs), Hc. cbn [negb orb Z.eqb Pos.eqb].
  rewrite (index_eq _ _ _ Hl'). cbn [mbind outcome_bind]. rewrite (bool_decide_true _ Hs'), Hc'. cbn [negb orb Z.eqb Pos.eqb].
  rewrite E1, E2. rewrite (proj2 (Z.eqb_neq _ _) Hz). by exists w'.
Qed.

Lemma get_server_ip_ok w : ∃ w', get_server_ip st_addr ep_seg ep_off w = Done (w', Some ip).
Proof.
  unfold get_server_ip. destruct (request_eq PXE_OPCODE_GET_CACHED_INFO (GetCachedInfo PXENV_PACKET_TYPE_DHCP_ACK) w)
    as (w1 & Hm & _ & ->); [by_decide|].
  destruct (rom_cached_info (st_addr PXE_OPCODE_GET_CACHED_INFO) w1) as (H0 & Hlen & Hip); [done|done|].
  change (length (GetCachedInfo PXENV_PACKET_TYPE_DHCP_ACK)) with 12%nat. cbv beta iota zeta.
  set (w' := pxecall _ _ _ _ _ w1) in *. rewrite H0. cbn [negb Z.eqb]. set (a := segoff_to_linear _ _) in *.
  replace (Z.to_nat (u16_at _ 4)) with (0x14 + (4 + (Z.to_nat (u16_at (read_bytes (w_mem w') (st_addr PXE_OPCODE_GET_CACHED_INFO) 12) 4) - 0x18)))%nat by lia.
  rewrite !read_bytes_split. change (Z.of_nat 0x14) with 0x14. rewrite Hip, (slice_get _ ip).
  - cbn [mbind outcome_bind]. by eexists.
  - apply get_app; [by rewrite length_read_bytes|by rewrite (proj2 ip_bytes)].
Qed.

(** The name as the caller gives it. *)
Definition padded (filename : list Z) : Prop := (length filename < 128)%nat ∧ name = filename ++ replicate (128 - length filename) 0.

Lemma copy_filename_ok filename : padded filename → copy_filename filename = Done name.
Proof.
  intros [Hl ->]. unfold copy_filename, copy_from_slice. rewrite length_replicate.
  rewrite !decide_True by lia. cbn [take app]. by rewrite drop_replicate.
Qed.

Lemma get_file_size_ok filename w : padded filename →
  ∃ w', get_file_size st_addr ep_seg ep_off ip filename w = Done (w', Some (Z.of_nat (length file))).
Proof.
  intros Hp. unfold get_file_size. rewrite copy_filename_ok by done. destruct Hp as [Hl _].
  rewrite (proj2 (Nat.ltb_ge _ _)) by lia. cbn [mbind outcome_bind].
  assert (length (GetFileSize ip name) = 142%nat) as El.
  { unfold GetFileSize. rewrite !length_app, (proj2 ip_bytes), (proj2 name_bytes). done. }
  destruct (request_eq PXE_OPCODE_TFTP_GET_FILE_SIZE (GetFileSize ip name) w) as (w1 & Hm & _ & ->).
  { unfold GetFileSize. repeat apply Forall_app_2; try by_decide; [apply ip_bytes|apply name_bytes]. }
  rewrite El in Hm |- *. destruct (rom_file_size _ w1 (st_low _) Hm) as (H0 & Hs). cbv beta iota zeta. rewrite H0, Hs. by eexists.
Qed.

Lemma open_ok filename w : padded filename → ∃ w', open st_addr ep_seg ep_off ip filename w = Done (w', true) ∧ pos w' = Some 0%nat.
Proof.
  intros Hp. unfold open. rewrite copy_filename_ok by done. destruct Hp as [Hl _].
  rewrite (proj2 (Nat.ltb_ge _ _)) by lia. cbn [mbind outcome_bind].
  assert (length (TftpOpen ip name) = 142%nat) as El.
  { unfold TftpOpen. rewrite !length_app, (proj2 ip_bytes), (proj2 name_bytes). done. }
  destruct (request_eq PXE_OPCODE_TFTP_OPEN (TftpOpen ip name) w) as (w1 & Hm & _ & ->).
  { unfold TftpOpen. repeat apply Forall_app_2; try by_decide; [apply ip_bytes|apply name_bytes]. }
  rewrite El in Hm |- *. destruct (rom_open _ w1 (st_low _) Hm) as (H0 & Hs & Hpos). cbv beta iota zeta.
  eexists. rewrite H0, Hs. by split.
Qed.

(** One turn of the loop. *)
Lemma read_request_ok k w : pos w = Some k → (512 * k ≤ length file)%nat →
  ∃ w' st, request st_addr ep_seg ep_off PXE_OPCODE_TFTP_READ (TftpRead (wrap 16 buf_addr)) w = (w', st) ∧
    u16_at st 0 = 0 ∧ u16_at st 4 = Z.of_nat (length (packet file k)) ∧
    read_bytes (w_mem w') buf_addr (length (packet file k)) = packet file k ∧ pos w' = Some (S k).
Proof.
  intros Hpos Hk. rewrite (wrap_small 16) by done.
  destruct (request_eq PXE_OPCODE_TFTP_READ (TftpRead buf_addr) w) as (w1 & Hm & Hp & ->).
  { unfold TftpRead. repeat apply Forall_app_2; apply to_le_bytes_ok. }
  eexists _, _. split; [reflexivity|]. apply (rom_read _ buf_addr k w1); try done. by rewrite Hp.
Qed.

Lemma read_file_ok fuel k w : pos w = Some k → (512 * k ≤ length file)%nat → (length file < 512 * (k + fuel))%nat →
  ∃ w' j, read_file st_addr buf_addr fuel ep_seg ep_off (Z.of_nat (length file)) (take (512 * k) file) w = Done (w', Some file) ∧
    pos w' = Some j.
Proof.
  revert k w. induction fuel as [|fuel IH]; intros k w Hpos Hk Hf; [lia|]. cbn [read_file].
  set (w0 := w_set_mem _ w). assert (pos w0 = Some k) as Hpos0.
  { rewrite <- Hpos. apply rom_set_mem, write_bytes_ok; [apply rom_mem_ok|]. by_decide. }
  destruct (read_request_ok k w0 Hpos0 Hk) as (w1 & st & -> & H0 & Hn & Hb & Hp1). rewrite H0, Hn, Nat2Z.id, Hb.
  cbn [negb orb Z.eqb]. assert (length (packet file k) = 512 `min` (length file - 512 * k))%nat as El.
  { unfold packet. by rewrite length_take, length_drop. }
  rewrite length_take. rewrite !(proj2 (Z.ltb_ge _ _)) by lia.
  assert (take (512 * k) file ++ packet file k = take (512 * S k) file) as Et.
  { unfold packet. replace (512 * S k)%nat with (512 * k + 512)%nat by lia. by rewrite take_take_drop. }
  destruct (_ <? 512) eqn:E3.
  - apply Z.ltb_lt in E3. eexists w1, _. rewrite Et, take_ge by lia. done.
  - apply Z.ltb_ge in E3. rewrite Et. apply IH; [done|lia|lia].
Qed.

Lemma close_ok k w : pos w = Some k → ∃ w', close st_addr ep_seg ep_off w = (w', true).
Proof.
  intros Hpos. unfold close. destruct (request_eq PXE_OPCODE_TFTP_CLOSE (to_le_bytes 2 0) w) as (w1 & Hm & Hp & ->); [by_decide|].
  cbv beta iota zeta. change (length (to_le_bytes 2 0)) with 2%nat in *.
  rewrite (rom_close (st_addr PXE_OPCODE_TFTP_CLOSE) k w1); [by eexists|done|congruence|done].
Qed.

Lemma download_correct filename pm pm' ptr w : padded filename →
  with_capacity (Z.of_nat (length file)) pm = Done (pm', ptr) →
  ∃ w', download st_addr buf_addr filename pm w = Done (w', pm', Some (ptr, Z.of_nat (length file), file)).
Proof.
  intros Hp Hc. unfold download. destruct (find_entry_ok w) as (w1 & ->). cbn [mbind outcome_bind].
  destruct (get_server_ip_ok w1) as (w2 & ->). cbn [mbind outcome_bind].
  destruct (get_file_size_ok filename w2 Hp) as (w3 & ->). cbn [mbind outcome_bind].
  destruct (open_ok filename w3 Hp) as (w4 & -> & Hpos). cbn [mbind outcome_bind negb]. rewrite Hc. cbn [mbind outcome_bind].
  destruct (read_file_ok (S (Z.to_nat (Z.of_nat (length file) / 512))) 0 w4 Hpos) as (w5 & j & E & Hj); [lia| |].
  { pose proof (Z.div_mod (Z.of_nat (length file)) 512 ltac:(lia)). pose proof (Z.mod_pos_bound (Z.of_nat (length file)) 512 ltac:(lia)).
    assert (0 ≤ Z.of_nat (length file) / 512) by (apply Z.div_pos; lia). lia. }
  change (take (512 * 0) file) with (@nil Z) in E. rewrite E. cbn [mbind outcome_bind].
  destruct (close_ok j w5 Hj) as (w6 & ->). by exists w6.
Qed.

(** Without memory for the file *)
Lemma download_no_memory filename pm msg w : padded filename → with_capacity (Z.of_nat (length file)) pm = Panic msg →
  download st_addr buf_addr filename pm w = Panic msg.
Proof.
  intros Hp Hc. unfold download. destruct (find_entry_ok w) as (w1 & ->). cbn [mbind outcome_bind].
  destruct (get_server_ip_ok w1) as (w2 & ->). cbn [mbind outcome_bind].
  destruct (get_file_size_ok filename w2 Hp) as (w3 & ->). cbn [mbind outcome_bind].
  destruct (open_ok filename w3 Hp) as (w4 & -> & _). cbn [mbind outcome_bind negb]. by rewrite Hc.
Qed.

(** C22: over a ROM that serves [file] under the name asked for, [download]
    returns exactly [file], of any length for which there is memory: also when it
    is empty, and when its length is a multiple of the packet size. *)
Theorem download_file filename pm pm' ptr w : padded filename →
  with_capacity (Z.of_nat (length file)) pm = Done (pm', ptr) →
  ∃ w', download st_addr buf_addr filename pm w = Done (w', pm', Some (ptr, Z.of_nat (length file), file)).
Proof. apply download_correct. Qed.
End server.

(** ** A simulated ROM *)

Module Sim.
Record state := mk { smem : mem; spos : option nat }.

(** The addresses where the ROM keeps its structures, and a place for the cached
    packet away from the caller's. *)
Definition PXENV : Z := 0x9000.
Definition PXE : Z := 0x9100.
Definition packet_addr (a : Z) : Z := if a <? 0x8000 then 0xa000 else 0x2000.

Definition demo_ip : list Z := [10; 0; 0; 1].
Definition demo_filename : list Z := [99; 104; 111; 99; 111; 108; 97; 116; 101; 95; 109; 105; 108; 107; 46; 107; 101; 114; 110].
Definition demo_name : list Z := demo_filename ++ replicate 109 0.

(** A kernel at 0x133700000000 with one section of eight bytes, four of them in
    the file, which is padded to 515 bytes. *)
Definition demo_file : list Z :=
  [0x4d; 0x5a] ++ replicate 58 0 ++ to_le_bytes 4 0x40 ++
  [0x50; 0x45; 0; 0] ++ to_le_bytes 2 0x8664 ++ to_le_bytes 2 1 ++ replicate 12 0 ++ to_le_bytes 2 0x20 ++ [0; 0] ++
  replicate 16 0 ++ to_le_bytes 4 0x1002 ++ replicate 4 0 ++ to_le_bytes 8 0x133700000000 ++
  replicate 8 0 ++ to_le_bytes 4 8 ++ to_le_bytes 4 0x1000 ++ to_le_bytes 4 4 ++ to_le_bytes 4 0xa0 ++
  replicate 12 0 ++ to_le_bytes 4 0x60000000 ++ [1; 2; 3; 4] ++ replicate 351 7.

Definition checked (l : list Z) (n : nat) : list Z :=
  let body := l ++ replicate (n - 1 - length l) 0 in body ++ [wrap 8 (- sum8 body)].
Definition pxenv_bytes : list Z :=
  let body := [0x50; 0x58; 0x45; 0x4e; 0x56; 0x2b; 1; 2; 0x2c] ++ replicate 31 0 ++ to_le_bytes 2 PXE ++ to_le_bytes 2 0 in
  <[10%nat := wrap 8 (- sum8 body)]> body.
Definition pxe_bytes : list Z :=
  checked ([0x21; 0x50; 0x58; 0x45; 0x58] ++ replicate 11 0 ++ to_le_bytes 2 0x106 ++ to_le_bytes 2 0x9a00) 0x58.

Definition view (w : state) : mem := wrap 8 <$> smem w.
Definition store (m : mem) (w : state) : state := mk m (spos w).
Definition poke (a : Z) (l : list Z) (w : state) : state := store (write_bytes (view w) a l) w.

Definition read_reply (k : nat) (buf : Z) : list Z :=
  to_le_bytes 2 0 ++ to_le_bytes 2 0 ++ to_le_bytes 2 (Z.of_nat (length (packet demo_file k))) ++ to_le_bytes 2 buf ++ to_le_bytes 2 0.

Definition call (op a : Z) (w : state) : state :=
  if op =? PXE_OPCODE_GET_CACHED_INFO then
    poke a (to_le_bytes 2 0 ++ to_le_bytes 2 2 ++ to_le_bytes 2 0x18 ++ to_le_bytes 2 (packet_addr a) ++ replicate 4 0)
      (poke (packet_addr a) (replicate 0x14 0 ++ demo_ip) w)
  else if op =? PXE_OPCODE_TFTP_GET_FILE_SIZE then poke a (replicate 138 0 ++ to_le_bytes 4 (Z.of_nat (length demo_file))) w
  else if op =? PXE_OPCODE_TFTP_OPEN then
    mk (smem (poke a (replicate 140 0 ++ to_le_bytes 2 512) w)) (Some 0%nat)
  else if op =? PXE_OPCODE_TFTP_READ then
    let buf := u16_at (read_bytes (view w) a 10) 6 in
    let k := default 0%nat (spos w) in
    mk (smem (poke a (read_reply k buf) (poke buf (packet demo_file k) w))) (Some (S k))
  else poke a (to_le_bytes 2 0) w.

#[global] Instance sim_rom : PxeRom state := {
  w_mem := view;
  w_set_mem := store;
  invoke_realmode _ r w := (poke PXE pxe_bytes (poke PXENV pxenv_bytes w), mkRegisterState 0x564e 0 0 PXENV 0 0 0 0 0 0 0 0 0 0);
  pxecall _ _ op _ a w := call op a w;
}.

Lemma view_ok w : mem_ok (view w).
Proof.
  intros x. unfold view, mem_byte. rewrite lookup_fmap. destruct (smem w !! x); cbn; [by apply wrap_uint|done].
Qed.
Lemma view_store m w : mem_ok m → view (store m w) = m.
Proof.
  intros Hm. unfold view, store. cbn. apply map_eq. intros x. rewrite lookup_fmap. specialize (Hm x). unfold mem_byte in Hm.
  destruct (m !! x); cbn in *; [by rewrite wrap_small|done].
Qed.
Lemma view_poke a l w : bytes_ok l → view (poke a l w) = write_bytes (view w) a l.
Proof. intros Hl. apply view_store, write_bytes_ok; [apply view_ok|done]. Qed.

(** What was poked is there, also after a poke elsewhere. *)
Lemma peek_poke a l w : bytes_ok l → read_bytes (view (poke a l w)) a (length l) = l.
Proof. intros Hl. by rewrite view_poke, read_write_bytes. Qed.
Lemma peek_poke_far a l b n w : bytes_ok l → b + Z.of_nat n ≤ a ∨ a + Z.of_nat (length l) ≤ b →
  read_bytes (view (poke a l w)) b n = read_bytes (view w) b n.
Proof.
  intros Hl Hd. rewrite view_poke by done. apply read_bytes_ext. intros x Hx. rewrite lookup_write_bytes, decide_False; [done|].
  unfold in_block in *. lia.
Qed.

Lemma packet_ok k : bytes_ok (packet demo_file k).
Proof. apply Forall_take, Forall_drop. by_decide. Qed.
Lemma packet_length k : (length (packet demo_file k) ≤ 512)%nat.
Proof. unfold packet. rewrite length_take. lia. Qed.

Lemma read_reply_ok k buf : bytes_ok (read_reply k buf).
Proof. unfold read_reply. repeat apply Forall_app_2; apply to_le_bytes_ok. Qed.

Lemma cached_ok a (w : state) : 0 ≤ a < 2 ^ 16 → let w' := call PXE_OPCODE_GET_CACHED_INFO a w in
  let st := read_bytes (view w') a 12 in
  u16_at st 0 = 0 ∧ 0x18 ≤ u16_at st 4 ∧ read_bytes (view w') (segoff_to_linear (u16_at st 8) (u16_at st 6) + 0x14) 4 = demo_ip.
Proof.
  intros Ha. unfold call. cbn [Z.eqb Pos.eqb PXE_OPCODE_GET_CACHED_INFO]. cbv zeta. set (p := packet_addr a).
  assert (is_uint 16 p ∧ (a + 12 ≤ p ∨ p + 24 ≤ a)) as [Hp Hd].
  { unfold p, packet_addr, is_uint. destruct (a <? 0x8000) eqn:E; [apply Z.ltb_lt in E|apply Z.ltb_ge in E]; lia. }
  set (st := _ ++ to_le_bytes 2 2 ++ _). assert (bytes_ok st) as Hst.
  { unfold st. repeat apply Forall_app_2; try apply to_le_bytes_ok. by_decide. }
  rewrite (peek_poke a st) by done. split; [done|]. split; [by_decide|].
  assert (u16_at st 8 = 0 ∧ u16_at st 6 = p) as [-> ->].
  { split; [done|]. change (u16_at st 6) with (from_le_bytes (to_le_bytes 2 p)). by apply from_to_le_bytes. }
  assert (segoff_to_linear 0 p = p) as ->.
  { unfold segoff_to_linear. change (shl 32 0 4) with 0. rewrite wrapping_add_small; unfold is_uint in *; lia. }
  rewrite peek_poke_far by (try done; change (Z.of_nat (length st)) with 12; lia).
  set (pkt := replicate 0x14 0 ++ demo_ip). assert (bytes_ok pkt) as Hpk by by_decide.
  pose proof (peek_poke p pkt w Hpk) as E. change (length pkt) with (0x14 + 4)%nat in E. rewrite read_bytes_split in E.
  apply app_inj_1 in E as [_ E]; [exact E|]. by rewrite length_read_bytes.
Qed.

Lemma read_ok a buf k (w : state) : 0 ≤ buf < 2 ^ 16 → a + 10 ≤ buf ∨ buf + 512 ≤ a →
  spos w = Some k → read_bytes (view w) a 10 = TftpRead buf →
  let w' := call PXE_OPCODE_TFTP_READ a w in
  let st := read_bytes (view w') a 10 in
  u16_at st 0 = 0 ∧ u16_at st 4 = Z.of_nat (length (packet demo_file k)) ∧
  read_bytes (view w') buf (length (packet demo_file k)) = packet demo_file k ∧ spos w' = Some (S k).
Proof.
  intros Hb Hd Hk Hm. unfold call. cbn [Z.eqb Pos.eqb PXE_OPCODE_TFTP_READ PXE_OPCODE_GET_CACHED_INFO PXE_OPCODE_TFTP_GET_FILE_SIZE PXE_OPCODE_TFTP_OPEN].
  rewrite Hm, Hk. assert (u16_at (TftpRead buf) 6 = buf) as ->.
  { change (u16_at (TftpRead buf) 6) with (from_le_bytes (to_le_bytes 2 buf)). by apply from_to_le_bytes. }
  change (default 0%nat (Some k)) with k. pose proof (packet_ok k) as Hpk. pose proof (packet_length k) as Hl. cbv zeta.
  change (view (mk (smem ?x) _)) with (view x). pose proof (read_reply_ok k buf) as Hr.
  change 10%nat with (length (read_reply k buf)) at 1 2. rewrite peek_poke by done. split; [done|]. split.
  { change (u16_at (read_reply k buf) 4) with (from_le_bytes (to_le_bytes 2 (Z.of_nat (length (packet demo_file k))))).
    apply from_to_le_bytes. unfold is_uint. change (2 ^ (8 * Z.of_nat 2)) with 65536. lia. }
  split; [|done]. rewrite peek_poke_far; [by apply peek_poke|done|]. change (Z.of_nat (length (read_reply k buf))) with 10. lia.
Qed.

#[global, refine] Instance sim_server : PxeServer state 0x9a00 0x106 demo_ip demo_name demo_file := { pos := spos }.
Proof.
  - apply view_ok.
  - intros m w Hm. split; [by apply view_store|done].
  - intros w. unfold invoke_realmode, sim_rom. split; [done|]. split; [done|]. cbn [es ebx w_mem sim_rom].
    change (segoff_to_linear 0 (wrap 16 PXENV)) with PXENV. cbv zeta.
    rewrite peek_poke_far by first [by_decide|left; by_decide].
    change 0x2c%nat with (length pxenv_bytes). rewrite peek_poke by by_decide.
    change (segoff_to_linear (u16_at pxenv_bytes 0x2a) (u16_at pxenv_bytes 0x28)) with PXE.
    change 0x58%nat with (length pxe_bytes). rewrite peek_poke by by_decide. repeat split; try by_decide.
  - intros a w Ha _. by apply cached_ok.
  - intros a w Ha _. unfold pxecall, sim_rom, call. cbn [Z.eqb Pos.eqb PXE_OPCODE_TFTP_GET_FILE_SIZE PXE_OPCODE_GET_CACHED_INFO].
    cbn [w_mem]. set (st := replicate 138 0 ++ _). change 142%nat with (length st). cbv zeta.
    rewrite (peek_poke a st) by by_decide. split; by_decide.
  - intros a w Ha _. unfold pxecall, sim_rom, call.
    cbn [Z.eqb Pos.eqb PXE_OPCODE_TFTP_OPEN PXE_OPCODE_GET_CACHED_INFO PXE_OPCODE_TFTP_GET_FILE_SIZE].
    cbn [w_mem]. set (st := replicate 140 0 ++ _). change 142%nat with (length st). cbv zeta.
    change (view (mk (smem ?x) _)) with (view x). rewrite (peek_poke a st) by by_decide. split; [by_decide|]. split; [by_decide|done].
  - intros a buf k w Ha Hb Hd Hk _ Hm. by apply read_ok.
  - intros a k w Ha Hk _. unfold pxecall, sim_rom, call.
    cbn [Z.eqb Pos.eqb PXE_OPCODE_TFTP_CLOSE PXE_OPCODE_GET_CACHED_INFO PXE_OPCODE_TFTP_GET_FILE_SIZE PXE_OPCODE_TFTP_OPEN PXE_OPCODE_TFTP_READ].
    cbn [w_mem]. change 2%nat with (length (to_le_bytes 2 0)) at 1. rewrite peek_poke by by_decide. by_decide.
Defined.
End Sim.

Definition demo_st (op : Z) : Z := 0x7000.
Definition demo_empty : Sim.state := Sim.mk ∅ None.

Lemma download_safe_witness : wf demo_set ∧
  terminates (download demo_st 0x7800 Sim.demo_filename (Some demo_set) demo_empty).
Proof.
  split; [exact demo_wf|]. exact (proj1 (download_safe demo_st 0x7800 Sim.view_ok Sim.demo_filename demo_set demo_empty demo_wf)).
Defined.

Lemma demo_capacity : ∃ pm ptr, with_capacity 515 (Some demo_set) = Done (pm, ptr).
Proof. eexists _, _. vm_compute. reflexivity. Qed.

Lemma download_file_witness : ∃ pm ptr w',
  download demo_st 0x7800 Sim.demo_filename (Some demo_set) demo_empty = Done (w', pm, Some (ptr, 515, Sim.demo_file)).
Proof.
  destruct demo_capacity as (pm & ptr & Hc). exists pm, ptr.
  apply (download_file 0x9a00 0x106 Sim.demo_ip Sim.demo_name Sim.demo_file demo_st 0x7800).
  - intros op. unfold demo_st. lia.
  - lia.
  - left. unfold demo_st. lia.
  - split; by_decide.
  - split; by_decide.
  - split; [by_decide|reflexivity].
  - exact Hc.
Defined.
