(* ===== verification/BootMain.v ===== *)
(** * The bootloader's entry point (bootloader/src/main.rs)

    [entry] as it composes the console, the memory map, the download, the PE
    parser and the page tables into the state the kernel starts from: the
    trampoline table, the kernel's table with its window on physical memory and its
    sections, and a stack for each core.  What [enter64] is given is its result. *)

From stdpp Require Import base tactics option list numbers strings gmap.
From Stdlib Require Import ZArith Lia.
From S2P Require Import Prelude MachineInt Bytes RangeSet BootMm Cpu PhysMem PageTable Serial PeParser Pxe.

Local Open Scope Z_scope.

(** ** Layout (shared/boot_args) *)

Definition KERNEL_STACKS_BASE : Z := 0x0000747300000000.
Definition KERNEL_PHYS_WINDOW_BASE : Z := 0xffffcafe00000000.
Definition KERNEL_STACK_SIZE : Z := 32 * 1024.
Definition KERNEL_STACK_PAD : Z := 32 * 1024.
Definition KERNEL_PHYS_WINDOW_SIZE : Z := 64 * 1024 * 1024 * 1024.

(** [BootArgs], without its locks; [page_table] has the root of the table *)
Record BootArgs := mkBootArgs {
  free_memory : option RangeSet;
  serial : option SerialPort;
  page_table : option Z;
  trampoline_page_table : Z;
  kernel_entry : option Z;
  stack_vaddr : Z;
  soft_reboot_addr : Z;
}.

(** [BOOT_ARGS] as it is declared *)
Definition BOOT_ARGS : BootArgs := mkBootArgs None None None 0 None KERNEL_STACKS_BASE 0.

(** ** Page tables *)

Section tables.
Context {P : Type} `{HPM : PhysMem P}.
Implicit Types s : P.

(** [map_raw(..).unwrap()] *)
Definition map_raw_unwrap (root vaddr : Z) (ty : PageType) (raw : Z) s : outcome P :=
  '(s, r) ← map_raw root vaddr ty raw s;
  _ ← unwrap r;
  Done s.

(** [(p..end).step_by(step)], [n] values *)
Fixpoint step_by (p step : Z) (n : nat) : list Z :=
  match n with O => [] | S n => p :: step_by (p + step) step n end.
Definition steps (end_ step : Z) : list Z := step_by 0 step (Z.to_nat ((end_ + step - 1) / step)).

(** The two windows of the trampoline table *)
Fixpoint map_trampoline (root : Z) (paddrs : list Z) s : outcome P :=
  match paddrs with
  | [] => Done s
  | paddr :: paddrs =>
      s ← map_raw_unwrap root paddr Page4K (Z.lor (Z.lor paddr PAGE_WRITE) PAGE_PRESENT) s;
      s ← map_raw_unwrap root (KERNEL_PHYS_WINDOW_BASE + paddr) Page4K (Z.lor (Z.lor paddr PAGE_WRITE) PAGE_PRESENT) s;
      map_trampoline root paddrs s
  end.

(** The linear map with pages of one size *)
Definition window_entry (ty : PageType) (paddr : Z) : Z :=
  match ty with
  | Page4K => Z.lor (Z.lor paddr PAGE_WRITE) PAGE_PRESENT
  | _ => Z.lor (Z.lor (Z.lor paddr PAGE_SIZE) PAGE_WRITE) PAGE_PRESENT
  end.

Fixpoint map_window (root : Z) (ty : PageType) (paddrs : list Z) s : outcome P :=
  match paddrs with
  | [] => Done s
  | paddr :: paddrs =>
      s ← map_raw_unwrap root (KERNEL_PHYS_WINDOW_BASE + paddr) ty (window_entry ty paddr) s;
      map_window root ty paddrs s
  end.

(** The largest pages the processor has *)
Definition window_type (features : CPUFeatures) : PageType :=
  if gbyte_pages features then Page1G else if pse features then Page2M else Page4K.

Definition linear_map (features : CPUFeatures) (root : Z) s : outcome P :=
  let ty := window_type features in
  assert (KERNEL_PHYS_WINDOW_SIZE mod page_size ty =? 0) "KERNEL_PHYS_WINDOW_SIZE not mod page size";;
  map_window root ty (steps KERNEL_PHYS_WINDOW_SIZE (page_size ty)) s.

(** [raw.get(off as usize).copied().unwrap_or(0)], with the bootloader's [usize] *)
Definition raw_byte (raw : list Z) (off : Z) : Z := nth (Z.to_nat (wrap 32 off)) raw 0.

(** The closure given to [sections]; what [map_init] returns is not looked at. *)
Definition load_section (root cr3 : Z) (sec : Section) s : outcome (P * option unit) :=
  '(s, _) ← map_init root cr3 (s_vaddr sec) Page4K (s_vsize sec) (s_write sec) (s_execute sec) (Some (raw_byte (s_raw sec))) s;
  Done (s, Some tt).

(** The tables of a parsed kernel: their roots, trampoline first. *)
Definition create_tables (features : CPUFeatures) (cr3 bootloader_end : Z) (pe : PeParser) s : outcome (P * Z * Z) :=
  '(s, tramp) ← PageTable.new s;
  s ← map_trampoline tramp (steps bootloader_end 4096) s;
  '(s, table) ← PageTable.new s;
  s ← linear_map features table s;
  '(s, r) ← sections 32 pe (load_section table cr3) s;
  _ ← unwrap r;
  Done (s, tramp, table).

(** The stack of a core *)
Definition map_stack (root cr3 stack_addr : Z) s : outcome P :=
  '(s, r) ← PageTable.map root cr3 stack_addr Page4K KERNEL_STACK_SIZE true false s;
  _ ← unwrap r;
  Done s.
End tables.

(** ** The entry point *)

Section entry.
Context {W : Type} `{HP : Ports W} `{HR : PxeRom W}.
(** The BIOS memory map, and where [download] has its locals *)
Context (e820 : W → Z → W * E820Reply) (st_addr : Z → Z) (buf_addr : Z).
Implicit Types w : W.

(** The words of the BIOS data area at 0x400 *)
Definition bda_words w : list Z := (λ i, from_le_bytes (read_bytes (w_mem w) (0x400 + 2 * Z.of_nat i) 2)) <$> seq 0 4.

Fixpoint clear_screen (n fuel : nat) (driver : SerialPort) w : outcome W :=
  match n with O => Done w | S n => w ← Serial.write fuel driver [0x0a] w; clear_screen n fuel driver w end.

Definition init_serial (fuel : nat) (b : BootArgs) w : outcome (W * BootArgs) :=
  match serial b with
  | Some _ => Done (w, b)
  | None =>
      '(w, driver) ← Serial.new fuel (bda_words w) w;
      w ← clear_screen 100 fuel driver w;
      w ← Serial.write fuel driver (line "Chocolate Milk bootloader starting...") w;
      Done (w, mkBootArgs (free_memory b) (Some driver) (page_table b) (trampoline_page_table b) (kernel_entry b)
                 (stack_vaddr b) (soft_reboot_addr b))
  end.

(** [BOOT_ARGS.serial.lock().as_mut().unwrap().write(..)] *)
Definition log (fuel : nat) (b : BootArgs) (msg : list Z) w : outcome W :=
  driver ← unwrap (serial b); Serial.write fuel driver msg w.

(** The loop that downloads the kernel *)
Fixpoint download_kernel (fuel n : nat) (b : BootArgs) (pm : option RangeSet) w : outcome (W * option RangeSet * (Z * Z * list Z)) :=
  match n with
  | O => OutOfFuel
  | S n =>
      '(w, pm, kern) ← Pxe.download st_addr buf_addr (text "chocolate_milk.kern") pm w;
      match kern with
      | Some kern => Done (w, pm, kern)
      | None => w ← log fuel b (line "Kernel download failed, retrying") w; download_kernel fuel n b pm w
      end
  end.

(** The block that runs on the first core.  The file is dropped at its end. *)
Definition load_kernel (fuel n : nat) (features : CPUFeatures) (cr3 bootloader_end : Z) (b : BootArgs) w : outcome (W * BootArgs) :=
  assert (bool_decide (page_table b = None) && (trampoline_page_table b =? 0)) "Page tables set up before kernel!?";;
  w ← log fuel b (line "Downloading kernel...") w;
  '(w, pm, (ptr, capacity, kernel)) ← download_kernel fuel n b (free_memory b) w;
  w ← log fuel b (line "Kernel download complete!") w;
  pe ← parse 32 kernel;
  pe ← expect pe "Failed to parse PE";
  rs ← expect pm "Whoa, physical memory not initialized yet";
  '(s, tramp, table) ← create_tables features cr3 bootloader_end pe (mkPhysicalMemory (w_mem w) rs);
  pm ← drop_vec ptr capacity (Some (bm_free s));
  Done (w_set_mem (bm_mem s) w,
        mkBootArgs pm (serial b) (Some table) tramp (Some (entry_point pe)) (stack_vaddr b) (soft_reboot_addr b)).

(** The arguments of [enter64]; [e_param] is the address of [BOOT_ARGS] *)
Record Enter64 := mkEnter64 {
  e_entry_point : Z; e_stack : Z; e_param : Z; e_cr3 : Z; e_tramp_cr3 : Z; e_phys_window_base : Z; e_core_id : Z }.

(** The stack of this core, and what the kernel is entered with *)
Definition prepare_core (boot_args cr3 core_id : Z) (b : BootArgs) w : outcome (W * BootArgs * Enter64) :=
  rs ← expect (free_memory b) "Whoa, physical memory not initialized yet";
  root ← unwrap (page_table b);
  let stack_addr := stack_vaddr b in
  s ← map_stack root cr3 stack_addr (mkPhysicalMemory (w_mem w) rs);
  ep ← unwrap (kernel_entry b);
  let b := mkBootArgs (Some (bm_free s)) (serial b) (page_table b) (trampoline_page_table b) (kernel_entry b)
    (wrapping_add 64 stack_addr (KERNEL_STACK_SIZE + KERNEL_STACK_PAD)) (soft_reboot_addr b) in
  Done (w_set_mem (bm_mem s) w, b,
        mkEnter64 ep (wrapping_add 64 stack_addr KERNEL_STACK_SIZE) boot_args (wrap 32 root) (wrap 32 (trampoline_page_table b))
          KERNEL_PHYS_WINDOW_BASE core_id).

(** [entry]: [CORE_ID] is [core_id] before and is incremented.  [fuel] bounds
    the waits for the serial port and the BIOS map, [n] the attempts to download. *)
Definition entry (fuel n : nat) (features : CPUFeatures) (boot_args cr3 bootloader_end soft_reboot_entry core_id : Z) (b : BootArgs) w
    : outcome (W * BootArgs * Z * Enter64) :=
  '(w, b) ← init_serial fuel b w;
  '(w, pm) ← BootMm.init e820 fuel w (free_memory b);
  let b := mkBootArgs pm (serial b) (page_table b) (trampoline_page_table b) (kernel_entry b) (stack_vaddr b) soft_reboot_entry in
  '(w, b) ← match kernel_entry b with None => load_kernel fuel n features cr3 bootloader_end b w | Some _ => Done (w, b) end;
  '(w, b, e) ← prepare_core boot_args cr3 core_id b w;
  Done (w, b, wrapping_add 32 core_id 1, e).
End entry.
