(* ===== verification/BootTables.v ===== *)
(** * What the bootloader maps

    The page tables of bootloader/src/main.rs over any lawful physical memory: the
    identity and window maps of the trampoline, the linear window on physical
    memory, the sections of the kernel and the stacks. *)

From stdpp Require Import base tactics option list numbers strings gmap.
From Stdlib Require Import ZArith Lia.
From S2P Require Import Prelude MachineInt Bytes RangeSet BootMm Cpu Serial PeParser Pxe BootMain PhysMem PageTable PageTableGraph PageTableInv PageTableMap.

Local Open Scope Z_scope.

Section tables.
Context `{HPM : PhysMem P} `{HPL : !PhysMemLaws P}.
Implicit Types s : P.

Definition walk (root : Z) s (v : Z) : option (nat * Z) := mmu_walk (ent (pm_mem s)) root v.

(** The code stops in the allocator. *)
Definition fails {A} (o : outcome A) : Prop := only_alloc_fails o ∧ ∀ a, o ≠ Done a.

Lemma fails_bind {A B} (o : outcome A) (f : A → outcome B) : fails o → fails (o ≫= f).
Proof. intros [Hf Hd]. destruct o as [a| |]; [by destruct (Hd a)|by split..]. Qed.

(** ** A list of pages *)

(** [map_raw(..).expect(msg)] for each address and entry *)
Definition map_raw_expect (msg : string) (root v : Z) (ty : PageType) (raw : Z) s : outcome P :=
  '(s, r) ← map_raw root v ty raw s;
  _ ← expect r msg;
  Done s.

Fixpoint map_list (msg : string) (root : Z) (ty : PageType) (l : list (Z * Z)) s : outcome P :=
  match l with
  | [] => Done s
  | (v, raw) :: l => s ← map_raw_expect msg root v ty raw s; map_list msg root ty l s
  end.

Definition unwrap_msg : string := "called `Option::unwrap()` on a `None` value".

Lemma map_raw_unwrap_eq root v ty raw s : map_raw_unwrap root v ty raw s = map_raw_expect unwrap_msg root v ty raw s.
Proof. reflexivity. Qed.

(** An entry that can be mapped at [v]. *)
Definition entry_ok (ty : PageType) (vr : Z * Z) : Prop :=
  let '(v, raw) := vr in
  canonical v ∧ v mod page_size ty = 0 ∧ is_uint 64 raw ∧ present raw = true ∧ (ty ≠ Page4K → large raw = true).

Definition unmapped (root : Z) (ty : PageType) s (v : Z) : Prop :=
  walk root s v = None ∧ ∀ t, ¬ reach (ent (pm_mem s)) root v (S (type_level ty)) t.

Definition in_page (ty : PageType) (v v' : Z) : Prop := v ≤ v' < v + page_size ty.

(** The pages of [l] are mapped, and nothing else has changed. *)
Record mapped (root : Z) (ty : PageType) (l : list (Z * Z)) (T T' : tables) s s' : Prop := {
  md_inv : pt_inv root T' s';
  md_grown : grown T T' s s';
  md_here v raw v' : (v, raw) ∈ l → canonical v' → in_page ty v v' → walk root s' v' = Some (type_level ty, raw);
  md_other v' : canonical v' → (∀ v raw, (v, raw) ∈ l → ¬ in_page ty v v') → walk root s' v' = walk root s v';
  md_reach v' k t : (type_level ty < k)%nat → reach (ent (pm_mem s')) root v' k t → reach (ent (pm_mem s)) root v' k t;
}.

Lemma in_page_aligned ty v v' : v mod page_size ty = 0 → v' mod page_size ty = 0 → in_page ty v v' → v' = v.
Proof.
  intros H1 H2 H3. unfold in_page in H3. pose proof (page_size_range ty).
  apply Z.mod_divide in H1 as [a ->], H2 as [b ->]; [|lia..]. assert (a = b) by nia. congruence.
Qed.

Lemma map_one_spec msg root ty T s v raw : pt_inv root T s → entry_ok ty (v, raw) → unmapped root ty s v →
  let o := map_raw_expect msg root v ty raw s in
  fails o ∨ ∃ s' T', o = Done s' ∧ mapped root ty [(v, raw)] T T' s s'.
Proof.
  intros Hinv (Hc & Hal & Hu & Hp & Hl) [Hw Hr]. cbn zeta. unfold map_raw_expect.
  destruct (map_raw_maps root T s v ty raw Hinv Hu) as [Hf|(s' & T' & -> & Hinv' & Hsame & Hoth & Hback & Hfwd & Hg)].
  { by split_and!. }
  { left. by apply fails_bind. }
  right. cbn [mbind outcome_bind unwrap expect]. exists s', T'. split; [done|].
  assert (∀ v', canonical v' → agree_below (S (type_level ty)) v v' ↔ in_page ty v v') as Hiff.
  { intros v' Hv'. unfold in_page. rewrite type_size. pose proof (type_level_range ty).
    apply same_page_iff; try done. by rewrite <- type_size. }
  split; [done|done|..].
  - intros v1 raw1 v' [= -> ->]%list_elem_of_singleton Hv' Hin. apply Hsame, Hiff; done.
  - intros v' Hv' Hno. apply Hoth. rewrite Hiff by done. apply (Hno v raw). by left.
  - intros v' k t Hk. by apply Hback.
Qed.

Lemma map_list_spec msg root ty l : ∀ T s, pt_inv root T s → NoDup l.*1 → Forall (entry_ok ty) l →
  (∀ v, v ∈ l.*1 → unmapped root ty s v) →
  let o := map_list msg root ty l s in fails o ∨ ∃ s' T', o = Done s' ∧ mapped root ty l T T' s s'.
Proof.
  induction l as [|[v raw] l IH]; intros T s Hinv Hnd Hok Hun; cbn zeta; cbn [map_list].
  { right. exists s, T. split; [done|]. split; [done|apply grown_refl|intros v raw v' []%not_elem_of_nil|done|done]. }
  cbn [fmap list_fmap fst] in Hnd, Hun. apply NoDup_cons in Hnd as [Hnin Hnd]. apply Forall_cons in Hok as [Hv Hok].
  assert (∀ v' raw', (v', raw') ∈ l → v' ≠ v ∧ canonical v' ∧ v' mod page_size ty = 0) as Hl.
  { intros v' raw' Hin. rewrite Forall_forall in Hok. destruct (Hok _ Hin) as (? & ? & _). split_and!; try done.
    intros ->. apply Hnin. by apply (list_elem_of_fmap_2 fst) in Hin. }
  destruct (map_one_spec msg root ty T s v raw Hinv Hv) as [Hf|(s1 & T1 & -> & H1)]; [apply Hun; by left|left; by apply fails_bind|].
  cbn [mbind outcome_bind]. destruct (IH T1 s1) as [Hf|(s2 & T2 & -> & H2)]; [apply H1|done|done| |by left|].
  { intros v' (vr & -> & Hin)%list_elem_of_fmap. destruct vr as [v' raw']. cbn. destruct (Hl _ _ Hin) as (Hne & Hc & Hal).
    destruct (Hun v') as [Hw Hr]; [right; by apply (list_elem_of_fmap_2 fst) in Hin|]. split.
    - rewrite (md_other _ _ _ _ _ _ _ H1); [done|done|]. intros v1 raw1 [= -> ->]%list_elem_of_singleton Hi.
      apply Hne, (in_page_aligned ty); [apply Hv|done|done].
    - intros t Ht. apply (Hr t), (md_reach _ _ _ _ _ _ _ H1); [lia|done]. }
  right. exists s2, T2. split; [done|]. split.
  - apply H2.
  - eapply grown_trans; [apply H1|apply H2].
  - intros v1 raw1 v' [[= -> ->]|Hin]%elem_of_cons Hv' Hi; [|by apply (md_here _ _ _ _ _ _ _ H2 v1)].
    rewrite (md_other _ _ _ _ _ _ _ H2); [|done|].
    + apply (md_here _ _ _ _ _ _ _ H1 v); [by left|done|done].
    + intros v2 raw2 Hin2 Hi2. destruct (Hl _ _ Hin2) as (Hne & _ & Hal2). apply Hne.
      pose proof (page_size_range ty). destruct Hv as (_ & Hal & _). unfold in_page in *.
      apply Z.mod_divide in Hal as [a ->], Hal2 as [b ->]; [|lia..]. assert (a = b) by nia. congruence.
  - intros v' Hv' Hno. rewrite (md_other _ _ _ _ _ _ _ H2), (md_other _ _ _ _ _ _ _ H1); try done.
    + intros v1 raw1 [= -> ->]%list_elem_of_singleton. apply (Hno v raw). by left.
    + intros v1 raw1 Hin. apply (Hno v1 raw1). by right.
  - intros v' k t Hk Hr. apply (md_reach _ _ _ _ _ _ _ H1), (md_reach _ _ _ _ _ _ _ H2); done.
Qed.

(** ** The loops as lists *)

Lemma step_by_eq step n : ∀ p, step_by p step n = (λ k, p + Z.of_nat k * step) <$> seq 0 n.
Proof.
  induction n as [|n IH]; intros p; [done|]. cbn [step_by]. rewrite <- cons_seq, fmap_cons, IH, <- fmap_S_seq, <- list_fmap_compose.
  f_equal; [lia|]. apply list_fmap_ext. intros _ k _. cbn. lia.
Qed.

Lemma elem_of_steps end_ step p : 0 ≤ end_ → 0 < step → p ∈ steps end_ step ↔ 0 ≤ p < end_ ∧ p mod step = 0.
Proof.
  intros He Hs. unfold steps. rewrite step_by_eq, list_elem_of_fmap.
  assert (∀ k, 0 ≤ k → k < (end_ + step - 1) / step ↔ k * step < end_) as Hk.
  { intros k Hk. split; intros H.
    - assert ((k + 1) * step ≤ end_ + step - 1) by (etrans; [|apply (Z.mul_div_le _ step); lia]; nia). lia.
    - assert (k + 1 ≤ (end_ + step - 1) / step) by (apply Z.div_le_lower_bound; lia). lia. }
  split.
  - intros (k & -> & Hin%elem_of_seq). rewrite Z.add_0_l, Z.mod_mul by lia. specialize (Hk (Z.of_nat k)). lia.
  - intros [Hp Hm]. apply Z.mod_divide in Hm as [q ->]; [|lia]. exists (Z.to_nat q).
    assert (0 ≤ q) by nia. split; [lia|]. apply elem_of_seq. specialize (Hk q). lia.
Qed.

Lemma NoDup_steps end_ step : 0 < step → NoDup (steps end_ step).
Proof. intros Hs. unfold steps. rewrite step_by_eq. apply NoDup_fmap_2_strong; [|apply NoDup_seq]. intros a b _ _ E. nia. Qed.

Lemma map_window_list root ty ps : ∀ s,
  map_window root ty ps s = map_list unwrap_msg root ty ((λ p, (KERNEL_PHYS_WINDOW_BASE + p, window_entry ty p)) <$> ps) s.
Proof.
  induction ps as [|p ps IH]; intros s; cbn; [done|]. rewrite map_raw_unwrap_eq; destruct (map_raw_expect _ _ _ _ _ s); cbn; [apply IH|done|done].
Qed.

Definition trampoline_list (ps : list Z) : list (Z * Z) :=
  ps ≫= λ p, [(p, window_entry Page4K p); (KERNEL_PHYS_WINDOW_BASE + p, window_entry Page4K p)].

Lemma map_trampoline_list root ps : ∀ s, map_trampoline root ps s = map_list unwrap_msg root Page4K (trampoline_list ps) s.
Proof.
  induction ps as [|p ps IH]; intros s; [done|]. cbn [map_trampoline]. unfold trampoline_list. rewrite bind_cons. cbn [app map_list].
  rewrite map_raw_unwrap_eq. destruct (map_raw_expect _ root p _ _ s) as [s1| |]; cbn [mbind outcome_bind]; [|done|done].
  rewrite map_raw_unwrap_eq. destruct (map_raw_expect _ root (KERNEL_PHYS_WINDOW_BASE + p) _ _ s1) as [s2| |]; cbn [mbind outcome_bind]; [|done|done]. apply IH.
Qed.

(** The entries are those of writable, executable pages. *)
Lemma window_entry_eq ty p : window_entry ty p = page_entry p ty true true.
Proof.
  unfold page_entry. apply Z.bits_inj'. intros i _. destruct ty; cbn [window_entry];
    first [rewrite decide_False by naive_solver|rewrite decide_True by done]; rewrite !Z.lor_spec, ?Z.bits_0;
    destruct (Z.testbit p i), (Z.testbit PAGE_WRITE i), (Z.testbit PAGE_PRESENT i), (Z.testbit PAGE_SIZE i); done.
Qed.

Lemma window_entry_ok ty p v : 0 ≤ p < 2 ^ 52 → p mod page_size ty = 0 → canonical v → v mod page_size ty = 0 →
  entry_ok ty (v, window_entry ty p).
Proof.
  intros Hp Hm Hc Hv. rewrite window_entry_eq. destruct (page_entry_facts p ty true true Hp Hm) as (H1 & H2 & H3 & _). by split_and!.
Qed.

Lemma window_canonical p : 0 ≤ p < KERNEL_PHYS_WINDOW_SIZE → canonical (KERNEL_PHYS_WINDOW_BASE + p).
Proof. unfold canonical, is_uint, KERNEL_PHYS_WINDOW_SIZE, KERNEL_PHYS_WINDOW_BASE. lia. Qed.

Lemma window_aligned ty p : p mod page_size ty = 0 → (KERNEL_PHYS_WINDOW_BASE + p) mod page_size ty = 0.
Proof. intros Hp. rewrite Z.add_mod, Hp by (pose proof (page_size_range ty); lia). by destruct ty. Qed.

(** The page of an offset. *)
Definition page_of (ty : PageType) (x : Z) : Z := x - x mod page_size ty.

Lemma page_of_facts ty x : 0 ≤ x → 0 ≤ page_of ty x ≤ x ∧ page_of ty x mod page_size ty = 0 ∧ x < page_of ty x + page_size ty.
Proof.
  intros Hx. unfold page_of. pose proof (page_size_range ty). pose proof (Z.mod_pos_bound x (page_size ty) ltac:(lia)).
  pose proof (Z.mod_le x (page_size ty) Hx ltac:(lia)). split; [lia|]. split; [|lia].
  rewrite Zminus_mod, Z.mod_mod, Z.sub_diag by lia. apply Z.mod_0_l. lia.
Qed.

(** Every address of the window leads to the same offset in physical memory. *)
Definition linear_window (root : Z) (ty : PageType) (size : Z) s : Prop :=
  ∀ x, 0 ≤ x < size → walk root s (KERNEL_PHYS_WINDOW_BASE + x) = Some (type_level ty, page_entry (page_of ty x) ty true true).

Definition in_window (size v : Z) : Prop := KERNEL_PHYS_WINDOW_BASE ≤ v < KERNEL_PHYS_WINDOW_BASE + size.

(** What one phase of the construction keeps. *)
Record kept (root : Z) (T T' : tables) s s' : Prop := {
  kp_inv : pt_inv root T' s';
  kp_grown : grown T T' s s';
  kp_walk v e : canonical v → walk root s v = Some e → walk root s' v = Some e;
}.

Lemma kept_trans root T T1 T2 s s1 s2 : kept root T T1 s s1 → kept root T1 T2 s1 s2 → kept root T T2 s s2.
Proof. intros [A1 A2 A3] [B1 B2 B3]. split; [done|by eapply grown_trans|]. intros v e Hv He. by apply B3, A3. Qed.

Lemma linear_map_spec features root T s : pt_inv root T s → (∀ v, in_window KERNEL_PHYS_WINDOW_SIZE v → unmapped root (window_type features) s v) →
  let o := linear_map features root s in
  fails o ∨ ∃ s' T', o = Done s' ∧ pt_inv root T' s' ∧ grown T T' s s' ∧
    linear_window root (window_type features) KERNEL_PHYS_WINDOW_SIZE s' ∧
    ∀ v, canonical v → ¬ in_window KERNEL_PHYS_WINDOW_SIZE v → walk root s' v = walk root s v.
Proof.
  intros Hinv Hun. cbn zeta. unfold linear_map. set (ty := window_type features) in *.
  assert (KERNEL_PHYS_WINDOW_SIZE mod page_size ty = 0) as Hsz by (by destruct ty). rewrite Hsz. cbn [Z.eqb assert mbind outcome_bind].
  pose proof (page_size_range ty) as Hps. set (ps := steps _ _).
  assert (∀ p, p ∈ ps ↔ 0 ≤ p < KERNEL_PHYS_WINDOW_SIZE ∧ p mod page_size ty = 0) as Hin.
  { intros p. apply elem_of_steps; [done|lia]. }
  rewrite map_window_list. set (l := _ <$> ps).
  assert (∀ v raw, (v, raw) ∈ l ↔ ∃ p, p ∈ ps ∧ v = KERNEL_PHYS_WINDOW_BASE + p ∧ raw = window_entry ty p) as Hl.
  { intros v raw. unfold l. rewrite list_elem_of_fmap. split; [intros (p & [= -> ->] & Hp)|intros (p & Hp & -> & ->)]; by exists p. }
  destruct (map_list_spec unwrap_msg root ty l T s Hinv) as [|(s' & T' & -> & [Hi Hg Hh Ho _])]; [..|by left|].
  - unfold l. rewrite <- list_fmap_compose. apply NoDup_fmap_2; [intros a b E; cbn in E; lia|]. apply NoDup_steps. lia.
  - apply Forall_forall. intros [v raw] (p & [Hp Hm]%Hin & -> & ->)%Hl. apply window_entry_ok; [unfold KERNEL_PHYS_WINDOW_SIZE in Hp; lia|done|by apply window_canonical|by apply window_aligned].
  - intros v ([v' raw] & -> & (p & [Hp Hm]%Hin & -> & ->)%Hl)%list_elem_of_fmap. apply Hun. unfold in_window. cbn. lia.
  - right. exists s', T'. split; [done|]. split; [done|]. split; [done|]. split.
    + intros x Hx. destruct (page_of_facts ty x ltac:(lia)) as (H1 & H2 & H3). rewrite <- window_entry_eq.
      apply (Hh (KERNEL_PHYS_WINDOW_BASE + page_of ty x)); [|by apply window_canonical|unfold in_page; lia].
      apply Hl. exists (page_of ty x). split; [apply Hin; lia|done].
    + intros v Hv Hno. apply Ho; [done|]. intros v' raw (p & [Hp Hm]%Hin & -> & ->)%Hl Hi'. apply Hno.
      unfold in_window, in_page in *. apply Z.mod_divide in Hsz as [q Hq], Hm as [r ->]; [|lia..]. split; [lia|].
      rewrite Hq in Hp |- *. assert (r < q) by nia.
      assert ((r + 1) * page_size ty ≤ q * page_size ty) by (apply Z.mul_le_mono_nonneg_r; lia). lia.
Qed.

(** ** The trampoline *)

Lemma NoDup_trampoline ps : NoDup ps → (∀ p, p ∈ ps → 0 ≤ p < 2 ^ 32) → NoDup (trampoline_list ps).*1.
Proof.
  intros Hnd Hp. assert ((trampoline_list ps).*1 ≡ₚ ps ++ (Z.add KERNEL_PHYS_WINDOW_BASE <$> ps)) as ->.
  { clear. induction ps as [|p ps IH]; [done|]. unfold trampoline_list in *. rewrite bind_cons. cbn. rewrite IH.
    constructor. by rewrite Permutation_middle. }
  apply NoDup_app. split; [done|]. split; [|apply NoDup_fmap_2; [intros a b; lia|done]].
  intros p H1 (q & -> & H2)%list_elem_of_fmap. specialize (Hp _ H1) as H3. specialize (Hp _ H2). unfold KERNEL_PHYS_WINDOW_BASE in *. lia.
Qed.

Lemma elem_of_trampoline ps v raw : (v, raw) ∈ trampoline_list ps ↔
  ∃ p, p ∈ ps ∧ raw = window_entry Page4K p ∧ (v = p ∨ v = KERNEL_PHYS_WINDOW_BASE + p).
Proof.
  unfold trampoline_list. rewrite list_elem_of_bind. split.
  - intros (p & Hin & Hp). exists p. split; [done|]. repeat (apply elem_of_cons in Hin as [[= -> ->]|Hin]); [by auto..|].
    by apply not_elem_of_nil in Hin.
  - intros (p & Hp & -> & [->| ->]); exists p; (split; [|done]); [by left|by right; left].
Qed.

(** The first [size] bytes are mapped to themselves. *)
Definition identity (root size : Z) s : Prop :=
  ∀ x, 0 ≤ x < size → walk root s x = Some (3%nat, page_entry (page_of Page4K x) Page4K true true).

Lemma trampoline_spec root bend T s : 0 ≤ bend ≤ 2 ^ 32 → pt_inv root T s → (∀ v, unmapped root Page4K s v) →
  let o := map_trampoline root (steps bend 4096) s in
  fails o ∨ ∃ s' T', o = Done s' ∧ pt_inv root T' s' ∧ grown T T' s s' ∧ identity root bend s' ∧ linear_window root Page4K bend s'.
Proof.
  intros Hb Hinv Hun. cbn zeta. set (ps := steps _ _). rewrite map_trampoline_list.
  assert (∀ p, p ∈ ps ↔ 0 ≤ p < bend ∧ p mod 4096 = 0) as Hin by (intros p; apply elem_of_steps; lia).
  assert (∀ x, 0 ≤ x < 2 ^ 32 → canonical x) as Hlow by (unfold canonical, is_uint; lia).
  destruct (map_list_spec unwrap_msg root Page4K (trampoline_list ps) T s Hinv) as [|(s' & T' & -> & [Hi Hg Hh _ _])]; [..|by left|].
  - apply NoDup_trampoline; [by apply NoDup_steps|]. intros p [Hp _]%Hin. lia.
  - apply Forall_forall. intros [v raw] (p & [Hp Hm]%Hin & -> & [->| ->])%elem_of_trampoline.
    + apply window_entry_ok; [lia|done|apply Hlow; lia|done].
    + apply window_entry_ok; [lia|done|apply window_canonical; unfold KERNEL_PHYS_WINDOW_SIZE; lia|by apply window_aligned].
  - intros v _. apply Hun.
  - right. exists s', T'. do 3 (split; [done|]).
    assert (∀ x, 0 ≤ x < bend → ∀ v, (v = page_of Page4K x ∨ v = KERNEL_PHYS_WINDOW_BASE + page_of Page4K x) →
      ∀ v', canonical v' → in_page Page4K v v' → walk root s' v' = Some (3%nat, page_entry (page_of Page4K x) Page4K true true)) as Hwalk.
    { intros x Hx v Hv v' Hc Hp. rewrite <- window_entry_eq. apply (Hh v); [|done|done]. apply elem_of_trampoline.
      exists (page_of Page4K x). split; [|done]. apply Hin. destruct (page_of_facts Page4K x ltac:(lia)) as (H1 & H2 & _). split; [lia|done]. }
    split; intros x Hx; destruct (page_of_facts Page4K x ltac:(lia)) as (H1 & H2 & H3).
    + apply (Hwalk x Hx (page_of Page4K x)); [by left|apply Hlow; lia|unfold in_page; lia].
    + apply (Hwalk x Hx (KERNEL_PHYS_WINDOW_BASE + page_of Page4K x)); [by right|apply window_canonical; unfold KERNEL_PHYS_WINDOW_SIZE; lia|unfold in_page; lia].
Qed.

(** ** A new table *)

Lemma new_grown s s' root : pm_ok s → PageTable.new s = Done (s', root) → grown ∅ {[root := 0%nat]} s s'.
Proof.
  intros Hok E. unfold PageTable.new, alloc_phys_zeroed in E. apply bind_Done in E as ([s1 a] & Ha & E).
  destruct (alloc_spec 12 _ _ _ Hok ltac:(lia) Ha) as (H1 & H2 & H3 & H4 & H5 & H6 & H7 & H8).
  rewrite translate_returns in E by (lia || (intros x Hx; by apply H4)). cbn [mbind outcome_bind] in E.
  apply Done_pair_inj in E as [<- <-]. split_and!.
  - apply map_empty_subseteq.
  - intros x. by rewrite set_mem_window.
  - intros x. rewrite set_mem_free. intros Hx. by apply H5.
  - intros t x _ [l [<- _]%lookup_singleton_Some] Hx. by apply H4.
  - intros x Hx _. rewrite set_mem_mem, lookup_write_bytes, length_replicate, decide_False; [by apply H7|].
    intros Hb. by apply Hx, H4.
Qed.

Lemma new_table s : pm_ok s → let o := PageTable.new s in
  fails o ∨ ∃ s' root, o = Done (s', root) ∧ pt_inv root {[root := 0%nat]} s' ∧ grown ∅ {[root := 0%nat]} s s' ∧
    ∀ ty v, unmapped root ty s' v.
Proof.
  intros Hok. cbn zeta. destruct (new_correct s Hok) as [(msg & E & Ea)|[[E Ea]|(s' & root & E & Hinv & _ & Hw)]]; rewrite E.
  - left. split; [left; by exists s, 4096|done].
  - left. split; [left; by exists s, 4096|done].
  - right. exists s', root. split; [done|]. split; [done|]. split; [by apply new_grown|].
    intros ty v. split; [apply Hw|]. intros t Hr. pose proof (reach_table _ _ _ _ _ _ (pt_graph _ _ _ Hinv) Hr) as Ht.
    apply lookup_singleton_Some in Ht as [_ Ht]. lia.
Qed.

(** A table that another one's construction does not touch. *)
Lemma grown_other root T (T1 T2 : tables) s s' : pt_inv root T s → pm_ok s' → grown T1 T2 s s' →
  (∀ t u l x, T !! t = Some l → is_Some (T1 !! u) → in_block t 4096 x → ¬ in_block u 4096 x) →
  pt_inv root T s' ∧ ∀ v, walk root s' v = walk root s v.
Proof.
  intros Hinv Hok (_ & Hwin & Hfree & _ & Hmem) Hd.
  assert (∀ t l x, T !! t = Some l → in_block t 4096 x → ¬ pm_free s x) as Hnf.
  { intros t l x Ht Hx. by apply (pt_page _ _ _ Hinv t l Ht). }
  destruct (pt_inv_frame root T s s' Hinv Hok Hwin) as (H1 & H2 & _); [..|by split].
  - intros t l x Ht Hx. apply Hmem; [by eapply Hnf|]. intros u Hu. by eapply Hd.
  - intros t l x Ht Hx Hf. by eapply Hnf, Hfree.
Qed.
End tables.
