(* ===== verification/BootLoad.v ===== *)
(** * The kernel in memory

    The sections of the kernel and the stacks of its cores over any lawful
    physical memory: each byte of a section is behind its address with the
    section's permissions, no two pages share a frame, and what later phases
    allocate leaves them alone. *)

From stdpp Require Import base tactics option list numbers strings gmap.
From Stdlib Require Import ZArith Lia.
From S2P Require Import Prelude MachineInt Bytes RangeSet BootMm Cpu Serial PeParser Pxe BootMain PhysMem PageTable PageTableGraph PageTableInv PageTableMap BootTables.

Local Open Scope Z_scope.

(** ** Regions *)

(** [r_count] pages of 4 KiB from [r_vaddr] on, and what they hold at first *)
Record region := mkRegion {
  r_vaddr : Z; r_count : nat; r_write : bool; r_exec : bool; r_init : option (Z → Z) }.

Definition r_page (r : region) (k : nat) : Z := r_vaddr r + Z.of_nat k * 4096.
Definition in_region (r : region) (v : Z) : Prop := in_block (r_vaddr r) (Z.of_nat (r_count r) * 4096) v.

Definition region_ok (r : region) : Prop :=
  (0 < r_count r)%nat ∧ r_vaddr r mod 4096 = 0 ∧ (∀ v, in_region r v → canonical v) ∧
  ∀ f z, r_init r = Some f → is_uint 8 (f z).

(** A page of one of the regions *)
Definition page_in (rs : list region) (v : Z) : Prop := ∃ r k, r ∈ rs ∧ (k < r_count r)%nat ∧ v = r_page r k.

Section regions.
Context `{HPM : PhysMem P} `{HPL : !PhysMemLaws P}.
Implicit Types s : P.

(** [F] gives the frame of every page: the pages have their permissions and
    contents, no two share a frame, and no frame is free or holds a table. *)
Record loaded (root : Z) (T : tables) s (rs : list region) (F : Z → Z) : Prop := {
  ld_frame r k : r ∈ rs → (k < r_count r)%nat →
    is_uint 52 (F (r_page r k)) ∧ F (r_page r k) mod 4096 = 0 ∧
    ∀ v, in_block (r_page r k) 4096 v →
      walk root s v = Some (3%nat, page_entry (F (r_page r k)) Page4K (r_write r) (r_exec r));
  ld_own v x : page_in rs v → in_block (F v) 4096 x → ¬ pm_free s x ∧ ∀ t, is_Some (T !! t) → ¬ in_block t 4096 x;
  ld_apart v v' : page_in rs v → page_in rs v' → F v = F v' → v = v';
  ld_init r k f off : r ∈ rs → (k < r_count r)%nat → r_init r = Some f → 0 ≤ off < 4096 →
    mem_byte (pm_mem s) (F (r_page r k) + off) = f (Z.of_nat k * 4096 + off);
}.

Lemma loaded_nil root T s F : loaded root T s [] F.
Proof.
  split.
  - by intros r k ?%not_elem_of_nil.
  - by intros v x (r & k & ?%not_elem_of_nil & _).
  - by intros v v' (r & k & ?%not_elem_of_nil & _).
  - by intros r k f off ?%not_elem_of_nil.
Qed.

Lemma page_in_region r k v : (k < r_count r)%nat → in_block (r_page r k) 4096 v → in_region r v.
Proof. unfold in_region, in_block, r_page. lia. Qed.

(** Growing the tables, of this or another root, keeps what is loaded. *)
Lemma loaded_grown root T T' s s' rs F : loaded root T s rs F → grown T T' s s' →
  (∀ v e, canonical v → walk root s v = Some e → walk root s' v = Some e) → Forall region_ok rs →
  loaded root T' s' rs F.
Proof.
  intros [H1 H2 H3 H4] (_ & _ & Hfree & Hnew & Hmem) Hw Hok. rewrite Forall_forall in Hok. split.
  - intros r k Hr Hk. destruct (H1 r k Hr Hk) as (A & B & C). split_and!; [done|done|]. intros v Hv.
    apply Hw; [|by apply C]. eapply Hok, page_in_region; done.
  - intros v x Hp Hx. destruct (H2 v x Hp Hx) as [A B]. split; [by intros ?%Hfree|]. intros t Ht Hb.
    destruct (T !! t) as [l|] eqn:E; [by apply (B t)|]. by apply A, (Hnew t x).
  - done.
  - intros r k f off Hr Hk Hf Ho. rewrite <- (H4 r k f off Hr Hk Hf Ho).
    destruct (H2 (r_page r k) (F (r_page r k) + off)) as [A B]; [by exists r, k|unfold in_block; lia|]. by apply Hmem.
Qed.

(** Loading one more region *)
Definition load_region (root cr3 size : Z) (r : region) s : outcome (P * option unit) :=
  map_init root cr3 (r_vaddr r) Page4K size (r_write r) (r_exec r) (r_init r) s.

Lemma region_page_inj r j k : r_page r j = r_page r k → j = k.
Proof. unfold r_page. lia. Qed.

Lemma page_in_cons r rs v : page_in (r :: rs) v ↔ (∃ k, (k < r_count r)%nat ∧ v = r_page r k) ∨ page_in rs v.
Proof.
  unfold page_in. split.
  - intros (r' & k & [->|Hr]%elem_of_cons & Hk & ->); [left; by exists k|right; by exists r', k].
  - intros [(k & Hk & ->)|(r' & k & Hr & Hk & ->)]; [exists r, k|exists r', k]; (split; [|done]); [by left|by right].
Qed.
(** The frames with those of a new region *)
Definition add_frames (r : region) (pg : nat → Z) (F : Z → Z) (v : Z) : Z :=
  if decide (r_vaddr r ≤ v < r_vaddr r + Z.of_nat (r_count r) * 4096) then pg (Z.to_nat ((v - r_vaddr r) / 4096)) else F v.

Lemma add_frames_here r pg F k : (k < r_count r)%nat → add_frames r pg F (r_page r k) = pg k.
Proof.
  intros Hk. unfold add_frames, r_page. rewrite decide_True by lia. f_equal.
  replace (r_vaddr r + Z.of_nat k * 4096 - r_vaddr r) with (Z.of_nat k * 4096) by lia. rewrite Z.div_mul by lia. lia.
Qed.

Lemma add_frames_other r pg F v : ¬ in_region r v → add_frames r pg F v = F v.
Proof. intros Hv. unfold add_frames. by rewrite decide_False. Qed.

Lemma loaded_add root T s s' rs F r pg :
  (∀ v, page_in rs v → ¬ in_region r v) → loaded root T s' rs F →
  (∀ k v, (k < r_count r)%nat → in_block (r_page r k) 4096 v →
     walk root s' v = Some (3%nat, page_entry (pg k) Page4K (r_write r) (r_exec r))) →
  (∀ k, (k < r_count r)%nat → fresh_page T s s' Page4K (r_init r) (Z.of_nat k * 4096) (pg k)) →
  (∀ j k, (j < r_count r)%nat → (k < r_count r)%nat → pg j = pg k → j = k) →
  (∀ v k, page_in rs v → (k < r_count r)%nat → F v ≠ pg k) → Z.of_nat (r_count r) * 4096 ≤ 2 ^ 64 →
  loaded root T s' (r :: rs) (add_frames r pg F).
Proof.
  intros Hdis [H1 H2 H3 H4] Hw Hfr Hinj Hne Hsz.
  assert (∀ r' k, r' ∈ rs → (k < r_count r')%nat → add_frames r pg F (r_page r' k) = F (r_page r' k)) as Hold.
  { intros r' k Hr Hk. apply add_frames_other, Hdis. by exists r', k. }
  assert (∀ v, page_in rs v → add_frames r pg F v = F v) as Hold' by (intros v Hv; by apply add_frames_other, Hdis).
  split.
  - intros r' k [->|Hr]%elem_of_cons Hk; [|rewrite Hold by done; by apply H1]. rewrite add_frames_here by done.
    destruct (Hfr k Hk) as [A _ B _ _]. split_and!; [done|done|]. intros v. by apply Hw.
  - intros v x [(k & Hk & ->)|Hv]%page_in_cons; [|rewrite Hold' by done; by apply H2]. rewrite add_frames_here by done.
    intros Hx. destruct (fp_block _ _ _ _ _ _ _ (Hfr k Hk) x Hx) as (_ & A & _ & B). done.
  - intros v v' [(k & Hk & ->)|Hv]%page_in_cons [(k' & Hk' & ->)|Hv']%page_in_cons;
      rewrite ?add_frames_here, ?Hold' by done.
    + intros E. f_equal. by apply Hinj.
    + intros E. symmetry in E. by apply Hne in E.
    + intros E. by apply Hne in E.
    + by apply H3.
  - intros r' k f off [->|Hr]%elem_of_cons Hk Hf Ho; [|rewrite Hold by done; by apply H4].
    rewrite add_frames_here, (fp_init _ _ _ _ _ _ _ (Hfr k Hk) f off Hf Ho) by done. f_equal.
    apply wrapping_add_small. unfold is_uint. lia.
Qed.

Lemma load_region_spec root cr3 size r T s rs F :
  pt_inv root T s → loaded root T s rs F → Forall region_ok (r :: rs) → 0 < size → r_count r = page_count Page4K size →
  (∀ v, in_region r v → walk root s v = None) →
  let o := load_region root cr3 size r s in
  fails o ∨ ∃ s' T' F', o = Done (s', Some tt) ∧ pt_inv root T' s' ∧ grown T T' s s' ∧ loaded root T' s' (r :: rs) F' ∧
    (∀ v, canonical v → ¬ in_region r v → walk root s' v = walk root s v) ∧
    (∀ v, page_in rs v → F' v = F v) ∧
    ∀ k x, (k < r_count r)%nat → in_block (F' (r_page r k)) 4096 x → pm_free s x.
Proof.
  intros Hinv Hld Hok Hsz Hcnt Hun. cbn zeta. apply Forall_cons in Hok as [(Hpos & Hal & Hcan & Hini) Hok].
  assert (size ≤ Z.of_nat (r_count r) * 4096) as Hle.
  { rewrite Hcnt. unfold page_count. cbn [page_size]. pose proof (Z.mod_pos_bound (size - 1) 4096 ltac:(lia)).
    pose proof (Z.div_mod (size - 1) 4096 ltac:(lia)). pose proof (Z.div_pos (size - 1) 4096 ltac:(lia) ltac:(lia)). lia. }
  assert (0 ≤ r_vaddr r ∧ r_vaddr r + Z.of_nat (r_count r) * 4096 ≤ 2 ^ 64) as [H0 Htop].
  { destruct (Hcan (r_vaddr r)) as [[A _] _]; [unfold in_region, in_block; lia|]. split; [done|].
    destruct (Hcan (r_vaddr r + (Z.of_nat (r_count r) * 4096 - 1))) as [[_ B] _]; [unfold in_region, in_block; lia|]. lia. }
  destruct (map_init_maps root cr3 (r_vaddr r) Page4K size (r_write r) (r_exec r) (r_init r) T s) as [Hf|(s' & T' & pg & Ho & Hrf)].
  { done. } { done. } { done. } { lia. }
  { split; [done|]. intros k Hk. cbn zeta. rewrite <- Hcnt in Hk. cbn [page_size].
    assert (in_region r (r_vaddr r + Z.of_nat k * 4096)) as Hin by (unfold in_region, in_block; lia).
    split; [by apply Hcan|]. split; [by apply Hun|]. intros t Ht%reach_below_4. cbn in Ht. lia. }
  { by left. }
  right. rewrite <- Hcnt in Hrf. pose proof Hrf as [Hinv' Hg Hfr Hap Hh Hother _ _]. cbn [page_size] in *.
  assert (∀ v, page_in rs v → ¬ in_region r v) as Hdis.
  { intros v (r' & k & Hr & Hk & ->) Hin. destruct (ld_frame _ _ _ _ _ Hld r' k Hr Hk) as (_ & _ & Hw).
    specialize (Hw (r_page r' k) ltac:(unfold in_block; lia)). by rewrite Hun in Hw. }
  exists s', T', (add_frames r pg F). split; [exact Ho|]. split; [done|]. split; [done|].
  assert (∀ k, (k < r_count r)%nat → fresh_page T' s s' Page4K (r_init r) (Z.of_nat k * 4096) (pg k)) as Hfr'.
  { intros k Hk. specialize (Hfr k Hk). cbn [type_level type_depth] in Hfr.
    replace (Z.of_nat k * 4096) with (wrapping_sub 64 (r_vaddr r + Z.of_nat k * 4096) (r_vaddr r)); [done|].
    unfold wrapping_sub. rewrite wrap_small; [lia|unfold is_uint; lia]. }
  split; [|split; [by apply Hother|split]].
  2: { intros v Hv. by apply add_frames_other, Hdis. }
  2: { intros k x Hk. rewrite add_frames_here by done. intros Hx. by apply (fp_block _ _ _ _ _ _ _ (Hfr' k Hk)). }
  apply loaded_add with (s := s); [done| |..].
  - apply (loaded_grown root T T' s s'); [done|done| |done]. intros v e Hv He. rewrite <- He. apply Hother; [done|].
    intros Hin. unfold walk in He. fold (walk root s v) in He. by rewrite Hun in He.
  - intros k v Hk Hv. apply (Hh k v Hk); [by eapply Hcan, page_in_region|unfold in_block, r_page in Hv; lia].
  - done.
  - intros j k Hj Hk E. destruct (decide (j = k)) as [|Hjk]; [done|]. exfalso.
    assert (in_block (pg j) 4096 (pg j)) as Hb by (unfold in_block; lia).
    destruct (decide (j < k)%nat).
    + by apply (Hap j k (pg j)); [lia|done|rewrite <- E].
    + apply (Hap k j (pg j)); [lia|by rewrite <- E|done].
  - intros v k Hv Hk E. assert (in_block (pg k) 4096 (pg k)) as Hb by (unfold in_block; lia).
    apply (ld_own _ _ _ _ _ Hld v (pg k) Hv); [by rewrite E|]. apply (fp_block _ _ _ _ _ _ _ (Hfr' k Hk)), Hb.
  - lia.
Qed.
(** ** The state that is built *)

(** The trampoline table [tramp] and the kernel's table [table] with the regions
    [rs].  The tables and the frames were taken from the memory [Q]. *)
Record boot_tables (features : CPUFeatures) (bend : Z) (Q : Z → Prop) (tramp table : Z)
    (rs : list region) (T1 T2 : tables) (F : Z → Z) s : Prop := {
  bt_tramp : pt_inv tramp T1 s;
  bt_identity : identity tramp bend s;
  bt_tramp_window : linear_window tramp Page4K bend s;
  bt_inv : pt_inv table T2 s;
  bt_window : linear_window table (window_type features) KERNEL_PHYS_WINDOW_SIZE s;
  bt_regions : Forall region_ok rs;
  bt_outside r v : r ∈ rs → in_region r v → ¬ in_window KERNEL_PHYS_WINDOW_SIZE v;
  bt_loaded : loaded table T2 s rs F;
  bt_rest v : canonical v → ¬ in_window KERNEL_PHYS_WINDOW_SIZE v → (∀ r, r ∈ rs → ¬ in_region r v) → walk table s v = None;
  bt_apart t u x : is_Some (T1 !! t) → is_Some (T2 !! u) → in_block t 4096 x → ¬ in_block u 4096 x;
  bt_frames v t x : page_in rs v → is_Some (T1 !! t) → in_block (F v) 4096 x → ¬ in_block t 4096 x;
  bt_free x : pm_free s x → Q x;
  bt_used x : (∃ t, (is_Some (T1 !! t) ∨ is_Some (T2 !! t)) ∧ in_block t 4096 x) ∨ (∃ v, page_in rs v ∧ in_block (F v) 4096 x) → Q x;
}.

Lemma table_not_free root T s t x : pt_inv root T s → is_Some (T !! t) → in_block t 4096 x → ¬ pm_free s x.
Proof. intros Hinv [l Ht] Hx. by apply (pt_page _ _ _ Hinv t l Ht). Qed.

Lemma window_in x : 0 ≤ x < KERNEL_PHYS_WINDOW_SIZE → in_window KERNEL_PHYS_WINDOW_SIZE (KERNEL_PHYS_WINDOW_BASE + x).
Proof. unfold in_window. lia. Qed.

(** Tables that were added to others *)
Lemma grown_tables T T' s s' u x : grown T T' s s' → is_Some (T' !! u) → in_block u 4096 x →
  (is_Some (T !! u) ∨ pm_free s x).
Proof. intros (_ & _ & _ & Hnew & _) Hu Hx. destruct (T !! u) as [l|] eqn:E; [left; by eexists|right; by eapply Hnew]. Qed.

Lemma boot_tables_add features bend Q tramp table rs T1 T2 F s r cr3 size :
  boot_tables features bend Q tramp table rs T1 T2 F s → region_ok r → 0 < size → r_count r = page_count Page4K size →
  (∀ v, in_region r v → ¬ in_window KERNEL_PHYS_WINDOW_SIZE v ∧ ∀ r', r' ∈ rs → ¬ in_region r' v) →
  let o := load_region table cr3 size r s in
  fails o ∨ ∃ s' T2' F', o = Done (s', Some tt) ∧ grown T2 T2' s s' ∧
    boot_tables features bend Q tramp table (r :: rs) T1 T2' F' s'.
Proof.
  intros B Hr Hsz Hcnt Hout. cbn zeta.
  assert (∀ v, in_region r v → canonical v) as Hcan by apply Hr.
  destruct (load_region_spec table cr3 size r T2 s rs F) as [Hf|(s' & T2' & F' & -> & Hinv & Hg & Hld & Hw & Hold & Hnew)].
  { apply B. } { apply B. } { constructor; [done|apply B]. } { done. } { done. }
  { intros v Hv. destruct (Hout v Hv) as [H1 H2]. apply (bt_rest _ _ _ _ _ _ _ _ _ _ B); [by apply Hcan|done|done]. }
  { by left. }
  right. exists s', T2', F'. split; [done|]. split; [done|].
  destruct (grown_other tramp T1 T2 T2' s s') as [Ht Hwt]; [apply B|apply Hinv|done| |].
  { intros t u l x Ht Hu. apply (bt_apart _ _ _ _ _ _ _ _ _ _ B); [by eexists|done]. }
  assert (∀ u x, is_Some (T2' !! u) → in_block u 4096 x → is_Some (T2 !! u) ∨ pm_free s x) as Hu by (intros; by eapply grown_tables).
  split; try done.
  - intros x Hx. rewrite Hwt. by apply (bt_identity _ _ _ _ _ _ _ _ _ _ B).
  - intros x Hx. rewrite Hwt. by apply (bt_tramp_window _ _ _ _ _ _ _ _ _ _ B).
  - intros x Hx. rewrite Hw; [by apply (bt_window _ _ _ _ _ _ _ _ _ _ B)|by apply window_canonical|]. intros [Hin _]%Hout. by apply Hin, window_in.
  - constructor; [done|apply B].
  - intros r' v [->|Hr']%elem_of_cons Hv; [by apply Hout|by eapply (bt_outside _ _ _ _ _ _ _ _ _ _ B)].
  - intros v Hv Hnw Hnr. rewrite Hw; [|done|apply Hnr; by left]. apply (bt_rest _ _ _ _ _ _ _ _ _ _ B); [done|done|]. intros r' Hr'. apply Hnr. by right.
  - intros t u x H1 H2 Hx Hx2. destruct (Hu u x H2 Hx2) as [H3|H3]; [by eapply (bt_apart _ _ _ _ _ _ _ _ _ _ B)|].
    by eapply (table_not_free tramp T1 s); [apply B|..].
  - intros v t x [(k & Hk & ->)|Hv]%page_in_cons H1 Hx Hx2.
    + eapply (table_not_free tramp T1 s); [apply B|done|done|by eapply Hnew].
    + rewrite Hold in Hx by done. by eapply (bt_frames _ _ _ _ _ _ _ _ _ _ B).
  - intros x Hx. apply (bt_free _ _ _ _ _ _ _ _ _ _ B). by apply Hg.
  - intros x [(t & [H1|H1] & Hx)|(v & [(k & Hk & ->)|Hv]%page_in_cons & Hx)].
    + apply (bt_used _ _ _ _ _ _ _ _ _ _ B). left. exists t. by split; [left|].
    + destruct (Hu t x H1 Hx) as [H2|H2]; [|by apply (bt_free _ _ _ _ _ _ _ _ _ _ B)]. apply (bt_used _ _ _ _ _ _ _ _ _ _ B). left. exists t. by split; [right|].
    + apply (bt_free _ _ _ _ _ _ _ _ _ _ B). by eapply Hnew.
    + rewrite Hold in Hx by done. apply (bt_used _ _ _ _ _ _ _ _ _ _ B). right. by exists v.
Qed.
(** Giving back memory that none of this uses *)
Lemma boot_tables_release features bend (Q Q' : Z → Prop) tramp table rs T1 T2 F s s' :
  boot_tables features bend Q tramp table rs T1 T2 F s → pm_ok s' → pm_mem s' = pm_mem s →
  (∀ x, pm_window s' x ↔ pm_window s x) → (∀ x, pm_free s' x → pm_free s x ∨ ¬ Q x) →
  (∀ x, Q x → Q' x) → (∀ x, pm_free s' x → Q' x) →
  boot_tables features bend Q' tramp table rs T1 T2 F s'.
Proof.
  intros B Hok Hm Hwin Hf HQ HQ'. pose proof (bt_used _ _ _ _ _ _ _ _ _ _ B) as Hu.
  assert (∀ root, walk root s' = walk root s) as Hw by (intros root; unfold walk; by rewrite Hm).
  assert (∀ root T, (∀ t, is_Some (T !! t) → is_Some (T1 !! t) ∨ is_Some (T2 !! t)) → pt_inv root T s → pt_inv root T s') as Hi.
  { intros root T HT Hinv. apply (pt_inv_frame root T s s'); [done|done|done|by intros; rewrite Hm|].
    intros t l x Ht Hx [Hx'|Hx']%Hf; [by apply (table_not_free root T s t x)|]. apply Hx', Hu. left. exists t. split; [|done].
    apply HT. by eexists. }
  split; rewrite ?Hw; try apply B.
  - apply Hi; [auto|apply B].
  - intros x. rewrite Hw. apply (bt_identity _ _ _ _ _ _ _ _ _ _ B).
  - intros x. rewrite Hw. apply (bt_tramp_window _ _ _ _ _ _ _ _ _ _ B).
  - apply Hi; [auto|apply B].
  - intros x. rewrite Hw. apply (bt_window _ _ _ _ _ _ _ _ _ _ B).
  - destruct (bt_loaded _ _ _ _ _ _ _ _ _ _ B) as [H1 H2 H3 H4]. split; [by rewrite Hw| |done|by rewrite Hm].
    intros v x Hp Hx. destruct (H2 v x Hp Hx) as [A C]. split; [|done]. intros [?|Hn]%Hf; [done|].
    apply Hn, Hu. right. by exists v.
  - done.
  - intros x Hx. by apply HQ, Hu.
Qed.

(** ** Sections *)

Definition section_region (sec : Section) : region :=
  mkRegion (s_vaddr sec) (page_count Page4K (s_vsize sec)) (s_write sec) (s_execute sec) (Some (raw_byte (s_raw sec))).

(** A section the bootloader can load: not empty, page aligned, at canonical
    addresses outside of the window. *)
Definition section_fits (sec : Section) : Prop :=
  0 < s_vsize sec ∧ s_vaddr sec mod 4096 = 0 ∧
  ∀ v, in_region (section_region sec) v → canonical v ∧ ¬ in_window KERNEL_PHYS_WINDOW_SIZE v.

(** The sections of a kernel: no two share a page. *)
Inductive kernel_layout : list Section → Prop :=
  | layout_nil : kernel_layout []
  | layout_cons sec secs : section_fits sec →
      (∀ sec' v, sec' ∈ secs → in_region (section_region sec) v → ¬ in_region (section_region sec') v) →
      kernel_layout secs → kernel_layout (sec :: secs).

Lemma page_count_pos size : 0 < size → (0 < page_count Page4K size)%nat.
Proof. intros Hs. unfold page_count. cbn [page_size]. pose proof (Z.div_pos (size - 1) 4096). lia. Qed.

Lemma raw_byte_uint raw off : bytes_ok raw → is_uint 8 (raw_byte raw off).
Proof.
  intros Hb. unfold raw_byte. rewrite nth_lookup. destruct (raw !! _) as [b|] eqn:E; [|by unfold is_uint].
  by apply (Forall_lookup_1 _ _ _ _ Hb E).
Qed.

Lemma section_region_ok sec : section_ok sec → section_fits sec → region_ok (section_region sec).
Proof.
  intros (_ & _ & _ & Hb) (Hs & Ha & Hc). split; [by apply page_count_pos|]. split; [done|].
  split; [intros v Hv; by apply Hc|]. intros f z [= <-]. by apply raw_byte_uint.
Qed.

Lemma sections_loaded features bend Q tramp table cr3 T1 secs : ∀ rs T2 F s,
  boot_tables features bend Q tramp table rs T1 T2 F s → Forall section_ok secs → kernel_layout secs →
  (∀ sec v r, sec ∈ secs → in_region (section_region sec) v → r ∈ rs → ¬ in_region r v) →
  let o := each_section (load_section table cr3) (Some <$> secs) s in
  fails o ∨ ∃ s' T2' F', o = Done (s', Some tt) ∧ grown T2 T2' s s' ∧
    boot_tables features bend Q tramp table (reverse (section_region <$> secs) ++ rs) T1 T2' F' s'.
Proof.
  induction secs as [|sec secs IH]; intros rs T2 F s B Hok Hlay Hdis; cbn zeta.
  { right. exists s, T2, F. split; [done|]. split; [apply grown_refl|done]. }
  apply Forall_cons in Hok as [Hok1 Hok]. inversion Hlay as [|? ? Hfit Hap Hlay']; subst.
  cbn [fmap list_fmap each_section].
  change (load_section table cr3 sec s) with ('(s, _) ← load_region table cr3 (s_vsize sec) (section_region sec) s; Done (s, Some tt)).
  destruct (boot_tables_add features bend Q tramp table rs T1 T2 F s (section_region sec) cr3 (s_vsize sec) B)
    as [Hf|(s1 & T3 & F1 & -> & Hg & B1)].
  { by apply section_region_ok. } { apply Hfit. } { done. }
  { intros v Hv. split; [by apply Hfit|]. intros r Hr. eapply Hdis; [by left|done|done]. }
  { left. by apply fails_bind, fails_bind. }
  cbn [mbind outcome_bind]. destruct (IH (section_region sec :: rs) T3 F1 s1 B1 Hok Hlay') as [Hf|(s2 & T4 & F2 & E & Hg2 & B2)].
  { intros sec' v r Hs Hv [->|Hr]%elem_of_cons; [|eapply Hdis; [by right|done|done]]. intros Hv2. by apply (Hap sec' v). }
  { by left. }
  right. exists s2, T4, F2. split; [exact E|]. split; [by eapply grown_trans|].
  cbn [fmap list_fmap]. rewrite reverse_cons, <- app_assoc. exact B2.
Qed.

(** ** The two tables *)

Lemma create_tables_correct features cr3 bend l pe secs s :
  bytes_ok l → Z.of_nat (length l) < 2 ^ 31 → valid_pe l pe → section_table pe = Some <$> secs → kernel_layout secs →
  0 ≤ bend ≤ 2 ^ 32 → pm_ok s →
  let o := create_tables features cr3 bend pe s in
  fails o ∨ ∃ s' tramp table T1 T2 F, o = Done (s', tramp, table) ∧
    boot_tables features bend (pm_free s) tramp table (reverse (section_region <$> secs)) T1 T2 F s'.
Proof.
  intros Hl Hlen Hv Htab Hlay Hb Hok. cbn zeta. unfold create_tables.
  destruct (new_table s Hok) as [Hf|(s1 & tramp & -> & I1 & G1 & U1)]; [left; by apply fails_bind|]. cbn [mbind outcome_bind].
  destruct (trampoline_spec tramp bend _ s1 Hb I1 (U1 Page4K)) as [Hf|(s2 & T1 & -> & I2 & G2 & D2 & W2)];
    [left; by apply fails_bind|]. cbn [mbind outcome_bind].
  destruct (new_table s2) as [Hf|(s3 & table & -> & I3 & G3 & U3)]; [apply I2|left; by apply fails_bind|]. cbn [mbind outcome_bind].
  destruct (linear_map_spec features table _ s3 I3) as [Hf|(s4 & T2 & -> & I4 & G4 & W4 & O4)];
    [intros; apply U3|left; by apply fails_bind|]. cbn [mbind outcome_bind].
  rewrite (sections_eq 32 ltac:(lia) l Hl ltac:(lia)), Htab by done.
  pose proof (grown_trans _ _ _ _ _ _ G1 G2) as G12. pose proof (grown_trans _ _ _ _ _ _ G3 G4) as G34.
  destruct (grown_other tramp T1 ∅ T2 s2 s4 I2) as [I2' W2']; [apply I4|done| |].
  { intros t u ? x _ [? Hu]. by rewrite lookup_empty in Hu. }
  assert (∀ T s s' u x, grown ∅ T s s' → is_Some (T !! u) → in_block u 4096 x → pm_free s x) as Hnew.
  { intros T s' s'' u x Hg Hu Hx. destruct (grown_tables _ _ _ _ u x Hg Hu Hx) as [[? Hn]|]; [by rewrite lookup_empty in Hn|done]. }
  assert (∀ v, ¬ page_in [] v) as Hnil by (intros v (r & k & ?%not_elem_of_nil & _); done).
  assert (boot_tables features bend (pm_free s) tramp table [] T1 T2 (λ _, 0) s4) as B.
  { split; try done.
    - intros x Hx. rewrite W2'. by apply D2.
    - intros x Hx. rewrite W2'. by apply W2.
    - by intros r v ?%not_elem_of_nil.
    - apply loaded_nil.
    - intros v Hc Hw _. rewrite O4 by done. apply (U3 Page4K).
    - intros t u x Ht Hu Hx Hx2. by eapply (table_not_free tramp T1 s2), (Hnew T2 s2 s4 u).
    - intros v t x Hp. by apply Hnil in Hp.
    - intros x Hx. by apply G12, G34.
    - intros x [(t & [Ht|Ht] & Hx)|(v & Hp & _)]; [by eapply Hnew|apply G12; by eapply Hnew|by apply Hnil in Hp]. }
  destruct (sections_loaded features bend _ tramp table cr3 T1 secs [] T2 (λ _, 0) s4 B) as [Hf|(s5 & T3 & F & -> & _ & B5)].
  { apply Forall_forall. intros sec Hs. apply (table_ok l pe Hl Hv). rewrite Htab. by apply list_elem_of_fmap_2. }
  { done. } { by intros ? ? r _ _ ?%not_elem_of_nil. } { left. by apply fails_bind. }
  right. cbn [mbind outcome_bind unwrap expect]. exists s5, tramp, table, T1, T3, F. split; [done|]. by rewrite app_nil_r in B5.
Qed.
End regions.

(** ** The stacks of the cores *)

Section cores.
Context {W : Type} `{HR : PxeRom W}.
Implicit Types w : W.

(** Memory that is stored is what is read back. *)
Hypothesis w_mem_set : ∀ m w, mem_ok m → w_mem (w_set_mem m w) = m.

Definition stack_base (n : nat) : Z := KERNEL_STACKS_BASE + Z.of_nat n * (KERNEL_STACK_SIZE + KERNEL_STACK_PAD).
Definition stack_region (n : nat) : region := mkRegion (stack_base n) 8 true false None.

Definition regions (secs : list Section) (n : nat) : list region :=
  (stack_region <$> reverse (seq 0 n)) ++ reverse (section_region <$> secs).

(** What [BOOT_ARGS] and memory hold when [n] cores have their stacks. *)
Definition ready (features : CPUFeatures) (bend : Z) (Q : Z → Prop) (secs : list Section) (n : nat) (ep : Z) (b : BootArgs) w : Prop :=
  ∃ rs table T1 T2 F, free_memory b = Some rs ∧ page_table b = Some table ∧ kernel_entry b = Some ep ∧
    stack_vaddr b = stack_base n ∧
    boot_tables features bend Q (trampoline_page_table b) table (regions secs n) T1 T2 F (mkPhysicalMemory (w_mem w) rs).

(** No section is where the stacks are. *)
Definition below_stacks (secs : list Section) : Prop :=
  ∀ sec v, sec ∈ secs → in_region (section_region sec) v → ¬ KERNEL_STACKS_BASE ≤ v < 2 ^ 47.

Lemma elem_of_regions secs n r : r ∈ regions secs n →
  (∃ k, (k < n)%nat ∧ r = stack_region k) ∨ ∃ sec, sec ∈ secs ∧ r = section_region sec.
Proof.
  intros [(k & -> & Hk)%list_elem_of_fmap|Hr]%elem_of_app.
  - left. exists k. split; [|done]. apply elem_of_reverse, elem_of_seq in Hk. lia.
  - right. apply elem_of_reverse, list_elem_of_fmap in Hr as (sec & -> & Hs). by exists sec.
Qed.

Lemma stack_range n v : stack_base (S n) ≤ 2 ^ 47 → in_region (stack_region n) v →
  KERNEL_STACKS_BASE ≤ v < 2 ^ 47 ∧ stack_base n ≤ v < stack_base n + KERNEL_STACK_SIZE.
Proof.
  unfold in_region, in_block, stack_region, stack_base, KERNEL_STACKS_BASE, KERNEL_STACK_SIZE, KERNEL_STACK_PAD.
  cbn [r_vaddr r_count]. lia.
Qed.

Lemma stack_region_ok n : stack_base (S n) ≤ 2 ^ 47 → region_ok (stack_region n).
Proof.
  intros Hn. split; [cbn; lia|]. split.
  - cbn [stack_region r_vaddr]. unfold stack_base. rewrite Z.add_mod, Z.mul_mod by lia.
    change ((KERNEL_STACK_SIZE + KERNEL_STACK_PAD) mod 4096) with 0. by rewrite Z.mul_0_r.
  - split; [|done]. intros v [Hv _]%(stack_range n v Hn). unfold canonical, is_uint. unfold KERNEL_STACKS_BASE in Hv. lia.
Qed.

Lemma stack_fresh secs n v r : below_stacks secs → stack_base (S n) ≤ 2 ^ 47 → in_region (stack_region n) v →
  r ∈ regions secs n → ¬ in_region r v.
Proof.
  intros Hb Hn Hv. destruct (stack_range n v Hn Hv) as [H1 H2]. intros [(k & Hk & ->)|(sec & Hs & ->)]%elem_of_regions Hv2.
  - unfold in_region, in_block, stack_region, stack_base, KERNEL_STACK_SIZE, KERNEL_STACK_PAD in *. cbn [r_vaddr r_count] in *. lia.
  - by apply (Hb sec v).
Qed.

Lemma regions_S secs n : regions secs (S n) = stack_region n :: regions secs n.
Proof. unfold regions. by rewrite seq_S, reverse_app. Qed.

(** The root of a table of the bootloader fits in [cr3]. *)
Lemma root_u32 root T (s : PhysicalMemory) : pt_inv root T s → wrap 32 root = root.
Proof.
  intros Hinv. apply wrap_small. pose proof (g_root _ _ _ (pt_graph _ _ _ Hinv)) as Hr.
  destruct (pt_page _ _ _ Hinv _ _ Hr) as (Hpos & _ & _ & Hx).
  destruct (Hx root) as [_ Hw]; [unfold in_block; lia|]. cbn in Hw. unfold is_uint. lia.
Qed.

Lemma prepare_core_correct features bend Q secs n ep boot_args cr3 core_id b w :
  ready features bend Q secs n ep b w → below_stacks secs → stack_base (S n) ≤ 2 ^ 47 →
  let o := prepare_core boot_args cr3 core_id b w in
  fails (P := PhysicalMemory) o ∨ ∃ w' b' table, o = Done (w', b',
      mkEnter64 ep (stack_base n + KERNEL_STACK_SIZE) boot_args table (trampoline_page_table b) KERNEL_PHYS_WINDOW_BASE core_id) ∧
    page_table b' = Some table ∧ trampoline_page_table b' = trampoline_page_table b ∧ ready features bend Q secs (S n) ep b' w'.
Proof.
  intros (rs & table & T1 & T2 & F & Hfm & Hpt & Hke & Hst & B) Hbel Hn. cbn zeta. unfold prepare_core.
  rewrite Hfm, Hpt, Hke, Hst. cbn [expect unwrap mbind outcome_bind]. unfold map_stack, PageTable.map.
  change (map_init table cr3 (stack_base n) Page4K KERNEL_STACK_SIZE true false None)
    with (load_region table cr3 KERNEL_STACK_SIZE (stack_region n)).
  destruct (boot_tables_add features bend Q _ table _ T1 T2 F _ (stack_region n) cr3 KERNEL_STACK_SIZE B)
    as [Hf|(s' & T2' & F' & -> & _ & B')].
  { by apply stack_region_ok. } { done. } { done. }
  { intros v Hv. split; [|intros r Hr; by eapply stack_fresh]. destruct (stack_range n v Hn Hv) as [H1 _].
    unfold in_window, KERNEL_PHYS_WINDOW_BASE. lia. }
  { left. by apply fails_bind, fails_bind. }
  right. cbn [mbind outcome_bind expect unwrap]. cbv beta iota zeta. cbn [mbind outcome_bind trampoline_page_table].
  rewrite (wrapping_add_small 64 (stack_base n) KERNEL_STACK_SIZE)
    by (unfold is_uint, stack_base, KERNEL_STACKS_BASE, KERNEL_STACK_SIZE, KERNEL_STACK_PAD in *; lia).
  rewrite (root_u32 _ _ _ (bt_inv _ _ _ _ _ _ _ _ _ _ B')), (root_u32 _ _ _ (bt_tramp _ _ _ _ _ _ _ _ _ _ B')).
  eexists _, _, table. split; [reflexivity|]. split; [done|]. split; [done|].
  exists (bm_free s'), table, T1, T2', F'. cbn [free_memory page_table kernel_entry stack_vaddr trampoline_page_table].
  split; [done|]. split; [done|]. split; [done|]. split.
  - unfold wrapping_add. rewrite wrap_small; [unfold stack_base; lia|].
    unfold is_uint. unfold stack_base, KERNEL_STACKS_BASE, KERNEL_STACK_SIZE, KERNEL_STACK_PAD in *. lia.
  - rewrite regions_S, w_mem_set; [|exact (ok_mem s' (pt_bytes _ _ _ (bt_inv _ _ _ _ _ _ _ _ _ _ B')))]. by destruct s'.
Qed.
End cores.

(** ** Loading the kernel *)

Section load.
Context {W : Type} `{HP : Ports W} `{HR : PxeRom W}.
Context (ep_seg ep_off : Z) (ip name file : list Z) `{HS : !PxeServer W ep_seg ep_off ip name file}.
Context (st_addr : Z → Z) (buf_addr : Z).
Hypothesis st_low : ∀ op, 0 ≤ st_addr op < 2 ^ 16.
Hypothesis buf_low : 0 ≤ buf_addr < 2 ^ 16.
Hypothesis apart : st_addr PXE_OPCODE_TFTP_READ + 10 ≤ buf_addr ∨ buf_addr + 512 ≤ st_addr PXE_OPCODE_TFTP_READ.
Hypothesis ip_bytes : bytes_ok ip ∧ length ip = 4%nat.
Hypothesis name_bytes : bytes_ok name ∧ length name = 128%nat.
Implicit Types w : W.

(** The console takes what it is given. *)
Definition console_ready (fuel : nat) (b : BootArgs) : Prop := ∀ msg w, ∃ w', log fuel b msg w = Done w'.

(** What is left to go wrong: there is no memory for the tables, or no room
    in the set of free ranges for the file's. *)
Definition out_of_memory {A} (ptr n : Z) (o : outcome A) : Prop :=
  fails (P := PhysicalMemory) o ∨ ∃ msg rs, o = Panic msg ∧ drop_vec ptr n (Some rs) = Panic msg.

Lemma load_kernel_correct fuel n features cr3 bend b rs pm ptr pe secs w :
  console_ready fuel b → page_table b = None → trampoline_page_table b = 0 → stack_vaddr b = KERNEL_STACKS_BASE →
  free_memory b = Some rs → wf rs → ¬ 0 ∈ rs → 0 ≤ bend ≤ 2 ^ 32 → padded name (text "chocolate_milk.kern") →
  with_capacity (Z.of_nat (length file)) (Some rs) = Done (pm, ptr) →
  bytes_ok file → Z.of_nat (length file) < 2 ^ 31 → valid_pe file pe → section_table pe = Some <$> secs → kernel_layout secs →
  let o := load_kernel st_addr buf_addr fuel (S n) features cr3 bend b w in
  out_of_memory ptr (Z.of_nat (length file)) o ∨
  ∃ w' b', o = Done (w', b') ∧ ready features bend (λ x, x ∈ rs) secs 0 (entry_point pe) b' w'.
Proof.
  intros Hcon Hpt Htr Hst Hfm Hwf H0 Hb Hnm Hcap Hfb Hfl Hpe Htab Hlay. cbn zeta. unfold load_kernel.
  rewrite Hpt, Htr, Hfm. cbn [bool_decide decide_rel andb Z.eqb assert mbind outcome_bind].
  change (bool_decide (None = None) && true) with true. cbn [assert mbind outcome_bind].
  destruct (Hcon (line "Downloading kernel...") w) as (w1 & ->). cbn [mbind outcome_bind download_kernel].
  destruct (download_correct ep_seg ep_off ip name file st_addr buf_addr st_low buf_low apart ip_bytes name_bytes
    (text "chocolate_milk.kern") (Some rs) pm ptr w1 Hnm Hcap) as (w2 & ->). cbn [mbind outcome_bind].
  destruct (Hcon (line "Kernel download complete!") w2) as (w3 & ->). cbn [mbind outcome_bind].
  rewrite (parse_eq 32 ltac:(lia) file Hfb ltac:(lia)), (proj2 (parse_format_valid file Hfb pe) Hpe).
  cbn [mbind outcome_bind expect].
  destruct (with_capacity_spec (Z.of_nat (length file)) rs Hwf ltac:(lia)) as [_ Hc].
  destruct (Hc pm ptr Hcap) as (rs1 & -> & Hp & Htk). cbn [mbind outcome_bind expect].
  pose proof (taken_uint ptr (Z.of_nat (length file)) rs rs1 Hwf ltac:(lia) Hp Htk) as Hend. destruct Htk as (Hwf1 & Hin & Hout).
  destruct (create_tables_correct features cr3 bend file pe secs (mkPhysicalMemory (w_mem w3) rs1))
    as [Hf|(s & tramp & table & T1 & T2 & F & -> & B)]; [done..| |left; left; by apply fails_bind|].
  { split; [apply (rom_mem_ok (PxeServer := HS))|]. split; [done|]. cbn. by intros [? _]%Hout. }
  cbn [mbind outcome_bind]. destruct (pt_bytes _ _ _ (bt_inv _ _ _ _ _ _ _ _ _ _ B)) as (Hmem & Hwfs & H0s).
  destruct (drop_vec_insert ptr (Z.of_nat (length file)) (bm_free s) Hwfs ltac:(lia) Hp Hend) as [Ht Hd].
  destruct (drop_vec ptr (Z.of_nat (length file)) (Some (bm_free s))) as [pm2|msg|] eqn:E; [|left; right; by exists msg, (bm_free s)|done].
  destruct (Hd pm2 eq_refl) as (rs2 & -> & Hwf2 & Hx2). cbn [mbind outcome_bind]. right.
  eexists _, _. split; [reflexivity|]. exists rs2, table, T1, T2, F.
  cbn [free_memory page_table kernel_entry stack_vaddr trampoline_page_table]. do 3 (split; [done|]).
  split; [unfold stack_base; rewrite Hst; lia|].
  rewrite (proj1 (rom_set_mem (PxeServer := HS) _ w3 Hmem)). unfold regions. cbn [seq reverse fmap list_fmap app].
  pose proof (bt_free _ _ _ _ _ _ _ _ _ _ B) as Hfree. cbn in Hfree.
  eapply boot_tables_release; [exact B|..]; cbn.
  - split; [done|]. split; [done|]. intros [?|Hx]%Hx2; [done|]. by apply H0, Hin.
  - done.
  - done.
  - intros x [?|Hx]%Hx2; [by left|right]. intros [_ ?]%Hout. done.
  - by intros x [? _]%Hout.
  - intros x [?%Hfree%Hout|Hx]%Hx2; [tauto|by apply Hin].
Qed.
End load.

(** ** A kernel *)

(** A processor with 1 GiB pages, and the kernel of the simulated server *)
Definition demo_features : CPUFeatures := get_cpu_features (λ _ _, (2 ^ 32 - 1, 2 ^ 32 - 1, 2 ^ 32 - 1, 2 ^ 32 - 1)).
Definition demo_kernel : PeParser := mkPeParser Sim.demo_file 1 0x78 0x133700000000 0x133700001002.
Definition demo_code : Section := mkSection 0x133700001000 8 [1; 2; 3; 4] true false true.

Lemma demo_layout : kernel_layout [demo_code].
Proof.
  constructor; [|by intros ? ? ?%not_elem_of_nil|constructor]. split; [done|]. split; [done|].
  intros v Hv. unfold in_region, in_block in Hv. change (r_count (section_region demo_code)) with 1%nat in Hv.
  cbn in Hv. unfold canonical, is_uint, in_window, KERNEL_PHYS_WINDOW_BASE. lia.
Qed.

Lemma demo_below : below_stacks [demo_code].
Proof.
  intros sec v ->%list_elem_of_singleton Hv. unfold in_region, in_block in Hv.
  change (r_count (section_region demo_code)) with 1%nat in Hv. cbn in Hv. unfold KERNEL_STACKS_BASE. lia.
Qed.

Lemma demo_valid : valid_pe Sim.demo_file demo_kernel.
Proof.
  apply parse_format_valid; [by_decide|]. vm_compute. reflexivity.
Qed.
