(* ===== verification/BootEntry.v ===== *)
(** * The bootloader as a whole

    [entry] on the first processor, from the BIOS to the arguments of [enter64],
    and on each later one. *)

From stdpp Require Import base tactics option list numbers strings gmap.
From Stdlib Require Import ZArith Lia.
From S2P Require Import Prelude MachineInt Bytes RangeSet BootMm Cpu Serial PeParser Pxe BootMain PhysMem PageTable PageTableGraph PageTableInv PageTableMap BootTables BootLoad.

Local Open Scope Z_scope.

Section entry.
Context {W : Type} `{HP : Ports W} `{HR : PxeRom W}.
Context (ep_seg ep_off : Z) (ip name file : list Z) `{HS : !PxeServer W ep_seg ep_off ip name file}.
Context (e820 : W → Z → W * E820Reply) (st_addr : Z → Z) (buf_addr : Z).
Hypothesis st_low : ∀ op, 0 ≤ st_addr op < 2 ^ 16.
Hypothesis buf_low : 0 ≤ buf_addr < 2 ^ 16.
Hypothesis apart : st_addr PXE_OPCODE_TFTP_READ + 10 ≤ buf_addr ∨ buf_addr + 512 ≤ st_addr PXE_OPCODE_TFTP_READ.
Hypothesis ip_bytes : bytes_ok ip ∧ length ip = 4%nat.
Hypothesis name_bytes : bytes_ok name ∧ length name = 128%nat.
Implicit Types w : W.

(** ** The machine *)

Definition set_serial (d : SerialPort) (b : BootArgs) : BootArgs :=
  mkBootArgs (free_memory b) (Some d) (page_table b) (trampoline_page_table b) (kernel_entry b) (stack_vaddr b) (soft_reboot_addr b).

(** The serial ports come up and take what they are given. *)
Definition console_starts (fuel : nat) : Prop :=
  ∀ b w, serial b = None → ∃ w' d, init_serial fuel b w = Done (w', set_serial d b) ∧ ∀ b', serial b' = Some d → console_ready fuel b'.

(** The BIOS reports the entries [es] whenever it is asked. *)
Definition bios_reports (es : list E820Entry) : Prop := ∀ w, ∃ w', e820_map e820 w 0 es w'.

(** What it says may be used, above the first megabyte *)
Definition usable (es : list E820Entry) (x : Z) : Prop :=
  Exists (λ e, typ e = 1 ∧ covers e x) es ∧ ¬ Exists (λ e, typ e ≠ 1 ∧ covers e x) es ∧ 1024 * 1024 ≤ x.

(** There is no memory for the file, its tables or its range. *)
Definition no_memory {A} (n : Z) (o : outcome A) : Prop :=
  (∃ ptr, out_of_memory ptr n o) ∨ ∃ msg rs, o = Panic msg ∧ with_capacity n (Some rs) = Panic msg.

Lemma no_memory_bind {A B} n (o : outcome A) (f : A → outcome B) : no_memory n o → no_memory n (o ≫= f).
Proof.
  intros [(ptr & [Hf|(msg & rs & -> & Hd)])|(msg & rs & -> & Hd)].
  - left. exists ptr. left. by apply fails_bind.
  - left. exists ptr. right. by exists msg, rs.
  - right. by exists msg, rs.
Qed.

Lemma ready_mono features bend (Q Q' : Z → Prop) secs n ep b w : (∀ x, Q x → Q' x) →
  ready features bend Q secs n ep b w → ready features bend Q' secs n ep b w.
Proof.
  intros HQ (rs & table & T1 & T2 & F & H1 & H2 & H3 & H4 & B). exists rs, table, T1, T2, F. do 4 (split; [done|]).
  pose proof (pt_bytes _ _ _ (bt_inv _ _ _ _ _ _ _ _ _ _ B)) as Hok. pose proof (bt_free _ _ _ _ _ _ _ _ _ _ B) as Hf.
  eapply boot_tables_release; [exact B|exact Hok|done|done|by left|done|]. intros x Hx. by apply HQ, Hf.
Qed.
(** ** Loading, with or without memory *)

Lemma load_kernel_total fuel n features cr3 bend b rs pe secs w :
  console_ready fuel b → page_table b = None → trampoline_page_table b = 0 → stack_vaddr b = KERNEL_STACKS_BASE →
  free_memory b = Some rs → wf rs → ¬ 0 ∈ rs → 0 ≤ bend ≤ 2 ^ 32 → padded name (text "chocolate_milk.kern") →
  bytes_ok file → Z.of_nat (length file) < 2 ^ 31 → valid_pe file pe → section_table pe = Some <$> secs → kernel_layout secs →
  let o := load_kernel st_addr buf_addr fuel (S n) features cr3 bend b w in
  no_memory (Z.of_nat (length file)) o ∨
  ∃ w' b', o = Done (w', b') ∧ ready features bend (λ x, x ∈ rs) secs 0 (entry_point pe) b' w'.
Proof.
  intros Hcon Hpt Htr Hst Hfm Hwf H0 Hb Hnm Hfb Hfl Hpe Htab Hlay. cbn zeta.
  destruct (with_capacity_spec (Z.of_nat (length file)) rs Hwf ltac:(lia)) as [Ht _].
  destruct (with_capacity (Z.of_nat (length file)) (Some rs)) as [[pm ptr]|msg|] eqn:Ec; [| |done].
  - destruct (load_kernel_correct ep_seg ep_off ip name file st_addr buf_addr st_low buf_low apart ip_bytes name_bytes
      fuel n features cr3 bend b rs pm ptr pe secs w) as [Ho|Ho]; try done; [left; left; by exists ptr|by right].
  - left. right. exists msg, rs. split; [|done]. unfold load_kernel. rewrite Hpt, Htr, Hfm.
    change (bool_decide (None = None) && (0 =? 0)) with true. cbn [assert mbind outcome_bind].
    destruct (Hcon (line "Downloading kernel...") w) as (w1 & ->). cbn [mbind outcome_bind download_kernel].
    by rewrite (download_no_memory ep_seg ep_off ip name file st_addr buf_addr st_low ip_bytes name_bytes
      _ (Some rs) msg w1 Hnm Ec).
Qed.

(** Nothing else of [BOOT_ARGS] is touched by [load_kernel]. *)
Lemma load_kernel_keeps fuel n features cr3 bend b w w' b' :
  load_kernel st_addr buf_addr fuel n features cr3 bend b w = Done (w', b') →
  serial b' = serial b ∧ soft_reboot_addr b' = soft_reboot_addr b.
Proof.
  unfold load_kernel. intros (? & _ & H)%bind_Done. apply bind_Done in H as (w1 & _ & H).
  apply bind_Done in H as ([[w2 pm] [[ptr c] k]] & _ & H). apply bind_Done in H as (w3 & _ & H).
  apply bind_Done in H as (pe & _ & H). apply bind_Done in H as (pe' & _ & H). apply bind_Done in H as (rs & _ & H).
  apply bind_Done in H as ([[s t1] t2] & _ & H). apply bind_Done in H as (pm' & _ & H). by apply Done_pair_inj in H as [_ <-].
Qed.

Lemma prepare_core_keeps boot_args cr3 core_id b w w' b' e :
  prepare_core boot_args cr3 core_id b w = Done (w', b', e) → serial b' = serial b ∧ soft_reboot_addr b' = soft_reboot_addr b.
Proof.
  unfold prepare_core. intros (rs & _ & H)%bind_Done. apply bind_Done in H as (root & _ & H).
  apply bind_Done in H as (s & _ & H). apply bind_Done in H as (ep & _ & H). cbv zeta in H.
  apply Done_pair_inj in H as [H _]. injection H as _ <-. done.
Qed.

(** ** The processors *)

Definition enters (ep boot_args table tramp core_id : Z) (n : nat) : Enter64 :=
  mkEnter64 ep (stack_base n + KERNEL_STACK_SIZE) boot_args table tramp KERNEL_PHYS_WINDOW_BASE core_id.

(** What every processor leaves: the state with one more stack, and how it enters
    the kernel. *)
Definition entered features bend (Q : Z → Prop) secs (n : nat) (ep boot_args soft core_id : Z) (r : W * BootArgs * Z * Enter64) : Prop :=
  ∃ w' b' table, r = (w', b', wrapping_add 32 core_id 1, enters ep boot_args table (trampoline_page_table b') core_id n) ∧
    page_table b' = Some table ∧ is_Some (serial b') ∧ soft_reboot_addr b' = soft ∧ ready features bend Q secs (S n) ep b' w'.

Lemma core_enters features bend Q secs n ep boot_args cr3 core_id m b w :
  ready features bend Q secs n ep b w → is_Some (serial b) → below_stacks secs → stack_base (S n) ≤ 2 ^ 47 →
  let o := ('(w, b, e) ← prepare_core boot_args cr3 core_id b w; Done (w, b, wrapping_add 32 core_id 1, e)) in
  no_memory m o ∨ ∃ r, o = Done r ∧ entered features bend Q secs n ep boot_args (soft_reboot_addr b) core_id r.
Proof.
  intros Hr Hser Hbel Hn. cbn zeta.
  destruct (prepare_core_correct (λ m w Hm, proj1 (rom_set_mem (PxeServer := HS) m w Hm)) features bend Q secs n ep boot_args cr3 core_id b w Hr Hbel Hn)
    as [Hf|(w' & b' & table & E & Hpt & Htr & Hr')].
  - left. left. exists 0. left. by apply fails_bind.
  - right. destruct (prepare_core_keeps _ _ _ _ _ _ _ _ E) as [Hs Hsr]. rewrite E. cbn [mbind outcome_bind]. eexists. split; [done|].
    exists w', b', table. unfold enters. rewrite Htr. do 2 (split; [done|]). split; [by rewrite Hs|]. by split.
Qed.
Lemma entry_first_correct fuel n features boot_args cr3 bend soft es pe secs w :
  console_starts fuel → bios_reports es → Forall BootMm.entry_ok es → (2 * length es < CAPACITY)%nat → (CAPACITY ≤ fuel)%nat →
  0 ≤ bend ≤ 2 ^ 32 → padded name (text "chocolate_milk.kern") → bytes_ok file → Z.of_nat (length file) < 2 ^ 31 →
  valid_pe file pe → section_table pe = Some <$> secs → kernel_layout secs → below_stacks secs →
  let o := BootMain.entry e820 st_addr buf_addr fuel (S n) features boot_args cr3 bend soft 0 BOOT_ARGS w in
  no_memory (Z.of_nat (length file)) o ∨
  ∃ r, o = Done r ∧ entered features bend (usable es) secs 0 (entry_point pe) boot_args soft 0 r.
Proof.
  intros Hcon Hbios Hes Hlen Hfuel Hb Hnm Hfb Hfl Hpe Htab Hlay Hbel. cbn zeta. unfold BootMain.entry.
  destruct (Hcon BOOT_ARGS w eq_refl) as (w1 & d & -> & Hready). cbn [mbind outcome_bind].
  change (free_memory (set_serial d BOOT_ARGS)) with (@None RangeSet).
  destruct (Hbios w1) as (w2 & M1). destruct (Hbios w2) as (w3 & M2).
  destruct (init_correct e820 fuel w1 w2 w3 es es M1 M2 Hes Hes ltac:(lia) Hfuel) as (rs & -> & Hwf & Hrs).
  cbn [mbind outcome_bind]. cbn [set_serial BOOT_ARGS serial page_table trampoline_page_table kernel_entry stack_vaddr].
  set (b1 := mkBootArgs (Some rs) _ _ _ _ _ _).
  assert (¬ 0 ∈ rs) as H0 by (rewrite Hrs; lia).
  destruct (load_kernel_total fuel n features cr3 bend b1 rs pe secs w3 (Hready b1 eq_refl) eq_refl eq_refl eq_refl eq_refl Hwf H0 Hb Hnm Hfb Hfl Hpe Htab Hlay)
    as [Hf|(w4 & b2 & E & Hr)]; [left; by apply no_memory_bind|].
  destruct (load_kernel_keeps _ _ _ _ _ _ _ _ _ E) as [Hser Hsr]. rewrite E. cbn [mbind outcome_bind].
  change soft with (soft_reboot_addr b1). rewrite <- Hsr. apply core_enters; [|by rewrite Hser|done|done].
  eapply ready_mono; [|exact Hr]. intros x Hx%Hrs. exact Hx.
Qed.

(** C8: the bootloader on the first processor.  With serial ports that work, a BIOS
    that reports the entries [es] (fewer than 128) and a server that has the
    kernel, a file whose sections fit the layout, [entry] ends, but for lack of
    memory, with the kernel entered at its entry point on the first stack: the
    trampoline table maps the bootloader to itself and in the window; the
    kernel's table maps the window on physical memory linearly, each byte of
    each section behind its address with its permissions, the stack, and nothing
    else; each page has a frame of its own, and frames and tables are in memory
    the BIOS says is usable. *)
Theorem entry_first_spec fuel n features boot_args cr3 bend soft es pe secs w :
  console_starts fuel → bios_reports es → Forall BootMm.entry_ok es → (2 * length es < CAPACITY)%nat → (CAPACITY ≤ fuel)%nat →
  0 ≤ bend ≤ 2 ^ 32 → padded name (text "chocolate_milk.kern") → bytes_ok file → Z.of_nat (length file) < 2 ^ 31 →
  valid_pe file pe → section_table pe = Some <$> secs → kernel_layout secs → below_stacks secs →
  let o := BootMain.entry e820 st_addr buf_addr fuel (S n) features boot_args cr3 bend soft 0 BOOT_ARGS w in
  no_memory (Z.of_nat (length file)) o ∨
  ∃ r, o = Done r ∧ entered features bend (usable es) secs 0 (entry_point pe) boot_args soft 0 r.
Proof. apply entry_first_correct. Qed.

(** C23: on each later processor [entry] only adds a stack: the first [n] stacks,
    the sections, the window and the trampoline are kept, and it enters the
    kernel with the same tables on a stack of its own, separated from the others
    by unmapped space. *)
Theorem entry_next_spec fuel attempts features boot_args cr3 bend soft core_id Q secs n ep b w m :
  ready features bend Q secs n ep b w → is_Some (serial b) → below_stacks secs → stack_base (S n) ≤ 2 ^ 47 →
  let o := BootMain.entry e820 st_addr buf_addr fuel attempts features boot_args cr3 bend soft core_id b w in
  no_memory m o ∨ ∃ r, o = Done r ∧ entered features bend Q secs n ep boot_args soft core_id r.
Proof.
  intros (rs & table & T1 & T2 & F & H1 & H2 & H3 & H4 & B) [d Hser] Hbel Hn. cbn zeta. unfold BootMain.entry, init_serial.
  rewrite Hser. cbn [mbind outcome_bind]. rewrite H1. cbn [BootMm.init mbind outcome_bind].
  cbn [kernel_entry serial page_table trampoline_page_table stack_vaddr]. rewrite H3, ?Hser. cbn [mbind outcome_bind].
  match goal with |- context [prepare_core _ _ _ ?b1 _] => set (b' := b1) end. change soft with (soft_reboot_addr b').
  apply core_enters; [|by eexists|done|done]. exists rs, table, T1, T2, F. by repeat (split; [done|]).
Qed.
End entry.

(** ** A machine *)

(** A serial port that is always ready, and a BIOS with two entries. *)
#[local] Instance demo_ports : Ports Sim.state := { in8 _ w := (w, 0x20); out8 _ _ w := w }.

Definition demo_bios (w : Sim.state) (c : Z) : Sim.state * E820Reply :=
  if c =? 0 then (w, mkE820Reply (mkE820Entry 0 0xa0000 1) 1 2) else (w, mkE820Reply (mkE820Entry 0x100000 0x700000 1) 0 2).
Definition demo_entries : list E820Entry := [mkE820Entry 0 0xa0000 1; mkE820Entry 0x100000 0x700000 1].

(** COM1 is in the BIOS data area. *)
Definition demo_machine : Sim.state := Sim.mk {[0x400 := 0xf8; 0x401 := 0x03]} None.

Definition demo_entry : outcome (Sim.state * BootArgs * Z * Enter64) :=
  BootMain.entry demo_bios demo_st 0x7800 CAPACITY 1 demo_features 0x9000 0 0x3000 0x8100 0 BOOT_ARGS demo_machine.

Lemma always_ready f devices bytes (w : Sim.state) : Serial.write (S f) devices bytes w = Done w.
Proof.
  assert (∀ i b, put_byte (S f) devices i b w = Done w) as Hp by (intros i b; unfold put_byte; by destruct (devices !! i) as [[?|]|]).
  assert (∀ l b, broadcast (S f) devices l b w = Done w) as Hb.
  { induction l as [|i l IH]; intros b; [done|]. cbn [broadcast]. unfold write_byte. destruct (b =? 10); rewrite ?Hp; cbn; rewrite Hp; apply IH. }
  induction bytes as [|b l IH]; [done|]. cbn [Serial.write]. by rewrite Hb.
Qed.

Lemma demo_serial_new f bda (w : Sim.state) : ∃ d, Serial.new (S f) bda w = Done (w, d).
Proof.
  assert (∀ l, (init_ports l w).1 = w) as Hi.
  { induction l as [|p l IH]; [done|]. cbn [init_ports]. change (init_port p w) with w.
    destruct (init_ports l w) as [w1 d]. cbn in IH. subst w1. by destruct (p =? 0). }
  assert (∀ d, read_byte d w = (w, None)) as Hr by (induction d as [|[p|] d IH]; [done|exact IH|exact IH]).
  specialize (Hi bda). unfold Serial.new. destruct (init_ports bda w) as [w1 d]. cbn in Hi. subst w1. exists d. cbn [drain]. by rewrite Hr.
Qed.

Lemma demo_clear n f d (w : Sim.state) : clear_screen n (S f) d w = Done w.
Proof. induction n as [|n IH]; [done|]. cbn [clear_screen]. rewrite always_ready. exact IH. Qed.

Lemma demo_console_starts f : console_starts (W := Sim.state) (S f).
Proof.
  intros b w Hb. exists w. unfold init_serial. rewrite Hb. destruct (demo_serial_new f (bda_words w) w) as (d & ->). exists d.
  cbn [mbind outcome_bind]. rewrite demo_clear. cbn [mbind outcome_bind]. rewrite always_ready. split; [done|].
  intros b' Hb' msg w'. exists w'. unfold log. rewrite Hb'. cbn [unwrap expect mbind outcome_bind]. apply always_ready.
Qed.

Lemma demo_bios_reports : bios_reports demo_bios demo_entries.
Proof.
  intros w. exists w. apply (map_more demo_bios w 0 w (mkE820Reply (mkE820Entry 0 0xa0000 1) 1 2)); try done.
  by apply (map_last demo_bios w 1 w (mkE820Reply (mkE820Entry 0x100000 0x700000 1) 0 2)).
Qed.

Lemma demo_entry_ok : ∃ r, demo_entry = Done r.
Proof.
  assert (match demo_entry with Done _ => true | _ => false end = true) as E by (vm_compute; reflexivity).
  destruct demo_entry as [r| |]; [by exists r|done|done].
Qed.

Lemma Done_enough {A} n (o : outcome A) a : o = Done a → ¬ no_memory n o.
Proof. intros -> [(ptr & [[_ H]|(msg & rs & H & _)])|(msg & rs & H & _)]; [by apply (H a)|done|done]. Qed.

(** The hypotheses about the machine and the kernel *)
Ltac solve_machine := first
  [exact (demo_console_starts 255) | exact demo_bios_reports | exact demo_layout | exact demo_below | exact demo_valid |
   reflexivity | lia | (intros op; unfold demo_st; lia) | (unfold demo_st; lia) | by_decide | (split; by_decide) |
   (repeat (apply Forall_cons_2; [split; cbn; lia|]); constructor)].

Lemma entry_first_spec_witness : ∃ r, demo_entry = Done r ∧
  entered demo_features 0x3000 (usable demo_entries) [demo_code] 0 0x133700001002 0x9000 0x8100 0 r.
Proof.
  destruct demo_entry_ok as (r & E).
  destruct (entry_first_spec 0x9a00 0x106 Sim.demo_ip Sim.demo_name Sim.demo_file demo_bios demo_st 0x7800
    ltac:(solve_machine) ltac:(solve_machine) ltac:(solve_machine) ltac:(solve_machine) ltac:(solve_machine)
    CAPACITY 0 demo_features 0x9000 0 0x3000 0x8100 demo_entries demo_kernel [demo_code] demo_machine)
    as [Ho|Ho]; [solve_machine..| |exact Ho].
  destruct (Done_enough (Z.of_nat (length Sim.demo_file)) demo_entry r E Ho).
Defined.

(** The first processor has entered the kernel, and a second one is started. *)
Lemma demo_entered : ∃ r, demo_entry = Done r ∧
  entered demo_features 0x3000 (usable demo_entries) [demo_code] 0 0x133700001002 0x9000 0x8100 0 r.
Proof.
  destruct demo_entry_ok as (r & E).
  destruct (entry_first_correct 0x9a00 0x106 Sim.demo_ip Sim.demo_name Sim.demo_file demo_bios demo_st 0x7800
    ltac:(solve_machine) ltac:(solve_machine) ltac:(solve_machine) ltac:(solve_machine) ltac:(solve_machine)
    CAPACITY 0 demo_features 0x9000 0 0x3000 0x8100 demo_entries demo_kernel [demo_code] demo_machine)
    as [Ho|Ho]; [solve_machine..| |exact Ho].
  destruct (Done_enough (Z.of_nat (length Sim.demo_file)) demo_entry r E Ho).
Qed.

Definition demo_next (w : Sim.state) (b : BootArgs) : outcome (Sim.state * BootArgs * Z * Enter64) :=
  BootMain.entry demo_bios demo_st 0x7800 CAPACITY 1 demo_features 0x9000 0 0x3000 0x8100 1 b w.

Lemma demo_next_ok : ∃ w b id e r, demo_entry = Done (w, b, id, e) ∧ demo_next w b = Done r.
Proof.
  assert (match demo_entry with Done (w, b, _, _) => match demo_next w b with Done _ => true | _ => false end | _ => false end = true) as E
    by (vm_compute; reflexivity).
  destruct demo_entry as [[[[w b] id] e]| |]; [|done|done]. destruct (demo_next w b) as [r| |] eqn:Er; [|done|done]. by exists w, b, id, e, r.
Qed.

Lemma entry_next_spec_witness : ∃ w b id e r, demo_entry = Done (w, b, id, e) ∧ demo_next w b = Done r ∧
  entered demo_features 0x3000 (usable demo_entries) [demo_code] 1 0x133700001002 0x9000 0x8100 1 r.
Proof.
  destruct demo_entered as (r1 & E1 & (w' & b' & table & -> & _ & Hser & _ & Hr)).
  destruct demo_next_ok as (w & b & id & e & r & E & En). rewrite E in E1. apply Done_inj in E1. injection E1 as -> -> -> ->.
  exists w', b', (wrapping_add 32 0 1), (enters 0x133700001002 0x9000 table (trampoline_page_table b') 0 0), r. split; [exact E|]. split; [exact En|].
  destruct (entry_next_spec 0x9a00 0x106 Sim.demo_ip Sim.demo_name Sim.demo_file demo_bios demo_st 0x7800 CAPACITY 1 demo_features 0x9000 0 0x3000
    0x8100 1 (usable demo_entries) [demo_code] 1 0x133700001002 b' w' 0 Hr Hser demo_below) as [Ho|(r' & Ho & He)]; [by_decide| |].
  - destruct (Done_enough 0 (demo_next w' b') r En Ho).
  - unfold demo_next in En. rewrite En in Ho. apply Done_inj in Ho as ->. exact He.
Defined.
