(* ===== verification/Panic.v ===== *)
(** * Panics and soft reboots (kernel/src/panic.rs)

    What the processors do from the first panic on: a processor other than the
    first leaves its information and sends an NMI to the first, which stops all
    the others with NMIs of its own, reports on a new serial driver, waits for
    the request to reboot, destroys the devices and jumps back into the
    bootloader.  The processors run concurrently: a step relation interleaves
    their accesses to [PANIC_PENDING], [SOFT_REBOOT_REQUESTED] and [APICS] and the
    delivery of NMIs. *)

From stdpp Require Import base tactics option list numbers strings pretty gmap relations.
From Stdlib Require Import ZArith Lia.
From S2P Require Import Prelude MachineInt Bytes RangeSet KernelMm Acpi Pci Apic Serial BootMain.

Local Open Scope Z_scope.

(** [PanicInfo]: file, line and column, and the formatted message *)
Record PanicInfo := mkPanicInfo { location : option (list Z * Z * Z); message : option (list Z) }.

(** A panic with a message of the kernel's own *)
Definition panic_info (msg : string) : PanicInfo := mkPanicInfo None (Some (text msg)).

(** Decimal digits *)
Definition digits (n : Z) : list Z := text (pretty (Z.to_N n)).

(** Where another processor is: in other code, in [panic] before the store, before the IPI and
    in [cpu::halt]; in the NMI handler before the store of [Halted], and halted. *)
Inductive ApPc := ApRun | ApStore (info : PanicInfo) | ApIpi | ApHalt | ApNmi | ApDead.

(** The two calls of [disable_all_cores]: from [panic], with the information of
    the other processor and its own, and from [soft_reboot]. *)
Inductive Phase := InPanic (other : option PanicInfo) (our : PanicInfo) | InReboot.

(** Where the first processor is: in other code; at the load of [PANIC_PENDING];
    at an APIC id of the loop, before the IPI and in the wait for [Halted]; before
    the report; in the wait for the request; before the teardown; and gone, with
    the address and the argument of the jump. *)
Inductive BspPc :=
| BRun
| BLoad (our : PanicInfo)
| BScan (ph : Phase) (apic_id : Z)
| BSend (ph : Phase) (apic_id : Z)
| BWait (ph : Phase) (apic_id : Z)
| BReport (other : option PanicInfo) (our : PanicInfo)
| BPoll (serial : SerialPort)
| BDestroy
| BJump (vaddr cr3 : Z).

(** [(1 << 14) | (4 << 8)], and what an APIC does with a command: delivery mode 4
    is an NMI. *)
Definition NMI_IPI : Z := Z.lor (Z.shiftl 1 14) (Z.shiftl 4 8).
Definition deliver (dest command : Z) (nmi : gset Z) : gset Z :=
  if Z.land (Z.shiftr command 8) 7 =? 4 then {[dest]} ∪ nmi else nmi.

Section panic.
Context {W : Type} `{HP : Ports W} `{HL : Lapic W}.

(** [PANIC_PENDING], [SOFT_REBOOT_REQUESTED], the NMIs that are latched, and
    whether the first processor is in an NMI handler, which blocks further ones. *)
Record Sys := mkSys {
  y_cores : Cores; y_pending : option PanicInfo; y_requested : bool; y_nmi : gset Z;
  y_blocked : bool; y_bsp : BspPc; y_aps : gmap Z ApPc; y_world : W }.

(** The APIC id and the APIC of the first processor, the words of the BIOS data
    area, a bound on the waits for the serial port, the devices, [boot_args]. *)
Variable own : Z.
Variable apic : Apic.
Variable eois : list bool.
Variable bda : list Z.
Variable fuel : nat.
Context {Dev : Type} (purge : Dev → W → outcome W) (devices : list Dev).
Variable boot_args : BootArgs.

Definition ap_pc (s : Sys) (id : Z) : ApPc := default ApDead (y_aps s !! id).

Definition set_bsp (pc : BspPc) (s : Sys) : Sys :=
  mkSys (y_cores s) (y_pending s) (y_requested s) (y_nmi s) (y_blocked s) pc (y_aps s) (y_world s).
Definition set_ap (id : Z) (pc : ApPc) (s : Sys) : Sys :=
  mkSys (y_cores s) (y_pending s) (y_requested s) (y_nmi s) (y_blocked s) (y_bsp s) (<[id := pc]> (y_aps s)) (y_world s).
Definition set_world (w : W) (s : Sys) : Sys :=
  mkSys (y_cores s) (y_pending s) (y_requested s) (y_nmi s) (y_blocked s) (y_bsp s) (y_aps s) w.
Definition set_requested (s : Sys) : Sys :=
  mkSys (y_cores s) (y_pending s) true (y_nmi s) (y_blocked s) (y_bsp s) (y_aps s) (y_world s).
Definition set_nmi (nmi : gset Z) (s : Sys) : Sys :=
  mkSys (y_cores s) (y_pending s) (y_requested s) nmi (y_blocked s) (y_bsp s) (y_aps s) (y_world s).

(** [attempt_soft_reboot]: whether a reboot was requested, and so a panic forced.
    [lock] is what [try_lock] gives. *)
Definition attempt_soft_reboot (lock : option (option SerialPort)) (w : W) : outcome (W * bool) :=
  match lock with
  | None => Done (w, false)
  | Some x => serial ← unwrap x; let '(w, byte) := read_byte serial w in Done (w, bool_decide (byte = Some 0x5a))
  end.

(** One of the two messages *)
Definition report_one (serial : SerialPort) (msg : string) (info : option PanicInfo) (w : W) : outcome W :=
  match info with
  | None => Done w
  | Some info =>
      w ← Serial.write fuel serial (text "=== PANIC | " ++ text msg ++ line " =============") w;
      w ← match location info with
          | Some (file, l, column) =>
              Serial.write fuel serial (text "At " ++ file ++ text ":" ++ digits l ++ text ":" ++ digits column ++ [0x0a]) w
          | None => Done w
          end;
      match message info with Some msg => Serial.write fuel serial (msg ++ [0x0a]) w | None => Done w end
  end.

Definition report (other : option PanicInfo) (our : PanicInfo) (w : W) : outcome (W * SerialPort) :=
  '(w, serial) ← Serial.new fuel bda w;
  w ← Serial.write fuel serial [0x0a; 0x0a; 0x0a] w;
  w ← report_one serial "Panic reported by other core" other w;
  w ← report_one serial "Local panic" (Some our) w;
  Done (w, serial).

(** The devices, then the core locals, of which the APIC has a destructor *)
Definition teardown (w : W) : outcome W :=
  w ← destroy_devices purge devices w;
  '(w, _) ← drop_apic fuel apic eois w;
  Done w.

(** What follows [disable_all_cores] *)
Definition scanned (ph : Phase) : BspPc := match ph with InPanic other our => BReport other our | InReboot => BDestroy end.

(** A panic of the handler's own enters it again. *)
Definition at_outcome {A} (o : outcome A) (f : A → Sys) (s : Sys) : option Sys :=
  match o with Done a => Some (f a) | Panic msg => Some (set_bsp (BLoad (panic_info msg)) s) | OutOfFuel => None end.

(** One access of [panic], [disable_all_cores] or [soft_reboot] on the first
    processor.  The report and the teardown, when it is alone, are one step each. *)
Definition bsp_step (s : Sys) : option Sys :=
  match y_bsp s with
  | BRun | BJump _ _ => None
  | BLoad our => Some (set_bsp (BScan (InPanic (y_pending s) our) 0) s)
  | BScan ph id =>
      if Z.of_nat MAX_CORES <=? id then Some (set_bsp (scanned ph) s) else
      if id =? own then Some (set_bsp (BScan ph (id + 1)) s) else
      at_outcome (core_state id (y_cores s))
        (λ st, set_bsp (if decide (st = Online) then BSend ph id else BScan ph (id + 1)) s) s
  | BSend ph id =>
      Some (set_bsp (BWait ph id) (set_nmi (deliver id NMI_IPI (y_nmi s)) (set_world (ipi (mode apic) id NMI_IPI (y_world s)) s)))
  | BWait ph id =>
      at_outcome (core_state id (y_cores s)) (λ st, if decide (st ≠ Halted) then s else set_bsp (BScan ph (id + 1)) s) s
  | BReport other our => at_outcome (report other our (y_world s)) (λ '(w, serial), set_bsp (BPoll serial) (set_world w s)) s
  | BPoll serial =>
      if y_requested s then
        at_outcome (Serial.write fuel serial (line "Starting soft reboot...") (y_world s))
          (λ w, set_bsp (BScan InReboot 0) (set_world w s)) s
      else
        let '(w, byte) := read_byte serial (y_world s) in
        let s := set_world w s in
        Some (if decide (byte = Some 0x5a) then set_requested s else s)
  | BDestroy =>
      at_outcome (teardown (y_world s))
        (λ w, set_bsp (BJump (wrapping_add 64 KERNEL_PHYS_WINDOW_BASE (soft_reboot_addr boot_args)) (trampoline_page_table boot_args))
                (set_world w s)) s
  end.

(** One access of [panic] or of the NMI handler on another processor *)
Definition ap_step (id : Z) (s : Sys) : option Sys :=
  match ap_pc s id with
  | ApStore info =>
      Some (set_ap id ApIpi (mkSys (y_cores s) (Some info) (y_requested s) (y_nmi s) (y_blocked s) (y_bsp s) (y_aps s) (y_world s)))
  | ApIpi => Some (set_ap id ApHalt (set_nmi (deliver 0 NMI_IPI (y_nmi s)) s))
  | ApNmi =>
      match set_core_state id Halted (y_cores s) with
      | Done c => Some (set_ap id ApDead (mkSys c (y_pending s) (y_requested s) (y_nmi s) (y_blocked s) (y_bsp s) (y_aps s) (y_world s)))
      | _ => None
      end
  | _ => None
  end.

(** An NMI is not blocked. *)
Definition takes_nmi (pc : ApPc) : Prop := match pc with ApNmi | ApDead => False | _ => True end.

(** The handler of an NMI (interrupts.rs) panics on the first processor. *)
Definition bsp_nmi (s : Sys) : Sys :=
  mkSys (y_cores s) (y_pending s) (y_requested s) (y_nmi s ∖ {[own]}) true (BLoad (panic_info "Panic occured on another core"))
    (y_aps s) (y_world s).

(** The timer's [attempt_soft_reboot] panics when there is a request. *)
Definition timer_info : PanicInfo := panic_info "Soft reboot requested from timer".

Inductive panic_step : Sys → Sys → Prop :=
| step_bsp s s' : bsp_step s = Some s' → panic_step s s'
| step_bsp_panic s our : y_bsp s = BRun → panic_step s (set_bsp (BLoad our) s)
| step_bsp_nmi s : own ∈ y_nmi s → y_blocked s = false → (∀ vaddr cr3, y_bsp s ≠ BJump vaddr cr3) → panic_step s (bsp_nmi s)
| step_bsp_timer s lock w req : y_bsp s = BRun → attempt_soft_reboot lock (y_world s) = Done (w, req) →
    panic_step s (if req : bool then set_bsp (BLoad timer_info) (set_requested (set_world w s)) else set_world w s)
| step_ap s id s' : ap_step id s = Some s' → panic_step s s'
| step_ap_panic s id info : ap_pc s id = ApRun → panic_step s (set_ap id (ApStore info) s)
| step_ap_nmi s id : id ∈ y_nmi s → takes_nmi (ap_pc s id) → panic_step s (set_ap id ApNmi (set_nmi (y_nmi s ∖ {[id]}) s))
| step_ap_timer s id lock w req : ap_pc s id = ApRun → attempt_soft_reboot lock (y_world s) = Done (w, req) →
    panic_step s (if req : bool then set_ap id (ApStore timer_info) (set_requested (set_world w s)) else set_world w s).
(** ** Invariant *)

Variable ids : list Z.
Hypothesis ids_nodup : NoDup ids.
Hypothesis ids_range : ∀ id, id ∈ ids → 0 ≤ id < Z.of_nat MAX_CORES.
Hypothesis own_out : ~ own ∈ ids.

Definition state_at (c : Cores) (id : Z) (st : ApicState) : Prop := apics c !! Z.to_nat id = Some (apic_state_u8 st).

(** The kernel as it runs: the processors [ids] are online beside the first, no
    other is, and nobody has panicked. *)
Definition running (s : Sys) : Prop :=
  length (apics (y_cores s)) = MAX_CORES ∧
  (∀ id, id ∈ ids → y_aps s !! id = Some ApRun ∧ state_at (y_cores s) id Online) ∧
  (∀ id, ~ id ∈ ids → y_aps s !! id = None) ∧
  (∀ id, 0 ≤ id < Z.of_nat MAX_CORES → ~ id ∈ ids → id ≠ own → ∃ st, state_at (y_cores s) id st ∧ st ≠ Online) ∧
  y_pending s = None ∧ y_requested s = false ∧ y_nmi s = ∅ ∧ y_blocked s = false ∧ y_bsp s = BRun.

Definition dead_below (k : Z) (s : Sys) : Prop := ∀ id, id ∈ ids → id < k → ap_pc s id = ApDead.
Definition all_dead (s : Sys) : Prop := ∀ id, id ∈ ids → ap_pc s id = ApDead.

(** The first processor is alone. *)
Definition alone (pc : BspPc) : Prop :=
  match pc with BScan InReboot _ | BReport _ _ | BPoll _ | BDestroy | BJump _ _ => True | _ => False end.

(** Where a soft reboot leads *)
Definition jump_to (vaddr cr3 : Z) : Prop :=
  vaddr = wrapping_add 64 KERNEL_PHYS_WINDOW_BASE (soft_reboot_addr boot_args) ∧ cr3 = trampoline_page_table boot_args.

Definition bsp_ok (s : Sys) : Prop :=
  match y_bsp s with
  | BScan (InPanic _ _) k => 0 ≤ k ∧ dead_below k s
  | BSend (InPanic _ _) k => k ∈ ids ∧ dead_below k s
  | BWait (InPanic _ _) k => k ∈ ids ∧ dead_below k s ∧ (k ∈ y_nmi s ∨ ap_pc s k = ApNmi ∨ ap_pc s k = ApDead)
  | BScan InReboot k => 0 ≤ k ∧ all_dead s
  | BSend InReboot _ | BWait InReboot _ => False
  | BReport _ _ | BPoll _ | BDestroy => all_dead s
  | BJump vaddr cr3 => all_dead s ∧ jump_to vaddr cr3
  | BRun | BLoad _ => True
  end.

(** The information the first processor has taken from another *)
Definition taken_info (pc : BspPc) : option (option PanicInfo) :=
  match pc with
  | BScan (InPanic other _) _ | BSend (InPanic other _) _ | BWait (InPanic other _) _ | BReport other _ => Some other
  | _ => None
  end.

Record panic_inv (s : Sys) : Prop := {
  pi_len : length (apics (y_cores s)) = MAX_CORES;
  pi_ap id : id ∈ ids → state_at (y_cores s) id (match ap_pc s id with ApDead => Halted | _ => Online end);
  pi_out id : ~ id ∈ ids → ap_pc s id = ApDead;
  pi_other id : 0 ≤ id < Z.of_nat MAX_CORES → ~ id ∈ ids → id ≠ own → ∃ st, state_at (y_cores s) id st ∧ st ≠ Online;
  pi_bsp : bsp_ok s;
  pi_sent id : ap_pc s id = ApIpi → y_pending s ≠ None;
  pi_nmi : own ∈ y_nmi s → y_pending s ≠ None;
  pi_blocked : y_blocked s = true → y_pending s ≠ None ∧ ∀ other, taken_info (y_bsp s) = Some other → other ≠ None;
}.

Lemma ap_pc_set id pc s id' : ap_pc (set_ap id pc s) id' = if decide (id = id') then pc else ap_pc s id'.
Proof.
  unfold ap_pc, set_ap. cbn. destruct (decide (id = id')) as [->|]; [by rewrite lookup_insert_eq|by rewrite lookup_insert_ne].
Qed.

Lemma state_core_state id st c : state_at c id st → core_state id c = Done st.
Proof. unfold state_at, core_state, index. intros ->. by destruct st. Qed.

Lemma state_inj c id st st' : state_at c id st → state_at c id st' → st = st'.
Proof. unfold state_at. intros -> E. destruct st, st'; done. Qed.

Lemma deliver_nmi id nmi : deliver id NMI_IPI nmi = {[id]} ∪ nmi.
Proof. reflexivity. Qed.

Lemma panic_inv_init s : running s → panic_inv s.
Proof.
  intros (H1 & H2 & H3 & H4 & H5 & H6 & H7 & H8 & H9).
  assert (∀ id, id ∈ ids → ap_pc s id = ApRun) as Hr by (intros id Hid; unfold ap_pc; by rewrite (proj1 (H2 id Hid))).
  assert (∀ id, ~ id ∈ ids → ap_pc s id = ApDead) as Hd by (intros id Hid; unfold ap_pc; by rewrite (H3 id Hid)).
  split; [done| |done|done| |..].
  - intros id Hid. rewrite (Hr id Hid). by apply H2.
  - unfold bsp_ok. by rewrite H9.
  - intros id E. destruct (decide (id ∈ ids)) as [Hid|Hid]; [by rewrite (Hr id Hid) in E|by rewrite (Hd id Hid) in E].
  - rewrite H7. set_solver.
  - by rewrite H8.
Qed.

(** What the first processor does keeps the invariant when it keeps the rest. *)
Lemma panic_inv_bsp s s' : panic_inv s → y_cores s' = y_cores s → y_pending s' = y_pending s → y_aps s' = y_aps s →
  y_blocked s' = y_blocked s → (own ∈ y_nmi s' → own ∈ y_nmi s) → bsp_ok s' →
  (∀ other, taken_info (y_bsp s') = Some other → taken_info (y_bsp s) = Some other ∨ other = y_pending s) → panic_inv s'.
Proof.
  intros [H1 H2 H3 H4 H5 H6 H7 H8] Ec Ep Ea Eb En Hb Ht.
  assert (∀ id, ap_pc s' id = ap_pc s id) as Hpc by (intros id; unfold ap_pc; by rewrite Ea).
  split; rewrite ?Ec, ?Ep, ?Eb; try done.
  - intros id. rewrite Hpc. apply H2.
  - intros id. rewrite Hpc. apply H3.
  - intros id. rewrite Hpc. apply H6.
  - auto.
  - intros Hbl. destruct (H8 Hbl) as [A B]. split; [done|]. intros other Ho. destruct (Ht other Ho) as [?| ->]; [by apply B|done].
Qed.

(** A step of another processor, which does not touch the states of others *)
Lemma panic_inv_ap s s' id : panic_inv s → id ∈ ids → (∀ id', id' ≠ id → ap_pc s' id' = ap_pc s id') → y_bsp s' = y_bsp s →
  y_blocked s' = y_blocked s → length (apics (y_cores s')) = MAX_CORES →
  (∀ id', id' ≠ id → 0 ≤ id' → apics (y_cores s') !! Z.to_nat id' = apics (y_cores s) !! Z.to_nat id') →
  state_at (y_cores s') id (match ap_pc s' id with ApDead => Halted | _ => Online end) →
  (ap_pc s id = ApDead → ap_pc s' id = ApDead) →
  ((id ∈ y_nmi s ∨ ap_pc s id = ApNmi) → (id ∈ y_nmi s' ∨ ap_pc s' id = ApNmi ∨ ap_pc s' id = ApDead)) →
  (∀ id', id' ≠ id → id' ∈ y_nmi s → id' ∈ y_nmi s') →
  (y_pending s ≠ None → y_pending s' ≠ None) → (ap_pc s' id = ApIpi → y_pending s' ≠ None) →
  (own ∈ y_nmi s' → y_pending s' ≠ None) → panic_inv s'.
Proof.
  intros [H1 H2 H3 H4 H5 H6 H7 H8] Hid Hpc Eb Ebl Hlen Hst Hown Hdead Hnmi Hnmi' Hp Hipi Hn.
  assert (∀ id', ap_pc s id' = ApDead → ap_pc s' id' = ApDead) as Hd.
  { intros id' E. destruct (decide (id' = id)) as [->|]; [by apply Hdead|by rewrite Hpc]. }
  assert (∀ k, dead_below k s → dead_below k s') as Hdb by (intros k H x Hx Hk; apply Hd; by apply H).
  assert (all_dead s → all_dead s') as Had by (intros H x Hx; apply Hd; by apply H).
  split; [done|..].
  - intros id' Hid'. destruct (decide (id' = id)) as [->|Hne]; [done|]. pose proof (ids_range id' Hid').
    unfold state_at. rewrite Hst, Hpc by (done || lia). by apply H2.
  - intros id' Hid'. by apply Hd, H3.
  - intros id' Hr Hni Hno. destruct (H4 id' Hr Hni Hno) as (st & A & B). exists st. split; [|done].
    unfold state_at. rewrite Hst; [done|by intros ->|lia].
  - unfold bsp_ok in *. rewrite Eb. destruct (y_bsp s) as [| |[? ?|] k|[? ?|] k|[? ?|] k| | | |]; try solve [intuition auto].
    destruct H5 as (A & B & C). split; [done|]. split; [auto|].
    destruct (decide (k = id)) as [->|Hne]; [|rewrite Hpc by done; naive_solver]. destruct C as [?|[?|?]]; [auto|auto|right; right; auto].
  - intros id' E. destruct (decide (id' = id)) as [->|Hne]; [by apply Hipi|]. rewrite Hpc in E by done. by apply Hp, (H6 id').
  - done.
  - rewrite Ebl, Eb. intros Hbl. destruct (H8 Hbl). auto.
Qed.
Lemma bsp_ok_scan s ph k : panic_inv s → y_bsp s = BScan ph k → 0 ≤ k ∧ dead_below k s.
Proof.
  intros Hi E. pose proof (pi_bsp _ Hi) as Hb. unfold bsp_ok in Hb. rewrite E in Hb. destruct ph; [done|].
  split; [apply Hb|]. intros id Hid _. by apply Hb.
Qed.

(** The loop goes on past an id that is dead, or not a processor. *)
Lemma bsp_scan_next s ph k : panic_inv s → y_bsp s = BScan ph k ∨ y_bsp s = BWait ph k → 0 ≤ k →
  (k ∈ ids → ap_pc s k = ApDead) → bsp_ok (set_bsp (BScan ph (k + 1)) s).
Proof.
  intros Hi E Hk Hd. pose proof (pi_bsp _ Hi) as Hb. unfold bsp_ok in *. cbn.
  assert (dead_below k s → dead_below (k + 1) (set_bsp (BScan ph (k + 1)) s)) as Hnext.
  { intros H id Hid Hlt. destruct (decide (id = k)) as [->|]; [by apply Hd|apply H; [done|lia]]. }
  destruct E as [E|E]; rewrite E in Hb; destruct ph; try done; (split; [lia|]); try apply Hnext; apply Hb.
Qed.

Lemma core_state_Done s id st : panic_inv s → 0 ≤ id < Z.of_nat MAX_CORES → id ≠ own → core_state id (y_cores s) = Done st →
  (st = Online ↔ id ∈ ids ∧ ap_pc s id ≠ ApDead) ∧ (st = Halted → id ∈ ids → ap_pc s id = ApDead).
Proof.
  intros Hi Hr Hno E. destruct (decide (id ∈ ids)) as [Hid|Hid].
  - pose proof (pi_ap _ Hi id Hid) as Hst. rewrite (state_core_state _ _ _ Hst) in E. apply Done_inj in E as <-.
    destruct (ap_pc s id); naive_solver.
  - destruct (pi_other _ Hi id Hr Hid Hno) as (st' & Hst & Hne). rewrite (state_core_state _ _ _ Hst) in E.
    apply Done_inj in E as <-. naive_solver.
Qed.

(** The states are always readable. *)
Lemma core_state_total s id : panic_inv s → 0 ≤ id < Z.of_nat MAX_CORES → id ≠ own → ∃ st, core_state id (y_cores s) = Done st.
Proof.
  intros Hi Hr Hno. destruct (decide (id ∈ ids)) as [Hid|Hid].
  - eexists. apply state_core_state, (pi_ap _ Hi id Hid).
  - destruct (pi_other _ Hi id Hr Hid Hno) as (st & Hst & _). exists st. by apply state_core_state.
Qed.

Lemma at_outcome_inv {A} (o : outcome A) (f : A → Sys) s s' : panic_inv s → at_outcome o f s = Some s' →
  (∀ a, o = Done a → panic_inv (f a)) → panic_inv s'.
Proof.
  intros Hi E Hf. destruct o as [a|msg|]; cbn in E; [| |done]; injection E as <-; [by apply Hf|]. by apply (panic_inv_bsp s).
Qed.

(** An id of the loop *)
Lemma bsp_scan_inv s s' ph k : panic_inv s → y_bsp s = BScan ph k → bsp_step s = Some s' → panic_inv s'.
Proof.
  intros Hi Epc E. pose proof (pi_bsp _ Hi) as Hb. unfold bsp_step in E. rewrite Epc in E.
  destruct (bsp_ok_scan s ph k Hi Epc) as [Hk Hd]. destruct (Z.leb_spec (Z.of_nat MAX_CORES) k) as [Hm|Hm].
  { injection E as <-. assert (all_dead s) as Had by (intros id Hid; apply Hd; [done|pose proof (ids_range id Hid); lia]).
    apply (panic_inv_bsp s); try done; [by destruct ph|]. rewrite Epc. destruct ph; naive_solver. }
  destruct (Z.eqb_spec k own) as [->|Hno].
  { injection E as <-. apply (panic_inv_bsp s); try done; [apply bsp_scan_next; auto; tauto|rewrite Epc; auto]. }
  apply (at_outcome_inv _ _ _ _ Hi E). intros st Hst. destruct (core_state_Done s k st Hi ltac:(lia) Hno Hst) as [Hon _].
  case_decide as Ho.
  + destruct (proj1 Hon Ho) as [Hin Hnd]. apply (panic_inv_bsp s); try done; [|rewrite Epc; by destruct ph; auto].
    unfold bsp_ok in *. rewrite Epc in Hb. cbn. destruct ph; [by split|]. by apply Hnd, Hb.
  + apply (panic_inv_bsp s); try done; [|rewrite Epc; auto]. apply bsp_scan_next; [done|by left|lia|].
    intros Hin. destruct (ap_pc s k) eqn:Epk; try done; (exfalso; apply Ho, Hon; split; [done|congruence]).
Qed.

Lemma bsp_step_inv s s' : panic_inv s → bsp_step s = Some s' → panic_inv s'.
Proof.
  intros Hi E. pose proof (pi_bsp _ Hi) as Hb. unfold bsp_step in E.
  destruct (y_bsp s) as [|our|ph k|ph k|ph k|other our|serial| |] eqn:Epc; try done.
  - injection E as <-. apply (panic_inv_bsp s); try done; [|cbn; naive_solver].
    unfold bsp_ok. cbn. split; [lia|]. intros id Hid Hlt. pose proof (ids_range id Hid). lia.
  - apply (bsp_scan_inv s s' ph k Hi Epc). unfold bsp_step. by rewrite Epc.
  - injection E as <-. unfold bsp_ok in Hb. rewrite Epc in Hb. destruct ph as [other our|]; [|done]. destruct Hb as [Hin Hd].
    apply (panic_inv_bsp s); try done.
    + cbn. rewrite deliver_nmi, elem_of_union, elem_of_singleton. intros [->|]; [by apply own_out in Hin|done].
    + unfold bsp_ok. cbn. split; [done|]. split; [done|]. left. rewrite deliver_nmi. set_solver.
    + rewrite Epc. cbn. auto.
  - apply (at_outcome_inv _ _ _ _ Hi E). intros st Hst. case_decide as Hh; [done|]. subst st.
    assert (k ∈ ids) as Hin by (unfold bsp_ok in Hb; rewrite Epc in Hb; destruct ph; [apply Hb|done]).
    pose proof (ids_range k Hin). assert (k ≠ own) as Hno by (intros ->; by apply own_out in Hin).
    apply (panic_inv_bsp s); try done; [|rewrite Epc; by destruct ph; auto]. apply bsp_scan_next; [done|by right|lia|].
    intros _. by apply (core_state_Done s k Halted Hi ltac:(lia) Hno Hst).
  - apply (at_outcome_inv _ _ _ _ Hi E). intros [w serial] _. unfold bsp_ok in Hb. rewrite Epc in Hb. by apply (panic_inv_bsp s).
  - unfold bsp_ok in Hb. rewrite Epc in Hb. destruct (y_requested s).
    + apply (at_outcome_inv _ _ _ _ Hi E). intros w _. by apply (panic_inv_bsp s).
    + destruct (read_byte serial (y_world s)) as [w byte]. injection E as <-.
      case_decide; apply (panic_inv_bsp s); try done; unfold bsp_ok; cbn; rewrite Epc; done.
  - apply (at_outcome_inv _ _ _ _ Hi E). intros w _. unfold bsp_ok in Hb. rewrite Epc in Hb. by apply (panic_inv_bsp s).
Qed.
Lemma ap_in s id : panic_inv s → ap_pc s id ≠ ApDead → id ∈ ids.
Proof. intros Hi Hd. destruct (decide (id ∈ ids)) as [|Hn]; [done|]. by apply (pi_out _ Hi) in Hn. Qed.

Ltac solve_pc := intros ?; rewrite ap_pc_set; reflexivity.

(** A processor other than the first moves on in its code. *)
Lemma panic_inv_move s s' id pc : panic_inv s → ap_pc s id ≠ ApDead → pc ≠ ApDead →
  (∀ id', ap_pc s' id' = if decide (id = id') then pc else ap_pc s id') → y_cores s' = y_cores s → y_bsp s' = y_bsp s →
  y_blocked s' = y_blocked s → (∀ id', id' ≠ id → id' ∈ y_nmi s → id' ∈ y_nmi s') →
  ((id ∈ y_nmi s ∨ ap_pc s id = ApNmi) → (id ∈ y_nmi s' ∨ pc = ApNmi)) →
  (y_pending s ≠ None → y_pending s' ≠ None) → (pc = ApIpi → y_pending s' ≠ None) →
  (own ∈ y_nmi s' → y_pending s' ≠ None) → panic_inv s'.
Proof.
  intros Hi Hd Hd' Hpc Ec Eb Ebl Hn Hn2 Hp Hipi Hown. pose proof (ap_in s id Hi Hd) as Hid.
  assert (ap_pc s' id = pc) as Epc by (rewrite Hpc; by rewrite decide_True).
  apply (panic_inv_ap s s' id); rewrite ?Epc, ?Ec; try done.
  - intros id' Hne. rewrite Hpc. by rewrite decide_False by congruence.
  - apply Hi.
  - pose proof (pi_ap _ Hi id Hid) as Hst. by destruct (ap_pc s id), pc.
  - naive_solver.
Qed.

Lemma ap_step_inv s s' id : panic_inv s → ap_step id s = Some s' → panic_inv s'.
Proof.
  intros Hi E. unfold ap_step in E. destruct (ap_pc s id) as [|info| | | |] eqn:Epc; try done.
  - injection E as <-. apply (panic_inv_move s _ id ApIpi); try done; try congruence; [solve_pc|cbn; intros [?|?]; [by left|congruence]].
  - injection E as <-. pose proof (pi_sent _ Hi id Epc) as Hp.
    apply (panic_inv_move s _ id ApHalt); try done; try congruence; [solve_pc|cbn; rewrite deliver_nmi..].
    + intros id' _. apply elem_of_union_r.
    + intros [?|?]; [left; by apply elem_of_union_r|congruence].
  - assert (id ∈ ids) as Hid by (apply (ap_in s id Hi); congruence). pose proof (ids_range id Hid) as Hr.
    destruct (set_core_state id Halted (y_cores s)) as [c| |] eqn:Ec; try done. injection E as <-.
    unfold set_core_state in Ec. apply bind_Done in Ec as (l & El & Ec). apply Done_inj in Ec as <-.
    unfold index_set in El. case_decide as Hlt; [|done]. apply Done_inj in El as <-.
    apply (panic_inv_ap s _ id); try done; rewrite ?ap_pc_set; try done.
    + intros id' Hne. rewrite ap_pc_set. by rewrite decide_False by congruence.
    + cbn. rewrite length_insert. apply Hi.
    + intros id' Hne H0. cbn. rewrite list_lookup_insert_ne by lia. done.
    + rewrite decide_True by done. unfold state_at. cbn. by rewrite list_lookup_insert_eq.
    + rewrite decide_True by done. auto.
    + rewrite decide_True by done. auto.
    + rewrite decide_True by done. done.
    + apply Hi.
Qed.

Lemma panic_step_inv s s' : panic_inv s → panic_step s s' → panic_inv s'.
Proof.
  intros Hi Hs. destruct Hs as [s s' E|s our E|s Hn Hb Hj|s lock w req E Et|s id s' E|s id info E|s id Hn Ht|s id lock w req E Et].
  - by apply (bsp_step_inv s).
  - by apply (panic_inv_bsp s).
  - destruct Hi as [H1 H2 H3 H4 H5 H6 H7 H8]. split; try done; cbn; [by intros [Ho _]%elem_of_difference; apply H7|]. intros _. split; [by apply H7|done].
  - destruct req; apply (panic_inv_bsp s); try done; unfold bsp_ok; cbn; rewrite E; done.
  - by apply (ap_step_inv s s' id).
  - apply (panic_inv_move s _ id (ApStore info)); try done; try congruence; [solve_pc|cbn; intros [?|?]; [by left|congruence]|apply Hi].
  - apply (panic_inv_move s _ id ApNmi); try done; [by intros E; rewrite E in Ht|solve_pc|..]; cbn.
    + intros id' Hne Hin. apply elem_of_difference. by rewrite elem_of_singleton.
    + auto.
    + intros [Ho _]%elem_of_difference. by apply (pi_nmi _ Hi).
  - destruct req; [|apply (panic_inv_bsp s); try done; [apply Hi|cbn; auto]].
    apply (panic_inv_move s _ id (ApStore timer_info)); try done; try congruence; [solve_pc|cbn; intros [?|?]; [by left|congruence]|apply Hi].
Qed.

Lemma panic_inv_reachable s s' : running s → rtc panic_step s s' → panic_inv s'.
Proof.
  intros Hr H. apply panic_inv_init in Hr. induction H as [|s s1 s' Hs _ IH]; [done|]. by apply IH, (panic_step_inv s).
Qed.

(** ** Being alone *)

Lemma alone_dead s : panic_inv s → alone (y_bsp s) → ∀ id, ap_pc s id = ApDead.
Proof.
  intros Hi Ha id. destruct (decide (id ∈ ids)) as [Hid|Hid]; [|by apply (pi_out _ Hi)].
  pose proof (pi_bsp _ Hi) as Hb. unfold bsp_ok in Hb.
  destruct (y_bsp s) as [| |[? ?|] k|[? ?|] k|[? ?|] k| | | |]; try done; by apply Hb.
Qed.

Lemma alone_still s s' : panic_inv s → alone (y_bsp s) → panic_step s s' → y_aps s' = y_aps s ∧ y_cores s' = y_cores s.
Proof.
  intros Hi Ha Hs. pose proof (alone_dead s Hi Ha) as Hd.
  destruct Hs as [s s' E|s our E|s Hn Hb Hj|s lock w req E Et|s id s' E|s id info E|s id Hn Ht|s id lock w req E Et];
    try (by split); try (by rewrite Hd in E); try (by rewrite Hd in Ht); [|by destruct req|].
  - assert (∀ A (o : outcome A) f, (∀ a, y_aps (f a) = y_aps s ∧ y_cores (f a) = y_cores s) → at_outcome o f s = Some s' →
      y_aps s' = y_aps s ∧ y_cores s' = y_cores s) as Ho.
    { intros A o f Hf Eo. destruct o as [a|msg|]; cbn in Eo; [| |done]; injection Eo as <-; [apply Hf|done]. }
    unfold bsp_step in E. destruct (y_bsp s) as [|our|ph k|ph k|ph k|other our|serial| |]; try done.
    + destruct (_ <=? k); [by injection E as <-|]. destruct (k =? own); [by injection E as <-|]. by apply Ho in E.
    + apply Ho in E; [done|]. by intros [w serial].
    + destruct (y_requested s); [by apply Ho in E|]. destruct (read_byte _ _) as [w byte]. injection E as <-. by case_decide.
    + by apply Ho in E.
  - unfold ap_step in E. by rewrite Hd in E.
Qed.
(** ** Progress *)

Definition ap_measure (pc : ApPc) : nat :=
  match pc with ApRun => 5 | ApStore _ => 4 | ApIpi => 3 | ApHalt => 2 | ApNmi => 1 | ApDead => 0 end.

(** Three steps for each id of a pass; the second pass comes after the report. *)
Definition pass (k : Z) : nat := 3 * Z.to_nat (Z.of_nat MAX_CORES - k).
Definition full : nat := 3 * MAX_CORES.
Definition after (ph : Phase) : nat := match ph with InReboot => 2 | InPanic _ _ => full + 6 end.
Definition bsp_measure (s : Sys) : nat :=
  match y_bsp s with
  | BJump _ _ => 0
  | BDestroy => 1
  | BScan ph k => pass k + after ph
  | BSend ph k => pass k + after ph - 1
  | BWait ph k => pass k + after ph - 2
  | BPoll _ => full + (if y_requested s then 3 else 4)
  | BReport _ _ => full + 5
  | BLoad _ => full + full + 7
  | BRun => full + full + 8
  end.

(** An NMI starts the first processor's panic over, once. *)
Definition measure (s : Sys) : nat :=
  sum_list_with (λ id, ap_measure (ap_pc s id)) ids + bsp_measure s + (if y_blocked s then 0 else full + full + 9).

(** A poll of a wait, of the serial port or of the timer *)
Definition poll (s s' : Sys) : Prop := s' = set_world (y_world s') s.

Definition settled (s : Sys) : Prop :=
  match y_bsp s with
  | BPoll _ => y_requested s = false
  | BJump vaddr cr3 => jump_to vaddr cr3
  | _ => False
  end.

Lemma pass_next k : k < Z.of_nat MAX_CORES → pass k = (3 + pass (k + 1))%nat.
Proof. intros Hk. unfold pass. lia. Qed.

Lemma pass_0 : pass 0 = full.
Proof. reflexivity. Qed.

Lemma sum_ext (f g : Z → nat) l : (∀ id, id ∈ l → f id = g id) → sum_list_with f l = sum_list_with g l.
Proof. induction l as [|x l IH]; intros H; [done|]. cbn. rewrite (H x), IH by (by left || (intros; apply H; by right)). done. Qed.

Lemma sum_less (f g : Z → nat) id : id ∈ ids → (f id < g id)%nat → (∀ id', id' ≠ id → f id' = g id') →
  (sum_list_with f ids < sum_list_with g ids)%nat.
Proof.
  intros Hid Hlt Heq. destruct (list_elem_of_split _ _ Hid) as (l1 & l2 & E).
  assert (~ id ∈ l1 ∧ ~ id ∈ l2) as [H1 H2].
  { rewrite E in ids_nodup. apply NoDup_app in ids_nodup as (_ & Hd & Hn). apply NoDup_cons in Hn as [Hn _].
    split; [|done]. intros Hin. by apply (Hd id Hin); left. }
  rewrite E, !sum_list_with_app. cbn.
  rewrite (sum_ext f g l1), (sum_ext f g l2); [lia|..]; intros x Hx; apply Heq; by intros ->.
Qed.

(** Another processor has moved on. *)
Lemma ap_moved s s' id pc : panic_inv s → ap_pc s id ≠ ApDead → (ap_measure pc < ap_measure (ap_pc s id))%nat →
  (∀ id', ap_pc s' id' = if decide (id = id') then pc else ap_pc s id') → y_bsp s' = y_bsp s → y_blocked s' = y_blocked s →
  (y_requested s = true → y_requested s' = true) → (measure s' < measure s)%nat.
Proof.
  intros Hi Hd Hlt Hpc Eb Ebl Hreq. unfold measure. rewrite Ebl.
  assert (bsp_measure s' ≤ bsp_measure s)%nat.
  { unfold bsp_measure. rewrite Eb. destruct (y_bsp s); try lia. destruct (y_requested s), (y_requested s'); lia. }
  assert (sum_list_with (λ id, ap_measure (ap_pc s' id)) ids < sum_list_with (λ id, ap_measure (ap_pc s id)) ids)%nat; [|lia].
  apply (sum_less _ _ id); [by apply (ap_in s)|by rewrite Hpc, decide_True|]. intros id' Hne. rewrite Hpc. by rewrite decide_False by congruence.
Qed.

(** The first processor has moved on. *)
Lemma bsp_moved s s' : y_aps s' = y_aps s → y_blocked s' = y_blocked s → (bsp_measure s' < bsp_measure s)%nat → (measure s' < measure s)%nat.
Proof. intros Ea Eb Hlt. unfold measure, ap_pc. rewrite Ea, Eb. lia. Qed.
(** The serial ports take what they are given, and the devices can be torn down:
    in a kernel whose only driver is the one of net.rs, there are none
    ([net_card_keeps_panicking]). *)
Definition console_works : Prop := (∀ other our w, ∃ r, report other our w = Done r) ∧
  (∀ serial w, ∃ w', Serial.write fuel serial (line "Starting soft reboot...") w = Done w').
Definition teardown_works : Prop := ∀ w, ∃ w', teardown w = Done w'.
Hypothesis console : console_works.
Hypothesis devices_ok : teardown_works.

Lemma bsp_step_measure s s' : panic_inv s → bsp_step s = Some s' → (measure s' < measure s)%nat ∨ poll s s'.
Proof.
  intros Hi E. pose proof (pi_bsp _ Hi) as Hb. unfold bsp_step in E. pose proof pass_0 as P0.
  destruct (y_bsp s) as [|our|ph k|ph k|ph k|other our|serial| |] eqn:Epc; try done.
  - injection E as <-. left. apply bsp_moved; [done|done|]. unfold bsp_measure. rewrite Epc. cbn [y_bsp set_bsp after]. lia.
  - destruct (bsp_ok_scan s ph k Hi Epc) as [Hk _]. destruct (Z.leb_spec (Z.of_nat MAX_CORES) k) as [Hm|Hm].
    { injection E as <-. left. apply bsp_moved; [done|done|]. unfold bsp_measure. rewrite Epc. destruct ph; cbn [y_bsp set_bsp scanned after]; lia. }
    pose proof (pass_next k Hm) as Hp.
    assert (∀ pc, (pc = BScan ph (k + 1) ∨ pc = BSend ph k) → (measure (set_bsp pc s) < measure s)%nat) as Hgo.
    { intros pc Hpc. apply bsp_moved; [done|done|]. unfold bsp_measure. rewrite Epc. destruct Hpc as [->| ->]; cbn [y_bsp set_bsp]; lia. }
    destruct (Z.eqb_spec k own) as [->|Hno]; [injection E as <-; left; apply Hgo; by left|].
    destruct (core_state_total s k Hi ltac:(lia) Hno) as (st & Est). rewrite Est in E. injection E as <-.
    left. apply Hgo. case_decide; [by right|by left].
  - injection E as <-. left. apply bsp_moved; [done|done|]. unfold bsp_measure. rewrite Epc. cbn [y_bsp set_bsp].
    unfold bsp_ok in Hb. rewrite Epc in Hb. destruct ph as [other our|]; [|done]. destruct Hb as [Hin _].
    pose proof (pass_next k ltac:(pose proof (ids_range k Hin); lia)). cbn [after]. lia.
  - unfold bsp_ok in Hb. rewrite Epc in Hb. destruct ph as [other our|]; [|done]. destruct Hb as [Hin _].
    pose proof (ids_range k Hin) as Hr. pose proof (pass_next k ltac:(lia)).
    rewrite (state_core_state _ _ _ (pi_ap _ Hi k Hin)) in E. injection E as <-. case_decide; [right; by destruct s|]. left.
    apply bsp_moved; [done|done|]. unfold bsp_measure. rewrite Epc. cbn [y_bsp set_bsp after]. lia.
  - destruct (proj1 console other our (y_world s)) as ([w serial] & Er). rewrite Er in E. injection E as <-. left.
    apply bsp_moved; [done|done|]. unfold bsp_measure. rewrite Epc. cbn. destruct (y_requested s); lia.
  - destruct (y_requested s) eqn:Eq.
    + destruct (proj2 console serial (y_world s)) as (w & Er). rewrite Er in E. injection E as <-. left.
      apply bsp_moved; [done|done|]. unfold bsp_measure. rewrite Epc, Eq. cbn [y_bsp set_bsp after]. lia.
    + destruct (read_byte serial (y_world s)) as [w byte]. injection E as <-. case_decide; [left|by right].
      apply bsp_moved; [done|done|]. unfold bsp_measure. cbn [y_bsp y_requested set_requested set_world]. rewrite Epc, Eq. lia.
  - destruct (devices_ok (y_world s)) as (w & Er). rewrite Er in E. injection E as <-. left.
    apply bsp_moved; [done|done|]. unfold bsp_measure. rewrite Epc. cbn. lia.
Qed.

Lemma panic_step_measure s s' : panic_inv s → panic_step s s' → (measure s' < measure s)%nat ∨ poll s s'.
Proof.
  intros Hi Hs. destruct Hs as [s s' E|s our E|s Hn Hb Hj|s lock w req E Et|s id s' E|s id info E|s id Hn Ht|s id lock w req E Et].
  - by apply bsp_step_measure.
  - left. apply bsp_moved; [done|done|]. unfold bsp_measure. rewrite E. cbn [y_bsp set_bsp]. lia.
  - left. unfold measure. rewrite Hb. cbn [y_blocked bsp_nmi]. unfold ap_pc, bsp_measure at 1. cbn [y_aps y_bsp bsp_nmi]. lia.
  - destruct req; [left|by right]. apply bsp_moved; [done|done|]. unfold bsp_measure. rewrite E. cbn [y_bsp set_bsp]. lia.
  - left. unfold ap_step in E. destruct (ap_pc s id) as [|info| | | |] eqn:Epc; try done.
    + injection E as <-. apply (ap_moved s _ id ApIpi); rewrite ?Epc; try done; [cbn; lia|solve_pc].
    + injection E as <-. apply (ap_moved s _ id ApHalt); rewrite ?Epc; try done; [cbn; lia|solve_pc].
    + destruct (set_core_state _ _ _); try done. injection E as <-.
      apply (ap_moved s _ id ApDead); rewrite ?Epc; try done; [cbn; lia|solve_pc].
  - left. apply (ap_moved s _ id (ApStore info)); rewrite ?E; try done; [cbn; lia|solve_pc].
  - left. apply (ap_moved s _ id ApNmi); try done; [by intros E; rewrite E in Ht|by destruct (ap_pc s id); cbn in *; try lia|solve_pc].
  - destruct req; [left|by right]. apply (ap_moved s _ id (ApStore timer_info)); rewrite ?E; try done; [cbn; lia|solve_pc].
Qed.

(** A processor that is waited for has an NMI to take, is in its handler, or has
    halted. *)
Lemma wait_progress s ph k : panic_inv s → y_bsp s = BWait ph k → ∃ s', panic_step s s' ∧ (measure s' < measure s)%nat.
Proof.
  intros Hi Epc. pose proof (pi_bsp _ Hi) as Hb.
  unfold bsp_ok in Hb. rewrite Epc in Hb. destruct ph as [other our|]; [|done]. destruct Hb as (Hin & _ & Hw).
  pose proof (pi_ap _ Hi k Hin) as Hst. destruct (ap_pc s k) eqn:Ek; try (destruct Hw as [Hw|[?|?]]; [|done|done]).
  1-4: eexists; split; [apply (step_ap_nmi s k Hw); by rewrite Ek|];
    apply (ap_moved s _ k ApNmi Hi); rewrite ?Ek; try done; [cbn; lia|solve_pc].
  + assert (∃ s', ap_step k s = Some s') as (s' & E).
    { unfold ap_step. rewrite Ek. unfold set_core_state, index_set. rewrite decide_True; [by eexists|].
      pose proof (ids_range k Hin). rewrite (pi_len _ Hi). lia. }
    exists s'. split; [by apply (step_ap s k)|]. unfold ap_step in E. rewrite Ek in E.
    destruct (set_core_state _ _ _); try done. injection E as <-.
    apply (ap_moved s _ k ApDead Hi); rewrite ?Ek; try done; [cbn; lia|solve_pc].
  + eexists. split; [apply step_bsp; unfold bsp_step; rewrite Epc, (state_core_state _ _ _ Hst); cbn; rewrite decide_False by naive_solver; done|].
    apply bsp_moved; [done|done|]. pose proof (pass_next k ltac:(pose proof (ids_range k Hin); lia)).
    unfold bsp_measure. rewrite Epc. cbn [y_bsp set_bsp after]. lia.
Qed.

(** Nobody waits for nothing. *)
Lemma panic_progress s : panic_inv s → y_bsp s ≠ BRun →
  settled s ∨ ∃ s', panic_step s s' ∧ (measure s' < measure s)%nat.
Proof.
  intros Hi Hne. pose proof (pi_bsp _ Hi) as Hb.
  assert (∀ s', bsp_step s = Some s' → ~ poll s s' → ∃ s', panic_step s s' ∧ (measure s' < measure s)%nat) as Hgo.
  { intros s' E Hp. exists s'. split; [by apply step_bsp|]. by destruct (bsp_step_measure s s' Hi E). }
  assert (∀ pc s', poll s (set_bsp pc s') → y_bsp s = pc) as Hpoll by (intros pc s' E; by apply (f_equal y_bsp) in E).
  destruct (y_bsp s) as [|our|ph k|ph k|ph k|other our|serial| |vaddr cr3] eqn:Epc; try done.
  - right. eapply Hgo; [unfold bsp_step; by rewrite Epc|]. intros H%Hpoll. congruence.
  - right. destruct (bsp_ok_scan s ph k Hi Epc) as [Hk _].
    assert (∃ pc, bsp_step s = Some (set_bsp pc s) ∧ pc ≠ BScan ph k) as (pc & E & Hn).
    { unfold bsp_step. rewrite Epc. destruct (Z.leb_spec (Z.of_nat MAX_CORES) k) as [Hm|Hm].
      { exists (scanned ph). split; [done|by destruct ph]. }
      assert (∀ ph', BScan ph' (k + 1) ≠ BScan ph k) by (intros ? [= _ ?]; lia).
      destruct (Z.eqb_spec k own) as [->|Hno]; [by eexists|].
      destruct (core_state_total s k Hi ltac:(lia) Hno) as (st & Est). rewrite Est. eexists. split; [done|]. by case_decide. }
    apply (Hgo _ E). intros H%Hpoll. congruence.
  - right. eapply Hgo; [unfold bsp_step; by rewrite Epc|]. intros H%Hpoll. congruence.
  - right. by apply (wait_progress s ph k).
  - right. destruct (proj1 console other our (y_world s)) as ([w serial] & Er).
    eapply Hgo; [unfold bsp_step; rewrite Epc, Er; done|]. intros H%Hpoll. congruence.
  - unfold settled. rewrite Epc. destruct (y_requested s) eqn:Eq; [right|by left].
    destruct (proj2 console serial (y_world s)) as (w & Er).
    eapply Hgo; [unfold bsp_step; rewrite Epc, Eq, Er; done|]. intros H%Hpoll. congruence.
  - right. destruct (devices_ok (y_world s)) as (w & Er).
    eapply Hgo; [unfold bsp_step; rewrite Epc, Er; done|]. intros H%Hpoll. congruence.
  - left. unfold settled, bsp_ok in *. rewrite Epc in *. apply Hb.
Qed.
Lemma step_not_running s s' : panic_step s s' → y_bsp s ≠ BRun → y_bsp s' ≠ BRun.
Proof.
  intros Hs Hne. destruct Hs as [s s' E|s our E|s Hn Hb Hj|s lock w req E Et|s id s' E|s id info E|s id Hn Ht|s id lock w req E Et];
    try done; [| |by destruct req].
  - assert (∀ A (o : outcome A) f, (∀ a, y_bsp (f a) ≠ BRun) → at_outcome o f s = Some s' → y_bsp s' ≠ BRun) as Ho.
    { intros A o f Hf Eo. destruct o as [a|msg|]; cbn in Eo; [| |done]; injection Eo as <-; [apply Hf|done]. }
    unfold bsp_step in E. destruct (y_bsp s) as [|our|ph k|ph k|ph k|other our|serial| |] eqn:Epc; try done.
    + by injection E as <-.
    + destruct (_ <=? k); [injection E as <-; by destruct ph|]. destruct (k =? own); [by injection E as <-|].
      apply Ho in E; [done|]. intros st. by case_decide.
    + by injection E as <-.
    + apply Ho in E; [done|]. intros st. case_decide; [by rewrite Epc|done].
    + apply Ho in E; [done|]. by intros [w serial].
    + destruct (y_requested s); [by apply Ho in E|]. destruct (read_byte _ _) as [w byte]. injection E as <-. case_decide; cbn; by rewrite Epc.
    + by apply Ho in E.
  - unfold ap_step in E. destruct (ap_pc s id); try done; [by injection E as <-..|].
    destruct (set_core_state _ _ _); try done. by injection E as <-.
Qed.

Lemma panic_finishes n : ∀ s, (measure s ≤ n)%nat → panic_inv s → y_bsp s ≠ BRun → ∃ s', rtc panic_step s s' ∧ settled s'.
Proof.
  induction n as [|n IH]; intros s Hm Hi Hne; (destruct (panic_progress s Hi Hne) as [|(s1 & Hs & Hlt)]; [by exists s; split; [apply rtc_refl|]|]); [lia|].
  destruct (IH s1) as (s2 & Hr & Hd); [lia|by apply (panic_step_inv s)|by apply (step_not_running s)|].
  exists s2. split; [by eapply rtc_l|done].
Qed.

(** ** The theorems *)


End panic.

(** ** A network card *)

(** [NetDevice::purge], the only [purge] there is *)
Definition net_purge {Dev W} (device : Dev) (w : W) : outcome W := Panic "Implement purge for net device".

Section net_card.
Context {W : Type} `{HP : Ports W} `{HL : Lapic W} {Dev : Type}.
Variables (own : Z) (apic : Apic) (eois : list bool) (bda : list Z) (fuel : nat).
Variables (card : Dev) (devices : list Dev) (boot_args : BootArgs).

#[local] Abbreviation card_step := (panic_step (W := W) own apic eois bda fuel net_purge (card :: devices) boot_args).

Definition jumped (s : Sys (W := W)) : Prop := ∃ vaddr cr3, y_bsp s = BJump vaddr cr3.

Lemma card_bsp_step s s' : bsp_step own apic eois bda fuel net_purge (card :: devices) boot_args s = Some s' → ~ jumped s'.
Proof.
  unfold bsp_step, at_outcome. intros E (vaddr & cr3 & Hj).
  destruct (y_bsp s) as [|our|ph k|ph k|ph k|other our|serial| |] eqn:Es; repeat case_match; simplify_eq/=; unfold scanned in *;
    repeat (case_match; simplify_eq/=); congruence.
Qed.

(** With a network card the first processor never leaves: the teardown of a soft
    reboot panics, which enters [panic] again. *)
Theorem net_card_keeps_panicking s s' : y_bsp s = BRun → rtc card_step s s' →
  ~ jumped s' ∧
  (y_bsp s' = BDestroy → bsp_step own apic eois bda fuel net_purge (card :: devices) boot_args s' =
     Some (set_bsp (BLoad (panic_info "Implement purge for net device")) s')).
Proof.
  intros Hr Hs. split; [|intros E; unfold bsp_step; by rewrite E].
  assert (~ jumped s) as H0 by (intros (? & ? & ?); congruence). clear Hr. revert H0.
  induction Hs as [s|s s1 s' H _ IH]; [done|]. intros H0. apply IH. clear IH s'.
  destruct H as [s s1 E|s our E|s Hn Hb Hj|s lock w req E Ea|s id s1 E|s id info E|s id Hn Ht|s id lock w req E Ea];
    [by apply (card_bsp_step s)|..]; intros (vaddr & cr3 & Hj'); apply H0; exists vaddr, cr3;
    try destruct req; try done; try (cbn in Hj'; congruence).
  unfold ap_step in E. repeat case_match; by simplify_eq/=.
Qed.
End net_card.

(** ** Three processors *)

(** A serial port that is always ready and has nothing to read, and an APIC with
    nothing in service. *)
#[local] Instance demo_ports : Ports unit := { in8 _ w := (w, 0x20); out8 _ _ w := w }.
#[local] Instance demo_lapic : Lapic unit := {
  lapic_read _ h := (h, 0); lapic_write _ _ h := h; msr_read _ h := (h, 0); msr_write _ _ h := h;
  port_in8 _ h := (h, 0); port_out8 _ _ h := h; sti h := h; cli h := h }.

Definition demo_apic : Apic := mkApic X2Apic IA32_APIC_BASE_EN 0 0 0 (mkTimerState 0 0 0).
Definition demo_eois : list bool := replicate 256 false.
Definition demo_bda : list Z := [0x3f8; 0; 0; 0].
Definition demo_args : BootArgs := mkBootArgs None None None 0x200000 None 0 0x8100.

Definition demo_cores : Cores :=
  mkCores 3 (<[5%nat := 1]> (<[3%nat := 1]> (<[0%nat := 1]> (replicate MAX_CORES (apic_state_u8 NoApic))))) 3.
Definition demo_running : Sys := mkSys demo_cores None false ∅ false BRun {[3 := ApRun; 5 := ApRun]} tt.

#[local] Abbreviation demo_step := (panic_step 0 demo_apic demo_eois demo_bda 1 net_purge ([] : list unit) demo_args).

(** The processor 3 panics, and the first takes its NMI. *)
Definition demo_info : PanicInfo := panic_info "Out of memory".
Definition demo_stored : Sys := default demo_running (ap_step 3 (set_ap 3 (ApStore demo_info) demo_running)).
Definition demo_sent : Sys := default demo_running (ap_step 3 demo_stored).
Definition demo_panic : Sys := bsp_nmi 0 demo_sent.

Lemma demo_running_ok : running 0 [3; 5] demo_running.
Proof.
  split; [reflexivity|]. split; [intros id; rewrite !elem_of_cons, elem_of_nil; intros [->|[->|[]]]; by split|].
  split; [intros id Hid; unfold demo_running; cbn [y_aps]; rewrite lookup_insert_ne, lookup_singleton_ne by (intros <-; set_solver); done|].
  split; [|by repeat split]. intros id Hr Hid H0. exists NoApic. split; [|done]. unfold state_at, demo_running, demo_cores. cbn [y_cores apics].
  assert (id ≠ 3 ∧ id ≠ 5) as [H3 H5] by set_solver.
  rewrite !list_lookup_insert_ne by lia. apply lookup_replicate_2. lia.
Qed.

Lemma demo_aps : NoDup [3; 5] ∧ (∀ id, id ∈ [3; 5] → 0 ≤ id < Z.of_nat MAX_CORES) ∧ ~ 0 ∈ [3; 5].
Proof. split; [by_decide|]. split; [|by_decide]. apply Forall_forall. by_decide. Qed.

Lemma demo_write devices bytes w : Serial.write 1 devices bytes w = Done w.
Proof.
  assert (∀ i b, put_byte 1 devices i b w = Done w) as Hp by (intros i b; unfold put_byte; by destruct (devices !! i) as [[?|]|]).
  assert (∀ l b, broadcast 1 devices l b w = Done w) as Hb.
  { induction l as [|i l IH]; intros b; [done|]. cbn [broadcast]. unfold write_byte. destruct (b =? 10); rewrite ?Hp; cbn; rewrite Hp; apply IH. }
  induction bytes as [|b l IH]; [done|]. cbn [Serial.write]. by rewrite Hb.
Qed.

Lemma demo_port_ready : console_works demo_bda 1.
Proof.
  assert (∀ serial msg info w, report_one 1 serial msg info w = Done w) as Hr.
  { intros serial msg [info|] w; [|done]. unfold report_one. rewrite demo_write, bind_Done_l.
    destruct (location info) as [[[? ?] ?]|]; rewrite ?demo_write, bind_Done_l; destruct (message info); by rewrite ?demo_write. }
  split; [|intros; eexists; apply demo_write]. intros other our w. unfold report.
  assert (Serial.new 1 demo_bda w = Done (w, [Some 0x3f8; None; None; None])) as -> by (by destruct w).
  cbn [mbind outcome_bind]. rewrite demo_write. cbn [mbind outcome_bind]. rewrite !Hr. cbn [mbind outcome_bind]. rewrite Hr. by eexists.
Qed.

Lemma demo_teardown : teardown_works demo_apic demo_eois 1 net_purge ([] : list unit).
Proof. intros []. exists tt. vm_compute. reflexivity. Qed.

Lemma demo_panic_run : rtc demo_step demo_running demo_panic.
Proof.
  eapply rtc_l; [apply step_ap_panic with (id := 3) (info := demo_info); reflexivity|].
  eapply rtc_l; [apply step_ap with (id := 3) (s' := demo_stored); reflexivity|].
  eapply rtc_l; [apply step_ap with (id := 3) (s' := demo_sent); reflexivity|].
  apply rtc_once, step_bsp_nmi; [by_decide|reflexivity|done].
Qed.

(** The first processor gets to the prompt, or away. *)
Lemma demo_settles : ∃ s, rtc demo_step demo_running s ∧ settled demo_args s.
Proof.
  destruct demo_aps as (H1 & H2 & H3).
  pose proof (panic_inv_reachable 0 demo_apic demo_eois demo_bda 1 net_purge ([] : list unit) demo_args [3; 5] H1 H2 H3 _ _ demo_running_ok demo_panic_run) as Hi.
  destruct (panic_finishes 0 demo_apic demo_eois demo_bda 1 net_purge ([] : list unit) demo_args [3; 5] H1 H2 H3 demo_port_ready demo_teardown
    (measure [3; 5] demo_panic) demo_panic ltac:(done) Hi) as (s & Hr & Hs); [done|].
  exists s. split; [by etrans; [apply demo_panic_run|]|done].
Qed.


