(* ===== verification/Mmio.v ===== *)
(** * Device registers in virtual memory (kernel/src/e1000.rs, kernel/src/apic.rs)

    The registers of the network card and of the local APIC are mapped,
    uncacheable, at fresh virtual addresses. *)

From stdpp Require Import base tactics option list numbers strings gmap.
From Stdlib Require Import ZArith Lia.
From S2P Require Import Prelude MachineInt Bytes RangeSet KernelMm KernelHeap Cpu Apic BootMain PhysMem PageTable PageTableGraph PageTableInv PageTableMap BootTables.

Local Open Scope Z_scope.

(** The entry for a page of registers *)
Definition mmio_entry (paddr : Z) : Z :=
  Z.lor (Z.lor (Z.lor (Z.lor paddr PAGE_NX) PAGE_WRITE) PAGE_CACHE_DISABLE) PAGE_PRESENT.

Definition MMIO_SIZE : Z := 128 * 1024.

(** The loop over the pages of the BAR *)
Fixpoint map_registers (root vaddr bar : Z) (paddrs : list Z) (s : Kernel) : outcome Kernel :=
  match paddrs with
  | [] => Done s
  | paddr :: paddrs =>
      let offset := paddr - bar in
      '(s, r) ← map_raw root (wrapping_add 64 vaddr offset) Page4K (mmio_entry paddr) s;
      _ ← expect r "Failed to map in Intel gbit MMIO to virtual memory";
      map_registers root vaddr bar paddrs s
  end.

(** The 128 KiB of registers at [bar] *)
Definition map_mmio (bar : Z) (s : Kernel) : outcome (Kernel * Z) :=
  '(s, vaddr) ← alloc_virt_addr_4k MMIO_SIZE s;
  root ← unwrap (k_table s);
  end_ ← unwrap (checked_add 64 bar MMIO_SIZE);
  s ← map_registers root vaddr bar (step_by bar 4096 (Z.to_nat ((end_ - bar + 4095) / 4096))) s;
  Done (s, vaddr).

(** ** What is mapped *)

Definition mmio_msg : string := "Failed to map in Intel gbit MMIO to virtual memory".

Lemma mmio_entry_eq p : mmio_entry p = Z.lor (page_entry p Page4K true false) PAGE_CACHE_DISABLE.
Proof.
  apply Z.bits_inj'. intros i _. unfold mmio_entry, page_entry. rewrite decide_False by naive_solver. rewrite !Z.lor_spec, Z.bits_0.
  destruct (Z.testbit p i), (Z.testbit PAGE_NX i), (Z.testbit PAGE_WRITE i), (Z.testbit PAGE_PRESENT i), (Z.testbit PAGE_CACHE_DISABLE i); done.
Qed.

(** A present, writable, uncacheable page that is not executable, at [p]. *)
Lemma mmio_entry_facts p : is_uint 52 p → p mod 4096 = 0 →
  is_uint 64 (mmio_entry p) ∧ present (mmio_entry p) = true ∧ Z.testbit (mmio_entry p) 4 = true ∧ page_addr 3 (mmio_entry p) = p.
Proof.
  intros Hp Hm. destruct (page_entry_facts p Page4K true false Hp Hm) as (H1 & H2 & _ & H4). rewrite mmio_entry_eq.
  split; [by apply lor_uint|]. split; [unfold present in *; by rewrite Z.lor_spec, H2|]. split; [by rewrite Z.lor_spec, orb_true_r|].
  unfold page_addr, child in *. rewrite Z.land_lor_distr_l. change (Z.land PAGE_CACHE_DISABLE 0xffffffffff000) with 0.
  by rewrite Z.lor_0_r.
Qed.

Lemma map_registers_list root v bar ps : ∀ s, 0 ≤ v → (∀ p, p ∈ ps → 0 ≤ v + (p - bar) < 2 ^ 64) →
  map_registers root v bar ps s = map_list mmio_msg root Page4K ((λ p, (v + (p - bar), mmio_entry p)) <$> ps) s.
Proof.
  induction ps as [|p ps IH]; intros s Hv Hp; [done|]. cbn [map_registers fmap list_fmap map_list].
  rewrite wrapping_add_small by (apply Hp; by left). unfold map_raw_expect.
  destruct (map_raw root (v + (p - bar)) Page4K (mmio_entry p) s) as [[s1 [u|]]| |]; try done.
  apply IH; [done|]. intros q Hq. apply Hp. by right.
Qed.

Lemma mmio_pages bar p : 0 ≤ bar → bar mod 4096 = 0 →
  p ∈ step_by bar 4096 (Z.to_nat ((bar + MMIO_SIZE - bar + 4095) / 4096)) ↔ bar ≤ p < bar + MMIO_SIZE ∧ p mod 4096 = 0.
Proof.
  intros Hb Hm. replace (bar + MMIO_SIZE - bar) with MMIO_SIZE by lia. change (Z.to_nat ((MMIO_SIZE + 4095) / 4096)) with 32%nat.
  rewrite step_by_eq, list_elem_of_fmap. unfold MMIO_SIZE. apply Z.mod_divide in Hm as [q ->]; [|lia]. split.
  - intros (k & -> & Hk%elem_of_seq). split; [lia|]. replace (q * 4096 + Z.of_nat k * 4096) with ((q + Z.of_nat k) * 4096) by lia. apply Z.mod_mul. lia.
  - intros [Hp Hm]. apply Z.mod_divide in Hm as [r ->]; [|lia]. exists (Z.to_nat (r - q)). split; [lia|]. apply elem_of_seq. lia.
Qed.

(** [map_mmio] maps every byte of the registers, uncacheable and not executable, behind
    the next virtual addresses, and changes no other mapping; nothing fails but
    the allocation of tables. *)
Lemma map_mmio_spec root T s bar : heap_ok root T s → heap_room root s MMIO_SIZE → 0 ≤ bar → bar mod 4096 = 0 → bar + MMIO_SIZE ≤ 2 ^ 52 →
  let o := map_mmio bar s in let v := k_next_vaddr s in
  fails (P := Kernel) o ∨ ∃ s' T', o = Done (s', v) ∧ pt_inv root T' s' ∧ grown T T' (KernelHeap.bumped MMIO_SIZE s) s' ∧
    (∀ x, 0 ≤ x < MMIO_SIZE → walk root s' (v + x) = Some (3%nat, mmio_entry (bar + page_of Page4K x)) ∧
       page_addr 3 (mmio_entry (bar + page_of Page4K x)) = bar + page_of Page4K x) ∧
    ∀ v', canonical v' → ¬ v ≤ v' < v + MMIO_SIZE → walk root s' v' = walk root s v'.
Proof.
  intros (Htab & Hinv & Hu & Hal) [Htop Hroom] Hb Hm Hend. cbn zeta. set (v := k_next_vaddr s) in *. unfold map_mmio.
  rewrite (proj2 (alloc_virt_Done MMIO_SIZE s (KernelHeap.bumped MMIO_SIZE s) v ltac:(done) Hu)) by (split_and!; (done || lia)).
  cbn [mbind outcome_bind]. change (k_table (KernelHeap.bumped MMIO_SIZE s)) with (k_table s). rewrite Htab. cbn [unwrap expect mbind outcome_bind].
  unfold checked_add. rewrite (proj2 (Z.ltb_lt (bar + MMIO_SIZE) (2 ^ 64))) by lia. cbn [unwrap expect mbind outcome_bind].
  pose proof (mmio_pages bar) as Hin. set (ps := step_by _ _ _) in *. assert (0 ≤ v) as Hv0 by apply Hu.
  unfold GUARD_PAGE_SIZE in Htop. rewrite map_registers_list; [|done|intros p [Hp _]%Hin; [lia|done|done]]. set (l := _ <$> ps).
  assert (∀ v1 raw, (v1, raw) ∈ l ↔ ∃ p, p ∈ ps ∧ v1 = v + (p - bar) ∧ raw = mmio_entry p) as Hl.
  { intros v1 raw. unfold l. rewrite list_elem_of_fmap. split; [intros (p & [= -> ->] & Hp)|intros (p & Hp & -> & ->)]; by exists p. }
  destruct (map_list_spec mmio_msg root Page4K l T (KernelHeap.bumped MMIO_SIZE s)) as [Hf|(s' & T' & -> & [Hi Hg Hh Ho _])].
  - by apply pt_inv_bumped.
  - unfold l. rewrite <- list_fmap_compose. apply NoDup_fmap_2; [intros a b E; cbn in E; lia|]. unfold ps. rewrite step_by_eq.
    apply NoDup_fmap_2_strong; [|apply NoDup_seq]. intros a b _ _ E. lia.
  - apply Forall_forall. intros [v1 raw] (p & [Hp Hpm]%Hin & -> & ->)%Hl; [|done|done].
    destruct (mmio_entry_facts p) as (F1 & F2 & _); [unfold is_uint; lia|done|]. split; [apply Hroom; lia|]. split; [|by split_and!].
    cbn [page_size]. rewrite Z.add_mod, Hal, Zminus_mod, Hpm, Hm by lia. done.
  - intros v1 ([v2 raw] & -> & (p & [Hp Hpm]%Hin & -> & ->)%Hl)%list_elem_of_fmap; [|done|done]. cbn. split.
    + apply (Hroom (v + (p - bar))). lia.
    + intros t Ht%reach_below_4. cbn in Ht. lia.
  - left. by apply fails_bind.
  - right. exists s', T'. cbn [mbind outcome_bind]. do 3 (split; [done|]). split.
    + intros x Hx. destruct (page_of_facts Page4K x ltac:(lia)) as (P1 & P2 & P3). cbn [page_size] in P2, P3. set (o := page_of Page4K x) in *.
      assert ((bar + o) mod 4096 = 0) as Hbo by (rewrite Z.add_mod, Hm, P2 by lia; done).
      split; [|apply mmio_entry_facts; [unfold is_uint; lia|done]].
      apply (Hh (v + o)); [|by apply Hroom; lia|unfold in_page; cbn [page_size]; lia].
      apply Hl. exists (bar + o). split; [apply Hin; [done|done|lia]|]. split; [lia|done].
    + intros v' Hv' Hno. rewrite Ho; [done|done|]. intros v1 raw (p & [Hp Hpm]%Hin & -> & ->)%Hl; [|done|done].
      unfold in_page. cbn [page_size]. intros Hi'. apply Hno.
      apply Z.mod_divide in Hm as [q Hq], Hpm as [r Hr]; [|lia..]. unfold MMIO_SIZE in *. lia.
Qed.
