(* ===== verification/Float64.v ===== *)
(** * Double precision (f64)

    The kernel computes the rate of its timestamp counter in [f64].  The
    arithmetic is [SpecFloat]'s executable binary64; here are its casts from and
    to [u64], and what each operation is worth: one relative error of [eps].  A
    value is followed through the rounding as a fraction, kept between two
    neighbours of its mantissa ([located]). *)

From stdpp Require Import base tactics option list numbers.
From Stdlib Require Import ZArith Lia QArith Floats.SpecFloat Lqa Qpower.
From S2P Require Import Prelude MachineInt.

Local Open Scope Z_scope.

(** ** Operations *)

(** [x / y] and [x + y] *)
Definition f64_div : spec_float → spec_float → spec_float := SFdiv 53 1024.
Definition f64_add : spec_float → spec_float → spec_float := SFadd 53 1024.

(** [n as f64] *)
Definition of_u64 (n : Z) : spec_float := binary_normalize 53 1024 n 0 false.

(** [x as u64], which truncates and saturates *)
Definition to_u64 (f : spec_float) : Z :=
  match f with
  | S754_finite false m e => Z.min (Z.shiftl (Z.pos m) e) u64_max
  | S754_infinity false => u64_max
  | _ => 0
  end.

(** ** Rounding *)

(** The fraction [a / b] lies in the unit above the mantissa where the round and
    sticky bits say. *)
Definition located (x : shr_record) (a b : Z) : Prop :=
  match shr_r x, shr_s x with
  | false, false => a = shr_m x * b
  | false, true => shr_m x * b < a ∧ 2 * a < (2 * shr_m x + 1) * b
  | true, false => 2 * a = (2 * shr_m x + 1) * b
  | true, true => (2 * shr_m x + 1) * b < 2 * a ∧ a < (shr_m x + 1) * b
  end.

Lemma digits_log2 m : 0 < m → Zdigits2 m = Z.log2 m + 1.
Proof.
  destruct m as [|p|]; try lia. intros _. cbn [Zdigits2].
  induction p as [p IH|p IH|]; cbn [digits2_pos]; rewrite ?Pos2Z.inj_succ, ?IH; [..|done].
  - rewrite Pos2Z.inj_xI, Z.log2_succ_double by lia. lia.
  - rewrite Pos2Z.inj_xO, Z.log2_double by lia. lia.
Qed.

Lemma iter_pos_nat {A} (f : A → A) n x : iter_pos f n x = Nat.iter (Pos.to_nat n) f x.
Proof.
  revert x. induction n as [n IH|n IH|]; cbn [iter_pos]; intros x; [| |done]; rewrite !IH.
  - rewrite <- Nat.iter_add, <- Nat.iter_succ_r. f_equal. lia.
  - rewrite <- Nat.iter_add. f_equal. lia.
Qed.

Lemma shr_1_m x : 0 ≤ shr_m x → shr_m (shr_1 x) = shr_m x / 2.
Proof.
  destruct x as [[|[p|p|]|p] r s]; cbn [shr_1 shr_m]; intros; try done; try lia.
  - rewrite Pos2Z.inj_xI. apply Z.div_unique with 1; lia.
  - rewrite Pos2Z.inj_xO. apply Z.div_unique with 0; lia.
Qed.

Lemma shr_1_located x a b : 0 < b → 0 ≤ shr_m x → located x a b → located (shr_1 x) a (2 * b).
Proof.
  destruct x as [m r s]. unfold located. cbn [shr_m shr_r shr_s]. intros Hb Hm.
  destruct m as [|[p|p|]|p]; try lia; cbn [shr_1 shr_m shr_r shr_s];
    rewrite ?(Pos2Z.inj_xI p), ?(Pos2Z.inj_xO p); destruct r, s; cbn [orb]; lia || nia.
Qed.

Lemma shr_iter n x a b : 0 < b → 0 ≤ shr_m x → located x a b →
  shr_m (Nat.iter n shr_1 x) = shr_m x / 2 ^ Z.of_nat n ∧ located (Nat.iter n shr_1 x) a (2 ^ Z.of_nat n * b).
Proof.
  intros Hb Hm Hx. induction n as [|n [E L]]; [by rewrite Z.div_1_r, Z.mul_1_l|].
  change (Nat.iter (S n) shr_1 x) with (shr_1 (Nat.iter n shr_1 x)). assert (0 < 2 ^ Z.of_nat n) by lia.
  assert (0 ≤ shr_m (Nat.iter n shr_1 x)) by (rewrite E; by apply Z.div_pos).
  rewrite Nat2Z.inj_succ, Z.pow_succ_r by lia. split.
  - rewrite shr_1_m, E, Z.div_div by lia. f_equal. lia.
  - rewrite <- Z.mul_assoc. by apply shr_1_located; [nia|..].
Qed.

Lemma shr_located x e k a b : 0 < b → 0 ≤ shr_m x → 0 ≤ k → located x a b →
  ∃ y, shr x e k = (y, e + k) ∧ shr_m y = shr_m x / 2 ^ k ∧ located y a (2 ^ k * b).
Proof.
  intros Hb Hm Hk Hx. destruct k as [|p|]; [| |lia]; cbn [shr].
  - exists x. by rewrite Z.add_0_r, Z.div_1_r, Z.mul_1_l.
  - rewrite iter_pos_nat. eexists. split; [done|].
    destruct (shr_iter (Pos.to_nat p) x a b) as [??]; [done..|].
    by rewrite positive_nat_Z in *.
Qed.

(** Rounding to the nearest is off by half a unit. *)
Lemma round_nearest x a b : 0 < b → located x a b →
  let m := round_nearest_even (shr_m x) (loc_of_shr_record x) in
  shr_m x ≤ m ≤ shr_m x + 1 ∧ -b ≤ 2 * (m * b - a) ≤ b.
Proof.
  intros Hb. destruct x as [m [] []]; unfold located; cbn; intros H; try destruct (Z.even m); lia || nia.
Qed.

Lemma log2_div m k : 0 < m → 0 ≤ k ≤ Z.log2 m → Z.log2 (m / 2 ^ k) = Z.log2 m - k.
Proof. intros. rewrite <- Z.shiftr_div_pow2 by lia. rewrite Z.log2_shiftr by lia. lia. Qed.

(** A normalised mantissa. *)
Definition mantissa (m : Z) : Prop := 2 ^ 52 ≤ m < 2 ^ 53.

Lemma mantissa_digits m : mantissa m → Zdigits2 m = 53.
Proof.
  unfold mantissa. intros. rewrite digits_log2 by lia.
  rewrite (Z.log2_unique m 52); lia.
Qed.

(** The mantissa of an inexact value with 53 digits or more. *)
Lemma round_aux m e l a b : 0 < b → 2 ^ 52 ≤ m → -1074 ≤ e → e + Z.log2 m < 1023 →
  located (shr_record_of_loc m l) a b →
  ∃ M E, binary_round_aux 53 1024 false m e l = S754_finite false M E ∧ mantissa (Z.pos M) ∧
    e ≤ E ≤ e + Z.log2 m - 51 ∧ -(2 ^ (E - e) * b) ≤ 2 * (Z.pos M * 2 ^ (E - e) * b - a) ≤ 2 ^ (E - e) * b.
Proof.
  intros Hb Hm He HE Hl. unfold binary_round_aux, shr_fexp.
  assert (52 ≤ Z.log2 m) as Hlog by (apply (Z.log2_le_mono (2 ^ 52)) in Hm; by rewrite Z.log2_pow2 in Hm by lia).
  assert (fexp 53 1024 (Zdigits2 m + e) - e = Z.log2 m - 52) as ->.
  { rewrite digits_log2 by lia. unfold fexp, emin. lia. }
  assert (shr_m (shr_record_of_loc m l) = m) as Em by (by destruct l as [|[]]).
  destruct (shr_located (shr_record_of_loc m l) e (Z.log2 m - 52) a b) as (y & -> & Ey & Ly); [lia..|done|].
  rewrite Em in Ey. set (k := Z.log2 m - 52) in *. assert (0 < 2 ^ k) by (apply Z.pow_pos_nonneg; lia).
  assert (mantissa (shr_m y)) as Hy.
  { rewrite Ey. unfold mantissa.
    pose proof (Z.log2_spec (m / 2 ^ k)) as Hs. rewrite log2_div in Hs by lia.
    replace (Z.log2 m - k) with 52 in Hs by lia. apply Hs. apply Z.div_str_pos.
    split; [lia|]. transitivity (2 ^ Z.log2 m); [apply Z.pow_le_mono_r; lia|apply Z.log2_spec; lia]. }
  destruct (round_nearest y a (2 ^ k * b)) as [Hr Ha]; [nia|done|]. cbn [fst snd] in *.
  set (m1 := round_nearest_even (shr_m y) (loc_of_shr_record y)) in *. clearbody m1.
  cbn [shr_record_of_loc].
  destruct (decide (m1 = 2 ^ 53)) as [->|Hne].
  - exists (Z.to_pos (2 ^ 52)), (e + k + 1).
    assert (fexp 53 1024 (Zdigits2 (2 ^ 53) + (e + k)) - (e + k) = 1) as ->.
    { change (Zdigits2 (2 ^ 53)) with 54. unfold fexp, emin. lia. }
    cbn -[Z.pow Z.leb]. change (9007199254740992) with (2 ^ 53).
    assert ((e + k + 1 <=? 1024 - 53) = true) as Hle by (apply Z.leb_le; lia).
    cbn -[Z.pow Z.leb Z.add]. 
    split; [by rewrite Hle|]. split; [by unfold mantissa|]. split; [lia|].
    replace (e + k + 1 - e) with (k + 1) by lia. rewrite Z.pow_add_r by lia. nia.
  - assert (mantissa m1) as H1 by (unfold mantissa in *; lia).
    assert (fexp 53 1024 (Zdigits2 m1 + (e + k)) - (e + k) = 0) as ->.
    { rewrite mantissa_digits by done. unfold fexp, emin. lia. }
    cbn [shr fst snd shr_m]. destruct m1 as [|M|]; [unfold mantissa in H1; lia| |unfold mantissa in H1; lia].
    exists M, (e + k). replace (e + k <=? 1024 - 53) with true by (symmetry; apply Z.leb_le; lia).
    split; [done|]. split; [done|]. split; [lia|]. replace (e + k - e) with k by lia. nia.
Qed.
(** ** Values *)

(** The number a float stands for. *)
Definition val (f : spec_float) : Q :=
  match f with
  | S754_finite s m e => inject_Z (cond_Zopp s (Z.pos m)) * 2 ^ e
  | _ => 0
  end%Q.

(** The spacing of the numbers after 1. *)
Definition eps : Q := 1 # 2 ^ 52.

(** [y] is [x] up to a relative error of [u]. *)
Definition near (u x y : Q) : Prop := ((1 - u) * x <= y <= (1 + u) * x)%Q.

#[export] Instance near_proper : Proper (Qeq ==> Qeq ==> Qeq ==> iff) near.
Proof. intros u u' Hu x x' Hx y y' Hy. unfold near. by rewrite Hu, Hx, Hy. Qed.

(** Positive, normalised, and of moderate size: the exponent is at most [B]. *)
Definition normal (B : Z) (f : spec_float) : Prop :=
  ∃ m e, f = S754_finite false m e ∧ mantissa (Z.pos m) ∧ -B ≤ e ≤ B.

Lemma pow2_pos e : (0 < 2 ^ e)%Q.
Proof. by apply Qpower_0_lt. Qed.

Lemma pow2_add a b : (2 ^ (a + b) == 2 ^ a * 2 ^ b)%Q.
Proof. by apply Qpower_plus. Qed.

Lemma pow2_Z k : 0 ≤ k → (inject_Z (2 ^ k) == 2 ^ k)%Q.
Proof. intros. by rewrite Zpower_Qpower. Qed.

Lemma quot_pos a b : (0 < a)%Q → (0 < b)%Q → (0 < a / b)%Q.
Proof. intros. apply Qlt_shift_div_l; [done|]. by rewrite Qmult_0_l. Qed.

Lemma inject_pos n : 0 < n → (0 < inject_Z n)%Q.
Proof. intros. change 0%Q with (inject_Z 0). by rewrite <- Zlt_Qlt. Qed.

Lemma normal_pos B f : normal B f → (0 < val f)%Q.
Proof.
  intros (m & e & -> & Hm & _). cbn. apply Qmult_lt_0_compat; [|apply pow2_pos].
  by apply inject_pos.
Qed.

Lemma round_near m e l a b : 0 < b → 2 ^ 52 ≤ m → -1074 ≤ e → e + Z.log2 m < 1023 →
  located (shr_record_of_loc m l) a b →
  ∃ M E, binary_round_aux 53 1024 false m e l = S754_finite false M E ∧ mantissa (Z.pos M) ∧
    e ≤ E ≤ e + Z.log2 m - 51 ∧
    near eps (inject_Z a / inject_Z b * 2 ^ e) (val (S754_finite false M E)).
Proof.
  intros Hb Hm He HE Hl. destruct (round_aux m e l a b) as (M & E & Hf & HM & HEe & Ha); [done..|].
  exists M, E. split_and!; [done..|lia|lia|]. set (k := E - e) in *.
  cbn [val cond_Zopp].
  assert (0 < inject_Z b)%Q as Hb' by (change 0%Q with (inject_Z 0); by rewrite <- Zlt_Qlt).
  assert (0 < 2 ^ k) as Hk by (apply Z.pow_pos_nonneg; lia).
  assert (2 ^ 51 * 2 ^ k * b ≤ a) as Hlow by (unfold mantissa in HM; nia).
  assert (-a ≤ (Z.pos M * 2 ^ k * b - a) * 2 ^ 52 ≤ a) as Hn by lia.
  assert (2 ^ E == inject_Z (2 ^ k) * 2 ^ e)%Q as ->.
  { rewrite pow2_Z, <- pow2_add by lia. replace (k + e) with E by lia. reflexivity. }
  pose proof (pow2_pos e) as Hp. set (p := (2 ^ e)%Q) in *. clearbody p.
  assert (near eps (inject_Z a) (inject_Z (Z.pos M * 2 ^ k) * inject_Z b)) as [N1 N2].
  { unfold near, eps. rewrite <- inject_Z_mult. 
    split; unfold Qle, Qmult, Qminus, Qplus, Qopp, inject_Z; cbn -[Z.pow Z.mul Z.add Pos.mul Z.opp]; nia. }
  rewrite inject_Z_mult in N1, N2.
  unfold near. rewrite !Qmult_assoc. set (y := (inject_Z (Z.pos M) * inject_Z (2 ^ k))%Q) in *. clearbody y.
  split; (apply Qmult_le_compat_r; [|lra]).
  - unfold Qdiv. rewrite Qmult_assoc. apply Qle_shift_div_r; done.
  - unfold Qdiv. rewrite Qmult_assoc. apply Qle_shift_div_l; done.
Qed.

(** ** Accuracy *)

(** The place of the remainder of a division. *)
Lemma new_location_located n d : 0 < d → 
  located (shr_record_of_loc (n / d) (new_location d (n mod d))) n d.
Proof.
  intros Hd. pose proof (Z.div_mod n d). pose proof (Z.mod_pos_bound n d Hd).
  set (q := n / d) in *. set (r := n mod d) in *. clearbody q r.
  unfold new_location, new_location_even, new_location_odd.
  destruct (Z.even d) eqn:Ev, (Z.eqb_spec r 0); try (unfold located; cbn; lia).
  - destruct (Z.compare_spec (2 * r) d); unfold located; cbn; lia.
  - destruct (Z.compare_spec (2 * r + 1) d); unfold located; cbn; try lia.
    assert (2 * r ≠ d) by (intros <-; by rewrite Z.even_mul in Ev). lia.
Qed.

Lemma div_core m1 e1 m2 e2 : mantissa m1 → mantissa m2 → -1021 ≤ e1 - e2 →
  SFdiv_core_binary 53 1024 m1 e1 m2 e2 =
    (m1 * 2 ^ 53 / m2, e1 - e2 - 53, new_location m2 ((m1 * 2 ^ 53) mod m2)).
Proof.
  intros H1 H2 He. unfold SFdiv_core_binary. rewrite !mantissa_digits by done.
  replace (Z.min (fexp 53 1024 (53 + e1 - (53 + e2))) (e1 - e2)) with (e1 - e2 - 53)
    by (unfold fexp, emin; lia).
  replace (e1 - e2 - (e1 - e2 - 53)) with 53 by lia.
  rewrite Z.shiftl_mul_pow2 by lia. unfold Z.div, Z.modulo. by destruct (Z.div_eucl _ _).
Qed.

Lemma div_near B1 B2 x y : normal B1 x → normal B2 y → B1 + B2 ≤ 900 →
  normal (B1 + B2 + 53) (f64_div x y) ∧ near eps (val x / val y) (val (f64_div x y)).
Proof.
  intros (m1 & e1 & -> & H1 & He1) (m2 & e2 & -> & H2 & He2) HB. unfold f64_div. cbn [SFdiv xorb].
  rewrite div_core by (done || lia). unfold mantissa in H1, H2.
  assert (2 ^ 52 ≤ Z.pos m1 * 2 ^ 53 / Z.pos m2) by (apply Z.div_le_lower_bound; nia).
  assert (Z.pos m1 * 2 ^ 53 / Z.pos m2 < 2 ^ 54) by (apply Z.div_lt_upper_bound; nia).
  assert (Z.log2 (Z.pos m1 * 2 ^ 53 / Z.pos m2) < 54) by (apply Z.log2_lt_pow2; lia).
  destruct (round_near (Z.pos m1 * 2 ^ 53 / Z.pos m2) (e1 - e2 - 53)
    (new_location (Z.pos m2) ((Z.pos m1 * 2 ^ 53) mod Z.pos m2)) (Z.pos m1 * 2 ^ 53) (Z.pos m2))
    as (M & E & -> & HM & HE & HN); [lia..|by apply new_location_located|].
  split; [exists M, E; split_and!; [done..|lia|lia]|].
  cbn [val cond_Zopp]. revert HN. cbn [val cond_Zopp].
  assert (inject_Z (Z.pos m1 * 2 ^ 53) / inject_Z (Z.pos m2) * 2 ^ (e1 - e2 - 53) ==
    inject_Z (Z.pos m1) * 2 ^ e1 / (inject_Z (Z.pos m2) * 2 ^ e2))%Q as ->; [|done].
  rewrite inject_Z_mult, pow2_Z by lia.
  replace e1 with (e1 - e2 - 53 + 53 + e2) at 2 by lia. rewrite !pow2_add.
  pose proof (pow2_pos e2). pose proof (pow2_pos (e1 - e2 - 53)).
  assert (~ inject_Z (Z.pos m2) == 0)%Q by (by unfold Qeq, inject_Z).
  field. split; [lra|done].
Qed.

Lemma div_one x : (x / inject_Z 1 == x)%Q.
Proof. change (inject_Z 1) with 1%Q. field. Qed.

(** A sum of positive numbers with the digits of a mantissa. *)
Lemma normalize_near m e : 2 ^ 52 ≤ m → -1074 ≤ e → e + Z.log2 m < 1023 →
  ∃ M E, binary_normalize 53 1024 m e false = S754_finite false M E ∧ mantissa (Z.pos M) ∧
    e ≤ E ≤ e + Z.log2 m - 51 ∧ near eps (inject_Z m * 2 ^ e) (val (S754_finite false M E)).
Proof.
  intros Hm He HE. destruct m as [|m|]; [lia| |lia]. cbn [binary_normalize]. unfold binary_round.
  assert (52 ≤ Z.log2 (Z.pos m)) as Hlog
    by (apply (Z.log2_le_mono (2 ^ 52)) in Hm; by rewrite Z.log2_pow2 in Hm by lia).
  change (Z.pos (digits2_pos m)) with (Zdigits2 (Z.pos m)). rewrite digits_log2 by lia.
  assert (shl_align m e (fexp 53 1024 (Z.log2 (Z.pos m) + 1 + e)) = (m, e)) as ->.
  { unfold shl_align. assert (0 ≤ fexp 53 1024 (Z.log2 (Z.pos m) + 1 + e) - e) by (unfold fexp, emin; lia).
    by destruct (fexp 53 1024 (Z.log2 (Z.pos m) + 1 + e) - e). }
  destruct (round_near (Z.pos m) e loc_Exact (Z.pos m) 1) as (M & E & -> & HM & HEe & HN); [lia..|cbn; unfold located; cbn; lia|].
  exists M, E. split_and!; [done..|lia|lia|]. revert HN. by rewrite div_one.
Qed.

Lemma shl_align_val m e e' : e' ≤ e → Z.pos (fst (shl_align m e e')) = Z.pos m * 2 ^ (e - e').
Proof.
  intros He. unfold shl_align. destruct (e' - e) as [|d|d] eqn:E; [|lia|].
  - cbn [fst]. replace (e - e') with 0 by lia. lia.
  - cbn [fst]. replace (e - e') with (Z.pos d) by lia. clear.
    induction d as [|d IH] using Pos.peano_ind; [cbn; lia|].
    rewrite Pos.iter_succ, Pos2Z.inj_xO, IH, Pos2Z.inj_succ, Z.pow_succ_r by lia. lia.
Qed.

Lemma shl_align_exp m e e' : e' ≤ e → snd (shl_align m e e') = e'.
Proof. intros. unfold shl_align. destruct (e' - e) eqn:E; cbn; lia. Qed.

(** [x + y] of two positive numbers. *)
Lemma add_near B1 B2 x y : normal B1 x → normal B2 y → B1 + B2 ≤ 450 →
  normal (Z.max B1 B2 + B1 + B2 + 55) (f64_add x y) ∧ near eps (val x + val y) (val (f64_add x y)).
Proof.
  intros (m1 & e1 & -> & H1 & He1) (m2 & e2 & -> & H2 & He2) HB. unfold f64_add. cbn [SFadd cond_Zopp].
  rewrite !shl_align_val by lia. set (ez := Z.min e1 e2). unfold mantissa in H1, H2.
  assert (0 ≤ e1 - ez ≤ B1 + B2 ∧ 0 ≤ e2 - ez ≤ B1 + B2) as [Hd1 Hd2] by lia.
  set (m := Z.pos m1 * 2 ^ (e1 - ez) + Z.pos m2 * 2 ^ (e2 - ez)).
  assert (1 ≤ 2 ^ (e1 - ez) ≤ 2 ^ (B1 + B2) ∧ 1 ≤ 2 ^ (e2 - ez) ≤ 2 ^ (B1 + B2)) as [Hp1 Hp2].
  { split; (split; [apply (Z.pow_le_mono_r 2 0)|apply Z.pow_le_mono_r]; lia). }
  assert (2 ^ 52 ≤ m) by (subst m; nia).
  assert (Z.log2 m < B1 + B2 + 54).
  { apply Z.log2_lt_pow2; [lia|]. rewrite Z.pow_add_r by lia. subst m. nia. }
  destruct (normalize_near m ez) as (M & E & -> & HM & HE & HN); [lia..|].
  split; [exists M, E; split_and!; [done..|lia|lia]|].
  cbn [val cond_Zopp] in *. revert HN.
  assert (inject_Z m * 2 ^ ez == inject_Z (Z.pos m1) * 2 ^ e1 + inject_Z (Z.pos m2) * 2 ^ e2)%Q as ->; [|done].
  subst m. rewrite inject_Z_plus, !inject_Z_mult, !pow2_Z by lia.
  rewrite Qmult_plus_distr_l, <- !Qmult_assoc, <- !pow2_add.
  by replace (e1 - ez + ez) with e1 by lia; replace (e2 - ez + ez) with e2 by lia.
Qed.

Lemma of_u64_near n : 0 < n < 2 ^ 64 → normal 52 (of_u64 n) ∧ near eps (inject_Z n) (val (of_u64 n)).
Proof.
  intros Hn. unfold of_u64. destruct (Z.lt_ge_cases n (2 ^ 52)) as [Hs|Hs].
  - destruct n as [|n|]; [lia| |lia]. cbn [binary_normalize]. unfold binary_round.
    change (Z.pos (digits2_pos n)) with (Zdigits2 (Z.pos n)). rewrite digits_log2 by lia.
    assert (0 ≤ Z.log2 (Z.pos n) < 52) as Hlog by (split; [apply Z.log2_nonneg|apply Z.log2_lt_pow2; lia]).
    assert (fexp 53 1024 (Z.log2 (Z.pos n) + 1 + 0) = Z.log2 (Z.pos n) - 52) as -> by (unfold fexp, emin; lia).
    set (k := 52 - Z.log2 (Z.pos n)) in *. replace (Z.log2 (Z.pos n) - 52) with (-k) by lia.
    destruct (shl_align n 0 (-k)) as [m e] eqn:Es.
    pose proof (shl_align_exp n 0 (-k) ltac:(lia)) as He. rewrite Es in He. cbn in He. subst e.
    pose proof (shl_align_val n 0 (-k) ltac:(lia)) as Hm. rewrite Es in Hm. cbn [fst] in Hm.
    replace (0 - -k) with k in Hm by lia.
    pose proof (Z.log2_spec (Z.pos n) ltac:(lia)) as Hl. 
    assert (2 ^ Z.log2 (Z.pos n) * 2 ^ k = 2 ^ 52) as E1 by (rewrite <- Z.pow_add_r by lia; f_equal; lia).
    assert (mantissa (Z.pos m)) as HM.
    { unfold mantissa. rewrite Z.pow_succ_r in Hl by lia. assert (0 < 2 ^ k) by lia. rewrite Hm. nia. }
    assert (Z.log2 (Z.pos m) = 52) as Hlm by (unfold mantissa in HM; apply Z.log2_unique; lia).
    destruct (round_near (Z.pos m) (-k) loc_Exact (Z.pos m) 1) as (M & E & -> & HM' & HE & HN);
      [unfold mantissa in HM; lia..|unfold located; cbn; lia|].
    split; [exists M, E; split_and!; [done..|lia|lia]|]. revert HN.
    rewrite Hm, div_one, inject_Z_mult, pow2_Z, <- Qmult_assoc, <- pow2_add by lia.
    replace (k + -k) with 0 by lia. cbn [Qpower]. by rewrite Qmult_1_r.
  - assert (Z.log2 n < 64) by (apply Z.log2_lt_pow2; lia).
    destruct (normalize_near n 0) as (M & E & -> & HM & HE & HN); [lia..|].
    split; [exists M, E; split_and!; [done..|lia|lia]|]. revert HN. cbn [Qpower]. by rewrite Qmult_1_r.
Qed.

Lemma to_u64_floor B f : normal B f → (val f < inject_Z (2 ^ 64))%Q →
  (inject_Z (to_u64 f) <= val f)%Q ∧ (val f < inject_Z (to_u64 f + 1))%Q.
Proof.
  intros (m & e & -> & Hm & _) Hlt. cbn [val cond_Zopp to_u64] in *.
  assert ((inject_Z (Z.shiftl (Z.pos m) e) <= inject_Z (Z.pos m) * 2 ^ e)%Q ∧
    (inject_Z (Z.pos m) * 2 ^ e < inject_Z (Z.shiftl (Z.pos m) e + 1))%Q) as [H1 H2].
  { destruct (Z.le_gt_cases 0 e).
    - rewrite Z.shiftl_mul_pow2 by lia. rewrite inject_Z_plus, inject_Z_mult, pow2_Z by lia.
      change (inject_Z 1) with 1%Q. lra.
    - rewrite <- (Z.opp_involutive e), Z.shiftl_opp_r, Z.shiftr_div_pow2 by lia. set (k := -e).
      assert (0 < 2 ^ k) by (apply Z.pow_pos_nonneg; lia).
      pose proof (Z.div_mod (Z.pos m) (2 ^ k)). pose proof (Z.mod_pos_bound (Z.pos m) (2 ^ k)).
      set (q := Z.pos m / 2 ^ k) in *.
      rewrite Qpower_opp, <- pow2_Z by lia.
      assert (0 < inject_Z (2 ^ k))%Q by (change 0%Q with (inject_Z 0); by rewrite <- Zlt_Qlt).
      split; [apply Qle_shift_div_l; [done|]; rewrite <- inject_Z_mult, <- Zle_Qle; lia|].
      apply Qlt_shift_div_r; [done|]. rewrite <- inject_Z_mult, <- Zlt_Qlt. lia. }
  assert (Z.shiftl (Z.pos m) e < 2 ^ 64) by (rewrite Zlt_Qlt; lra).
  rewrite Z.min_l by (unfold u64_max; lia). done.
Qed.

(** A literal's mantissa is checked by evaluation. *)
Lemma normal_const f B :
  match f with S754_finite false m e => bool_decide (2 ^ 52 ≤ Z.pos m < 2 ^ 53 ∧ -B ≤ e ≤ B) | _ => false end = true →
  normal B f.
Proof. destruct f as [| | |[] m e]; try done. intros [??]%bool_decide_eq_true. by exists m, e. Qed.

(** ** Errors add up *)

Definition small (u : Q) : Prop := (0 <= u <= 1 # 4)%Q.

Lemma near_trans u w x y z : small u → small w → (0 < x)%Q → near u x y → near w y z → near (u + w + u * w) x z.
Proof. unfold small, near. intros. split; nra. Qed.

Lemma near_weaken u w x y : (u <= w)%Q → (0 < x)%Q → near u x y → near w x y.
Proof. unfold near. intros. split; nra. Qed.

Lemma near_pos u x y : small u → (0 < x)%Q → near u x y → (0 < y)%Q.
Proof. unfold small, near. intros. nra. Qed.

(** A quotient of two values that are off by [u]. *)
Lemma near_div u a b x y : small u → (0 < a)%Q → (0 < b)%Q → near u a x → near u b y →
  near (2 * u + 2 * u * u + u) (a / b) (x / y).
Proof.
  intros Hu Ha Hb Hx Hy. pose proof (near_pos u b y Hu Hb Hy) as Hy0. unfold near, small in *.
  assert (a / b == a * y / (b * y))%Q as -> by (field; lra).
  assert (x / y == x * b / (b * y))%Q as -> by (field; lra).
  assert (0 < b * y)%Q as Hby by nra. unfold Qdiv. rewrite !Qmult_assoc.
  split; (apply Qmult_le_compat_r; [|apply Qinv_le_0_compat; lra]).
  - rewrite <- Qmult_assoc. assert (a * y <= (1 + u) * (a * b))%Q by nra.
    assert ((1 - u) * (a * b) <= x * b)%Q by nra. assert (0 < a * b)%Q by nra.
    set (p := (a * b)%Q) in *. set (q := (a * y)%Q) in *. set (r := (x * b)%Q) in *. clearbody p q r.
    set (c := (1 - (2 * u + 2 * u * u + u))%Q). assert (0 <= c)%Q by (subst c; nra).
    assert (c * q <= c * ((1 + u) * p))%Q by nra.
    assert (0 <= u * p)%Q by nra. assert (0 <= u * (u * p))%Q by nra. assert (0 <= u * (u * (u * p)))%Q by nra.
    assert (c * ((1 + u) * p) <= (1 - u) * p)%Q by (subst c; nra). lra.
  - rewrite <- (Qmult_assoc _ a). assert ((1 - u) * (a * b) <= a * y)%Q by nra.
    assert (x * b <= (1 + u) * (a * b))%Q by nra. assert (0 < a * b)%Q by nra.
    set (p := (a * b)%Q) in *. set (q := (a * y)%Q) in *. set (r := (x * b)%Q) in *. clearbody p q r.
    set (c := (1 + (2 * u + 2 * u * u + u))%Q). assert (0 <= c)%Q by (subst c; nra).
    assert (c * ((1 - u) * p) <= c * q)%Q by nra.
    assert (0 <= u * p)%Q by nra. assert (0 <= u * (u * p))%Q by nra. assert (u * (u * (u * p)) <= (1 # 4) * (u * (u * p)))%Q by nra.
    assert (u * (u * p) <= (1 # 4) * (u * p))%Q by nra.
    assert ((1 + u) * p <= c * ((1 - u) * p))%Q by (subst c; nra). lra.
Qed.
