(* ===== verification/Time.v ===== *)
(** * Time (kernel/src/time.rs)

    The timestamp counter as a clock: its calibration against the interval timer,
    deadlines, busy waits and uptimes.  The code runs over the ports of [Serial]
    and over [rdtsc]; [Pc] is a machine with an 8254 and a counter that ticks at a
    fixed rate. *)

From stdpp Require Import base tactics option list numbers strings.
From Stdlib Require Import ZArith Lia QArith Floats.SpecFloat Lqa.
From S2P Require Import Prelude MachineInt Cpu Serial Float64.

Local Open Scope Z_scope.

(** The instruction [rdtsc]: edx and eax. *)
Class Clock (H : Type) := { rdtsc_insn : H → H * (Z * Z) }.

(** The statics [RDTSC_MHZ] and [RDTSC_START] *)
Record Time := mkTime { RDTSC_MHZ : Z; RDTSC_START : Z }.

Definition time_default : Time := mkTime 3000 0.

(** ** The rate *)

(** [65535f64 / 1193182f64], the seconds of the countdown *)
Definition elapsed : spec_float := f64_div (of_u64 65535) (of_u64 1193182).

(** The literal [0.5] *)
Definition f64_half : spec_float := S754_finite false (2 ^ 52) (-53).

Definition computed_rate (ticks : Z) : spec_float :=
  f64_div (f64_div (of_u64 ticks) elapsed) (of_u64 1000000).

Definition rounded_rate (ticks : Z) : Z :=
  wrapping_mul 64 (to_u64 (f64_add (f64_div (computed_rate ticks) (of_u64 100)) f64_half)) 100.

Section time.
Context {H : Type} `{HC : Clock H}.
Implicit Types h : H.

(** [cpu::rdtsc] *)
Definition rdtsc h : H * Z := let '(h, counter) := rdtsc_insn h in (h, Cpu.rdtsc counter).

Definition tsc_mhz (t : Time) : Z := RDTSC_MHZ t.

Definition future (microseconds : Z) (t : Time) h : H * Z :=
  let '(h, now) := rdtsc h in
  (h, wrapping_add 64 now (wrapping_mul 64 microseconds (RDTSC_MHZ t))).

Definition rdtsc_elapsed (start_time : Z) (t : Time) h : H * spec_float :=
  let '(h, now) := rdtsc h in
  (h, f64_div (f64_div (of_u64 (wrapping_sub 64 now start_time)) (of_u64 (RDTSC_MHZ t))) (of_u64 1000000)).

Definition uptime (t : Time) h : H * spec_float := rdtsc_elapsed (RDTSC_START t) t h.

(** The loop of [sleep] *)
Fixpoint sleep_loop (fuel : nat) (waitval : Z) h : outcome H :=
  match fuel with
  | O => OutOfFuel
  | S fuel =>
      let '(h, now) := rdtsc h in
      if now <? waitval then sleep_loop fuel waitval h else Done h
  end.

Definition sleep (fuel : nat) (microseconds : Z) (t : Time) h : outcome H :=
  let '(h, waitval) := future microseconds t h in
  sleep_loop fuel waitval h.

Context `{HP : Ports H}.

(** The loop of [calibrate]: the read-back command latches the status of channel
    0, whose top bit is the output pin. *)
Fixpoint poll_output (fuel : nat) h : outcome H :=
  match fuel with
  | O => OutOfFuel
  | S fuel =>
      let h := out8 0x43 0xe2 h in
      let '(h, status) := in8 0x40 h in
      if negb (Z.land status 0x80 =? 0) then Done h else poll_output fuel h
  end.

Definition calibrate (fuel : nat) (t : Time) h : outcome (H * Time) :=
  let '(h, start) := rdtsc h in
  let t := mkTime (RDTSC_MHZ t) start in
  let h := out8 0x43 0x30 h in
  let h := out8 0x40 0xff h in
  let h := out8 0x40 0xff h in
  h ← poll_output fuel h;
  let '(h, now) := rdtsc h in
  Done (h, mkTime (rounded_rate (wrapping_sub 64 now start)) (RDTSC_START t)).
End time.

(** ** The rate's arithmetic *)

(** The argument of the last cast is the rate in hundreds of MHz and a half. *)
Lemma hundreds_near d : 0 < d < 2 ^ 40 →
  ∃ B, let x := f64_add (f64_div (computed_rate d) (of_u64 100)) f64_half in
  normal B x ∧
  (inject_Z d * (1193182 # 6553500000000) + (1 # 2) - (1 # 1000000000) <= val x <=
   inject_Z d * (1193182 # 6553500000000) + (1 # 2) + (1 # 1000000000))%Q.
Proof.
  intros Hd. unfold computed_rate.
  destruct (of_u64_near d) as [N1 V1]; [lia|]. set (v1 := of_u64 d) in *.
  assert (normal 60 elapsed) as Ne by by apply normal_const.
  destruct (div_near _ _ v1 elapsed N1 Ne) as [N2 V2]; [lia|]. set (v2 := f64_div v1 elapsed) in *.
  assert (normal 50 (of_u64 1000000)) as Nm by by apply normal_const.
  destruct (div_near _ _ v2 _ N2 Nm) as [N3 V3]; [lia|]. set (v3 := f64_div v2 _) in *.
  assert (normal 50 (of_u64 100)) as Nh by by apply normal_const.
  destruct (div_near _ _ v3 _ N3 Nh) as [N4 V4]; [lia|]. set (v4 := f64_div v3 _) in *.
  assert (normal 60 f64_half) as Nf by by apply normal_const.
  destruct (add_near _ _ v4 _ N4 Nf) as [N5 V5]; [lia|]. set (v5 := f64_add v4 _) in *.
  eexists. split; [exact N5|]. clear N1 N2 N3 N4 N5 Ne Nm Nh Nf.
  assert (val elapsed == 7915463735248449 # 2 ^ 57)%Q as Ee by by vm_compute.
  assert (val (of_u64 1000000) == 1000000 # 1)%Q as Em by by vm_compute.
  assert (val (of_u64 100) == 100 # 1)%Q as Eh by by vm_compute.
  assert (val f64_half == 1 # 2)%Q as Ef by by vm_compute.
  rewrite Ee in V2. rewrite Em in V3. rewrite Eh in V4. rewrite Ef in V5. clear Ee Em Eh Ef.
  assert (0 < inject_Z d)%Q as Hd0 by (apply inject_pos; lia).
  assert (inject_Z d < 1099511627776)%Q as Hd1
    by (change 1099511627776%Q with (inject_Z (2 ^ 40)); rewrite <- Zlt_Qlt; lia).
  unfold near, eps, Qdiv in *. change (1 # 2 ^ 52)%Q with (1 # 4503599627370496)%Q in *.
  change (/ (7915463735248449 # 2 ^ 57))%Q with (144115188075855872 # 7915463735248449)%Q in V2.
  change (/ 1000000)%Q with (1 # 1000000)%Q in V3. change (/ 100)%Q with (1 # 100)%Q in V4.
  set (x0 := inject_Z d) in *. set (x1 := val v1) in *. set (x2 := val v2) in *. set (x3 := val v3) in *.
  set (x4 := val v4) in *. set (x5 := val v5) in *. clearbody x0 x1 x2 x3 x4 x5. clear -Hd0 Hd1 V1 V2 V3 V4 V5. lra.
Qed.

(** The rounded rate is a multiple of 100 MHz, and as close to the rate of [d]
    ticks in 65535 periods of the timer as such a multiple can be, up to rounding
    errors. *)
Lemma rounded_rate_near d : 0 < d < 2 ^ 40 →
  ∃ n, rounded_rate d = 100 * n ∧ 0 ≤ n ∧
    -3276750010000 ≤ n * 6553500000000 - d * 1193182 ≤ 3276750010000.
Proof.
  intros Hd. destruct (hundreds_near d Hd) as (B & HN & Hlo & Hhi). unfold rounded_rate.
  set (x := f64_add _ _) in *. clearbody x.
  assert (inject_Z d < 1099511627776)%Q as Hd1
    by (change 1099511627776%Q with (inject_Z (2 ^ 40)); rewrite <- Zlt_Qlt; lia).
  assert (val x < 2000000)%Q as Hx by lra.
  destruct (to_u64_floor B x HN) as [F1 F2]; [change (inject_Z (2 ^ 64)) with (18446744073709551616#1)%Q; lra|].
  set (n := to_u64 x) in *. rewrite inject_Z_plus in F2. change (inject_Z 1) with 1%Q in F2.
  assert (0 ≤ n) as Hn0 by (unfold n, to_u64; destruct HN as (m & e & -> & _); pose proof (proj2 (Z.shiftl_nonneg (Z.pos m) e)); unfold u64_max; lia).
  assert (n < 2000001) as Hn1 by (rewrite Zlt_Qlt; change (inject_Z 2000001) with (2000001 # 1)%Q; lra).
  exists n. split; [unfold wrapping_mul, wrap; rewrite Z.mod_small; lia|]. split; [done|].
  split; rewrite Zle_Qle; unfold Z.sub; rewrite inject_Z_plus, inject_Z_opp, !inject_Z_mult.
  - change (inject_Z (-3276750010000)) with (-3276750010000 # 1)%Q. change (inject_Z 6553500000000) with (6553500000000 # 1)%Q.
    change (inject_Z 1193182) with (1193182 # 1)%Q. lra.
  - change (inject_Z 3276750010000) with (3276750010000 # 1)%Q. change (inject_Z 6553500000000) with (6553500000000 # 1)%Q.
    change (inject_Z 1193182) with (1193182 # 1)%Q. lra.
Qed.

(** ** Busy waits *)

(** A counter that advances at every read, by at most [tick_max]. *)
Class ClockLaws (H : Type) `{HC : Clock H} := {
  ticks_of : H → Z;
  tick_max : Z;
  rdtsc_law h : ∀ h' now, rdtsc h = (h', now) →
    ticks_of h < ticks_of h' ≤ ticks_of h + tick_max ∧ now = wrap 64 (ticks_of h');
}.

Section sleep.
Context {H : Type} `{HL : ClockLaws H}.
Implicit Types h : H.

Lemma rdtsc_now h h' now : rdtsc h = (h', now) → 0 ≤ ticks_of h → ticks_of h + tick_max < 2 ^ 64 →
  ticks_of h < now ≤ ticks_of h + tick_max ∧ ticks_of h' = now.
Proof. intros E ??. destruct (rdtsc_law _ _ _ E) as [? ->]. unfold wrap. rewrite Z.mod_small by lia. lia. Qed.

Lemma sleep_loop_ok fuel waitval h : 0 ≤ ticks_of h → waitval + tick_max < 2 ^ 64 → ticks_of h ≤ waitval →
  (Z.to_nat (waitval - ticks_of h) < fuel)%nat →
  ∃ h', sleep_loop fuel waitval h = Done h' ∧ waitval ≤ ticks_of h' ≤ waitval + tick_max.
Proof.
  revert h. induction fuel as [|fuel IH]; intros h H0 Hmax Hw Hf; [lia|]. cbn [sleep_loop].
  destruct (rdtsc h) as [h1 now] eqn:E. apply rdtsc_now in E as [Hnow Ht]; [|lia..].
  destruct (Z.ltb_spec now waitval).
  - apply IH; lia.
  - exists h1. split; [done|]. lia.
Qed.

(** What [sleep] waits for, in ticks; the rate and the time are of [u64]. *)
Lemma sleep_ticks us t h fuel : 0 ≤ us → 0 ≤ RDTSC_MHZ t → 0 ≤ ticks_of h →
  ticks_of h + us * RDTSC_MHZ t + 2 * tick_max < 2 ^ 64 → (Z.to_nat (us * RDTSC_MHZ t) < fuel)%nat →
  ∃ h', sleep fuel us t h = Done h' ∧
    ticks_of h + us * RDTSC_MHZ t < ticks_of h' ≤ ticks_of h + us * RDTSC_MHZ t + 2 * tick_max.
Proof.
  intros Hus Hmhz H0 Hmax Hf. unfold sleep, future. destruct (rdtsc h) as [h1 now] eqn:E.
  assert (0 ≤ us * RDTSC_MHZ t) by nia. set (T := us * RDTSC_MHZ t) in *.
  pose proof E as [Hp _]%rdtsc_law. apply rdtsc_now in E as [Hnow Ht]; [|lia..].
  unfold wrapping_add, wrapping_mul, wrap. fold T. rewrite (Z.mod_small T), Z.mod_small by lia.
  destruct (sleep_loop_ok fuel (now + T) h1) as (h' & Hs & Hb); [lia..|].
  exists h'. split; [done|]. lia.
Qed.
End sleep.

(** ** A machine *)

(** Channel 0 of the interval timer: the mode bits of its control word, a low byte
    that waits for its high byte, the count and the tick it was loaded at, and a
    latched status. *)
Record Pit := mkPit { pit_mode : Z; pit_low : option Z; pit_load : option (Z * Z); pit_status : option Z }.

(** The counter, its rate, how long the next instructions take, and the timer. *)
Record Pc := mkPc { ticks : Z; hz : Z; costs : list Z; pit : Pit }.

Definition PIT_HZ : Z := 1193182.
Definition MAX_COST : Z := 4096.

(** An instruction takes at least one tick. *)
Definition advance (p : Pc) : Pc :=
  mkPc (ticks p + Z.max 1 (Z.min MAX_COST (default 1 (head (costs p))))) (hz p) (tail (costs p)) (pit p).
Definition with_pit (i : Pit) (p : Pc) : Pc := mkPc (ticks p) (hz p) (costs p) i.

(** In mode 0 the output goes high one period after the count has run out; a count
    of 0 is 65536. *)
Definition pit_out (p : Pc) : bool :=
  match pit_load (pit p) with
  | Some (n, at_tick) => ((if n =? 0 then 65536 else n) + 1) * hz p <=? (ticks p - at_tick) * PIT_HZ
  | None => false
  end.

(** The control port.  Bits 7 and 6 select the channel, 3 being the read-back
    command: bit 1 is for channel 0, bit 4 is clear to latch the status. *)
Definition pit_command (v : Z) (p : Pc) : Pc :=
  if Z.shiftr v 6 =? 0 then with_pit (mkPit (Z.land v 0x3f) None None None) p
  else if (Z.shiftr v 6 =? 3) && Z.testbit v 1 && negb (Z.testbit v 4) then
    with_pit (mkPit (pit_mode (pit p)) (pit_low (pit p)) (pit_load (pit p))
      (Some ((if pit_out p then 0x80 else 0) + pit_mode (pit p)))) p
  else p.

(** The data port: in mode 0 with low and high byte ([0x30]) the count starts with
    the high byte.  Other modes are left out. *)
Definition pit_data (v : Z) (p : Pc) : Pc :=
  let i := pit p in
  if pit_mode i =? 0x30 then
    match pit_low i with
    | None => with_pit (mkPit (pit_mode i) (Some v) None (pit_status i)) p
    | Some low => with_pit (mkPit (pit_mode i) None (Some (low + 256 * v, ticks p)) (pit_status i)) p
    end
  else p.

Definition pc_out8 (port v : Z) (p : Pc) : Pc :=
  let p := advance p in
  if port =? 0x43 then pit_command v p else if port =? 0x40 then pit_data v p else p.

(** A latched status is read once; the count is not modelled. *)
Definition pc_in8 (port : Z) (p : Pc) : Pc * Z :=
  let p := advance p in
  if port =? 0x40 then
    match pit_status (pit p) with
    | Some status => (with_pit (mkPit (pit_mode (pit p)) (pit_low (pit p)) (pit_load (pit p)) None) p, status)
    | None => (p, 0)
    end
  else (p, 0).

#[export] Instance Pc_ports : Ports Pc := {| in8 := pc_in8; out8 := pc_out8 |}.
#[export] Instance Pc_clock : Clock Pc :=
  {| rdtsc_insn := λ p, let p := advance p in (p, split_edx_eax (wrap 64 (ticks p))) |}.

Lemma advance_ticks p : ticks p < ticks (advance p) ≤ ticks p + MAX_COST.
Proof. cbn. unfold MAX_COST. lia. Qed.

Lemma pc_rdtsc p : rdtsc p = (advance p, wrap 64 (ticks (advance p))).
Proof.
  unfold rdtsc. cbn -[advance wrap split_edx_eax]. f_equal.
  pose proof (join_split (wrap 64 (ticks (advance p)))) as J. unfold Cpu.rdtsc.
  destruct (split_edx_eax _). apply J. apply Z.mod_pos_bound. lia.
Qed.

#[export] Instance Pc_laws : ClockLaws Pc.
Proof.
  refine {| ticks_of := ticks; tick_max := MAX_COST |}.
  intros p p' now. rewrite pc_rdtsc. intros [= <- <-]. split; [apply advance_ticks|done].
Defined.

(** ** Calibration on the machine *)

(** The countdown from 65535 that began at [start] is over at tick [at_tick]. *)
Definition fired (f start at_tick : Z) : Prop := 65536 * f ≤ (at_tick - start) * PIT_HZ.

(** The timer counts down from 65535 since [start]. *)
Definition counting (start : Z) (p : Pc) : Prop := pit p = mkPit 0x30 None (Some (65535, start)) None.

Lemma advance_keeps p : hz (advance p) = hz p ∧ pit (advance p) = pit p.
Proof. done. Qed.

Lemma out8_ticks port v (p : Pc) :
  hz (out8 port v p) = hz p ∧ ticks p < ticks (out8 port v p) ≤ ticks p + MAX_COST.
Proof.
  pose proof (advance_ticks p). cbn [out8 Pc_ports]. unfold pc_out8, pit_command, pit_data.
  repeat case_match; done.
Qed.

Lemma programmed p : let p' := out8 0x40 0xff (out8 0x40 0xff (out8 0x43 0x30 p)) in
  counting (ticks p') p' ∧ hz p' = hz p ∧ ticks p < ticks p' ≤ ticks p + 3 * MAX_COST.
Proof.
  split; [done|]. destruct (out8_ticks 0x43 0x30 p) as [E1 T1]. set (p1 := out8 0x43 0x30 p) in *.
  destruct (out8_ticks 0x40 0xff p1) as [E2 T2]. set (p2 := out8 0x40 0xff p1) in *.
  destruct (out8_ticks 0x40 0xff p2) as [E3 T3]. split; [congruence|lia].
Qed.

(** One poll. *)
Lemma poll_once start p : counting start p →
  let latched := advance p in
  let p' := advance latched in
  ∃ p2 status, in8 0x40 (out8 0x43 0xe2 p) = (p2, status) ∧ counting start p2 ∧ hz p2 = hz p ∧
    ticks p < ticks latched ≤ ticks p + MAX_COST ∧ ticks latched < ticks p2 ≤ ticks latched + MAX_COST ∧
    (negb (Z.land status 0x80 =? 0) = true ↔ fired (hz p) start (ticks latched)).
Proof.
  intros Hc latched p'. unfold counting in Hc. destruct p as [tk f cs i]. cbn [pit] in Hc. subst i.
  pose proof (advance_ticks latched) as Hp. pose proof (advance_ticks (mkPc tk f cs (mkPit 0x30 None (Some (65535, start)) None))) as Hl.
  eexists _, _. split; [done|]. cbn -[Z.max Z.min advance Z.leb Z.mul] in *.
  split; [done|]. split; [done|]. split; [exact Hl|]. split; [exact Hp|].
  unfold fired, pit_out. cbn -[Z.max Z.min Z.leb Z.mul].
  change (65535 + 1) with 65536.
  destruct (Z.leb_spec (65536 * f) ((tk + 1 `max` (MAX_COST `min` default 1 (head cs)) - start) * PIT_HZ)); cbn; split; try done; lia.
Qed.

Lemma poll_ok start fuel p : counting start p → 0 < hz p → start ≤ ticks p →
  ~ fired (hz p) start (ticks p - MAX_COST) → (Z.to_nat (start + hz p - ticks p) < fuel)%nat →
  ∃ p', poll_output fuel p = Done p' ∧ hz p' = hz p ∧ ticks p < ticks p' ∧
    fired (hz p) start (ticks p') ∧ ~ fired (hz p) start (ticks p' - 3 * MAX_COST).
Proof.
  revert p. induction fuel as [|fuel IH]; intros p Hc Hz Hs Hn Hf; [lia|]. cbn [poll_output].
  destruct (poll_once start p Hc) as (p2 & status & -> & Hc2 & Hz2 & Ht & Ht2 & Hst).
  set (t1 := ticks (advance p)) in *. clearbody t1. unfold fired, PIT_HZ, MAX_COST in *.
  destruct (negb (Z.land status 0x80 =? 0)) eqn:E.
  - exists p2. apply proj1 in Hst. specialize (Hst eq_refl). split_and!; [done|done|lia|lia|lia].
  - assert (~ 65536 * hz p ≤ (t1 - start) * 1193182) as Hn1 by (rewrite <- Hst; done).
    destruct (IH p2) as (p' & E' & Hz' & Ht' & Hf' & Hn'); [done|lia|lia|rewrite Hz2; lia|lia|].
    rewrite Hz2 in *. exists p'. split_and!; [done..|lia|done|done].
Qed.

(** The rate the code computes from a countdown, against the rate of the counter. *)
Lemma rate_of_countdown f d : 0 < f ≤ 2 ^ 34 → 65536 * f ≤ d * PIT_HZ → (d - 7 * MAX_COST) * PIT_HZ < 65536 * f →
  ∃ n, rounded_rate d = 100 * n ∧ 0 ≤ n ∧ -51000000 < 100 * n * 1000000 - f < 51000000.
Proof.
  unfold PIT_HZ, MAX_COST. intros Hf Hlo Hhi.
  destruct (rounded_rate_near d) as (n & E & Hn & Hb); [lia|]. exists n. split; [done|]. lia.
Qed.

Lemma calibrate_rate fuel t p : 0 < hz p ≤ 2 ^ 34 → 0 ≤ ticks p → ticks p + hz p + 8 * MAX_COST < 2 ^ 64 →
  (Z.to_nat (hz p) < fuel)%nat →
  ∃ p' t' n, calibrate fuel t p = Done (p', t') ∧ ticks p < ticks p' ∧ RDTSC_START t' = ticks (advance p) ∧
    RDTSC_MHZ t' = 100 * n ∧ 0 ≤ n ∧ -51000000 < RDTSC_MHZ t' * 1000000 - hz p < 51000000.
Proof.
  intros Hz H0 Hmax Hf. unfold calibrate. rewrite pc_rdtsc. set (p0 := advance p).
  assert (ticks p < ticks p0 ≤ ticks p + MAX_COST) as Hp0 by apply advance_ticks.
  assert (hz p0 = hz p) as Hz0 by done. clearbody p0.
  destruct (programmed p0) as (Hc & Hz1 & Ht1). set (p1 := out8 _ _ (out8 _ _ _)) in *. clearbody p1.
  destruct (poll_ok (ticks p1) fuel p1) as (p2 & -> & Hz2 & Ht2 & Hf2 & Hn2);
    [done|lia|lia|unfold fired, PIT_HZ, MAX_COST; lia|lia|].
  cbn [mbind outcome_bind]. rewrite pc_rdtsc. pose proof (advance_ticks p2) as Ht3. set (p3 := advance p2) in *. clearbody p3.
  rewrite Hz1, Hz0 in *. unfold fired, PIT_HZ, MAX_COST in *.
  unfold wrapping_sub, wrap. rewrite !(Z.mod_small (ticks _)), Z.mod_small by lia.
  destruct (rate_of_countdown (hz p) (ticks p3 - ticks p0)) as (n & E & Hn & Hb); [done|unfold PIT_HZ, MAX_COST; lia..|].
  eexists _, _, n. split; [done|]. cbn. rewrite E. split_and!; [lia|done|done|done|lia|lia].
Qed.

(** ** Uptimes *)

(** Seconds of [d] ticks at a rate of [mhz]. *)
Definition seconds (d mhz : Z) : Q := (inject_Z d / inject_Z mhz / 1000000)%Q.

Lemma seconds_pos d mhz : 0 < d → 0 < mhz → (0 < seconds d mhz)%Q.
Proof. intros. by repeat apply quot_pos; try apply inject_pos. Qed.

Lemma seconds_near d mhz : 0 < d < 2 ^ 64 → 0 < mhz < 2 ^ 64 →
  near (6 * eps) (seconds d mhz) (val (f64_div (f64_div (of_u64 d) (of_u64 mhz)) (of_u64 1000000))).
Proof.
  intros Hd Hm. destruct (of_u64_near d Hd) as [N1 V1]. destruct (of_u64_near mhz Hm) as [N2 V2].
  destruct (div_near _ _ _ _ N1 N2) as [N3 V3]; [lia|].
  assert (normal 50 (of_u64 1000000)) as Nm by by apply normal_const.
  destruct (div_near _ _ _ _ N3 Nm) as [N4 V4]; [lia|].
  assert (val (of_u64 1000000) == 1000000)%Q as Em by by vm_compute. rewrite Em in V4.
  assert (0 < inject_Z d)%Q as Hd0 by (apply inject_pos; lia).
  assert (0 < inject_Z mhz)%Q as Hm0 by (apply inject_pos; lia).
  assert (small eps) as He by (split; vm_compute; discriminate).
  pose proof (near_div _ _ _ _ _ He Hd0 Hm0 V1 V2) as V12.
  pose proof (quot_pos _ _ Hd0 Hm0) as Hq.
  set (u := (2 * eps + 2 * eps * eps + eps)%Q) in *.
  assert (small u) as Hu by (split; vm_compute; discriminate).
  pose proof (near_trans _ _ _ _ _ Hu He Hq V12 V3) as V123. set (w := (u + eps + u * eps)%Q) in *.
  assert (small w) as Hw by (split; vm_compute; discriminate).
  assert (0 < seconds d mhz)%Q as Hs by (apply seconds_pos; lia).
  apply near_weaken with (w + eps + w * eps)%Q; [vm_compute; discriminate|done|].
  apply near_trans with (val (f64_div (of_u64 d) (of_u64 mhz)) / 1000000)%Q; [done..| |done].
  unfold seconds. set (x := (inject_Z d / inject_Z mhz)%Q) in *. unfold near, Qdiv in *.
  change (/ 1000000)%Q with (1 # 1000000)%Q. split; nra.
Qed.

(** ** Theorems *)

(** C36: [calibrate] returns on a machine whose timestamp counter ticks at any rate
    up to 17 GHz: it stores the tick it began at, and a rate that is a multiple of
    100 MHz less than 51 MHz off; a counter within 49 MHz of such a multiple gets
    exactly that one.  The off-by-one of the countdown, the time between the
    instructions (up to 4096 ticks each) and the rounding of [f64] are all
    accounted for. *)
Theorem calibrate_correct fuel t p :
  0 < hz p ≤ 2 ^ 34 → 0 ≤ ticks p → ticks p + hz p + 8 * MAX_COST < 2 ^ 64 → (Z.to_nat (hz p) < fuel)%nat →
  ∃ p' t', calibrate fuel t p = Done (p', t') ∧ RDTSC_START t' = ticks (advance p) ∧
    RDTSC_MHZ t' mod 100 = 0 ∧ Z.abs (RDTSC_MHZ t' * 1000000 - hz p) < 51000000 ∧
    ∀ k, Z.abs (hz p - 100 * k * 1000000) ≤ 49000000 → RDTSC_MHZ t' = 100 * k.
Proof.
  intros Hz H0 Hmax Hf. destruct (calibrate_rate fuel t p Hz H0 Hmax Hf) as (p' & t' & n & E & _ & Es & Em & Hn & Hb).
  exists p', t'. split_and!; [done|done|rewrite Em, Z.mul_comm; apply Z.mod_mul; lia|lia|].
  intros k Hk. rewrite Em in *. lia.
Qed.

(** C37: after [calibrate], a [sleep] of some microseconds returns, and the time it
    took is that long up to the error of the rate: 51 ticks in each microsecond,
    and two instructions. *)
Theorem sleep_calibrated fuel t p :
  0 < hz p ≤ 2 ^ 34 → 0 ≤ ticks p → ticks p + hz p + 8 * MAX_COST < 2 ^ 64 → (Z.to_nat (hz p) < fuel)%nat →
  ∃ p1 t1, calibrate fuel t p = Done (p1, t1) ∧
    ∀ us, 0 ≤ us → ticks p1 + us * RDTSC_MHZ t1 + 2 * MAX_COST < 2 ^ 64 →
    ∃ p2, sleep (S (Z.to_nat (us * RDTSC_MHZ t1))) us t1 p1 = Done p2 ∧
      us * (hz p - 51000000) ≤ (ticks p2 - ticks p1) * 1000000 ≤ us * (hz p + 51000000) + 2 * MAX_COST * 1000000.
Proof.
  intros Hz H0 Hmax Hf.
  destruct (calibrate_rate fuel t p Hz H0 Hmax Hf) as (p1 & t1 & n & E & Ht1 & _ & Em & Hn & Hb).
  exists p1, t1. split; [done|]. intros us Hus Hmax1.
  destruct (sleep_ticks us t1 p1 (S (Z.to_nat (us * RDTSC_MHZ t1)))) as (p2 & Es & Ht); cbn [ticks_of tick_max Pc_laws] in *; [lia..|].
  exists p2. split; [done|]. nia.
Qed.

(** on any counter that advances, [uptime] is the time since boot in seconds, at
    the calibrated rate, to one part in [2 ^ 49]. *)
Theorem uptime_accurate {H : Type} `{HL : ClockLaws H} (t : Time) (h : H) :
  0 < RDTSC_MHZ t < 2 ^ 64 → 0 ≤ RDTSC_START t ≤ ticks_of h → ticks_of h + tick_max < 2 ^ 64 →
  ∃ h' x, uptime t h = (h', x) ∧ ticks_of h < ticks_of h' ≤ ticks_of h + tick_max ∧
    near (1 # 2 ^ 49) (seconds (ticks_of h' - RDTSC_START t) (RDTSC_MHZ t)) (val x).
Proof.
  intros Hm Hs Hmax. unfold uptime, rdtsc_elapsed. destruct (rdtsc h) as [h' now] eqn:E.
  apply rdtsc_now in E as [Hn <-]; [|lia..]. eexists _, _. split; [done|]. split; [done|].
  unfold wrapping_sub, wrap. rewrite Z.mod_small by lia. set (d := ticks_of h' - RDTSC_START t).
  assert (0 < seconds d (RDTSC_MHZ t))%Q by (apply seconds_pos; lia).
  apply near_weaken with (6 * eps)%Q; [vm_compute; discriminate|done|]. apply seconds_near; lia.
Qed.

(** ** Two machines *)

Definition demo_pc : Pc := mkPc 1000 3000000000 [] (mkPit 0 None None None).
Definition demo_slow_pc : Pc := mkPc 1000 512345678 (replicate 7000 4096) (mkPit 0 None None None).
Definition demo_time : Time := mkTime 3000 1000.

(** Some thousand polls, and the rate is found. *)
Example calibrate_demo : (λ r, RDTSC_MHZ r.2) <$> calibrate 4000 time_default demo_slow_pc = Done 500.
Proof. by vm_compute. Qed.

Lemma calibrate_correct_witness : ∃ p' t', calibrate (S (Z.to_nat (hz demo_pc))) time_default demo_pc = Done (p', t') ∧
  RDTSC_MHZ t' = 3000.
Proof.
  destruct (calibrate_correct (S (Z.to_nat (hz demo_pc))) time_default demo_pc) as (p' & t' & E & _ & _ & _ & Hk).
  - by split.
  - by vm_compute.
  - by vm_compute.
  - lia.
  - exists p', t'. split; [exact E|]. apply (Hk 30). by vm_compute.
Defined.

Lemma sleep_calibrated_witness : ∃ p1 t1, calibrate (S (Z.to_nat (hz demo_pc))) time_default demo_pc = Done (p1, t1).
Proof.
  destruct (sleep_calibrated (S (Z.to_nat (hz demo_pc))) time_default demo_pc) as (p1 & t1 & E & _).
  - by split.
  - by vm_compute.
  - by vm_compute.
  - lia.
  - by exists p1, t1.
Defined.

Lemma uptime_accurate_witness : ∃ p x, uptime demo_time demo_pc = (p, x) ∧
  near (1 # 2 ^ 49) (seconds (ticks p - 1000) 3000) (val x).
Proof.
  destruct (uptime_accurate demo_time demo_pc) as (p & x & E & _ & N).
  - by split.
  - by split.
  - by vm_compute.
  - by exists p, x.
Defined.
