(* ===== verification/Print.v ===== *)
(** * Printing (kernel/src/print.rs)

    [print!] and [SerialWriter] as they run on all cores at once.  A thread is what
    a core does outside exceptions, or one exception on it, and prints one message
    after the other; a message is the list of strings [write_fmt] hands to
    [write_str].  The two locks are the ticket locks of [LockCell], as they look
    from outside: owned by at most one thread; an attempt may fail also when the
    lock has just become free.  One step is an attempt at a lock, one byte, or the
    end of a guard. *)

From stdpp Require Import base tactics option list numbers strings.
From Stdlib Require Import ZArith Lia.
From S2P Require Import Prelude MachineInt Bytes Serial.

Local Open Scope Z_scope.

Definition message : Type := list (list Z).

Record Thread := mkThread { in_exception : bool; prints : list message }.

(** Where a thread is; [locked] says whether it has the print lock. *)
Inductive pc :=
| Idle (todo : list message)
| Format (locked : bool) (parts : message) (todo : list message)
| Write (locked : bool) (st : list Z) (parts : message) (todo : list message).

(** The console's history says which thread sent a byte. *)
Record Console (H : Type) := mkConsole {
  pcs : list pc;
  print_lock : option nat;
  serial_lock : option nat;
  history : list (nat * Z);
  world : H;
}.
Arguments mkConsole {H}.
Arguments pcs {H}.
Arguments print_lock {H}.
Arguments serial_lock {H}.
Arguments history {H}.
Arguments world {H}.

(** [try_lock] in an exception, [lock] otherwise: the lock afterwards, and whether
    there is a guard; [None] while the caller spins. *)
Definition acquire (in_exception lucky : bool) (i : nat) (lock : option nat) : option (option nat * bool) :=
  match lock with
  | None => if in_exception && negb lucky then Some (None, false) else Some (Some i, true)
  | Some _ => if in_exception then Some (lock, false) else None
  end.

(** The end of a guard's scope. *)
Definition drop_guard (guard : bool) (lock : option nat) : option nat := if guard then None else lock.

Section print.
Context {H : Type} `{HP : Ports H}.
Context (fuel : nat) (serial : option SerialPort) (threads : list Thread).

(** [print!], with [write_str] for each string. *)
Definition step (i : nat) (lucky : bool) (s : Console H) : option (Console H) :=
  t ← threads !! i;
  p ← pcs s !! i;
  match p with
  | Idle [] => None
  | Idle (parts :: todo) =>
      '(lock, guard) ← acquire (in_exception t) lucky i (print_lock s);
      Some (mkConsole (<[i := Format guard parts todo]> (pcs s)) lock (serial_lock s) (history s) (world s))
  | Format locked [] todo =>
      Some (mkConsole (<[i := Idle todo]> (pcs s)) (drop_guard locked (print_lock s)) (serial_lock s) (history s) (world s))
  | Format locked (st :: parts) todo =>
      '(lock, guard) ← acquire (in_exception t) lucky i (serial_lock s);
      Some (mkConsole (<[i := if guard : bool then Write locked st parts todo else Format locked parts todo]> (pcs s))
        (print_lock s) lock (history s) (world s))
  | Write locked st parts todo =>
      match serial, st with
      | Some devices, byte :: st =>
          match broadcast fuel devices (seq 0 (length devices)) byte (world s) with
          | Done h => Some (mkConsole (<[i := Write locked st parts todo]> (pcs s)) (print_lock s) (serial_lock s)
              (history s ++ [(i, byte)]) h)
          | _ => None
          end
      | _, _ => Some (mkConsole (<[i := Format locked parts todo]> (pcs s)) (print_lock s) None (history s) (world s))
      end
  end.

Definition start (h : H) : Console H := mkConsole (Idle ∘ prints <$> threads) None None [] h.

Inductive reachable (h : H) : Console H → Prop :=
| reachable_start : reachable h (start h)
| reachable_step i lucky s s' : reachable h s → step i lucky s = Some s' → reachable h s'.
End print.

(** [panic] of the bootloader, before it halts *)
Definition boot_panic {H} `{Ports H} (fuel : nat) (serial : option SerialPort) (h : H) : outcome H :=
  match serial with
  | Some serial => Serial.write fuel serial (line "PANIC in bootloader") h
  | None => Done h
  end.

(** ** The locks *)

Definition holds_print (p : pc) : bool :=
  match p with Idle _ => false | Format locked _ _ => locked | Write locked _ _ _ => locked end.
Definition holds_serial (p : pc) : bool := match p with Write _ _ _ _ => true | _ => false end.
Definition busy (p : pc) : bool := match p with Idle _ => false | _ => true end.

(** The lock belongs to the thread that has its guard. *)
Definition owned (holds : pc → bool) (ps : list pc) (lock : option nat) : Prop :=
  ∀ i, lock = Some i ↔ ∃ p, ps !! i = Some p ∧ holds p = true.

Lemma owned_keep holds ps lock i p p' : owned holds ps lock → ps !! i = Some p → holds p' = holds p →
  owned holds (<[i := p']> ps) lock.
Proof.
  intros Ho Hi Hp j. rewrite (Ho j). pose proof (lookup_lt_Some _ _ _ Hi). destruct (decide (i = j)) as [<-|Hne].
  - rewrite list_lookup_insert_eq by done. rewrite Hi.
    split; intros (q & [= <-] & Hq); eexists; (split; [done|congruence]).
  - by rewrite list_lookup_insert_ne.
Qed.

Lemma owned_take holds ps i p p' : owned holds ps None → ps !! i = Some p → holds p' = true →
  owned holds (<[i := p']> ps) (Some i).
Proof.
  intros Ho Hi Hp j. pose proof (lookup_lt_Some _ _ _ Hi). destruct (decide (i = j)) as [<-|Hne].
  - rewrite list_lookup_insert_eq by done. naive_solver.
  - rewrite list_lookup_insert_ne by done. rewrite <- (Ho j). naive_solver.
Qed.

Lemma owned_drop holds ps lock i p p' : owned holds ps lock → ps !! i = Some p → holds p = true → holds p' = false →
  owned holds (<[i := p']> ps) None.
Proof.
  intros Ho Hi Hp Hp' j. pose proof (lookup_lt_Some _ _ _ Hi).
  assert (lock = Some i) as -> by (apply Ho; eauto). split; [done|].
  destruct (decide (i = j)) as [<-|Hne].
  - rewrite list_lookup_insert_eq by done. intros (q & [= <-] & Hq). congruence.
  - rewrite list_lookup_insert_ne by done. intros Hq. apply Ho in Hq. congruence.
Qed.

Lemma owned_acquire holds ps lock exc lucky i p lock' guard p' : owned holds ps lock → ps !! i = Some p →
  holds p = false → acquire exc lucky i lock = Some (lock', guard) → holds p' = guard →
  owned holds (<[i := p']> ps) lock'.
Proof.
  intros Ho Hi Hp E Hp'. unfold acquire in E.
  destruct lock, exc, lucky; cbn in E; simplify_eq; eauto using owned_take; by eapply owned_keep; eauto; congruence.
Qed.

Section inv.
Context {H : Type} `{HP : Ports H}.
Context (fuel : nat) (serial : option SerialPort) (threads : list Thread).
Implicit Types s : Console H.

Record locks_inv s : Prop := {
  inv_length : length (pcs s) = length threads;
  inv_print : owned holds_print (pcs s) (print_lock s);
  inv_serial : owned holds_serial (pcs s) (serial_lock s);
  inv_normal i t p : threads !! i = Some t → in_exception t = false → pcs s !! i = Some p → holds_print p = busy p;
}.

(** The steps, one case each. *)
Variant step_case (i : nat) (t : Thread) s : Console H → Prop :=
| case_print lucky parts todo lock guard : pcs s !! i = Some (Idle (parts :: todo)) →
    acquire (in_exception t) lucky i (print_lock s) = Some (lock, guard) →
    step_case i t s (mkConsole (<[i := Format guard parts todo]> (pcs s)) lock (serial_lock s) (history s) (world s))
| case_end locked todo : pcs s !! i = Some (Format locked [] todo) →
    step_case i t s (mkConsole (<[i := Idle todo]> (pcs s)) (drop_guard locked (print_lock s)) (serial_lock s) (history s) (world s))
| case_string lucky locked st parts todo lock guard : pcs s !! i = Some (Format locked (st :: parts) todo) →
    acquire (in_exception t) lucky i (serial_lock s) = Some (lock, guard) →
    step_case i t s (mkConsole (<[i := if guard : bool then Write locked st parts todo else Format locked parts todo]> (pcs s))
      (print_lock s) lock (history s) (world s))
| case_byte devices locked byte st parts todo h : serial = Some devices → pcs s !! i = Some (Write locked (byte :: st) parts todo) →
    broadcast fuel devices (seq 0 (length devices)) byte (world s) = Done h →
    step_case i t s (mkConsole (<[i := Write locked st parts todo]> (pcs s)) (print_lock s) (serial_lock s)
      (history s ++ [(i, byte)]) h)
| case_close locked st parts todo : pcs s !! i = Some (Write locked st parts todo) → serial = None ∨ st = [] →
    step_case i t s (mkConsole (<[i := Format locked parts todo]> (pcs s)) (print_lock s) None (history s) (world s)).

Lemma step_cases i lucky s s' : step fuel serial threads i lucky s = Some s' → ∃ t, threads !! i = Some t ∧ step_case i t s s'.
Proof.
  unfold step. intros (t & Ht & (p & Hp & E)%bind_Some)%bind_Some. exists t. split; [done|].
  destruct p as [[|parts todo]|locked [|st parts] todo|locked st parts todo].
  - done.
  - apply bind_Some in E as ([lock guard] & Ea & [= <-]). by eapply case_print.
  - injection E as <-. by apply case_end.
  - apply bind_Some in E as ([lock guard] & Ea & [= <-]). by eapply case_string.
  - destruct serial as [devices|] eqn:Es; [|injection E as <-; eapply case_close; eauto].
    destruct st as [|byte st]; [injection E as <-; eapply case_close; eauto|].
    destruct (broadcast _ _ _ _ _) as [h| |] eqn:Eb; try done. injection E as <-. by eapply case_byte.
Qed.

Lemma start_locks h : locks_inv (start threads h).
Proof.
  split; cbn.
  - by rewrite length_fmap.
  - intros i. split; [done|]. intros (p & Hp & Hh). rewrite list_lookup_fmap in Hp. destruct (threads !! i); by simplify_eq/=.
  - intros i. split; [done|]. intros (p & Hp & Hh). rewrite list_lookup_fmap in Hp. destruct (threads !! i); by simplify_eq/=.
  - intros i t p Ht _ Hp. rewrite list_lookup_fmap, Ht in Hp. by simplify_eq/=.
Qed.

Lemma acquire_normal exc lucky i lock lock' guard : acquire exc lucky i lock = Some (lock', guard) →
  exc = false → guard = true.
Proof. unfold acquire. intros E ->. destruct lock; by simplify_eq/=. Qed.

Lemma step_locks i t s s' : threads !! i = Some t → locks_inv s → step_case i t s s' → locks_inv s'.
Proof.
  intros Ht [Hl Hp Hs Hn] C.
  assert (∀ p', (in_exception t = false → holds_print p' = busy p') → ∀ j u p, threads !! j = Some u → in_exception u = false →
    <[i := p']> (pcs s) !! j = Some p → holds_print p = busy p) as Hnew.
  { intros p' Hp' j u p Hu He Hj. destruct (decide (i = j)) as [<-|Hne].
    - apply list_lookup_insert_Some in Hj as [(_ & -> & _)|[? _]]; [|done]. apply Hp'. congruence.
    - rewrite list_lookup_insert_ne in Hj by done. by apply (Hn j u p). }
  destruct C as [lucky parts todo lock guard Hi Ha|locked todo Hi|lucky locked st parts todo lock guard Hi Ha
    |devices locked byte st parts todo h Es Hi Hb|locked st parts todo Hi Hst];
    split; cbn [pcs print_lock serial_lock]; try (by rewrite length_insert).
  - by eapply owned_acquire.
  - by eapply owned_keep.
  - apply Hnew. intros. cbn. by eapply acquire_normal.
  - destruct locked; cbn [drop_guard]; [by eapply owned_drop|by eapply owned_keep].
  - by eapply owned_keep.
  - by apply Hnew.
  - eapply owned_keep; [done..|]. by destruct guard.
  - eapply owned_acquire; [done..|]. by destruct guard.
  - apply Hnew. intros He. rewrite (acquire_normal _ _ _ _ _ _ Ha He). exact (Hn i t _ Ht He Hi).
  - by eapply owned_keep.
  - by eapply owned_keep.
  - apply Hnew. intros He. exact (Hn i t _ Ht He Hi).
  - by eapply owned_keep.
  - by eapply owned_drop.
  - apply Hnew. intros He. exact (Hn i t _ Ht He Hi).
Qed.

Lemma reachable_locks h s : reachable fuel serial threads h s → locks_inv s.
Proof.
  induction 1 as [|i lucky s s' _ IH (t & Ht & C)%step_cases]; [apply start_locks|by eapply step_locks].
Qed.
End inv.

(** ** Messages *)

(** What is left of the message being printed, as bytes. *)
Definition rest (p : pc) : list Z :=
  match p with Idle _ => [] | Format _ parts _ => mjoin parts | Write _ st parts _ => st ++ mjoin parts end.
Definition todo_of (p : pc) : list message := match p with Idle todo => todo | Format _ _ todo => todo | Write _ _ _ todo => todo end.

Definition msgs_of {A} (i : nat) (l : list (nat * A)) : list A := (filter (λ x, x.1 = i) l).*2.

Lemma msgs_of_app {A} i (l l' : list (nat * A)) : msgs_of i (l ++ l') = msgs_of i l ++ msgs_of i l'.
Proof. unfold msgs_of. by rewrite filter_app, fmap_app. Qed.
Lemma msgs_of_same {A} i (x : A) : msgs_of i [(i, x)] = [x].
Proof. unfold msgs_of. by rewrite filter_cons_True by done. Qed.
Lemma msgs_of_other {A} i j (x : A) : i ≠ j → msgs_of j [(i, x)] = [].
Proof. intros. unfold msgs_of. by rewrite filter_cons_False by done. Qed.

Section messages.
Context {H : Type} `{HP : Ports H}.
Context (fuel : nat) (devices : SerialPort) (threads : list Thread).
Implicit Types s : Console H.

Definition is_normal (i : nat) : bool :=
  match threads !! i with Some t => negb (in_exception t) | None => false end.

(** The bytes that threads outside exceptions have sent. *)
Definition normal_bytes (l : list (nat * Z)) : list Z := (filter (λ x, is_normal x.1 = true) l).*2.

(** A thread has printed its messages up to the current one, of which [part] is out. *)
Definition printed (i : nat) (order : list (nat * message)) (part : list Z) (t : Thread) (p : pc) : Prop :=
  if busy p then ∃ m, prints t = msgs_of i order ++ m :: todo_of p ∧ part ++ rest p = mjoin m
  else prints t = msgs_of i order ++ todo_of p.

(** Whole messages, then the beginning of the one whose thread has the print lock. *)
Record merged (order : list (nat * message)) (part : list Z) s : Prop := {
  merged_bytes : normal_bytes (history s) = (order ≫= λ x, mjoin x.2) ++ part;
  merged_part : part ≠ [] → ∃ i, print_lock s = Some i ∧ is_normal i = true;
  merged_threads i t p : threads !! i = Some t → in_exception t = false → pcs s !! i = Some p → printed i order part t p;
}.

Lemma start_merged h : merged [] [] (start threads h).
Proof.
  split; [done..|]. intros i t p Ht He Hp. cbn in Hp. rewrite list_lookup_fmap, Ht in Hp. by simplify_eq/=.
Qed.

Lemma normal_thread i t : threads !! i = Some t → is_normal i = negb (in_exception t).
Proof. unfold is_normal. by intros ->. Qed.

(** Another thread outside exceptions is idle while this one prints. *)
Lemma other_idle i t p j u q s : locks_inv threads s → threads !! i = Some t → in_exception t = false →
  pcs s !! i = Some p → busy p = true → threads !! j = Some u → in_exception u = false → pcs s !! j = Some q → i ≠ j →
  busy q = false.
Proof.
  intros Hl Ht He Hi Hb Hu Heu Hj Hne. destruct (busy q) eqn:Hq; [|done]. destruct Hne.
  assert (print_lock s = Some i) as E1 by (apply (inv_print _ _ Hl); exists p; split; [done|]; by rewrite (inv_normal _ _ Hl i t p)).
  assert (print_lock s = Some j) as E2 by (apply (inv_print _ _ Hl); exists q; split; [done|]; by rewrite (inv_normal _ _ Hl j u q)).
  congruence.
Qed.

(** A step that leaves what was said by threads outside exceptions. *)
Lemma merged_quiet order part i t p p' s s' : threads !! i = Some t → pcs s !! i = Some p → merged order part s →
  pcs s' = <[i := p']> (pcs s) → normal_bytes (history s') = normal_bytes (history s) →
  (part ≠ [] → print_lock s' = print_lock s) →
  (in_exception t = false → printed i order part t p → printed i order part t p') → merged order part s'.
Proof.
  intros Ht Hi [Hb Hp Ho] Es Eh El Hpr. split.
  - by rewrite Eh.
  - intros Hne. rewrite El by done. by apply Hp.
  - intros j u q Hu He Hj. rewrite Es in Hj. destruct (decide (i = j)) as [<-|Hne].
    + apply list_lookup_insert_Some in Hj as [(_ & Eq & _)|[? _]]; [|done]. simplify_eq. apply Hpr; [done|]. by eapply Ho.
    + rewrite list_lookup_insert_ne in Hj by done. by eapply Ho.
Qed.

(** The part belongs to the next message of the thread that has the print lock. *)
Lemma merged_current order part s : locks_inv threads s → merged order part s →
  part = [] ∨ ∃ i t m todo, print_lock s = Some i ∧ threads !! i = Some t ∧ in_exception t = false ∧
    prints t = msgs_of i order ++ m :: todo ∧ part `prefix_of` mjoin m.
Proof.
  intros Hl [_ Hp Ho]. destruct (decide (part = [])) as [|(i & El & Hn)%Hp]; [by left|]. right.
  unfold is_normal in Hn. destruct (threads !! i) as [t|] eqn:Ht; [|done]. apply negb_true_iff in Hn.
  pose proof El as (p & Hi & Hb)%(inv_print _ _ Hl). rewrite (inv_normal _ _ Hl i t p Ht Hn Hi) in Hb.
  specialize (Ho i t p Ht Hn Hi). unfold printed in Ho. rewrite Hb in Ho. destruct Ho as (m & Em & Er).
  exists i, t, m, (todo_of p). split_and!; [done..|]. rewrite <- Er. by eexists.
Qed.

Lemma acquire_held exc lucky i k lock guard : acquire exc lucky i (Some k) = Some (lock, guard) →
  lock = Some k ∧ guard = false ∧ exc = true.
Proof. unfold acquire. destruct exc; naive_solver. Qed.

Lemma normal_bytes_app l i (b : Z) : normal_bytes (l ++ [(i, b)]) = normal_bytes l ++ (if is_normal i then [b] else []).
Proof.
  unfold normal_bytes. rewrite filter_app, fmap_app. f_equal. destruct (is_normal i) eqn:E.
  - by rewrite filter_cons_True.
  - rewrite filter_cons_False; [done|]. cbn. congruence.
Qed.

(** A thread outside exceptions ends its message. *)
Lemma merged_end order part i t todo s : threads !! i = Some t → in_exception t = false → locks_inv threads s →
  merged order part s → pcs s !! i = Some (Format true [] todo) → ∃ m, part = mjoin m ∧
    merged (order ++ [(i, m)]) []
      (mkConsole (<[i := Idle todo]> (pcs s)) None (serial_lock s) (history s) (world s)).
Proof.
  intros Ht He Hl [Hb Hp Ho] Hi. destruct (Ho i t _ Ht He Hi) as (m & Em & Er). cbn in Em, Er. rewrite app_nil_r in Er.
  exists m. split; [done|]. split; cbn [pcs history print_lock].
  - rewrite Hb, bind_app, bind_singleton, app_nil_r. cbn. by rewrite Er.
  - done.
  - intros j u q Hu Hue Hj. destruct (decide (i = j)) as [<-|Hne].
    + apply list_lookup_insert_Some in Hj as [(_ & Eq & _)|[? _]]; [|done]. simplify_eq. unfold printed. cbn.
      by rewrite msgs_of_app, msgs_of_same, <- (assoc_L (++)).
    + rewrite list_lookup_insert_ne in Hj by done.
      assert (busy q = false) as Hq by (by eapply (other_idle i t (Format true [] todo) j u q)).
      pose proof (Ho j u q Hu Hue Hj) as Hpr. unfold printed in *. rewrite Hq in *.
      by rewrite msgs_of_app, msgs_of_other, app_nil_r.
Qed.

(** A thread outside exceptions sends a byte. *)
Lemma merged_byte order part i t locked byte st parts todo h s : threads !! i = Some t → in_exception t = false →
  locks_inv threads s → merged order part s → pcs s !! i = Some (Write locked (byte :: st) parts todo) →
  merged order (part ++ [byte])
    (mkConsole (<[i := Write locked st parts todo]> (pcs s)) (print_lock s) (serial_lock s) (history s ++ [(i, byte)]) h).
Proof.
  intros Ht He Hl [Hb Hp Ho] Hi. pose proof (normal_thread i t Ht) as Hn. rewrite He in Hn. split; cbn [pcs history print_lock].
  - by rewrite normal_bytes_app, Hn, Hb, <- (assoc_L (++)).
  - intros _. exists i. split; [|done]. apply (inv_print _ _ Hl). eexists. split; [done|].
    exact (inv_normal _ _ Hl i t _ Ht He Hi).
  - intros j u q Hu Hue Hj. destruct (decide (i = j)) as [<-|Hne].
    + apply list_lookup_insert_Some in Hj as [(_ & Eq & _)|[? _]]; [|done]. simplify_eq.
      destruct (Ho i t _ Ht He Hi) as (m & Em & Er). exists m. split; [done|]. cbn in *. by rewrite <- (assoc_L (++)).
    + rewrite list_lookup_insert_ne in Hj by done.
      assert (busy q = false) as Hq by (by eapply (other_idle i t (Write locked (byte :: st) parts todo) j u q)).
      pose proof (Ho j u q Hu Hue Hj) as Hpr. unfold printed in *. by rewrite Hq in *.
Qed.

Lemma step_merged order part i t s s' : threads !! i = Some t → locks_inv threads s → merged order part s →
  step_case fuel (Some devices) i t s s' → ∃ order' part', merged order' part' s'.
Proof.
  intros Ht Hl Hm C. pose proof (normal_thread i t Ht) as Hn.
  assert (part ≠ [] → ∃ k, print_lock s = Some k ∧ is_normal k = true) as Hp by apply Hm.
  destruct C as [lucky parts todo lock guard Hi Ha|locked todo Hi|lucky locked st parts todo lock guard Hi Ha
    |ds locked byte st parts todo h Es Hi Hb|locked st parts todo Hi Hst].
  - assert (part ≠ [] → lock = print_lock s ∧ in_exception t = true) as Hk.
    { intros (k & Ek & _)%Hp. rewrite Ek in Ha |- *. apply acquire_held in Ha. naive_solver. }
    exists order, part. eapply merged_quiet; [done..| |].
    + intros Hne. by apply Hk.
    + intros He Hpr. assert (part = []) as -> by (destruct part; [done|]; destruct Hk; [done|congruence]).
      by exists parts.
  - destruct (in_exception t) eqn:He.
    + exists order, part. eapply merged_quiet; [done..| |congruence].
      intros (k & Ek & Hk)%Hp. destruct locked; [|done]. cbn in *.
      assert (print_lock s = Some i) by (apply (inv_print _ _ Hl); eauto). congruence.
    + assert (locked = true) as -> by exact (inv_normal _ _ Hl i t _ Ht He Hi).
      destruct (merged_end order part i t todo s Ht He Hl Hm Hi) as (m & _ & Hm'). by eexists _, _.
  - exists order, part. eapply merged_quiet; [done..|]. intros He Hpr.
    rewrite (acquire_normal _ _ _ _ _ _ Ha He). exact Hpr.
  - destruct (in_exception t) eqn:He; [|by eexists _, _; eapply merged_byte].
    exists order, part. eapply merged_quiet; [done..| |done|congruence]. cbn [history]. by rewrite normal_bytes_app, Hn, app_nil_r.
  - destruct Hst as [?| ->]; [done|]. exists order, part. eapply merged_quiet; [done..|]. intros He Hpr. exact Hpr.
Qed.

Lemma reachable_merged h s : reachable fuel (Some devices) threads h s → ∃ order part, merged order part s.
Proof.
  induction 1 as [|i lucky s s' Hr (order & part & IH) (t & Ht & C)%step_cases].
  - exists [], []. apply start_merged.
  - eapply step_merged; [done| |done|done]. by eapply reachable_locks.
Qed.
End messages.

(** ** Strings *)

(** The strings a thread has not yet got rid of; [part] of the current one is out. *)
Definition ahead (part : list Z) (p : pc) : list (list Z) :=
  match p with
  | Idle todo => mjoin todo
  | Format _ parts todo => parts ++ mjoin todo
  | Write _ st parts todo => (part ++ st) :: parts ++ mjoin todo
  end.

Definition tagged (x : nat * list Z) : list (nat * Z) := pair x.1 <$> x.2.

Lemma tagged_snd x : (tagged x).*2 = x.2.
Proof. unfold tagged. rewrite <- list_fmap_compose. apply list_fmap_id. Qed.

Lemma tagged_join l : (l ≫= tagged).*2 = mjoin l.*2.
Proof. induction l as [|x l IH]; [done|]. rewrite bind_cons, fmap_app, IH, tagged_snd. done. Qed.

Section strings.
Context {H : Type} `{HP : Ports H}.
Context (fuel : nat) (devices : SerialPort) (threads : list Thread).
Implicit Types s : Console H.

(** A thread's strings are out in order: outside exceptions all of them, in an
    exception those it got the console for. *)
Definition spoke (i : nat) (strings : list (nat * list Z)) (part : list Z) (t : Thread) (p : pc) : Prop :=
  ∃ past, mjoin (prints t) = past ++ ahead part p ∧ msgs_of i strings `sublist_of` past ∧
    (in_exception t = false → msgs_of i strings = past).

(** Whole strings, then the beginning of the one whose thread has the serial lock. *)
Record spoken (strings : list (nat * list Z)) (part : list Z) s : Prop := {
  spoken_history : history s = (strings ≫= tagged) ++ (match serial_lock s with Some i => tagged (i, part) | None => [] end);
  spoken_threads i t p : threads !! i = Some t → pcs s !! i = Some p → spoke i strings part t p;
}.

Lemma spoken_step strings part strings' part' i t p' s s' : spoken strings part s → threads !! i = Some t →
  pcs s' = <[i := p']> (pcs s) →
  history s' = (strings' ≫= tagged) ++ (match serial_lock s' with Some i => tagged (i, part') | None => [] end) →
  spoke i strings' part' t p' →
  (∀ j u q, j ≠ i → pcs s !! j = Some q → spoke j strings part u q → spoke j strings' part' u q) →
  spoken strings' part' s'.
Proof.
  intros [_ Hs] Ht Es Eh Hi Hj. split; [done|]. intros j u q Hu Hq. rewrite Es in Hq. destruct (decide (i = j)) as [<-|Hne].
  - apply list_lookup_insert_Some in Hq as [(_ & Eq & _)|[? _]]; [|done]. by simplify_eq.
  - rewrite list_lookup_insert_ne in Hq by done. apply Hj; [congruence|done|]. by apply (Hs j).
Qed.

Lemma spoke_other strings part part' u j q : holds_serial q = false → spoke j strings part u q → spoke j strings part' u q.
Proof. intros Hq. by destruct q. Qed.

Lemma start_spoken h : spoken [] [] (start threads h).
Proof.
  split; [done|]. intros i t p Ht Hp. cbn in Hp. rewrite list_lookup_fmap, Ht in Hp. simplify_eq/=. by exists [].
Qed.

Lemma serial_free i s j q : locks_inv threads s → serial_lock s = i → i ≠ Some j → pcs s !! j = Some q → holds_serial q = false.
Proof.
  intros Hl Hi Hne Hj. destruct (holds_serial q) eqn:E; [|done]. destruct Hne. rewrite <- Hi. apply (inv_serial _ _ Hl). eauto.
Qed.

Lemma step_spoken strings part i t s s' : threads !! i = Some t → locks_inv threads s → spoken strings part s →
  step_case fuel (Some devices) i t s s' → ∃ strings' part', spoken strings' part' s'.
Proof.
  intros Ht Hl Hs C. pose proof Hs as [Hh Hi']. 
  destruct C as [lucky parts todo lock guard Hi Ha|locked todo Hi|lucky locked st parts todo lock guard Hi Ha
    |ds locked byte st parts todo h Es Hi Hb|locked st parts todo Hi Hst]; specialize (Hi' i t _ Ht Hi).
  - exists strings, part. by eapply spoken_step.
  - exists strings, part. by eapply spoken_step.
  - destruct Hi' as (past & Ep & Hsub & Hall). destruct guard.
    + exists strings, []. assert (serial_lock s = None ∧ lock = Some i) as [El ->].
      { destruct (serial_lock s) as [k|] eqn:Ek; [by apply acquire_held in Ha as (_ & ? & _)|]. unfold acquire in Ha.
        destruct (in_exception t && negb lucky); by simplify_eq. }
      rewrite El in Hh. eapply spoken_step; [done..| | |].
      * cbn. by rewrite Hh.
      * by exists past.
      * intros j u q _ Hj. apply spoke_other. by eapply serial_free.
    + exists strings, part. assert (lock = serial_lock s ∧ in_exception t = true) as [-> He].
      { destruct (serial_lock s) as [k|] eqn:Ek; [by apply acquire_held in Ha as (-> & _ & ->)|]. unfold acquire in Ha.
        destruct (in_exception t), lucky; by simplify_eq/=. }
      eapply spoken_step; [done..| |done].
      exists (past ++ [st]). split_and!; [by rewrite <- (assoc_L (++))|by apply sublist_inserts_r|congruence].
  - assert (serial_lock s = Some i) as El by (apply (inv_serial _ _ Hl); eauto). rewrite El in Hh.
    destruct Hi' as (past & Ep & Hsub & Hall). exists strings, (part ++ [byte]). eapply spoken_step; [done..| | |].
    + cbn [history serial_lock]. rewrite El, Hh. unfold tagged. cbn. by rewrite fmap_app, <- (assoc_L (++)).
    + exists past. split_and!; [|done..]. cbn [ahead] in *. by rewrite <- (assoc_L (++) part).
    + intros j u q Hne Hj. apply spoke_other. eapply serial_free; [done..| |done]. congruence.
  - assert (serial_lock s = Some i) as El by (apply (inv_serial _ _ Hl); eauto). rewrite El in Hh.
    destruct Hst as [?| ->]; [done|]. destruct Hi' as (past & Ep & Hsub & Hall). exists (strings ++ [(i, part)]), [].
    cbn [ahead] in Ep. rewrite app_nil_r in Ep. eapply spoken_step; [done..| | |].
    + cbn [history serial_lock]. by rewrite Hh, bind_app, bind_singleton, app_nil_r.
    + exists (past ++ [part]). rewrite msgs_of_app, msgs_of_same. split_and!.
      * by rewrite <- (assoc_L (++)).
      * by apply sublist_app.
      * intros He. by rewrite Hall.
    + intros j u q Hne Hj Hsp. eapply (spoke_other _ part). { eapply serial_free; [done..| |done]. congruence. }
      destruct Hsp as (past' & ? & ? & ?). exists past'. by rewrite msgs_of_app, msgs_of_other, app_nil_r by congruence.
Qed.

Lemma reachable_spoken h s : reachable fuel (Some devices) threads h s → ∃ strings part, spoken strings part s.
Proof.
  induction 1 as [|i lucky s s' Hr (strings & part & IH) (t & Ht & C)%step_cases].
  - exists [], []. apply start_spoken.
  - eapply step_spoken; [done| |done|done]. by eapply reachable_locks.
Qed.
End strings.

(** ** Progress *)

Definition work_parts (parts : message) : nat := sum_list_with (λ st, 2 + length st)%nat parts.
Definition work_todo (todo : list message) : nat := sum_list_with (λ parts, 2 + work_parts parts)%nat todo.
Definition work (p : pc) : nat :=
  match p with
  | Idle todo => work_todo todo
  | Format _ parts todo => 1 + work_parts parts + work_todo todo
  | Write _ st parts todo => 2 + length st + work_parts parts + work_todo todo
  end.
Definition total_work {H} (s : Console H) : nat := sum_list_with work (pcs s).

Lemma work_parts_cons st parts : work_parts (st :: parts) = (2 + length st + work_parts parts)%nat.
Proof. done. Qed.
Lemma work_todo_cons parts todo : work_todo (parts :: todo) = (2 + work_parts parts + work_todo todo)%nat.
Proof. done. Qed.

Lemma work_insert (ps : list pc) i p p' : ps !! i = Some p → (work p' < work p)%nat →
  (sum_list_with work (<[i := p']> ps) < sum_list_with work ps)%nat.
Proof.
  revert i. induction ps as [|q ps IH]; intros [|i] Hi Hw; [done..| |].
  - cbn in Hi. simplify_eq. cbn. lia.
  - change (<[S i := p']> (q :: ps)) with (q :: <[i := p']> ps). specialize (IH i Hi Hw). cbn. lia.
Qed.

Section progress.
Context {H : Type} `{HP : Ports H} `{HV : UartView H} `{HL : !UartLaws H}.
Context (fuel : nat) (devices : SerialPort) (threads : list Thread).
Context (Hdev : devices_ok (H := H) devices).
Implicit Types s : Console H.
Local Open Scope nat_scope.

Lemma step_case_work i t s s' : step_case fuel (Some devices) i t s s' → total_work s' < total_work s.
Proof.
  intros C. unfold total_work.
  destruct C as [lucky parts todo lock guard Hi Ha|locked todo Hi|lucky locked st parts todo lock guard Hi Ha
    |ds locked byte st parts todo h Es Hi Hb|locked st parts todo Hi Hst]; cbn [pcs]; (eapply work_insert; [exact Hi|]);
    try destruct guard; cbn [work length]; rewrite ?work_todo_cons, ?work_parts_cons; lia.
Qed.

(** Each byte reaches every port. *)
Lemma reachable_sent h s : ready fuel (present devices) h → reachable fuel (Some devices) threads h s →
  ready fuel (present devices) (world s) ∧
  ∀ p, p ∈ present devices → tx (uart (world s) p) = tx (uart h p) ++ ((history s).*2 ≫= crlf).
Proof.
  intros Hr. induction 1 as [|i lucky s s' _ [IHr IHt] (t & Ht & C)%step_cases].
  - split; [done|]. intros. cbn. by rewrite app_nil_r.
  - destruct C as [lucky' parts todo lock guard Hi Ha|locked todo Hi|lucky' locked st parts todo lock guard Hi Ha
      |ds locked byte st parts todo h' Es Hi Hb|locked st parts todo Hi Hst]; try done. simplify_eq.
    destruct (broadcast_spec fuel ds byte [] ds (world s) Hdev eq_refl IHr) as (h'' & E & _ & Hs & Hr').
    cbn [length] in E. rewrite E in Hb. simplify_eq. split; [done|]. intros p Hp. cbn [world history].
    destruct (Hs p Hp) as (_ & _ & _ & _ & _ & ->). rewrite (IHt p Hp), fmap_app, bind_app, <- (assoc_L (++)).
    change ([(i, byte)].*2) with [byte]. by rewrite bind_singleton.
Qed.

Definition can_step (i : nat) s : Prop := ∃ lucky s', step fuel (Some devices) threads i lucky s = Some s'.

(** A thread that has the console goes on. *)
Lemma write_can_step i t locked st parts todo s : ready fuel (present devices) (world s) → threads !! i = Some t →
  pcs s !! i = Some (Write locked st parts todo) → can_step i s.
Proof.
  intros Hr Ht Hi. unfold can_step, step. exists true. rewrite Ht. cbn. rewrite Hi. cbn. destruct st as [|byte st]; [eauto|].
  destruct (broadcast_spec fuel devices byte [] devices (world s) Hdev eq_refl Hr) as (h' & E & _).
  cbn [length] in E. rewrite E. eauto.
Qed.

(** In an exception nothing blocks. *)
Lemma exception_can_step i t p s : ready fuel (present devices) (world s) → threads !! i = Some t → in_exception t = true →
  pcs s !! i = Some p → p ≠ Idle [] → can_step i s.
Proof.
  intros Hr Ht He Hi Hp. destruct p as [[|parts todo]|locked [|st parts] todo|locked st parts todo].
  - done.
  - exists false. unfold step. rewrite Ht. cbn. rewrite Hi. cbn. rewrite He. unfold acquire. destruct (print_lock s); cbn; eauto.
  - exists false. unfold step. rewrite Ht. cbn. rewrite Hi. cbn. eauto.
  - exists false. unfold step. rewrite Ht. cbn. rewrite Hi. cbn. rewrite He. unfold acquire. destruct (serial_lock s); cbn; eauto.
  - by eapply write_can_step.
Qed.

Lemma thread_of s i p : locks_inv threads s → pcs s !! i = Some p → ∃ t, threads !! i = Some t.
Proof. intros Hl Hi. apply lookup_lt_is_Some. rewrite <- (inv_length _ _ Hl). by eapply lookup_lt_Some. Qed.

(** Whoever holds the serial lock can write, so a thread between strings finds a way. *)
Lemma format_can_step i t locked parts todo s : ready fuel (present devices) (world s) → locks_inv threads s →
  threads !! i = Some t → pcs s !! i = Some (Format locked parts todo) → ∃ j, can_step j s.
Proof.
  intros Hr Hl Ht Hi. destruct parts as [|st parts].
  - exists i, true. unfold step. rewrite Ht. cbn. rewrite Hi. cbn. eauto.
  - destruct (serial_lock s) as [j|] eqn:El.
    + exists j. apply (inv_serial _ _ Hl) in El as (q & Hj & Hq). destruct q; try done.
      destruct (thread_of s j _ Hl Hj) as [u Hu]. by eapply write_can_step.
    + exists i, true. unfold step. rewrite Ht. cbn. rewrite Hi. cbn. rewrite El. unfold acquire. rewrite andb_false_r. cbn. eauto.
Qed.

Lemma some_can_step s i p : ready fuel (present devices) (world s) → locks_inv threads s → pcs s !! i = Some p →
  p ≠ Idle [] → ∃ j, can_step j s.
Proof.
  intros Hr Hl Hi Hp. destruct (thread_of s i p Hl Hi) as [t Ht].
  destruct p as [[|parts todo]|locked parts todo|locked st parts todo]; [done| | |].
  - destruct (print_lock s) as [j|] eqn:El.
    + apply (inv_print _ _ Hl) in El as (q & Hj & Hq). destruct (thread_of s j q Hl Hj) as [u Hu].
      destruct q as [|locked' parts' todo'|locked' st' parts' todo']; [done| |].
      * by eapply format_can_step.
      * exists j. by eapply write_can_step.
    + exists i, true. unfold step. rewrite Ht. cbn. rewrite Hi. cbn. rewrite El. unfold acquire. rewrite andb_false_r. cbn. eauto.
  - by eapply format_can_step.
  - exists i. by eapply write_can_step.
Qed.
End progress.

(** ** Theorems *)

Section theorems.
Context {H : Type} `{HP : Ports H} `{HV : UartView H} `{HL : !UartLaws H}.
Implicit Types s : Console H.

(** C38: whatever the cores print, in any interleaving and with any exceptions in
    between, the bytes sent outside exceptions are whole messages one after the
    other, then a part of at most one; every thread's messages come in its order.
    When a thread is done, all of its messages are there. *)
Theorem print_whole_messages fuel devices threads (h : H) s :
  reachable fuel (Some devices) threads h s →
  ∃ order part, normal_bytes threads (history s) = (order ≫= λ x, mjoin x.2) ++ part ∧
    (part = [] ∨ ∃ i t m todo, print_lock s = Some i ∧ threads !! i = Some t ∧ in_exception t = false ∧
      prints t = msgs_of i order ++ m :: todo ∧ part `prefix_of` mjoin m) ∧
    ∀ i t, threads !! i = Some t → in_exception t = false → ∃ p, pcs s !! i = Some p ∧
      msgs_of i order `prefix_of` prints t ∧ (p = Idle [] → msgs_of i order = prints t).
Proof.
  intros Hr. destruct (reachable_merged _ _ _ _ _ Hr) as (order & part & Hm). pose proof Hm as [Hb _ Ho].
  pose proof (reachable_locks _ _ _ _ _ Hr) as Hl. exists order, part. split; [done|]. split; [by apply merged_current|].
  intros i t Ht He.
  destruct (lookup_lt_is_Some_2 (pcs s) i) as [p Hp]; [rewrite (inv_length _ _ Hl); by eapply lookup_lt_Some|].
  exists p. split; [done|]. specialize (Ho i t p Ht He Hp). unfold printed in Ho. split.
  - destruct (busy p); [destruct Ho as (m & -> & _)|rewrite Ho]; by eexists.
  - intros ->. cbn in Ho. by rewrite Ho, app_nil_r.
Qed.

(** what the ports have sent is made of whole strings, exceptions included:
    each [write_str] is sent in one piece or, in an exception that does not get the
    console, not at all.  A thread's strings keep their order, and every port sends
    the same bytes with a carriage return before each line feed. *)
Theorem print_whole_strings fuel devices threads (h : H) s :
  devices_ok (H := H) devices → ready fuel (present devices) h → reachable fuel (Some devices) threads h s →
  ∃ strings part : list (nat * list Z), (length part ≤ 1)%nat ∧
    (∀ p, p ∈ present devices → tx (uart (world s) p) = tx (uart h p) ++ ((mjoin (strings ++ part).*2) ≫= crlf)) ∧
    (∀ i x, (i, x) ∈ part → ∃ t full, threads !! i = Some t ∧ serial_lock s = Some i ∧ x `prefix_of` full ∧
      msgs_of i strings ++ [full] `sublist_of` mjoin (prints t)) ∧
    ∀ i t, threads !! i = Some t → msgs_of i strings `sublist_of` mjoin (prints t) ∧
      (in_exception t = false → msgs_of i strings `prefix_of` mjoin (prints t)).
Proof.
  intros Hd Hrd Hr. destruct (reachable_spoken _ _ _ _ _ Hr) as (strings & part & [Hh Ho]).
  destruct (reachable_sent fuel devices threads Hd h s Hrd Hr) as [_ Hs].
  exists strings, (match serial_lock s with Some i => [(i, part)] | None => [] end). split; [by destruct (serial_lock s); cbn; lia|]. split_and!.
  - intros p Hp. rewrite (Hs p Hp), Hh. do 2 f_equal.
    rewrite fmap_app, tagged_join, fmap_app, join_app. f_equal. destruct (serial_lock s); [|done].
    rewrite tagged_snd. cbn. by rewrite app_nil_r.
  - intros i x Hx. destruct (serial_lock s) as [k|] eqn:El; [|by apply not_elem_of_nil in Hx].
    apply list_elem_of_singleton in Hx. simplify_eq. pose proof (reachable_locks _ _ _ _ _ Hr) as Hl.
    apply (inv_serial _ _ Hl) in El as (p & Hi & Hp). destruct p as [| |locked st parts todo]; try done.
    destruct (thread_of threads s k _ Hl Hi) as [t Ht]. destruct (Ho k t _ Ht Hi) as (past & Ep & Hsub & _).
    exists t, (part ++ st). split_and!; [done..|by eexists|]. rewrite Ep. cbn [ahead].
    apply sublist_app; [done|]. apply sublist_skip, sublist_nil_l.
  - intros i t Ht. pose proof (reachable_locks _ _ _ _ _ Hr) as Hl.
    destruct (lookup_lt_is_Some_2 (pcs s) i) as [p Hp]; [rewrite (inv_length _ _ Hl); by eapply lookup_lt_Some|].
    destruct (Ho i t p Ht Hp) as (past & -> & Hsub & Hall). split.
    + by apply sublist_inserts_r.
    + intros He. rewrite (Hall He). by eexists.
Qed.

End theorems.

(** The bootloader's last words are sent on every port it knows. *)
Lemma boot_panic_sends {H} `{HP : Ports H} `{HV : UartView H} `{HL : !UartLaws H} fuel devices (h : H) :
  devices_ok (H := H) devices → ready fuel (present devices) h →
  boot_panic fuel None h = Done h ∧
  ∃ h', boot_panic fuel (Some devices) h = Done h' ∧
    ∀ p, p ∈ present devices → tx (uart h' p) = tx (uart h p) ++ text "PANIC in bootloader" ++ [0x0d; 0x0a].
Proof.
  intros Hd Hr. split; [done|]. destruct (write_law fuel devices (line "PANIC in bootloader") h Hd Hr) as (h' & E & _ & Hs).
  exists h'. split; [done|]. intros p Hp. by destruct (Hs p Hp) as (_ & _ & _ & _ & _ & ->).
Qed.

(** ** Two cores and an exception *)

(** Both print; core 1 takes an exception in the middle of its line. *)
Definition demo_threads : list Thread :=
  [mkThread false [[text "a"; line "b"]]; mkThread false [[line "cd"]]; mkThread true [[text "PF"]]].
Definition demo_ready : Sim.state := (mkUart 0 3 3 1 0 [] [] [] 2 [1%nat; 2%nat], mkUart 0 3 3 1 0 [] [] [0x20] 0 []).
Definition demo_devices : SerialPort := [Some 0x3f8; None; Some 0x2f8; None].

(** The steps of a schedule; a thread that spins is left out. *)
Fixpoint run_schedule {H} `{Ports H} (fuel : nat) (serial : option SerialPort) (threads : list Thread)
    (schedule : list (nat * bool)) (s : Console H) : Console H :=
  match schedule with
  | [] => s
  | (i, lucky) :: schedule => run_schedule fuel serial threads schedule (default s (step fuel serial threads i lucky s))
  end.

Lemma schedule_reachable {H} `{Ports H} fuel serial threads (h : H) schedule s : reachable fuel serial threads h s →
  reachable fuel serial threads h (run_schedule fuel serial threads schedule s).
Proof.
  revert s. induction schedule as [|[i lucky] schedule IH]; intros s Hs; [done|]. cbn. apply IH.
  destruct (step fuel serial threads i lucky s) eqn:E; [by eapply reachable_step|done].
Qed.

(** Core 1 has begun its line when the exception comes, and is preempted. *)
Definition demo_console : Console Sim.state :=
  run_schedule 4 (Some demo_devices) demo_threads [(1%nat, true); (0%nat, true); (1%nat, true); (1%nat, true); (2%nat, true)]
    (start demo_threads demo_ready).

Lemma demo_reachable : reachable 4 (Some demo_devices) demo_threads demo_ready demo_console.
Proof. apply schedule_reachable, reachable_start. Qed.

Lemma demo_devices_ok : devices_ok (H := Sim.state) demo_devices ∧ ready 4 (present demo_devices) demo_ready.
Proof.
  split; [split; [by_decide|]|]; intros p Hp; cbn in Hp;
    repeat (apply elem_of_cons in Hp as [->|Hp]); try (by apply not_elem_of_nil in Hp); try by_decide.
Qed.

(** All get through: the exception's text was dropped, the lines are whole. *)
Definition demo_rest : list (nat * bool) :=
  (λ i, (i, true)) <$> [2; 2; 2; 1; 1; 1; 1; 1; 0; 0; 0; 0; 0; 0; 0; 0; 0]%nat.

Definition demo_final : Console Sim.state := run_schedule 4 (Some demo_devices) demo_threads demo_rest demo_console.

Example print_demo : (history demo_final).*2 = line "cd" ++ text "a" ++ line "b".
Proof. by vm_compute. Qed.

Lemma print_whole_messages_witness : ∃ (order : list (nat * message)) (part : list Z),
  normal_bytes demo_threads (history demo_console) = (order ≫= λ x, mjoin x.2) ++ part.
Proof.
  destruct (print_whole_messages 4 demo_devices demo_threads demo_ready demo_console) as (order & part & E & _).
  - apply demo_reachable.
  - exists order, part. exact E.
Defined.

Lemma print_whole_strings_witness : ∃ strings part : list (nat * list Z), (length part ≤ 1)%nat ∧
  tx (uart (world demo_console) 0x2f8) = 0x20 :: ((mjoin (strings ++ part).*2) ≫= crlf).
Proof.
  destruct (print_whole_strings 4 demo_devices demo_threads demo_ready demo_console) as (strings & part & L & T & _).
  - apply demo_devices_ok.
  - apply demo_devices_ok.
  - apply demo_reachable.
  - exists strings, part. split; [exact L|]. exact (T 0x2f8 ltac:(by_decide)).
Defined.

