(* ===== verification/BuildTool.v ===== *)
(** * The build tool (src/main.rs)

    [check_install] and [main]: which commands are run and which files written, in
    order, and how every failure ends the build.  Files, directories and commands
    are the interface [Host]; what the theorems rely on of the file system, nasm
    and cargo is [HostLaws].  Paths, arguments and texts are lists of bytes.
    [flatten_pe] is that of [PeParser]. *)

From stdpp Require Import base tactics option list numbers strings.
From Stdlib Require Import ZArith Lia HexadecimalString HexadecimalN.
From S2P Require Import Prelude MachineInt Bytes PeParser.

Local Open Scope Z_scope.

Definition BOOTLOADER_BASE : Z := 0x8100.
Definition MAX_BOOTLOADER_SIZE : Z := 32 * 1024.

Definition path : Type := list Z.

(** [std::process::Command] *)
Record Command := mkCommand { program : list Z; current_dir : option path; cargs : list (list Z) }.

(** Errors as [Box<dyn Error>]: of an I/O operation, or a message *)
Inductive Error := Io | Msg (msg : string).

(** [std::fs], [std::process] and [std::path] as used; [None] is an I/O error. *)
Class Host (W : Type) := {
  sep : Z;
  output : Command → W → W * option (bool * list Z);
  status : Command → W → W * option bool;
  is_dir : path → W → bool;
  remove_dir_all : path → W → W * option unit;
  create_dir_all : path → W → W * option unit;
  canonicalize : path → W → option path;
  read : path → W → option (list Z);
  write : path → list Z → W → W * option unit;
  metadata_len : path → W → option Z;
  copy : path → path → W → W * option unit;
  print_size : Z → W → W;
}.

(** ** The standard library *)

(** A continuation byte, with the bounds that the first byte leaves *)
Definition in_range (lo hi b : Z) : bool := (lo <=? b) && (b <=? hi).

(** [std::str::from_utf8] accepts the well-formed sequences of Unicode. *)
Fixpoint utf8_valid (l : list Z) : bool :=
  match l with
  | [] => true
  | b0 :: l =>
      if b0 <? 0x80 then utf8_valid l else
      match l with
      | [] => false
      | b1 :: l =>
          if in_range 0xc2 0xdf b0 then in_range 0x80 0xbf b1 && utf8_valid l else
          match l with
          | [] => false
          | b2 :: l =>
              if in_range 0xe0 0xef b0 then
                in_range (if b0 =? 0xe0 then 0xa0 else 0x80) (if b0 =? 0xed then 0x9f else 0xbf) b1 &&
                in_range 0x80 0xbf b2 && utf8_valid l
              else
              match l with
              | [] => false
              | b3 :: l =>
                  in_range 0xf0 0xf4 b0 &&
                  in_range (if b0 =? 0xf0 then 0x90 else 0x80) (if b0 =? 0xf4 then 0x8f else 0xbf) b1 &&
                  in_range 0x80 0xbf b2 && in_range 0x80 0xbf b3 && utf8_valid l
              end
          end
      end
  end.

Definition from_utf8 (l : list Z) : option (list Z) := if utf8_valid l then Some l else None.

(** [Path::to_str] *)
Definition to_str : path → option (list Z) := from_utf8.

(** [str::contains] *)
Fixpoint contains (l x : list Z) : bool :=
  bool_decide (x `prefix_of` l) || match l with [] => false | _ :: l => contains l x end.

(** [{:#x}] *)
Definition hex (n : Z) : list Z := text "0x" ++ text (NilZero.string_of_uint (N.to_hex_uint (Z.to_N n))).

(** ** The program *)

(** A step of the program: the host, and a value, an error or a panic. *)
Definition build (W A : Type) : Type := W → outcome (W * (Error + A)).

#[export] Instance build_ret W : MRet (build W) := λ A a w, Done (w, inr a).
#[export] Instance build_bind W : MBind (build W) := λ A B f m w,
  '(w, r) ← m w;
  match r with inr a => f a w | inl e => Done (w, inl e) end.

Section tool.
Context {W : Type} `{HW : Host W}.
Implicit Types w : W.

(** [?] on an I/O result *)
Definition io {A} (f : W → W * option A) : build W A :=
  λ w, let '(w, r) := f w in Done (w, match r with Some a => inr a | None => inl Io end).
Definition io_get {A} (f : W → option A) : build W A := io (λ w, (w, f w)).

(** [return Err(msg)] and [o.ok_or(msg)?] *)
Definition fail {A} (msg : string) : build W A := λ w, Done (w, inl (Msg msg)).
Definition ok_or {A} (o : option A) (msg : string) : build W A :=
  match o with Some a => mret a | None => fail msg end.
Definition lift {A} (m : outcome A) : build W A := λ w, a ← m; Done (w, inr a).
Definition world : build W W := λ w, Done (w, inr w).

(** [Path::join] of a relative path *)
Definition slash (p : path) : path := if decide (p = [] ∨ last p = Some sep) then p else p ++ [sep].
Definition join (p : path) (name : string) : path := slash p ++ text name.

Definition check_install (command : string) (args expected : list string) w : W * option unit :=
  let '(w, result) := output (mkCommand (text command) None (text <$> args)) w in
  (w, '(success, stdout) ← result;
      if negb success then None else
      stdout ← from_utf8 stdout;
      if forallb (λ x, contains stdout (text x)) expected then Some tt else None).

Definition require (command : string) (args expected : list string) (msg : string) : build W unit :=
  λ w, let '(w, r) := check_install command args expected w in ok_or r msg w.

(** [if !Command...status()?.success() { return Err(msg) }] *)
Definition run (c : Command) (msg : string) : build W unit :=
  success ← io (status c); if success : bool then mret tt else fail msg.

Definition remove_if_dir (p : path) : build W unit :=
  w ← world; if is_dir p w then io (remove_dir_all p) else mret tt.

Definition clean : build W unit :=
  _ ← remove_if_dir (text "build");
  remove_if_dir (text "pxe").

Definition bootfile : path := join (text "build") "chocolate_milk.boot".
Definition flatfile : path := join (text "build") "chocolate_milk.flat".
Definition reinitfile : path := join (text "build") "chocolate_milk.reinit".

Definition check_tools : build W unit :=
  _ ← require "nasm" ["-v"] ["NASM version"] "nasm not present in the path";
  _ ← require "rustup" ["target"; "list"]
    ["i586-pc-windows-msvc (installed)"; "x86_64-pc-windows-msvc (installed)"]
    "rustup not present or i586-pc-windows-msvc or x86_64-pc-windows-msvc targets not installed";
  require "lld-link" ["--version"] ["LLD "] "lld-link not present in the path".

Definition make_dirs : build W unit :=
  _ ← io (create_dir_all (text "build"));
  _ ← io (create_dir_all (text "build/bootloader"));
  io (create_dir_all (text "build/kernel")).

(** nasm on asm_routines.asm *)
Definition build_asm : build W unit :=
  src ← lift (unwrap (to_str (join (join (text "bootloader") "src") "asm_routines.asm")));
  obj ← lift (unwrap (to_str (join (join (text "build") "bootloader") "asm_routines.obj")));
  run (mkCommand (text "nasm") None [text "-f"; text "win32"; text "-DPROGRAM_BASE=0x7c00"; src; text "-o"; obj])
    "Failed to build bootloader assembly routines".

(** cargo in one of the two crates *)
Definition cargo (dir : string) (target : path) (msg : string) : build W unit :=
  target ← lift (unwrap (to_str target));
  run (mkCommand (text "cargo") (Some (text dir)) [text "build"; text "--release"; text "--target-dir"; target]) msg.

(** From the build of the bootloader to its entry point *)
Definition build_bootloader : build W Z :=
  dir ← io_get (canonicalize (join (text "build") "bootloader"));
  _ ← cargo "bootloader" dir "Failed to build bootloader";
  w ← world;
  pe ← lift (flatten_pe (read (join (join (join dir "i586-pc-windows-msvc") "release") "bootloader.exe") w));
  '(entry, base, image, reinit) ← ok_or pe "Failed to flatten bootloader PE image";
  if negb (base =? BOOTLOADER_BASE) then fail "Base address for bootloader did not match expected" else
  _ ← io (write flatfile image);
  _ ← io (write reinitfile reinit);
  mret entry.

Definition build_stage0 (entry : Z) : build W unit :=
  boot ← lift (unwrap (to_str bootfile));
  stage0 ← lift (unwrap (to_str (join (join (text "bootloader") "src") "stage0.asm")));
  run (mkCommand (text "nasm") None [text "-f"; text "bin"; text "-Dentry_point=" ++ hex entry; text "-o"; boot; stage0])
    "Failed to assemble stage0".

Definition check_size : build W unit :=
  bl_size ← io_get (metadata_len bootfile);
  _ ← io (λ w, (print_size bl_size w, Some tt));
  if MAX_BOOTLOADER_SIZE <? bl_size then fail "Bootloader size is too large" else mret tt.

Definition build_kernel : build W path :=
  dir ← io_get (canonicalize (join (text "build") "kernel"));
  let kernel_exe := join (join (join dir "x86_64-pc-windows-msvc") "release") "kernel.exe" in
  _ ← cargo "kernel" dir "Failed to kernel";
  mret kernel_exe.

Definition deploy (kernel_exe : path) : build W unit :=
  _ ← io (create_dir_all (text "pxe"));
  _ ← io (copy bootfile (join (text "pxe") "chocolate_milk.boot"));
  io (copy kernel_exe (join (text "pxe") "chocolate_milk.kern")).

(** [main]; [args] is [std::env::args()]. *)
Definition main (args : list (list Z)) : build W unit :=
  if (length args =? 2)%nat && bool_decide (args !! 1%nat = Some (text "clean")) then clean else
  _ ← check_tools;
  _ ← make_dirs;
  _ ← build_asm;
  entry ← build_bootloader;
  _ ← build_stage0 entry;
  _ ← check_size;
  kernel_exe ← build_kernel;
  deploy kernel_exe.
End tool.

(** ** What the build relies on *)

Definition under {W} `{Host W} (dir q : path) : Prop := ∃ r, q = dir ++ sep :: r.

Definition query (c : Command) : Prop :=
  cargs c ∈ [[text "-v"]; [text "target"; text "list"]; [text "--version"]].

(** Files by their full names, in a working directory without symbolic links; nasm
    writes its output file, cargo its target directory and the crate's lock file. *)
Class HostLaws (W : Type) `{HW : Host W} := {
  file : W → path → option (list Z);
  cwd : path;
  abs : path → path;
  sep_law : sep = 0x2f ∨ sep = 0x5c;
  abs_rel name : name ∈ ["build"; "pxe"; "kernel"; "bootloader"]%string → abs (text name) = join cwd name;
  abs_join p name : p ≠ [] → abs (join p name) = join (abs p) name;
  abs_idem p : abs (abs p) = abs p;
  canonicalize_law p q w : canonicalize p w = Some q → q = abs p;
  file_law w q b : file w q = Some b → bytes_ok b ∧ Z.of_nat (length b) < 2 ^ 63;
  read_law p w : read p w = file w (abs p);
  metadata_law p n w : metadata_len p w = Some n → ∃ b, file w (abs p) = Some b ∧ n = Z.of_nat (length b);
  write_law p b w w' : write p b w = (w', Some tt) →
    file w' (abs p) = Some b ∧ ∀ q, q ≠ abs p → file w' q = file w q;
  write_fails p b w w' : write p b w = (w', None) → ∀ q, q ≠ abs p → file w' q = file w q;
  copy_law p d w w' : copy p d w = (w', Some tt) →
    ∃ b, file w (abs p) = Some b ∧ file w' (abs d) = Some b ∧ ∀ q, q ≠ abs d → file w' q = file w q;
  create_law p w w' r : create_dir_all p w = (w', r) → file w' = file w;
  print_law n w : file (print_size n w) = file w;
  remove_law p w w' : remove_dir_all p w = (w', Some tt) →
    is_dir p w' = false ∧ ∀ q, is_dir q w' = true → is_dir q w = true;
  output_law c w w' r : query c → output c w = (w', r) → file w' = file w;
  nasm_law c pre out post w w' r : program c = text "nasm" → text "-o" ∉ pre → cargs c = pre ++ text "-o" :: out :: post →
    status c w = (w', r) → ∀ q, q ≠ abs out → file w' q = file w q;
  cargo_law c dir target w w' r : program c = text "cargo" → current_dir c = Some dir →
    cargs c = [text "build"; text "--release"; text "--target-dir"; target] → status c w = (w', r) →
    ∀ q, ~ under (abs target) q → ~ under (abs dir) q → file w' q = file w q;
}.

(** ** Steps and files *)

Section steps.
Context {W : Type} `{HL : HostLaws W}.
Implicit Types w : W.

(** Files in [Q] are as before, whatever the result. *)
Definition keeps {A} (Q : path → Prop) (m : build W A) : Prop :=
  ∀ w w' r, m w = Done (w', r) → ∀ q, Q q → file w' q = file w q.

Lemma build_bind_inr {A B} (m : build W A) (f : A → build W B) w w' b :
  (m ≫= f) w = Done (w', inr b) → ∃ w1 a, m w = Done (w1, inr a) ∧ f a w1 = Done (w', inr b).
Proof. unfold mbind, build_bind. intros ([w1 [e|a]] & E & E')%bind_Done; [done|]. eauto. Qed.

Lemma keeps_bind {A B} Q (m : build W A) (f : A → build W B) : keeps Q m → (∀ a, keeps Q (f a)) → keeps Q (m ≫= f).
Proof.
  intros Hm Hf w w' r. unfold mbind, build_bind. intros ([w1 [e|a]] & E & E')%bind_Done q Hq.
  - apply Done_pair_inj in E' as [<- _]. by eapply Hm.
  - by rewrite (Hf a _ _ _ E' q Hq), (Hm _ _ _ E q Hq).
Qed.

Lemma keeps_ret {A} Q (a : A) : keeps Q (mret a).
Proof. by intros w w' r [<- _]%Done_pair_inj. Qed.
Lemma keeps_fail {A} Q msg : keeps Q (fail (A := A) msg).
Proof. by intros w w' r [<- _]%Done_pair_inj. Qed.
Lemma keeps_ok_or {A} Q (o : option A) msg : keeps Q (ok_or o msg).
Proof. destruct o; [apply keeps_ret|apply keeps_fail]. Qed.
Lemma keeps_lift {A} Q (m : outcome A) : keeps Q (lift m).
Proof. by intros w w' r (a & _ & [<- _]%Done_pair_inj)%bind_Done. Qed.
Lemma keeps_world Q : keeps Q world.
Proof. by intros w w' r [<- _]%Done_pair_inj. Qed.

Lemma keeps_io {A} Q (f : W → W * option A) :
  (∀ w w' r, f w = (w', r) → ∀ q, Q q → file w' q = file w q) → keeps Q (io f).
Proof. intros Hf w w' r. unfold io. destruct (f w) as [w1 r1] eqn:E. intros [<- _]%Done_pair_inj. by eapply Hf. Qed.
Lemma keeps_io_get {A} Q (f : W → option A) : keeps Q (io_get f).
Proof. by apply keeps_io; intros w w' r [= <- _]. Qed.
Lemma keeps_create Q p : keeps Q (io (create_dir_all p)).
Proof. apply keeps_io. intros w w' r E q _. by rewrite (create_law _ _ _ _ E). Qed.
Lemma keeps_write (Q : path → Prop) p b : ~ Q (abs p) → keeps Q (io (write p b)).
Proof.
  intros Hq. apply keeps_io. intros w w' [[]|] E q Hin; (assert (q ≠ abs p) by (by intros ->)).
  - by apply (write_law _ _ _ _ E).
  - by apply (write_fails _ _ _ _ E).
Qed.

Lemma keeps_run (Q : path → Prop) c msg :
  (∀ w w' r, status c w = (w', r) → ∀ q, Q q → file w' q = file w q) → keeps Q (run c msg).
Proof. intros Hc. apply keeps_bind; [by apply keeps_io|]. intros []; [apply keeps_ret|apply keeps_fail]. Qed.

Lemma keeps_require Q command args expected msg : query (mkCommand (text command) None (text <$> args)) →
  keeps Q (require command args expected msg).
Proof.
  intros Hc w w' r. unfold require, check_install. destruct (output _ w) as [w1 res] eqn:E. intros E' q Hq.
  rewrite (keeps_ok_or Q _ _ _ _ _ E' q Hq). by rewrite (output_law _ _ _ _ Hc E).
Qed.

Create HintDb keeps discriminated.
Hint Resolve keeps_ret keeps_fail keeps_ok_or keeps_lift keeps_world keeps_io_get keeps_create : keeps.

Lemma keeps_check_tools Q : keeps Q check_tools.
Proof.
  apply keeps_bind; [apply keeps_require; by_decide|intros _].
  apply keeps_bind; [apply keeps_require; by_decide|intros _]. apply keeps_require. by_decide.
Qed.

Lemma keeps_make_dirs Q : keeps Q make_dirs.
Proof. repeat (apply keeps_bind; [auto with keeps|intros _]). auto with keeps. Qed.

Lemma keeps_check_size Q : keeps Q check_size.
Proof.
  apply keeps_bind; [auto with keeps|intros n]. apply keeps_bind; [|intros _; case_match; auto with keeps].
  apply keeps_io. intros w w' r [= <- _] q _. by rewrite print_law.
Qed.

Lemma lift_inv {A} (m : outcome A) w w' r : lift m w = Done (w', r) → w' = w ∧ ∃ a, m = Done a ∧ r = inr a.
Proof. unfold lift. intros (a & E & [<- <-]%Done_pair_inj)%bind_Done. eauto. Qed.

Lemma to_str_inv p w w' r : lift (unwrap (to_str p)) w = Done (w', r) → w' = w ∧ r = inr p.
Proof.
  intros (-> & a & E & ->)%lift_inv. split; [done|]. apply unwrap_Done in E. unfold to_str, from_utf8 in E.
  by destruct (utf8_valid p); simplify_eq.
Qed.

(** A path that is passed to a command *)
Lemma keeps_to_str {A} Q p (f : path → build W A) : keeps Q (f p) → keeps Q (x ← lift (unwrap (to_str p)); f x).
Proof.
  intros Hf w w' r. unfold mbind, build_bind. intros ([w1 r1] & E1 & E2)%bind_Done. apply to_str_inv in E1 as [-> ->].
  by eapply Hf.
Qed.

Lemma keeps_build_asm (Q : path → Prop) :
  ~ Q (abs (join (join (text "build") "bootloader") "asm_routines.obj")) → keeps Q build_asm.
Proof.
  intros Hq. apply keeps_to_str, keeps_to_str, keeps_run. intros w w' r E q Hin.
  eapply (nasm_law _ [text "-f"; text "win32"; text "-DPROGRAM_BASE=0x7c00"; _] _ [] w w' r); [| | |exact E|];
    [done| |done|by intros ->].
  rewrite !not_elem_of_cons. split_and!; [done..| |apply not_elem_of_nil].
  intros Ej. unfold join, slash in Ej. repeat case_decide; discriminate.
Qed.

Lemma keeps_build_stage0 (Q : path → Prop) entry : ~ Q (abs bootfile) → keeps Q (build_stage0 entry).
Proof.
  intros Hq. apply keeps_to_str, keeps_to_str, keeps_run. intros w w' r E q Hin.
  eapply (nasm_law _ [text "-f"; text "bin"; _] _ [_] w w' r); [| | |exact E|]; [done| |done|by intros ->].
  rewrite !not_elem_of_cons. split_and!; [done..|apply not_elem_of_nil].
Qed.

Lemma keeps_cargo (Q : path → Prop) dir target msg :
  (∀ q, Q q → ~ under (abs target) q ∧ ~ under (abs (text dir)) q) → keeps Q (cargo dir target msg).
Proof.
  intros Hq. apply keeps_to_str, keeps_run. intros w w' r E q [??]%Hq.
  eapply (cargo_law _ (text dir) target w w' r); [| | |exact E|done|done]; done.
Qed.
End steps.

(** ** Names *)

(** A path below the working directory, by its components. *)
Fixpoint separated (s : Z) (comps : list string) : list Z :=
  match comps with
  | [] => []
  | [x] => text x
  | x :: comps => text x ++ s :: separated s comps
  end.

(** The last character is not a separator of either kind. *)
Definition name_ok (name : string) : bool :=
  match last (text name) with Some c => negb (c =? 0x2f) && negb (c =? 0x5c) | None => false end.

Section names.
Context {W : Type} `{HL : HostLaws W}.

Definition full (comps : list string) : path := slash cwd ++ separated sep comps.

Lemma separated_snoc s comps name : comps ≠ [] → separated s (comps ++ [name]) = separated s comps ++ s :: text name.
Proof.
  intros Hne. induction comps as [|x comps IH]; [done|]. destruct comps as [|y comps]; [done|].
  change ((x :: y :: comps) ++ [name]) with (x :: (y :: comps) ++ [name]).
  change (separated s (x :: (y :: comps) ++ [name])) with (text x ++ s :: separated s ((y :: comps) ++ [name])).
  rewrite IH by done. cbn [separated]. by rewrite <- (assoc_L (++)).
Qed.

Lemma join_full comps name n : name_ok n = true → join (full (comps ++ [n])) name = full ((comps ++ [n]) ++ [name]).
Proof.
  intros Hn. unfold join, full. rewrite (separated_snoc sep (comps ++ [n]) name) by (by destruct comps).
  unfold slash at 1. unfold name_ok in Hn.
  assert (last (slash cwd ++ separated sep (comps ++ [n])) = last (text n)) as E.
  { destruct (text n) as [|c l] eqn:En using rev_ind; [done|]. clear IHl. destruct comps as [|x comps].
    - cbn. rewrite En, (assoc_L (++)). by rewrite !last_snoc.
    - rewrite separated_snoc, En by done.
      replace (slash cwd ++ separated sep (x :: comps) ++ sep :: l ++ [c])
        with ((slash cwd ++ separated sep (x :: comps) ++ sep :: l) ++ [c]) by (by rewrite <- !(assoc_L (++))).
      by rewrite !last_snoc. }
  rewrite decide_False; [by rewrite <- !(assoc_L (++))|]. intros [Hl|Hl].
  - rewrite Hl in E. by rewrite <- E in Hn.
  - rewrite E in Hl. rewrite Hl in Hn. destruct sep_law as [Es|Es]; rewrite Es in Hn; discriminate.
Qed.

Lemma abs_full dir : dir ∈ ["build"; "pxe"; "kernel"; "bootloader"]%string → abs (text dir) = full [dir].
Proof. intros Hd. by rewrite abs_rel. Qed.

Lemma abs_join_full p comps n name : p ≠ [] → name_ok n = true → abs p = full (comps ++ [n]) →
  abs (join p name) = full ((comps ++ [n]) ++ [name]).
Proof. intros Hne Hn Hp. by rewrite abs_join, Hp, join_full. Qed.

Lemma join_ne p name : p ≠ [] → join p name ≠ [].
Proof. unfold join, slash. intros Hp. destruct p; [done|]. by destruct (decide _). Qed.

(** Different literal names, and names outside a directory, by evaluation. *)
Lemma full_ne a b : separated 0x2f a ≠ separated 0x2f b → separated 0x5c a ≠ separated 0x5c b → full a ≠ full b.
Proof. intros H1 H2 E%app_inv_head. destruct sep_law as [Es|Es]; rewrite Es in E; done. Qed.

Lemma not_under a b : ~ (separated 0x2f a ++ [0x2f]) `prefix_of` separated 0x2f b →
  ~ (separated 0x5c a ++ [0x5c]) `prefix_of` separated 0x5c b → ~ under (full a) (full b).
Proof.
  intros H1 H2 [r E]. unfold full in E. rewrite <- (assoc_L (++)) in E. apply app_inv_head in E.
  destruct sep_law as [Es|Es]; rewrite Es in E; [apply H1|apply H2]; exists r; by rewrite <- (assoc_L (++)).
Qed.

Definition boot_name : path := full ["build"; "chocolate_milk.boot"].
Definition flat_name : path := full ["build"; "chocolate_milk.flat"].
Definition reinit_name : path := full ["build"; "chocolate_milk.reinit"].
Definition obj_name : path := full ["build"; "bootloader"; "asm_routines.obj"].
Definition exe_name : path := full ["build"; "bootloader"; "i586-pc-windows-msvc"; "release"; "bootloader.exe"].
Definition kern_name : path := full ["build"; "kernel"; "x86_64-pc-windows-msvc"; "release"; "kernel.exe"].
Definition pxe_boot : path := full ["pxe"; "chocolate_milk.boot"].
Definition pxe_kern : path := full ["pxe"; "chocolate_milk.kern"].

Lemma abs_build name : abs (join (text "build") name) = full ["build"%string; name].
Proof. apply (abs_join_full _ [] "build"); [done..|]. apply abs_full. by_decide. Qed.
Lemma abs_pxe name : abs (join (text "pxe") name) = full ["pxe"%string; name].
Proof. apply (abs_join_full _ [] "pxe"); [done..|]. apply abs_full. by_decide. Qed.
Lemma abs_obj : abs (join (join (text "build") "bootloader") "asm_routines.obj") = obj_name.
Proof. apply (abs_join_full _ ["build"%string] "bootloader"); [by apply join_ne|done|apply abs_build]. Qed.

(** The directory [canonicalize] gives, and the file three levels below *)
Lemma canonical_build name dir w : canonicalize (join (text "build") name) w = Some dir →
  dir = full ["build"%string; name] ∧ abs dir = dir.
Proof. intros ->%canonicalize_law. rewrite abs_idem, abs_build. done. Qed.

Lemma abs_target name target exe : name_ok name = true → name_ok target = true →
  abs (full ["build"%string; name]) = full ["build"%string; name] →
  abs (join (join (join (full ["build"%string; name]) target) "release") exe) =
    full ["build"%string; name; target; "release"%string; exe].
Proof.
  intros Hn Ht Ha. assert (full ["build"%string; name] ≠ []) as Hne by (by unfold full; intros [_ ?]%app_nil).
  apply (abs_join_full _ ["build"%string; name; target] "release"); [by do 2 apply join_ne|done|].
  apply (abs_join_full _ ["build"%string; name] target); [by apply join_ne|done|].
  by apply (abs_join_full _ ["build"%string] name).
Qed.
End names.

(** ** The whole build *)

Section whole.
Context {W : Type} `{HL : HostLaws W}.
Implicit Types w : W.

Lemma io_inv {A} (f : W → W * option A) w w' a : io f w = Done (w', inr a) → f w = (w', Some a).
Proof. unfold io. destruct (f w) as [w1 [x|]]; intros [??]%Done_pair_inj; by simplify_eq. Qed.
Lemma io_get_inv {A} (f : W → option A) w w' a : io_get f w = Done (w', inr a) → w' = w ∧ f w = Some a.
Proof. unfold io_get. intros E%io_inv. by injection E. Qed.
Lemma world_inv w w' x : world w = Done (w', inr x) → w' = w ∧ x = w.
Proof. intros [??]%Done_pair_inj. by simplify_eq. Qed.
Lemma ok_or_inv {A} (o : option A) msg w w' a : ok_or o msg w = Done (w', inr a) → w' = w ∧ o = Some a.
Proof. destruct o; intros [??]%Done_pair_inj; by simplify_eq. Qed.

(** What the bootloader's build leaves *)
Definition bootloader_built (entry : Z) w : Prop :=
  ∃ exe image reinit, file w exe_name = Some exe ∧
    flatten_pe (Some exe) = Done (Some (entry, BOOTLOADER_BASE, image, reinit)) ∧
    file w flat_name = Some image ∧ file w reinit_name = Some reinit.

Lemma build_bootloader_ok w w' entry : build_bootloader w = Done (w', inr entry) → bootloader_built entry w'.
Proof.
  unfold build_bootloader. intros (w1 & dir & [-> [Ed Ea]%canonical_build]%io_get_inv & E)%build_bind_inr. subst dir.
  apply build_bind_inr in E as (w2 & [] & _ & E).
  apply build_bind_inr in E as (w3 & w4 & [-> ->]%world_inv & E).
  apply build_bind_inr in E as (w3 & pe & (-> & pe' & Epe & [= ->])%lift_inv & E).
  apply build_bind_inr in E as (w3 & [[[entry' base] image] reinit] & [-> ->]%ok_or_inv & E).
  destruct (base =? BOOTLOADER_BASE) eqn:Eb; cbn [negb] in E; [|by apply Done_pair_inj in E as [_ ?]].
  apply Z.eqb_eq in Eb as ->.
  apply build_bind_inr in E as (w3 & [] & E3%io_inv & E). apply write_law in E3 as [F3 K3].
  apply build_bind_inr in E as (w4 & [] & E4%io_inv & E). apply write_law in E4 as [F4 K4].
  apply Done_pair_inj in E as [<- [= ->]].
  unfold flatfile in F3, K3. unfold reinitfile in F4, K4. rewrite abs_build in F3, K3, F4, K4.
  fold flat_name reinit_name in *.
  rewrite read_law, abs_target in Epe by done. fold exe_name in Epe.
  destruct (file w2 exe_name) as [exe|] eqn:Ee; [|by apply Done_inj in Epe].
  exists exe, image, reinit. split_and!; [|done| |done].
  - rewrite K4, K3 by (apply full_ne; by_decide). done.
  - rewrite K4 by (apply full_ne; by_decide). done.
Qed.

Lemma built_keeps {A} (m : build W A) entry w w' r :
  keeps (λ q, q = exe_name ∨ q = flat_name ∨ q = reinit_name) m → m w = Done (w', r) →
  bootloader_built entry w → bootloader_built entry w'.
Proof.
  intros Hk E (exe & image & reinit & H1 & H2 & H3 & H4). exists exe, image, reinit.
  rewrite !(Hk w w' r E) by naive_solver. done.
Qed.

Lemma check_size_ok w w' : check_size w = Done (w', inr tt) →
  ∃ boot, file w' boot_name = Some boot ∧ Z.of_nat (length boot) ≤ MAX_BOOTLOADER_SIZE.
Proof.
  unfold check_size. intros (w1 & n & [-> (b & Eb & ->)%metadata_law]%io_get_inv & E)%build_bind_inr.
  apply build_bind_inr in E as (w2 & [] & E2%io_inv & E). injection E2 as <-.
  destruct (MAX_BOOTLOADER_SIZE <? Z.of_nat (length b)) eqn:El; [by apply Done_pair_inj in E as [_ ?]|].
  apply Done_pair_inj in E as [<- _]. exists b. rewrite print_law. unfold bootfile in Eb. rewrite abs_build in Eb.
  split; [done|]. by apply Z.ltb_ge in El.
Qed.

Lemma kernel_target w dir : canonicalize (join (text "build") "kernel") w = Some dir →
  dir = full ["build"; "kernel"]%string ∧ abs dir = dir ∧
  abs (join (join (join dir "x86_64-pc-windows-msvc") "release") "kernel.exe") = kern_name.
Proof. intros [-> Ea]%canonical_build. split; [done|]. split; [done|]. by apply abs_target. Qed.

(** The kernel's build touches nothing else below [build]. *)
Lemma keeps_build_kernel (Q : path → Prop) :
  (∀ q, Q q → ~ under (full ["build"; "kernel"]%string) q ∧ ~ under (full ["kernel"]%string) q) → keeps Q build_kernel.
Proof.
  intros Hq w w' r. unfold build_kernel, mbind, build_bind. intros ([w1 r1] & E1 & E)%bind_Done.
  unfold io_get, io in E1. apply Done_pair_inj in E1 as [<- <-].
  destruct (canonicalize (join (text "build") "kernel") w) as [dir|] eqn:Ec; [|by apply Done_pair_inj in E as [<- _]].
  apply kernel_target in Ec as (-> & Ea & _).
  refine (keeps_bind Q (cargo "kernel" _ _) (λ _, mret _) _ _ w w' r E); [|intros; apply keeps_ret].
  apply keeps_cargo. intros q Hin. rewrite Ea, abs_full by by_decide. by apply Hq.
Qed.

Lemma build_kernel_ok w w' kernel_exe : build_kernel w = Done (w', inr kernel_exe) → abs kernel_exe = kern_name.
Proof.
  unfold build_kernel. intros (w1 & dir & [-> (_ & _ & Ek)%kernel_target]%io_get_inv & E)%build_bind_inr.
  cbn zeta in E. apply build_bind_inr in E as (w2 & [] & _ & E). by apply Done_pair_inj in E as [_ [= <-]].
Qed.

Lemma deploy_ok kernel_exe w w' : abs kernel_exe = kern_name → deploy kernel_exe w = Done (w', inr tt) →
  ∃ boot kern, file w boot_name = Some boot ∧ file w kern_name = Some kern ∧
    file w' pxe_boot = Some boot ∧ file w' pxe_kern = Some kern ∧
    ∀ q, q ≠ pxe_boot → q ≠ pxe_kern → file w' q = file w q.
Proof.
  intros Hk. unfold deploy. intros (w1 & [] & E1%io_inv%create_law & E)%build_bind_inr.
  apply build_bind_inr in E as (w2 & [] & E2%io_inv & E3%io_inv).
  apply copy_law in E2 as (boot & B1 & B2 & B3). apply copy_law in E3 as (kern & K1 & K2 & K3).
  unfold bootfile in B1. rewrite abs_build in B1. rewrite abs_pxe in *. rewrite Hk in *. fold boot_name pxe_boot pxe_kern in *.
  exists boot, kern. rewrite E1 in *. split_and!.
  - done.
  - rewrite <- K1. symmetry. apply B3. apply full_ne; by_decide.
  - rewrite K3; [done|]. apply full_ne; by_decide.
  - done.
  - intros q H1 H2. by rewrite K3, B3.
Qed.

(** What was built is not in the way of what comes later. *)
Lemma built_names q : q = exe_name ∨ q = flat_name ∨ q = reinit_name →
  q ≠ boot_name ∧ (~ under (full ["build"; "kernel"]%string) q ∧ ~ under (full ["kernel"]%string) q) ∧
  q ≠ pxe_boot ∧ q ≠ pxe_kern.
Proof. intros [->|[->| ->]]; split_and!; (apply full_ne || apply not_under); by_decide. Qed.

Definition is_clean (args : list (list Z)) : bool :=
  (length args =? 2)%nat && bool_decide (args !! 1%nat = Some (text "clean")).

Lemma main_deploys args w w' : is_clean args = false → main args w = Done (w', inr tt) →
  ∃ entry boot kern, bootloader_built entry w' ∧
    file w' boot_name = Some boot ∧ Z.of_nat (length boot) ≤ MAX_BOOTLOADER_SIZE ∧ file w' pxe_boot = Some boot ∧
    file w' kern_name = Some kern ∧ file w' pxe_kern = Some kern.
Proof.
  unfold main. fold (is_clean args). intros -> E. do 3 apply build_bind_inr in E as (? & [] & _ & E).
  apply build_bind_inr in E as (w1 & entry & B1%build_bootloader_ok & E).
  apply build_bind_inr in E as (w2 & [] & E2 & E).
  apply (built_keeps _ entry) in E2 as B2; [|apply keeps_build_stage0; unfold bootfile; rewrite abs_build; intros ?%built_names; naive_solver|done].
  apply build_bind_inr in E as (w3 & [] & E3 & E).
  apply (built_keeps _ entry) in E3 as B3; [|apply keeps_check_size|done].
  apply check_size_ok in E3 as (boot & Hb & Hlen).
  apply build_bind_inr in E as (w4 & kernel_exe & E4 & E).
  apply (built_keeps _ entry) in E4 as B4; [|apply keeps_build_kernel; intros q ?%built_names; naive_solver|done].
  assert (file w4 boot_name = Some boot) as Hb4.
  { rewrite <- Hb. refine (keeps_build_kernel (eq boot_name) _ _ _ _ E4 _ eq_refl). intros q <-.
    split; apply not_under; by_decide. }
  apply build_kernel_ok in E4. apply deploy_ok in E as (boot' & kern & D1 & D2 & D3 & D4 & D5); [|done].
  rewrite Hb4 in D1. injection D1 as <-. exists entry, boot, kern. split_and!; try done.
  - destruct B4 as (exe & image & reinit & H1 & H2 & H3 & H4). exists exe, image, reinit.
    rewrite !D5 by (apply built_names; naive_solver). done.
  - rewrite D5 by (apply full_ne; by_decide). done.
  - rewrite D5 by (apply full_ne; by_decide). done.
Qed.
End whole.

(** ** Failures *)

Section failures.
Context {W : Type} `{HL : HostLaws W}.
Implicit Types w : W.

(** A step that gives up with a message has left the files in [Q] alone. *)
Definition gives_up {A} (Q : path → Prop) (m : build W A) : Prop :=
  ∀ w w' msg, m w = Done (w', inl (Msg msg)) → ∀ q, Q q → file w' q = file w q.

Lemma gives_up_bind {A B} Q (m : build W A) (f : A → build W B) :
  keeps Q m → (∀ a, gives_up Q (f a)) → gives_up Q (m ≫= f).
Proof.
  intros Hm Hf w w' msg. unfold mbind, build_bind. intros ([w1 [e|a]] & E & E')%bind_Done q Hq.
  - apply Done_pair_inj in E' as [<- _]. by eapply Hm.
  - by rewrite (Hf a _ _ _ E' q Hq), (Hm _ _ _ E q Hq).
Qed.

(** Copying fails with an I/O error only. *)
Lemma gives_up_deploy Q kernel_exe : gives_up Q (deploy kernel_exe).
Proof.
  intros w w' msg. unfold deploy, mbind, build_bind, io.
  destruct (create_dir_all _ w) as [w1 [[]|]]; cbn; [|by intros [_ ?]%Done_pair_inj].
  destruct (copy _ _ w1) as [w2 [[]|]]; cbn; [|by intros [_ ?]%Done_pair_inj].
  destruct (copy _ _ w2) as [w3 [[]|]]; cbn; by intros [_ ?]%Done_pair_inj.
Qed.

Definition deployed (q : path) : Prop := q = pxe_boot ∨ q = pxe_kern.

Lemma keeps_build_bootloader : keeps deployed build_bootloader.
Proof.
  intros w w' r. unfold build_bootloader. unfold mbind at 1, build_bind at 1. intros ([w1 r1] & E1 & E)%bind_Done.
  unfold io_get, io in E1. apply Done_pair_inj in E1 as [<- <-].
  destruct (canonicalize (join (text "build") "bootloader") w) as [dir|] eqn:Ec; [|by apply Done_pair_inj in E as [<- _]].
  apply canonical_build in Ec as [-> Ea]. revert w w' r E. change (keeps deployed (
    _ ← cargo "bootloader" (full ["build"; "bootloader"]%string) "Failed to build bootloader";
    w ← world;
    pe ← lift (flatten_pe (read (join (join (join (full ["build"; "bootloader"]%string) "i586-pc-windows-msvc") "release") "bootloader.exe") w));
    '(entry, base, image, reinit) ← ok_or pe "Failed to flatten bootloader PE image";
    if negb (base =? BOOTLOADER_BASE) then fail "Base address for bootloader did not match expected" else
    _ ← io (write flatfile image);
    _ ← io (write reinitfile reinit);
    mret entry)).
  assert (∀ name, abs (join (text "build") name) ≠ pxe_boot ∧ abs (join (text "build") name) ≠ pxe_kern) as Hne.
  { intros name. rewrite abs_build. unfold full. split; intros Eq%app_inv_head; discriminate. }
  apply keeps_bind; [|intros _].
  { apply keeps_cargo. intros q Hq. rewrite Ea, abs_full by by_decide. destruct Hq as [->| ->]; split; apply not_under; by_decide. }
  apply keeps_bind; [apply keeps_world|intros w]. apply keeps_bind; [apply keeps_lift|intros pe].
  apply keeps_bind; [apply keeps_ok_or|intros [[[entry base] image] reinit]].
  destruct (negb _); [apply keeps_fail|].
  apply keeps_bind; [apply keeps_write; unfold flatfile, deployed; specialize (Hne "chocolate_milk.flat"%string); naive_solver|intros _].
  apply keeps_bind; [apply keeps_write; unfold reinitfile, deployed; specialize (Hne "chocolate_milk.reinit"%string); naive_solver|intros _].
  apply keeps_ret.
Qed.

Lemma gives_up_main args : is_clean args = false → gives_up deployed (main args).
Proof.
  unfold main. fold (is_clean args). intros ->.
  apply gives_up_bind; [apply keeps_check_tools|intros _]. apply gives_up_bind; [apply keeps_make_dirs|intros _].
  apply gives_up_bind; [|intros _].
  { apply keeps_build_asm. rewrite abs_obj. intros [E|E]; revert E; apply full_ne; by_decide. }
  apply gives_up_bind; [apply keeps_build_bootloader|intros entry].
  apply gives_up_bind; [|intros _].
  { apply keeps_build_stage0. unfold bootfile. rewrite abs_build. intros [E|E]; revert E; apply full_ne; by_decide. }
  apply gives_up_bind; [apply keeps_check_size|intros _].
  apply gives_up_bind; [|intros kernel_exe; apply gives_up_deploy].
  apply keeps_build_kernel. intros q [->| ->]; split; apply not_under; by_decide.
Qed.

(** ** No panics *)

Definition comes_back {A} (m : build W A) : Prop := ∀ w, ∃ w' r, m w = Done (w', r).

Lemma comes_back_bind {A B} (m : build W A) (f : A → build W B) :
  comes_back m → (∀ w w' a, m w = Done (w', inr a) → ∃ w'' r, f a w' = Done (w'', r)) → comes_back (m ≫= f).
Proof.
  intros Hm Hf w. unfold mbind, build_bind. destruct (Hm w) as (w1 & [e|a] & E); rewrite E; cbn; [eauto|]. by apply Hf in E.
Qed.

Lemma comes_back_then {A B} (m : build W A) (f : A → build W B) :
  comes_back m → (∀ a, comes_back (f a)) → comes_back (m ≫= f).
Proof. intros Hm Hf. apply comes_back_bind; [done|]. intros w w' a _. apply Hf. Qed.

Lemma comes_back_ret {A} (a : A) : comes_back (mret a).
Proof. intros w. by eexists _, _. Qed.
Lemma comes_back_fail {A} msg : comes_back (fail (A := A) msg).
Proof. intros w. by eexists _, _. Qed.
Lemma comes_back_ok_or {A} (o : option A) msg : comes_back (ok_or o msg).
Proof. destruct o; [apply comes_back_ret|apply comes_back_fail]. Qed.
Lemma comes_back_io {A} (f : W → W * option A) : comes_back (io f).
Proof. intros w. unfold io. destruct (f w). by eexists _, _. Qed.
Lemma comes_back_world : comes_back world.
Proof. intros w. by eexists _, _. Qed.
Lemma comes_back_require command args expected msg : comes_back (require command args expected msg).
Proof. intros w. unfold require. destruct (check_install _ _ _ w). apply comes_back_ok_or. Qed.
Lemma comes_back_run c msg : comes_back (run c msg).
Proof. apply comes_back_then; [apply comes_back_io|]. intros []; [apply comes_back_ret|apply comes_back_fail]. Qed.
Lemma comes_back_if_dir p : comes_back (remove_if_dir p).
Proof. apply comes_back_then; [apply comes_back_world|]. intros w. case_match; [apply comes_back_io|apply comes_back_ret]. Qed.

Create HintDb comes_back discriminated.
Hint Resolve comes_back_ret comes_back_fail comes_back_ok_or comes_back_io comes_back_world comes_back_require
  comes_back_run comes_back_if_dir : comes_back.

(** A path that is text goes through [to_str]. *)
Lemma comes_back_to_str {A} p (f : path → build W A) : utf8_valid p = true → comes_back (f p) →
  comes_back (x ← lift (unwrap (to_str p)); f x).
Proof.
  intros Hp Hf w. unfold mbind, build_bind, lift, unwrap, to_str, from_utf8. rewrite Hp. apply Hf.
Qed.

(** A literal path is text, with either separator. *)
Ltac literal_path :=
  unfold bootfile, join, slash; destruct sep_law as [Es|Es]; rewrite ?Es; repeat case_decide; vm_compute; reflexivity.

Lemma comes_back_asm : comes_back build_asm.
Proof. apply comes_back_to_str; [literal_path|]. apply comes_back_to_str; [literal_path|]. auto with comes_back. Qed.

Lemma comes_back_stage0 entry : comes_back (build_stage0 entry).
Proof. apply comes_back_to_str; [literal_path|]. apply comes_back_to_str; [literal_path|]. auto with comes_back. Qed.

Lemma comes_back_cargo dir target msg : utf8_valid target = true → comes_back (cargo dir target msg).
Proof. intros Ht. apply comes_back_to_str; [done|]. auto with comes_back. Qed.

(** [flatten_pe] does not panic on any file. *)
Lemma flatten_returns p w : ∃ r, flatten_pe (read p w) = Done r.
Proof.
  rewrite read_law. destruct (file w (abs p)) as [exe|] eqn:E; [|by eexists].
  apply file_law in E as [Hb Hl]. destruct (flatten_correct exe Hb Hl) as (r & Hr & _). eauto.
Qed.

Lemma comes_back_bootloader : utf8_valid (full ["build"; "bootloader"]%string) = true → comes_back build_bootloader.
Proof.
  intros Hu. apply comes_back_bind; [apply comes_back_io|]. intros w w' dir [-> [-> _]%canonical_build]%io_get_inv.
  revert w. apply comes_back_then; [by apply comes_back_cargo|]. intros _.
  apply comes_back_then; [auto with comes_back|]. intros w.
  apply comes_back_then.
  { intros w1. unfold lift. destruct (flatten_returns (join (join (join (full ["build"; "bootloader"]%string) "i586-pc-windows-msvc") "release") "bootloader.exe") w) as [r ->].
    by eexists _, _. }
  intros pe. apply comes_back_then; [auto with comes_back|]. intros [[[entry base] image] reinit].
  destruct (negb _); [auto with comes_back|]. do 2 (apply comes_back_then; [auto with comes_back|intros _]). auto with comes_back.
Qed.

Lemma comes_back_kernel : utf8_valid (full ["build"; "kernel"]%string) = true → comes_back build_kernel.
Proof.
  intros Hu. apply comes_back_bind; [apply comes_back_io|]. intros w w' dir [-> [-> _]%canonical_build]%io_get_inv.
  revert w. apply comes_back_then; [by apply comes_back_cargo|]. auto with comes_back.
Qed.

Lemma comes_back_main args : utf8_valid (full ["build"; "bootloader"]%string) = true →
  utf8_valid (full ["build"; "kernel"]%string) = true → comes_back (main args).
Proof.
  intros Hb Hk. unfold main. destruct (_ && _).
  { apply comes_back_then; auto with comes_back. }
  apply comes_back_then; [|intros _].
  { do 2 (apply comes_back_then; [auto with comes_back|intros _]). auto with comes_back. }
  apply comes_back_then; [|intros _].
  { do 2 (apply comes_back_then; [auto with comes_back|intros _]). auto with comes_back. }
  apply comes_back_then; [apply comes_back_asm|intros _]. apply comes_back_then; [by apply comes_back_bootloader|intros entry].
  apply comes_back_then; [apply comes_back_stage0|intros _]. apply comes_back_then; [|intros _].
  { apply comes_back_then; [apply comes_back_io|intros n]. apply comes_back_then; [auto with comes_back|intros _].
    case_match; auto with comes_back. }
  apply comes_back_then; [by apply comes_back_kernel|intros exe].
  do 2 (apply comes_back_then; [auto with comes_back|intros _]). auto with comes_back.
Qed.

(** [clean] leaves neither directory. *)
Lemma clean_removes w w' : clean w = Done (w', inr tt) → is_dir (text "build") w' = false ∧ is_dir (text "pxe") w' = false.
Proof.
  assert (∀ p w w', remove_if_dir p w = Done (w', inr tt) → is_dir p w' = false ∧ ∀ q, is_dir q w' = true → is_dir q w = true) as Hr.
  { clear w w'. intros p w w'. unfold remove_if_dir. intros (w1 & x & [-> ->]%world_inv & E)%build_bind_inr.
    destruct (is_dir p w) eqn:Ed; [by apply io_inv, remove_law in E|]. by apply Done_pair_inj in E as [<- _]. }
  intros (w1 & [] & [E1 _]%Hr & [E2 K]%Hr)%build_bind_inr. split; [|done].
  destruct (is_dir (text "build") w') eqn:E; [|done]. apply K in E. congruence.
Qed.
End failures.

(** ** Theorems *)

Section theorems.
Context {W : Type} `{HL : HostLaws W}.
Implicit Types w : W.


(** C35: the build tool does not panic where the names of the build directories are
    text: whatever the host does, it returns.  A build that gives up with a message
    (a tool is missing, a command fails, the bootloader is at the wrong address or
    too large) has not touched what was deployed before. *)
Theorem build_gives_up args w : is_clean args = false →
  utf8_valid (full ["build"; "bootloader"]%string) = true → utf8_valid (full ["build"; "kernel"]%string) = true →
  ∃ w' r, main args w = Done (w', r) ∧
    ∀ msg, r = inl (Msg msg) → file w' pxe_boot = file w pxe_boot ∧ file w' pxe_kern = file w pxe_kern.
Proof.
  intros Hc Hb Hk. destruct (comes_back_main args Hb Hk w) as (w' & r & E). exists w', r. split; [done|].
  intros msg ->. split; apply (gives_up_main args Hc w w' msg E); [by left|by right].
Qed.
End theorems.

(** ** A host *)

(** Files by full name, the latest first; nasm and cargo produce fixed files. *)
Module SimHost.
Definition files : Type := list (path * list Z).

Fixpoint find (q : path) (w : files) : option (list Z) :=
  match w with
  | [] => None
  | (q', b) :: w => if decide (q = q') then Some b else find q w
  end.
Definition root : path := text "/milk".
Definition resolve (p : path) : path := if decide (head p = Some 0x2f) then p else root ++ 0x2f :: p.
Definition sane (b : list Z) : Prop := bytes_ok b ∧ Z.of_nat (length b) < 2 ^ 63.
#[global] Instance sane_dec b : Decision (sane b).
Proof. unfold sane. apply _. Defined.
Definition get (w : files) (q : path) : option (list Z) := b ← find q w; if decide (sane b) then Some b else None.
Definition put (p : path) (b : list Z) (w : files) : files * option unit :=
  if decide (sane b) then ((resolve p, b) :: w, Some tt) else (w, None).
Definition below (p q : path) : bool := bool_decide ((resolve p ++ [0x2f]) `prefix_of` q).

(** The argument after the first [-o] *)
Fixpoint out_arg (args : list (list Z)) : option path :=
  match args with
  | [] => None
  | a :: args => if decide (a = text "-o") then head args else out_arg args
  end.

Definition exe_of (dir : option path) : list Z :=
  if decide (dir = Some (text "bootloader")) then text "/i586-pc-windows-msvc/release/bootloader.exe"
  else text "/x86_64-pc-windows-msvc/release/kernel.exe".

Definition spawn (c : Command) (w : files) : files :=
  if decide (program c = text "nasm") then
    match out_arg (cargs c) with Some out => (resolve out, [0xeb; 0xfe]) :: w | None => w end
  else if decide (program c = text "cargo") then
    match cargs c with
    | [b; r; t; target] => (resolve target ++ exe_of (current_dir c), demo_file) :: w
    | _ => w
    end
  else w.

#[global] Instance host : Host files := {
  sep := 0x2f;
  output c w := (w, Some (true, line "NASM version 2.14 LLD 10" ++ line "i586-pc-windows-msvc (installed)" ++
    line "x86_64-pc-windows-msvc (installed)"));
  status c w := (spawn c w, Some true);
  is_dir p w := existsb (λ x, below p x.1) w;
  remove_dir_all p w := (filter (λ x, below p x.1 = false) w, Some tt);
  create_dir_all p w := (w, Some tt);
  canonicalize p w := Some (resolve p);
  BuildTool.read p w := get w (resolve p);
  BuildTool.write := put;
  metadata_len p w := Z.of_nat ∘ length <$> get w (resolve p);
  copy p d w := match get w (resolve p) with Some b => put d b w | None => (w, None) end;
  print_size n w := w;
}.

Lemma get_insert_ne (w : files) q q' b : q ≠ q' → get ((q, b) :: w) q' = get w q'.
Proof. intros. unfold get. cbn [find]. by rewrite decide_False. Qed.

Lemma put_law p b w w' : put p b w = (w', Some tt) →
  get w' (resolve p) = Some b ∧ ∀ q, q ≠ resolve p → get w' q = get w q.
Proof.
  unfold put. case_decide; intros [= <-]. split.
  - unfold get. cbn [find]. rewrite decide_True by done. cbn. by rewrite decide_True.
  - intros q Hq. by apply get_insert_ne.
Qed.

Lemma last_app_ne {A} (l l' : list A) : l' ≠ [] → last (l ++ l') = last l'.
Proof. destruct l' as [|x l'] using rev_ind; [done|]. intros _. by rewrite (assoc_L (++)), !last_snoc. Qed.

Lemma resolve_join p name : p ≠ [] → resolve (join p name) = join (resolve p) name.
Proof.
  intros Hp. destruct p as [|c p]; [done|].
  assert (∃ l, join (c :: p) name = c :: l) as [l El] by (unfold join, slash; destruct (decide _); eauto).
  unfold resolve. rewrite El. cbn [head]. destruct (decide (Some c = Some 0x2f)); [done|]. rewrite <- El.
  assert (last (root ++ 0x2f :: c :: p) = last (c :: p)) as EL by (by rewrite (last_app_ne root)).
  unfold join, slash. rewrite EL. destruct (decide (last (c :: p) = Some sep)) as [Hl|Hl].
  - rewrite !decide_True by (by right). by rewrite <- (assoc_L (++)).
  - rewrite !decide_False by naive_solver. by rewrite <- !(assoc_L (++)).
Qed.

Lemma out_arg_first pre out post : text "-o" ∉ pre → out_arg (pre ++ text "-o" :: out :: post) = Some out.
Proof.
  induction pre as [|a pre IH]; intros Hn; [done|]. apply not_elem_of_cons in Hn as [Ha Hn].
  cbn [app out_arg]. rewrite decide_False by done. by apply IH.
Qed.

#[global] Instance host_laws : HostLaws files.
Proof.
  refine {| file := get; cwd := root; abs := resolve |}.
  - by left.
  - intros name Hn. repeat (apply elem_of_cons in Hn as [->|Hn]); [..|by apply not_elem_of_nil in Hn]; by vm_compute.
  - apply resolve_join.
  - intros p. unfold resolve. destruct (decide (head p = Some 0x2f)) as [Hd|Hd]; [by rewrite decide_True|]. by rewrite decide_True.
  - by intros p q w [= <-].
  - intros w q b. unfold get. intros (b' & _ & E)%bind_Some. case_decide; simplify_eq. done.
  - done.
  - intros p n w. cbn. intros (b & E & ->)%fmap_Some. eauto.
  - apply put_law.
  - intros p b w w'. cbn. unfold put. case_decide; intros [= <-]. done.
  - intros p d w w'. cbn. destruct (get w (resolve p)) as [b|] eqn:E; [|done]. intros [??]%put_law. by exists b.
  - by intros p w w' r [= <- _].
  - done.
  - intros p w w' [= <-]. cbn. split.
    + apply not_true_is_false. intros ([q b] & [Hq _]%list_elem_of_In%list_elem_of_filter & Hb)%existsb_exists. cbn in *. congruence.
    + intros q. rewrite !existsb_exists. intros (x & [_ Hx]%list_elem_of_In%list_elem_of_filter & Hb).
      exists x. split; [by apply list_elem_of_In|done].
  - by intros c w w' r _ [= <- _].
  - intros c pre out post w w' r Hp Hn Ha [= <- _] q Hq. unfold spawn. rewrite decide_True, Ha, out_arg_first by done.
    by apply get_insert_ne.
  - intros c dir target w w' r Hp Hd Ha [= <- _] q Hq _. unfold spawn. rewrite Hp, Ha.
    rewrite decide_False, decide_True by done. apply get_insert_ne. intros <-. apply Hq.
    unfold exe_of. case_decide; by eexists.
Defined.
End SimHost.

Definition demo_args : list (list Z) := [text "chocolate_milk"].

Definition demo_run : outcome (SimHost.files * (Error + unit)) := main demo_args [].
Definition demo_built : SimHost.files := match demo_run with Done (w, _) => w | _ => [] end.

Lemma demo_builds : main demo_args [] = Done (demo_built, inr tt).
Proof. change (main demo_args []) with demo_run. unfold demo_built. by vm_compute. Qed.


Lemma build_gives_up_witness : ∃ w' r, main demo_args ([] : SimHost.files) = Done (w', r).
Proof.
  destruct (build_gives_up demo_args ([] : SimHost.files)) as (w' & r & E & _).
  - reflexivity.
  - vm_compute. reflexivity.
  - vm_compute. reflexivity.
  - exists w', r. exact E.
Defined.
