(* ===== verification/KernelMain.v ===== *)
(** * The kernel's entry point (kernel/src/main.rs)

    [entry] on one core, up to [core_checkin]: the components in the order in which
    the code brings them up, on one machine.  The launch of the other processors
    (the end of [acpi::init]) and the check-in are the steps of [AcpiBoot]. *)

From stdpp Require Import base tactics option list numbers strings gmap.
From Stdlib Require Import ZArith Lia.
From S2P Require Import Prelude MachineInt Bytes RangeSet Cpu PhysMem Pci KernelMm CoreLocals Acpi Interrupts Apic Serial Time Panic.

Local Open Scope Z_scope.

(** [LockInterrupts]: what a lock that disables interrupts does to its core. *)
Definition enter_lock (l : CoreLocals) (iflag : bool) : outcome (CoreLocals * bool) := disable_interrupts l iflag.
Definition exit_lock (l : CoreLocals) (iflag : bool) : outcome (CoreLocals * bool) := enable_interrupts l iflag.

(** [release_early_stack] *)
Definition release_early_stack (s : Kernel) : outcome Kernel := write_phys 0x7e00 [1] s.

(** [timer_interrupt]; [lock] is what [try_lock] gives on the serial port. *)
Definition timer_interrupt {W} `{Ports W} (lock : option (option SerialPort)) (w : W) : outcome (W * bool) :=
  '(w, forced) ← attempt_soft_reboot lock w;
  if forced : bool then Panic "Soft reboot requested from timer" else Done (w, true).

(** Unless a [Z] has come in on the console, the timer's routine returns, and the
    interrupt counts as handled. *)
Lemma timer_interrupt_handled {W} `{Ports W} serial (w w' : W) b : read_byte serial w = (w', b) →
  timer_interrupt None w = Done (w, true) ∧
  timer_interrupt (Some (Some serial)) w =
    (if decide (b = Some 0x5a) then Panic "Soft reboot requested from timer" else Done (w', true)).
Proof.
  intros E. split; [done|]. unfold timer_interrupt, attempt_soft_reboot. cbn [unwrap expect]. rewrite bind_Done_l, E.
  rewrite bind_Done_l. destruct (decide (b = Some 0x5a)) as [->|Hn]; [done|]. by rewrite bool_decide_false.
Qed.

(** The addresses the tables of [interrupts::init] were allocated at *)
Record TableAddrs := mkTableAddrs { tss_base : Z; crit_stack : Z; crit_capacity : Z; gdt_addr : Z; idt_addr : Z }.

(** What all cores share *)
Record Machine (Dev : Type) := mkMachine {
  m_time : Time; m_mem : Kernel; m_msrs : msrs; m_cores : Cores; m_devices : list Dev }.
Arguments mkMachine {Dev}.
Arguments m_time {Dev}.
Arguments m_mem {Dev}.
Arguments m_msrs {Dev}.
Arguments m_cores {Dev}.
Arguments m_devices {Dev}.

(** What the core has when it is up; [c_iflag] is its interrupt flag. *)
Record CoreState := mkCoreState {
  c_locals : CoreLocals; c_tables : Tables; c_dispatch : Interrupts; c_eois : list bool; c_apic : Apic; c_iflag : bool }.

Section entry.
Context {H : Type} `{HC : Clock H} `{HP : Ports H} `{HL : Lapic H} `{HD : PciPorts H}.
Context {Dev : Type} (drivers : list (PciDevice → H → outcome (H * option Dev))).
(** Polls of the timer, the processor's features, the layout of [CoreLocals], the
    entry points of the interrupts, and the routine of the timer *)
Context (fuel : nat) (features : CPUFeatures) (size align : Z) (handlers : list Z) (timer_routine : Z).
Implicit Types (h : H) (g : Machine Dev).

(** The constructor of [CoreLocals]: an empty free list and no APIC id *)
Definition new_locals (free : RangeSet) (s : Kernel) : Kernel :=
  mkKernel (k_mem s) (Some free) 0 [] (k_ranges s) (bnot 32 0) (k_table s) (k_next_vaddr s).
Definition set_k_apic_id (id : Z) (s : Kernel) : Kernel :=
  mkKernel (k_mem s) (k_free s) (k_head s) (k_pages s) (k_ranges s) id (k_table s) (k_next_vaddr s).

(** From the early stack to the APIC, on every core *)
Definition entry_core (core_id : Z) (a : TableAddrs) g h : outcome (H * Machine Dev * CoreLocals * Tables * Apic) :=
  s ← release_early_stack (m_mem g);
  '(h, t) ← (if core_id =? 0 then calibrate fuel (m_time g) h else Done (h, m_time g));
  '(l, free, m) ← CoreLocals.init core_id size align (k_free s) (m_msrs g);
  let s := new_locals free s in
  tables ← Interrupts.init (tss_base a) (crit_stack a) (crit_capacity a) (gdt_addr a) (idt_addr a) handlers None;
  '(h, s, l, apic) ← Apic.init features None l s h;
  Done (h, mkMachine t (set_k_apic_id (cl_apic_id l) s) m (m_cores g) (m_devices g), l, tables, apic).

(** The one-time part: [pci::init] and [acpi::init] up to the launch *)
Definition entry_once g h : outcome (H * Machine Dev) :=
  '(h, devices) ← Pci.init drivers h (m_devices g);
  f ← find_tables (m_mem g);
  '(s, cores) ← register_tables f (m_mem g) (m_cores g);
  Done (h, mkMachine (m_time g) s (m_msrs g) cores devices).

(** The timer, under the lock of the APIC and, inside, the one of the interrupts *)
Definition entry_timer (l : CoreLocals) (iflag : bool) (tables : Tables) (eois : list bool) (apic : option Apic) h
    : outcome (H * CoreState) :=
  '(l, iflag) ← enter_lock l iflag;
  apic ← unwrap apic;
  '(l, iflag) ← enter_lock l iflag;
  '(h, d, eois) ← enable_timer timer_routine (mode apic) (Some (dispatch tables)) eois h;
  '(l, iflag) ← exit_lock l iflag;
  '(l, iflag) ← exit_lock l iflag;
  Done (h, mkCoreState l tables d eois apic iflag).

(** [entry], before [core_checkin]; interrupts are off when a core starts. *)
Definition entry (core_id : Z) (a : TableAddrs) (eois : list bool) g h : outcome (H * Machine Dev * CoreState) :=
  '(h, g, l, tables, apic) ← entry_core core_id a g h;
  '(h, g) ← (if cl_id l =? 0 then entry_once g h else Done (h, g));
  '(h, c) ← entry_timer l false tables eois (Some apic) h;
  '(l, iflag) ← enable_interrupts (c_locals c) (c_iflag c);
  Done (h, g, mkCoreState l (c_tables c) (c_dispatch c) (c_eois c) (c_apic c) iflag).

(** Whether this core announces that all are online *)
Definition announces (l : CoreLocals) (c : Cores) : outcome bool :=
  n ← num_cores c; Done (cl_id l =? wrapping_sub 32 n 1).
End entry.

(** ** Interrupts stay off *)

Section ready.
Context {H : Type} `{HC : Clock H} `{HP : Ports H} `{HL : Lapic H} `{HD : PciPorts H}.
Context {Dev : Type} (drivers : list (PciDevice → H → outcome (H * option Dev))).
Context (fuel : nat) (features : CPUFeatures) (size align : Z) (handlers : list Z) (timer_routine : Z).
Implicit Types (h : H) (g : Machine Dev).

(** The locals of a core that has just been set up *)
Definition fresh (core_id : Z) (l : CoreLocals) : Prop :=
  cl_id l = core_id ∧ interrupt_depth l = 0 ∧ exception_depth l = 0 ∧ interrupt_disable_outstanding l = 1.

Lemma locals_init core_id fm m l rs m' : CoreLocals.init core_id size align fm m = Done (l, rs, m') →
  fresh core_id l ∧ m' = set_gs_base (address l) (set_gs_base core_id m) ∧ is_uint 64 (address l).
Proof.
  unfold CoreLocals.init. intros (pmem & _ & E)%bind_Done. apply bind_Done in E as ([alc pmem'] & _ & E).
  apply bind_Done in E as (p & _ & E). apply Done_pair_inj in E as [E <-]. injection E as <- <-.
  split; [done|]. split; [done|]. cbn. apply Z.mod_pos_bound. lia.
Qed.

Lemma gs_base_set a m : is_uint 64 a → gs_base (set_gs_base a m) = a.
Proof.
  intros Ha. unfold gs_base, set_gs_base, rdmsr, wrmsr. rewrite Z.eqb_refl.
  pose proof (join_split a Ha) as J. by destruct (split_edx_eax a).
Qed.

Lemma enter_lock_count l iflag : interrupt_disable_outstanding l + 1 < 2 ^ 64 → 0 ≤ interrupt_disable_outstanding l →
  enter_lock l iflag = Done (set_outstanding (interrupt_disable_outstanding l + 1) l, false).
Proof.
  intros Hmax H0. unfold enter_lock, disable_interrupts, disable_add, checked_add, wrapping_add, wrap.
  rewrite Z.mod_small by lia. case_match; cbn; [done|]. lia.
Qed.

(** Giving a request back turns interrupts on only when it was the last. *)
Lemma enable_count l iflag : 1 ≤ interrupt_disable_outstanding l < 2 ^ 64 → interrupt_depth l = 0 →
  enable_interrupts l iflag = Done (set_outstanding (interrupt_disable_outstanding l - 1) l,
    if interrupt_disable_outstanding l =? 1 then true else iflag).
Proof.
  intros Hos Hd. unfold enable_interrupts, enable_sub, checked_sub, wrapping_sub, wrap. rewrite Z.mod_small by lia.
  case_match; cbn; [|lia]. unfold in_interrupt. cbn. rewrite Hd. cbn. by destruct (interrupt_disable_outstanding l =? 1).
Qed.

Lemma exit_lock_count l iflag : 2 ≤ interrupt_disable_outstanding l < 2 ^ 64 → interrupt_depth l = 0 →
  exit_lock l iflag = Done (set_outstanding (interrupt_disable_outstanding l - 1) l, iflag).
Proof.
  intros Hos Hd. unfold exit_lock. rewrite enable_count by lia. by rewrite (proj2 (Z.eqb_neq _ _)) by lia.
Qed.

(** The timer is set up with interrupts off: the locks inside do not turn them on. *)
Lemma entry_timer_off core_id l tables eois apic h : fresh core_id l →
  entry_timer timer_routine l false tables eois (Some apic) h =
    ('(h, d, eois) ← enable_timer timer_routine (mode apic) (Some (dispatch tables)) eois h;
     Done (h, mkCoreState l tables d eois apic false)).
Proof.
  intros (Hid & Hi & He & Ho). unfold entry_timer. rewrite enter_lock_count by lia. cbn [mbind outcome_bind unwrap expect].
  rewrite enter_lock_count by (cbn; lia). cbn [mbind outcome_bind].
  destruct (enable_timer _ _ _ _ _) as [[[h1 d] eois1]| |]; cbn [mbind outcome_bind]; [|done..].
  rewrite exit_lock_count by (cbn; lia). cbn [mbind outcome_bind]. rewrite exit_lock_count by (cbn; lia).
  cbn [mbind outcome_bind]. rewrite Ho. destruct l. cbn in *. by subst.
Qed.

Lemma enable_timer_table m d eois h h' d' eois' :
  enable_timer timer_routine m (Some d) eois h = Done (h', d', eois') →
  d' = <[Z.to_nat APIC_TIMER_VECTOR := Some timer_routine]> d ∧ eois' = <[Z.to_nat APIC_TIMER_VECTOR := true]> eois ∧
  (Z.to_nat APIC_TIMER_VECTOR < length d)%nat.
Proof.
  unfold enable_timer. intros (d0 & [= <-]%unwrap_Done & E)%bind_Done. apply bind_Done in E as ([d1 e1] & Ea & E).
  unfold add_handler in Ea. outcome_inv. done.
Qed.

(** ** Theorems *)

(** What the core finds before its timer *)
Lemma entry_core_ok core_id a g h h' g' l tables apic :
  entry_core fuel features size align handlers core_id a g h = Done (h', g', l, tables, apic) →
  fresh core_id l ∧ gs_base (m_msrs g') = address l ∧ dispatch tables = replicate 256 None ∧
  m_cores g' = m_cores g ∧ m_devices g' = m_devices g ∧ (core_id ≠ 0 → m_time g' = m_time g).
Proof.
  unfold entry_core. intros (s & _ & E)%bind_Done. apply bind_Done in E as ([h1 t] & Et & E).
  apply bind_Done in E as ([[l1 free] m] & (Hf & -> & Ha)%locals_init & E). cbn zeta in E.
  apply bind_Done in E as (tables1 & Ei & E). apply bind_Done in E as ([[[h2 s2] l2] apic2] & Eapic & E).
  injection E as <- <- <- <- <-. cbn [m_msrs m_cores m_devices m_time].
  assert (dispatch tables1 = replicate 256 None) as Hd.
  { unfold Interrupts.init in Ei. apply bind_Done in Ei as (? & _ & Ei). cbn zeta in Ei. apply bind_Done in Ei as (? & _ & Ei).
    apply bind_Done in Ei as (? & _ & Ei). by injection Ei as <-. }
  assert (∃ id, l2 = CoreLocals.set_apic_id id l1) as [id ->].
  { unfold Apic.init in Eapic. do 3 apply bind_Done in Eapic as (? & _ & Eapic).
    apply bind_Done in Eapic as ([h3 [[orig a1] a2]] & _ & Eapic). apply bind_Done in Eapic as ([s3 md] & _ & Eapic).
    repeat match type of Eapic with (let '(_, _) := ?x in _) = _ => destruct x end.
    injection Eapic as _ _ <- _. by eexists. }
  split; [exact Hf|]. split; [by apply gs_base_set|]. split_and!; [done..|].
  - intros Hne. rewrite (proj2 (Z.eqb_neq _ _) Hne) in Et. by injection Et as _ <-.
Qed.

(** C40: when [entry] gets to the check-in, on any core: interrupts are on, no
    request to disable them and no handler is outstanding, and the locals that GS
    points at are this core's.  They were off until the timer was set up, whose
    routine is the only one registered, with an EOI due.  A core other than the
    first leaves the clock, the processors' states and the devices alone. *)
Theorem entry_ready core_id a eois g h h' g' c :
  entry drivers fuel features size align handlers timer_routine core_id a eois g h = Done (h', g', c) →
  c_iflag c = true ∧ interrupt_disable_outstanding (c_locals c) = 0 ∧
  in_interrupt (c_locals c) = false ∧ in_exception (c_locals c) = false ∧
  cl_id (c_locals c) = core_id ∧ gs_base (m_msrs g') = address (c_locals c) ∧
  (∀ n, (n < 256)%nat → c_dispatch c !! n = Some (if decide (Z.of_nat n = APIC_TIMER_VECTOR) then Some timer_routine else None)) ∧
  c_eois c = <[Z.to_nat APIC_TIMER_VECTOR := true]> eois ∧
  (core_id ≠ 0 → m_time g' = m_time g ∧ m_cores g' = m_cores g ∧ m_devices g' = m_devices g).
Proof.
  unfold entry. intros ([[[[h1 g1] l] tables] apic] & E1 & E)%bind_Done.
  apply entry_core_ok in E1 as (Hf & Hgs & Hd & Hc & Hdev & Ht). pose proof Hf as (Hid & Hi & He & Ho).
  apply bind_Done in E as ([h2 g2] & E2 & E). rewrite entry_timer_off with (core_id := core_id) in E by done.
  apply bind_Done in E as ([h3 c3] & E3 & E). apply bind_Done in E3 as ([[h4 d] eois4] & Et & E3). injection E3 as <- <-.
  apply enable_timer_table in Et as (-> & -> & Hlen). cbn [c_locals c_iflag c_tables c_dispatch c_eois c_apic] in E.
  rewrite enable_count in E by lia. cbn [mbind outcome_bind] in E. rewrite Ho in E. injection E as <- <- <-.
  cbn [c_locals c_iflag c_dispatch c_eois].
  assert (m_msrs g2 = m_msrs g1 ∧ (core_id ≠ 0 → g2 = g1)) as [Hm2 Hg2].
  { rewrite Hid in E2. destruct (Z.eqb_spec core_id 0); [|by injection E2 as <- <-].
    unfold entry_once in E2. apply bind_Done in E2 as ([h5 devices] & _ & E2). apply bind_Done in E2 as (f & _ & E2).
    apply bind_Done in E2 as ([s5 cores] & _ & E2). by injection E2 as <- <-. }
  unfold in_interrupt, in_exception. cbn [interrupt_depth exception_depth set_outstanding interrupt_disable_outstanding cl_id address].
  rewrite Hi, He, Hm2, Hd. split_and!; try done.
  - intros n Hn. destruct (decide (Z.of_nat n = APIC_TIMER_VECTOR)) as [En|En].
    + replace n with (Z.to_nat APIC_TIMER_VECTOR) by lia. by rewrite list_lookup_insert_eq by (by rewrite <- Hd).
    + rewrite list_lookup_insert_ne by (unfold APIC_TIMER_VECTOR in *; lia). apply lookup_replicate. done.
  - intros Hne. rewrite (Hg2 Hne). auto.
Qed.

Lemma interrupts_init_returns a : length handlers = 256%nat → Forall (is_uint 64) handlers →
  ∃ t, Interrupts.init (tss_base a) (crit_stack a) (crit_capacity a) (gdt_addr a) (idt_addr a) handlers None = Done t ∧
    dispatch t = replicate 256 None.
Proof.
  intros Hl Hu. unfold Interrupts.init. cbn [assert]. rewrite bind_Done_l.
  destruct (idt_loop_spec 0 256 handlers []) as (l & -> & Hlen & _); [lia|done|]. rewrite bind_Done_l. cbn [app]. rewrite Hlen.
  change (Z.of_nat 256 * 16 =? 4096) with true. cbn [assert]. rewrite bind_Done_l. eexists. split; [done|]. done.
Qed.

Lemma apic_init_returns l s h : Cpu.apic features = true → x2apic features = true →
  Z.land (msr_read IA32_APIC_BASE h).2 IA32_APIC_BASE_EN ≠ 0 →
  ∃ h' id apic, Apic.init features None l s h = Done (h', s, CoreLocals.set_apic_id id l, apic).
Proof.
  intros Ha Hx Hen. unfold Apic.init. rewrite Ha. cbn [assert]. rewrite !bind_Done_l. unfold enable_apic.
  destruct (msr_read IA32_APIC_BASE h) as [h1 orig]. cbn [snd] in Hen.
  rewrite (proj2 (Z.eqb_neq _ _) Hen). cbn [negb assert]. rewrite bind_Done_l.
  repeat match goal with |- context [let '(_, _) := ?x in _] => destruct x end.
  rewrite bind_Done_l, Hx. cbn [negb]. rewrite bind_Done_l.
  repeat match goal with |- context [let '(_, _) := ?x in _] => destruct x end. by eexists _, _, _.
Qed.

Lemma enable_timer_returns m eois h : length eois = 256%nat →
  ∃ r, enable_timer timer_routine m (Some (replicate 256 None)) eois h = Done r.
Proof.
  intros He. unfold enable_timer, unwrap, expect, add_handler. rewrite bind_Done_l.
  rewrite (index_eq _ _ None) by done. rewrite !bind_Done_l. cbn [assert]. rewrite bind_Done_l.
  rewrite (index_set_eq (replicate 256 None)) by by_decide. rewrite bind_Done_l.
  rewrite index_set_eq by (rewrite He; by_decide).
  rewrite !bind_Done_l. by eexists.
Qed.

(** a core other than the first, with an x2APIC, gets to the check-in: nothing
    on its way panics or waits.  Its locals are in memory taken from the free list,
    and the only byte of memory it has changed by itself is the flag that lets the
    next core use the early stack. *)
Theorem entry_gets_through core_id a eois g h free free' alc :
  core_id ≠ 0 → length handlers = 256%nat → Forall (is_uint 64) handlers → length eois = 256%nat →
  Cpu.apic features = true → x2apic features = true →
  Z.land (msr_read IA32_APIC_BASE h).2 IA32_APIC_BASE_EN ≠ 0 →
  k_free (m_mem g) = Some free → allocate usize_max free size align = Done (Some alc, free') →
  ∃ h' g' c, entry drivers fuel features size align handlers timer_routine core_id a eois g h = Done (h', g', c) ∧
    address (c_locals c) = wrapping_add 64 alc KERNEL_PHYS_WINDOW_BASE ∧ k_free (m_mem g') = Some free' ∧
    k_mem (m_mem g') = write_bytes (k_mem (m_mem g)) 0x7e00 [1].
Proof.
  intros Hne Hl Hu Hlen Ha Hx Hen Hfree Halloc. unfold entry, entry_core, release_early_stack, write_phys.
  assert (phys_check 0x7e00 (Z.of_nat (length [1])) "Integer overflow on write_phys" "Physical address outside of window" = Done tt)
    as -> by done.
  rewrite !bind_Done_l. rewrite (proj2 (Z.eqb_neq _ _) Hne), bind_Done_l.
  unfold CoreLocals.init. cbn [k_free set_k_mem]. rewrite Hfree. cbn [unwrap expect]. rewrite bind_Done_l, Halloc. rewrite !bind_Done_l.
  cbn [unwrap expect]. rewrite !bind_Done_l. set (l := mkCoreLocals _ _ _ _ _ _).
  destruct (interrupts_init_returns a Hl Hu) as (t & -> & Ht). rewrite bind_Done_l.
  destruct (apic_init_returns l (new_locals free' (set_k_mem (write_bytes (k_mem (m_mem g)) 0x7e00 [1]) (m_mem g))) h Ha Hx Hen)
    as (h1 & id & apic & ->). rewrite !bind_Done_l.
  change (cl_id (CoreLocals.set_apic_id id l)) with core_id. rewrite (proj2 (Z.eqb_neq _ _) Hne), bind_Done_l.
  rewrite entry_timer_off with (core_id := core_id) by done. rewrite Ht.
  destruct (enable_timer_returns (mode apic) eois h1 Hlen) as [[[h2 d] eois2] ->]. rewrite !bind_Done_l.
  cbn [c_locals c_iflag]. rewrite enable_count by (cbn; lia). rewrite bind_Done_l. by eexists _, _, _.
Qed.
End ready.

(** ** A second core *)

Module Sim.
Definition state : Type := unit.
#[global] Instance sim_clock : Clock state := {| rdtsc_insn := λ h, (h, (0, 0)) |}.
#[global] Instance sim_ports : Ports state := {| in8 := λ _ h, (h, 0); out8 := λ _ _ h, h |}.
#[global] Instance sim_pci : PciPorts state := {| out32 := λ _ _ h, h; in32 := λ _ h, (h, 0xffffffff) |}.
#[global] Instance sim_lapic : Lapic state := {|
  lapic_read := λ _ h, (h, 0); lapic_write := λ _ _ h, h;
  msr_read := λ r h, (h, if r =? IA32_APIC_BASE then 0xfee00800 else if r =? 0x802 then 3 else 0);
  msr_write := λ _ _ h, h; port_in8 := λ _ h, (h, 0); port_out8 := λ _ _ h, h; sti := id; cli := id |}.
End Sim.

(** A processor with everything [get_cpu_features] knows *)
Definition demo_features : CPUFeatures := get_cpu_features (λ _ _, (0x80000001, 0xffffffff, 0xffffffff, 0xffffffff)).
Definition demo_addrs : TableAddrs := mkTableAddrs 0x3000 0x10000 0x8000 0x4000 0x5000.
Definition demo_handlers : list Z := INT_HANDLERS (λ n, 0x140000000 + Z.of_nat n * 16).
Definition demo_machine : Machine unit :=
  mkMachine (mkTime 3000 0) (mkKernel ∅ (Some demo_memory) 0 [] None 0 None 0) (λ _, (0, 0)) cores_init [].
Definition demo_entry : outcome (Sim.state * Machine unit * CoreState) :=
  entry [] 0 demo_features 4096 64 demo_handlers 0x140008000 1 demo_addrs (replicate 256 false) demo_machine tt.

Lemma entry_gets_through_witness : ∃ h' g' c, demo_entry = Done (h', g', c) ∧ address (c_locals c) = 0xffffcafe00100000.
Proof.
  destruct (entry_gets_through (H := Sim.state) (Dev := unit) [] 0 demo_features 4096 64 demo_handlers 0x140008000 1 demo_addrs
    (replicate 256 false) demo_machine tt demo_memory (of_entries [mkRange 0x101000 0x1fffff]) 0x100000) as (h' & g' & c & E & A & _).
  - discriminate.
  - reflexivity.
  - by_decide.
  - reflexivity.
  - reflexivity.
  - reflexivity.
  - discriminate.
  - reflexivity.
  - vm_compute. reflexivity.
  - exists h', g', c. split; [exact E|]. rewrite A. reflexivity.
Defined.

Definition demo_core : CoreState := match demo_entry with Done (_, _, c) => c | _ => mkCoreState demo_locals (mkTables [] (mkTablePtr 0 0) 0 [] [] (mkTablePtr 0 0) []) [] [] (mkApic X2Apic 0 0 0 0 (mkTimerState 0 0 0)) false end.
Definition demo_machine' : Machine unit := match demo_entry with Done (_, g, _) => g | _ => demo_machine end.

Lemma entry_ready_witness : c_iflag demo_core = true ∧ cl_id (c_locals demo_core) = 1.
Proof.
  destruct (entry_ready (H := Sim.state) (Dev := unit) [] 0 demo_features 4096 64 demo_handlers 0x140008000 1 demo_addrs
    (replicate 256 false) demo_machine tt tt demo_machine' demo_core) as (I & _ & _ & _ & C & _).
  - destruct entry_gets_through_witness as (h' & g' & c & E & _). unfold demo_machine', demo_core. rewrite E. destruct h'. exact E.
  - split; [exact I|exact C].
Defined.
